(* ===== verification/_CoqProject ===== *)
-Q . S2P
Prelude.v
Merkle.v
Float.v
Magnitude.v
Manifest.v
Seq.v
Wire.v
Opening.v
Escrow.v
Watcher.v
Pom.v
WeightTree.v
PomWalk.v
Quant.v
VerifyPoint.v
Commitment.v
PointSound.v
Links.v
Prefix.v
Chain.v
SampleTrace.v
ChainTotal.v
ChainSound.v
LinkSound.v
BlockTask.v
Attn.v
Blocks.v
AttnPoint.v
Recur.v
Support.v
Answer.v
