(* ===== verification/Prelude.v ===== *)
(** * Verification of the Keryx miner

    The Keryx miner mines a chain whose proof of work is a proof of possession of a
    language model, and answers inference requests whose activations it commits to.  An
    auditor - every node - draws points of a committed trace from the chain and checks
    the openings the miner posts for them.  This development models the consensus part
    of the repository, the crate [src/verifiable-inference/src], and the state the miner
    itself keeps: the possession proof and the escrow watcher of [src/src].  File names
    below are those of the Rust source; a definition keeps the name of the function it
    translates, and a part of a long function is named after what it does.

    ** How the parts interact

    - [merkle.rs] proves ranges of weights, manifest entries and trace leaves; every
      other verifier calls it.  [seq.rs] opens byte spans of sequence leaves with it.
    - [manifest.rs] parses the entries of a model; [opening.rs] is the wire format of
      what a miner posts; [answer.rs] and [shape.rs] bound what a response commits.
    - [verify.rs] checks one drawn output element of one matrix product: it draws
      ([draw.rs]), opens entries, weights and activations, recomputes the element with
      [quant.rs], [q8.rs], [dot.rs] and [f16.rs], and compares.
    - [prefix.rs] ties a trace to its request, [chain.rs] ties the input of a product to
      the committed activation it comes from and checks residual additions;
      [block_task.rs] composes the three verifiers for the task every block carries.
    - [pom.rs] holds the weight index and the primitives of the possession proof,
      [pom_v4.rs] and [pom_v5.rs] the two walks over it.
    - [escrow.rs] tracks the outputs the miner is paid and claims them.

    ** Files

    - [Prelude.v]: this header; the panic monad [res] (a Rust panic is [Panic], [?] on a
      [Result] is [←?], a guard is [bail]), machine integers as [Z] with [wrap], checked
      and saturating operations, byte strings and little-endian words, the tactics
      [evaluate] and [dlia].
    - [Merkle.v] [merkle.rs]; [Float.v] [f16.rs] and the binary32/binary64 operations;
      [Magnitude.v] bounds on them; [Manifest.v] [manifest.rs]; [Seq.v] [seq.rs];
      [Wire.v] and [Opening.v] [opening.rs]; [Answer.v] [answer.rs], [shape.rs].
    - [Escrow.v] the operations of [escrow.rs], [Watcher.v] its invariant and theorems.
    - [Pom.v] and [WeightTree.v] [pom.rs]; [PomWalk.v] [pom_v4.rs], [pom_v5.rs].
    - [Quant.v] [quant.rs], [q8.rs], [dot.rs]; [VerifyPoint.v] [verify.rs], [draw.rs].
    - [Links.v] the links of [chain.rs] and [prefix.rs]; [Prefix.v] [prefix.rs];
      [Chain.v] the stage-2 verifiers of [chain.rs]; [BlockTask.v] [block_task.rs].
    - [Commitment.v] the abstract specification the verifiers share: a tier commits to a
      model (entries and weights), a response to a trace (leaves by position);
      [PointSound.v], [ChainSound.v] and [LinkSound.v] prove what an accepted opening
      shows of them, [ChainTotal.v] that every opening gets a verdict, on the concrete
      committed model and trace of [SampleTrace.v].

    ** What the theorems show

    - Soundness of the verifiers as refinements: whatever an opening carries, acceptance
      implies a statement about the committed model and trace, or exhibits two inputs of
      BLAKE3 with one digest ([verify_point_sound], [chain_point_sound],
      [resid_opening_sound], [prefix_point_sound], [block_task_sound]; the trees:
      [rt_range_exact], [b3_chunks_exact], [b3_path_exact], [open_span_exact]; the walks:
      [v4_proof_exact], [v5_proof_exact]).
    - Totality: no input makes a verifier index out of range, divide by zero or panic
      ([block_task_total], [resid_opening_total], [canonical_dot_total]).
    - Round trips of every codec, and that no accepted body has two meanings.
    - The escrow watcher: an invariant of every reachable state and what a claim, an
      acceptance and a rejection do to it ([watcher_invariant], [claim_ships], ...).
    - Optimised code against its reference: the streamed weight index, its paths, the
      in-place reducers, the level-by-level trace tree, the half-precision narrowing.

    ** Conventions and bounds

    The release profile has no overflow checks: [+], [-], [*] on fixed widths wrap, and
    theorems carry the bounds under which they do not.  Indexing, slicing, division and
    [unwrap] panic where the source's would.  Loops whose recursion is not structural
    take fuel: the number of tree levels ([log2_up n]) for the trees, the number of sites
    for the residual draw, the length of the buffer for a reader; each file proves that
    its fuel is the number of iterations.  [f64] and [f32] are the executable IEEE 754
    formats of the Standard Library, with the summation order of the source ([Sum] starts
    from -0.0).  Manifest theorems assume sizes far above any model ([model_sane]).

    ** Third-party code

    BLAKE3, Keccak, Schnorr signatures, the transaction hash and [libm] are classes of
    operations.  The only laws assumed are documented ones: the length of a digest
    ([Blake3Lengths]) and that hashing by chunks is hashing ([Blake3Chunks]); [Toy]
    instances of both make every witness a closed computation.

    ** Not modelled

    - The attention and recurrent points ([attn.rs], [attn_blocks.rs], [recur.rs], the
      attention phases of [chain.rs]) and [support.rs].
    - GPU engines, llama.cpp and candle bindings, network clients, the terminal interface,
      the command line, persistence and logging: foreign calls and input/output around the
      modelled functions.  SIMD variants compute their scalar reference.
    - [chainkit.rs] and [testkit.rs] build openings for tests and capture.
    - The Borsh wire of the possession proof and the GGUF format are third-party. *)
From Stdlib Require Export ZArith Lia ZifyNat.
From Stdlib Require Strings.Byte.
From coqutil Require Byte.
From coqutil Require Export Word.LittleEndianList.
From stdpp Require Export base tactics option numbers list list_numbers.

#[global] Open Scope Z_scope.
#[export] Set Default Goal Selector "!".

(** Linear arithmetic with divisions by constants. *)
Ltac dlia := zify; Z.to_euclidean_division_equations; lia.

(** A decidable proposition about concrete data, by evaluating its decision. *)
Ltac evaluate := apply (bool_decide_unpack _); vm_compute; exact I.

(** ** Bytes *)

Abbreviation byte := Corelib.Init.Byte.byte.
(** [b as u8] and [z as u8] (the cast truncates to eight bits). *)
Abbreviation u8_of_byte := Byte.byte.unsigned.
Abbreviation byte_of_u8 := Byte.byte.of_Z.

#[export] Instance byte_eq_dec : EqDecision byte := Stdlib.Strings.Byte.byte_eq_dec.
#[export] Instance byte_inhabited : Inhabited byte := populate Corelib.Init.Byte.x00.

Lemma u8_of_byte_range (b : byte) : 0 <= u8_of_byte b < 256.
Proof. pose proof (Byte.byte.unsigned_range b). lia. Qed.

Lemma u8_of_byte_of_u8 (z : Z) : 0 <= z < 256 -> u8_of_byte (byte_of_u8 z) = z.
Proof.
  intros H. rewrite Byte.byte.unsigned_of_Z. unfold Byte.byte.wrap.
  apply Z.mod_small. lia.
Qed.

Lemma byte_of_u8_of_byte (b : byte) : byte_of_u8 (u8_of_byte b) = b.
Proof. apply Byte.byte.of_Z_unsigned. Qed.

(** ** Machine integers: a [w]-bit unsigned integer is its value in [Z]. *)

Definition fits (w z : Z) : Prop := 0 <= z < 2 ^ w.
Abbreviation is_u8 := (fits 8).
Abbreviation is_u16 := (fits 16).
Abbreviation is_u32 := (fits 32).
Abbreviation is_u64 := (fits 64).

#[export] Instance fits_dec w z : Decision (fits w z).
Proof. unfold fits. apply _. Defined.

(** Release-mode arithmetic wraps; [checked_*] and [saturating_*] are the
    methods of the same names on unsigned integers. *)
Definition wrap (w z : Z) : Z := z mod 2 ^ w.
Definition checked_add (w a b : Z) : option Z :=
  if a + b <? 2 ^ w then Some (a + b) else None.
Definition checked_mul (w a b : Z) : option Z :=
  if a * b <? 2 ^ w then Some (a * b) else None.
Definition checked_sub (a b : Z) : option Z :=
  if b <=? a then Some (a - b) else None.
Definition saturating_add (w a b : Z) : Z := Z.min (a + b) (2 ^ w - 1).
Definition saturating_mul (w a b : Z) : Z := Z.min (a * b) (2 ^ w - 1).
Definition saturating_sub (a b : Z) : Z := Z.max (a - b) 0.
Definition div_ceil (a b : Z) : Z := (a + b - 1) / b.
Definition rotate_left (w x r : Z) : Z :=
  Z.lor (wrap w (Z.shiftl x r)) (Z.shiftr x (w - r)).

Lemma wrap_fits w z : 0 <= w -> fits w (wrap w z).
Proof. intros. apply Z.mod_pos_bound. lia. Qed.

Lemma wrap_id w z : fits w z -> wrap w z = z.
Proof. intros. by apply Z.mod_small. Qed.

Lemma div_ceil_spec a b : 0 < b -> b * (div_ceil a b - 1) < a <= b * div_ceil a b.
Proof.
  intros Hb. unfold div_ceil.
  pose proof (Z.div_mod (a + b - 1) b ltac:(lia)).
  pose proof (Z.mod_pos_bound (a + b - 1) b Hb). nia.
Qed.

Lemma div_ceil_pos a b : 0 < b -> 0 < a -> 0 < div_ceil a b.
Proof. intros Hb Ha. pose proof (div_ceil_spec a b Hb). nia. Qed.

(** ** Bit operations on machine words *)

(** [b as i8] *)
Definition as_i8 (b : byte) : Z := if u8_of_byte b <? 128 then u8_of_byte b else u8_of_byte b - 256.

Lemma as_i8_range b : -128 <= as_i8 b < 128.
Proof. unfold as_i8. pose proof (u8_of_byte_range b). destruct (Z.ltb_spec (u8_of_byte b) 128); lia. Qed.

Lemma lxor_fits w a b : 0 <= w -> fits w a -> fits w b -> fits w (Z.lxor a b).
Proof.
  intros Hw [Ha1 Ha2] [Hb1 Hb2]. unfold fits. assert (0 <= Z.lxor a b) by (by apply Z.lxor_nonneg).
  split; [done|]. destruct (decide (Z.lxor a b = 0)) as [->|]; [lia|]. apply Z.log2_lt_pow2; [lia|].
  assert (Hlog : forall x, 0 <= x < 2 ^ w -> x <> 0 -> Z.log2 x < w) by (intros; apply Z.log2_lt_pow2; lia).
  destruct (decide (a = 0)) as [->|]; [rewrite Z.lxor_0_l in *; auto|].
  destruct (decide (b = 0)) as [->|]; [rewrite Z.lxor_0_r in *; auto|].
  pose proof (Z.log2_lxor a b Ha1 Hb1). pose proof (Hlog a ltac:(lia) ltac:(lia)). pose proof (Hlog b ltac:(lia) ltac:(lia)). lia.
Qed.

Lemma shiftr_fits w k x : 0 <= k -> fits w x -> fits w (Z.shiftr x k).
Proof.
  intros Hk [H1 H2]. rewrite Z.shiftr_div_pow2 by done.
  assert (0 < 2 ^ k) by lia. split; [apply Z.div_pos; lia|]. apply Z.div_lt_upper_bound; nia.
Qed.

Lemma shiftr_zero w k x : 0 <= w <= k -> fits w x -> Z.shiftr x k = 0.
Proof.
  intros Hk [H1 H2]. rewrite Z.shiftr_div_pow2 by lia. apply Z.div_small.
  split; [done|]. apply Z.lt_le_trans with (2 ^ w); [done|]. apply Z.pow_le_mono_r; lia.
Qed.

Lemma land_zero_lor_add a b : Z.land a b = 0 -> Z.lor a b = a + b.
Proof. intros H. rewrite <- Z.lxor_lor by done. symmetry. by apply Z.add_nocarry_lxor. Qed.

(** A field of [k] bits below a shifted word. *)
Lemma lor_shiftl_add a b k : 0 <= k -> 0 <= b < 2 ^ k -> Z.lor (Z.shiftl a k) b = a * 2 ^ k + b.
Proof.
  intros Hk Hb. rewrite <- (Z.shiftl_mul_pow2 a k) by done. apply land_zero_lor_add. apply Z.bits_inj. intros i.
  rewrite Z.land_spec, Z.bits_0. destruct (Z.ltb_spec i k).
  - destruct (decide (0 <= i)); [|by rewrite !Z.testbit_neg_r by lia].
    by rewrite Z.shiftl_spec_low by lia.
  - apply andb_false_iff. right. rewrite <- (Z.mod_small b (2 ^ k)) by done. by apply Z.mod_pow2_bits_high.
Qed.

(** ** Slices: Rust indices are [usize], the lists are indexed by [Z]. *)

Definition zlen {A} (l : list A) : Z := Z.of_nat (length l).
(** [l[lo..hi]], for a range known to be inside [l]. *)
Definition slice {A} (l : list A) (lo hi : Z) : list A :=
  take (Z.to_nat (hi - lo)) (drop (Z.to_nat lo) l).
(** [l.get(lo..hi)] *)
Definition get_range {A} (l : list A) (lo hi : Z) : option (list A) :=
  if (0 <=? lo) && (lo <=? hi) && (hi <=? zlen l) then Some (slice l lo hi) else None.
(** [l.get(i)] *)
Definition get_at {A} (l : list A) (i : Z) : option A :=
  if 0 <=? i then l !! Z.to_nat i else None.

Lemma zlen_nonneg {A} (l : list A) : 0 <= zlen l.
Proof. unfold zlen. lia. Qed.
Lemma zlen_app {A} (l k : list A) : zlen (l ++ k) = zlen l + zlen k.
Proof. unfold zlen. rewrite length_app. lia. Qed.
Lemma zlen_nil {A} : zlen (@nil A) = 0.
Proof. done. Qed.
Lemma zlen_cons {A} (x : A) l : zlen (x :: l) = 1 + zlen l.
Proof. unfold zlen. cbn [length]. lia. Qed.

Lemma zlen_fmap {A B} (f : A -> B) l : zlen (f <$> l) = zlen l.
Proof. unfold zlen. by rewrite length_fmap. Qed.
Lemma zlen_slice {A} (l : list A) lo hi :
  0 <= lo -> lo <= hi -> hi <= zlen l -> zlen (slice l lo hi) = hi - lo.
Proof. unfold zlen, slice. intros. rewrite length_take, length_drop. lia. Qed.

Lemma get_range_Some {A} (l s : list A) lo hi :
  get_range l lo hi = Some s <->
  0 <= lo <= hi /\ hi <= zlen l /\ s = slice l lo hi.
Proof.
  unfold get_range.
  destruct ((0 <=? lo) && (lo <=? hi) && (hi <=? zlen l)) eqn:E.
  - rewrite !andb_true_iff, !Z.leb_le in E. split; [intros [= <-]; repeat split; lia|by intros (_ & _ & ->)].
  - rewrite !andb_false_iff, !Z.leb_gt in E. split; [done|]. intros. lia.
Qed.

Lemma slice_app_mid {A} (p s t : list A) :
  slice (p ++ s ++ t) (zlen p) (zlen p + zlen s) = s.
Proof.
  unfold slice, zlen.
  replace (Z.to_nat (Z.of_nat (length p))) with (length p) by lia.
  rewrite drop_app_length.
  replace (Z.to_nat _) with (length s) by lia.
  by rewrite take_app_length.
Qed.

Lemma slice_slice {A} (l : list A) a b c d : 0 <= a -> 0 <= c -> d <= b - a -> slice (slice l a b) c d = slice l (a + c) (a + d).
Proof.
  intros. unfold slice. rewrite skipn_firstn_comm, drop_drop, take_take. f_equal; [lia|]. f_equal. lia.
Qed.

Lemma slice_slice_app {A} (l : list A) a m e : 0 <= a -> a <= m -> m <= e ->
  slice l a m ++ slice l m e = slice l a e.
Proof.
  intros. unfold slice. replace (Z.to_nat (e - a)) with (Z.to_nat (m - a) + Z.to_nat (e - m))%nat by lia.
  rewrite <- (take_take_drop (drop (Z.to_nat a) l)), drop_drop. do 3 f_equal. lia.
Qed.

(** Reads inside a prefix. *)
Lemma get_range_take {A} (l : list A) lo hi k : hi <= Z.of_nat k -> hi <= zlen l ->
  get_range (take k l) lo hi = get_range l lo hi.
Proof.
  intros Hk Hl. unfold get_range.
  replace (hi <=? zlen (take k l)) with (hi <=? zlen l) by (unfold zlen in *; rewrite length_take; destruct (Z.leb_spec hi (Z.of_nat (length l))), (Z.leb_spec hi (Z.of_nat (k `min` length l))); lia).
  destruct (_ && _) eqn:E; [|done]. rewrite !andb_true_iff, !Z.leb_le in E. f_equal. unfold slice.
  rewrite skipn_firstn_comm, take_take, Nat.min_l by lia. done.
Qed.

Lemma get_range_Some_le {A} (l s : list A) lo hi : get_range l lo hi = Some s -> hi <= zlen l.
Proof. intros H. apply get_range_Some in H. lia. Qed.

Lemma zlen_get_range {A} (l s : list A) lo hi : get_range l lo hi = Some s -> zlen s = hi - lo.
Proof. intros H. apply get_range_Some in H as (? & ? & ->). apply zlen_slice; lia. Qed.

Lemma zlen_take {A} (l : list A) k : 0 <= k <= zlen l -> zlen (take (Z.to_nat k) l) = k.
Proof. unfold zlen. intros. rewrite length_take. lia. Qed.

Lemma zlen_drop {A} (l : list A) k : 0 <= k <= zlen l -> zlen (drop (Z.to_nat k) l) = zlen l - k.
Proof. unfold zlen. intros. rewrite length_drop. lia. Qed.

Lemma get_at_Some_lt {A} (l : list A) i x : get_at l i = Some x -> 0 <= i < zlen l.
Proof.
  unfold get_at, zlen. intros H. destruct (0 <=? i) eqn:?; [|done].
  apply lookup_lt_Some in H. lia.
Qed.

(** ** Little-endian words *)

Definition to_le (n : nat) (z : Z) : list byte := le_split n z.
Definition from_le (b : list byte) : Z := le_combine b.

Lemma length_to_le n z : length (to_le n z) = n.
Proof. apply length_le_split. Qed.
Lemma zlen_to_le n z : zlen (to_le n z) = Z.of_nat n.
Proof. unfold zlen. by rewrite length_to_le. Qed.

Lemma from_to_le (n : nat) z : fits (8 * Z.of_nat n) z -> from_le (to_le n z) = z.
Proof.
  intros H. unfold from_le, to_le. rewrite le_combine_split.
  apply Z.mod_small. unfold fits in H. by rewrite Z.mul_comm.
Qed.

Lemma to_from_le (b : list byte) n : length b = n -> to_le n (from_le b) = b.
Proof. intros <-. apply split_le_combine. Qed.

Lemma from_le_fits (b : list byte) : fits (8 * zlen b) (from_le b).
Proof. apply le_combine_bound. Qed.

Create Rewrite HintDb zlen.
#[export] Hint Rewrite @zlen_app @zlen_nil @zlen_cons zlen_to_le : zlen.

(** ** Outcomes: a call that returns, or one that panics. *)

Inductive res (A : Type) : Type := Ret (a : A) | Panic.
Arguments Ret {A} a.
Arguments Panic {A}.

#[export] Instance res_ret : MRet res := fun A a => Ret a.
#[export] Instance res_bind : MBind res := fun A B f m =>
  match m with Ret a => f a | Panic => Panic end.
#[export] Instance res_fmap : FMap res := fun A B f m =>
  match m with Ret a => Ret (f a) | Panic => Panic end.

#[export] Instance res_eq_dec {A} `{EqDecision A} : EqDecision (res A).
Proof. solve_decision. Defined.

(** [l[i]] and [&l[lo..hi]]: out of range, they panic. *)
Definition index {A} (l : list A) (i : Z) : res A :=
  match get_at l i with Some x => Ret x | None => Panic end.
Definition index_range {A} (l : list A) (lo hi : Z) : res (list A) :=
  match get_range l lo hi with Some x => Ret x | None => Panic end.

Lemma index_range_Ret {A} (l : list A) lo hi : 0 <= lo -> lo <= hi -> hi <= zlen l ->
  index_range l lo hi = Ret (slice l lo hi).
Proof. intros. unfold index_range. by rewrite (proj2 (get_range_Some l (slice l lo hi) lo hi)). Qed.

Lemma slice_to_end {A} (l : list A) o : 0 <= o <= zlen l -> slice l o (zlen l) = drop (Z.to_nat o) l.
Proof. unfold slice, zlen. intros. rewrite take_ge; [done|]. rewrite length_drop. lia. Qed.

(** ** Fallible calls

    A call that panics, or returns an error or a value; [x ←? m; k] is the source's [m?]. *)
Definition try_bind {E A B} (m : res (E + A)) (k : A -> res (E + B)) : res (E + B) :=
  r ← m; match r with inl e => Ret (inl e) | inr a => k a end.
Definition ok_or {E A} (e : E) (o : option A) : res (E + A) := Ret (match o with Some a => inr a | None => inl e end).

Notation "x ←? m ; k" := (try_bind m (fun x => k)) (at level 20, m at level 100, k at level 200, right associativity).
Notation "' x ←? m ; k" := (try_bind m (fun y => let x := y in k)) (at level 20, x pattern, m at level 100, k at level 200, right associativity).
(** [if c { return Err(e) }] *)
Notation "'bail' e 'if' c ; k" := (if c then Ret (inl e) else k) (at level 20, e at level 9, c at level 100, k at level 200, right associativity).

(** ** Postconditions of calls

    [returns P m]: the call [m] does not panic and its value satisfies [P]. *)
Definition returns {A} (P : A -> Prop) (m : res A) : Prop := exists a, m = Ret a /\ P a.

Section Returns.

Lemma returns_ret {A} (P : A -> Prop) a : P a -> returns P (Ret a).
Proof. intros. by exists a. Qed.

Lemma returns_bind {A B} (Q : A -> Prop) (P : B -> Prop) (m : res A) (f : A -> res B) :
  returns Q m -> (forall a, Q a -> returns P (f a)) -> returns P (m ≫= f).
Proof. intros (a & -> & Ha) Hf. by apply Hf. Qed.

Lemma returns_impl {A} (Q P : A -> Prop) (m : res A) : returns Q m -> (forall a, Q a -> P a) -> returns P m.
Proof. intros (a & -> & Ha) H. exists a. auto. Qed.

Lemma returns_index {A} (l : list A) i : 0 <= i < zlen l -> returns (fun x => l !! Z.to_nat i = Some x) (index l i).
Proof.
  intros Hi. unfold index, get_at, zlen in *. destruct (lookup_lt_is_Some_2 l (Z.to_nat i)) as [x Hx]; [lia|].
  destruct (Z.leb_spec 0 i); [|lia]. rewrite Hx. by exists x.
Qed.

Lemma returns_index_range {A} (l : list A) lo hi : 0 <= lo -> lo <= hi -> hi <= zlen l ->
  returns (fun s => s = slice l lo hi /\ zlen s = hi - lo) (index_range l lo hi).
Proof. intros. rewrite index_range_Ret by done. eexists. split; [done|]. split; [done|]. by apply zlen_slice. Qed.

Lemma returns_mapM {A B} (R : A -> B -> Prop) (f : A -> res B) (l : list A) :
  (forall a, a ∈ l -> returns (R a) (f a)) -> returns (fun r => Forall2 R l r) (mapM f l).
Proof.
  induction l as [|a l IH]; intros H; cbn; [by apply returns_ret|].
  eapply returns_bind; [apply H, list_elem_of_here|]. intros b Hb.
  eapply returns_bind; [apply IH; intros; apply H; by right|]. intros r Hr. apply returns_ret. by constructor.
Qed.

(** A call mapped over the positions [lo..hi]. *)
Lemma returns_for {B} (P : B -> Prop) (f : Z -> res B) lo hi : lo <= hi ->
  (forall i, lo <= i < hi -> returns P (f i)) -> returns (fun r => zlen r = hi - lo /\ Forall P r) (mapM f (seqZ lo (hi - lo))).
Proof.
  intros Hle H. eapply returns_impl; [apply (returns_mapM (fun _ => P)); intros i Hi; apply H; apply elem_of_seqZ in Hi; lia|].
  intros r Hr. split.
  - apply Forall2_length in Hr. rewrite length_seqZ in Hr. unfold zlen. lia.
  - clear -Hr. by induction Hr; constructor.
Qed.
End Returns.

(** [yields P m]: the fallible call [m] does not panic, and a value it returns satisfies [P]. *)
Definition yields {E A} (P : A -> Prop) (m : res (E + A)) : Prop :=
  returns (fun r => match r with inl _ => True | inr a => P a end) m.

Section Yields.
Context {E : Type}.

Lemma yields_ret {A} (P : A -> Prop) (a : A) : P a -> yields (E := E) P (Ret (inr a)).
Proof. intros. by apply returns_ret. Qed.
Lemma yields_err {A} (P : A -> Prop) (e : E) : yields P (Ret (inl e)).
Proof. by apply returns_ret. Qed.
Lemma yields_ok_or {A} (P : A -> Prop) (e : E) (o : option A) : (forall a, o = Some a -> P a) -> yields P (ok_or e o).
Proof. intros H. apply returns_ret. destruct o; auto. Qed.
Lemma yields_try {A B} (Q : A -> Prop) (P : B -> Prop) (m : res (E + A)) k :
  yields Q m -> (forall a, Q a -> yields P (k a)) -> yields P (try_bind m k).
Proof. intros Hm Hk. eapply returns_bind; [exact Hm|]. intros [e|a] Ha; [by apply yields_err|by apply Hk]. Qed.
Lemma yields_bind {A B} (Q : A -> Prop) (P : B -> Prop) (m : res A) (k : A -> res (E + B)) :
  returns Q m -> (forall a, Q a -> yields P (k a)) -> yields P (m ≫= k).
Proof. apply returns_bind. Qed.
Lemma yields_bail {A} (P : A -> Prop) (e : E) (c : bool) k : (c = false -> yields P k) -> yields P (if c then Ret (inl e) else k).
Proof. destruct c; [intros _; apply yields_err|auto]. Qed.
Lemma yields_impl {A} (Q P : A -> Prop) (m : res (E + A)) : yields Q m -> (forall a, Q a -> P a) -> yields P m.
Proof. intros Hm H. eapply returns_impl; [exact Hm|]. intros [e|a]; auto. Qed.

(** A call past a step that succeeds. *)
Lemma try_step {A B} (m : res (E + A)) (k : A -> res (E + B)) a : m = Ret (inr a) -> try_bind m k = k a.
Proof. by intros ->. Qed.
Lemma ok_or_step {A B} (e : E) (o : option A) (k : A -> res (E + B)) a : o = Some a -> try_bind (ok_or e o) k = k a.
Proof. by intros ->. Qed.

(** What a call that succeeded went through. *)
Lemma try_inr {A B} (m : res (E + A)) k (b : B) : try_bind m k = Ret (inr b) -> exists a, m = Ret (inr a) /\ k a = Ret (inr b).
Proof. unfold try_bind. destruct m as [[e|a]|]; [done|eauto|done]. Qed.
Lemma bind_inr {A B} (m : res A) k (b : E + B) : m ≫= k = Ret b -> exists a, m = Ret a /\ k a = Ret b.
Proof. destruct m; [eauto|done]. Qed.
Lemma bail_inr {A} (e : E) (c : bool) (k : res (E + A)) a : (if c then Ret (inl e) else k) = Ret (inr a) -> c = false /\ k = Ret (inr a).
Proof. by destruct c. Qed.
Lemma ok_or_inr {A} (e : E) (o : option A) a : ok_or e o = Ret (inr a) -> o = Some a.
Proof. unfold ok_or. destruct o; congruence. Qed.
Lemma ret_inr {A} (a b : A) : Ret (inr (A := E) a) = Ret (inr b) -> a = b.
Proof. congruence. Qed.
End Yields.

(** [accepted H]: the steps of a fallible call that returned a value. *)
Ltac accepted H :=
  repeat match type of H with
  | try_bind _ _ = _ => let a := fresh "a" in let E := fresh "E" in apply try_inr in H as (a & E & H); cbv beta in H
  | (_ ≫= _) = _ => let a := fresh "a" in let E := fresh "E" in apply bind_inr in H as (a & E & H); cbv beta in H
  | (if _ then Ret (inl _) else _) = _ => let G := fresh "G" in apply bail_inr in H as [G H]
  | (let _ := _ in _) = _ => cbv zeta in H
  end; cbv zeta in H; try apply ret_inr in H.

(** ** Lists *)

(** [l.chunks(2)] mapped by [f] on a whole pair and [g] on a last single. *)
Fixpoint pair_up {A B} (f : A -> A -> B) (g : A -> B) (l : list A) : list B :=
  match l with
  | a :: b :: l' => f a b :: pair_up f g l'
  | [a] => [g a]
  | [] => []
  end.

Section PairUp.
Context {A B : Type} (f : A -> A -> B) (g : A -> B).

Lemma list_pair_ind (P : list A -> Prop) :
  P [] -> (forall a, P [a]) -> (forall a b l, P l -> P (a :: b :: l)) -> forall l, P l.
Proof.
  intros H0 H1 H2. fix IH 1. intros [|a [|b l]]; [done..|]. apply H2, IH.
Qed.

Lemma length_pair_up l : length (pair_up f g l) = Nat.div2 (S (length l)).
Proof. induction l as [|a|a b l IH] using list_pair_ind; simpl in *; [done..|]. by rewrite IH. Qed.

Lemma pair_up_nonempty l : (0 < length l)%nat -> (0 < length (pair_up f g l))%nat.
Proof. destruct l as [|x [|y l]]; simpl; lia. Qed.

Lemma pair_up_drop l a : pair_up f g (drop (2 * a) l) = drop a (pair_up f g l).
Proof.
  revert l. induction a as [|a IH]; intros l; [by rewrite !drop_0|].
  replace (2 * S a)%nat with (S (S (2 * a))) by lia.
  destruct l as [|x [|y l]]; simpl; [done|by rewrite drop_nil|].
  by rewrite <- IH.
Qed.

Lemma pair_up_take l b : pair_up f g (take (2 * b) l) = take b (pair_up f g l).
Proof.
  revert l. induction b as [|b IH]; intros l; [done|].
  replace (2 * S b)%nat with (S (S (2 * b))) by lia.
  destruct l as [|x [|y l]]; simpl; [done|by rewrite take_nil|].
  by rewrite <- IH.
Qed.

Lemma pair_up_lookup_pair l i x y :
  l !! (2 * i)%nat = Some x -> l !! (S (2 * i)) = Some y ->
  pair_up f g l !! i = Some (f x y).
Proof.
  revert i. induction l as [|a|a b l IH] using list_pair_ind; intros i Hx Hy.
  - done.
  - by destruct i.
  - destruct i as [|i]; [by simplify_eq/=|].
    replace (2 * S i)%nat with (S (S (2 * i))) in * by lia. simpl in *. eauto.
Qed.
End PairUp.

Lemma take_length_take {A} (k : nat) (l : list A) : take (length (take k l)) l = take k l.
Proof.
  rewrite length_take. destruct (decide (k <= length l)%nat).
  - by rewrite Nat.min_l.
  - rewrite Nat.min_r, firstn_all, take_ge by lia. done.
Qed.

(** [l.chunks(k)]: runs of [k] elements, the last one possibly shorter. *)
Fixpoint chunks_fuel {A} (fuel : nat) (k : nat) (l : list A) : list (list A) :=
  match fuel, l with
  | S fuel, _ :: _ => take k l :: chunks_fuel fuel k (drop k l)
  | _, _ => []
  end.
Definition chunks {A} (k : nat) (l : list A) : list (list A) := chunks_fuel (length l) k l.
(** [l.chunks_exact(k)]: the whole runs only. *)
Definition chunks_exact {A} (k : nat) (l : list A) : list (list A) :=
  filter (fun c => length c = k) (chunks k l).

(** ** [usize] arithmetic on list positions *)

Lemma odd_of_nat n : Z.odd (Z.of_nat n) = Nat.odd n.
Proof.
  destruct (Nat.odd n) eqn:E.
  - apply Nat.odd_spec in E as [m ->]. apply Z.odd_spec. exists (Z.of_nat m). lia.
  - apply not_true_iff_false. rewrite Z.odd_spec. intros [m Hm].
    assert (Nat.odd n = true) as ?; [|congruence]. apply Nat.odd_spec. exists (Z.to_nat m). lia.
Qed.

Lemma even_of_nat n : Z.even (Z.of_nat n) = Nat.even n.
Proof. by rewrite <- Z.negb_odd, <- Nat.negb_odd, odd_of_nat. Qed.

Lemma div2_of_nat n : Z.of_nat n / 2 = Z.of_nat (Nat.div2 n).
Proof. by rewrite Nat2Z.inj_div2, Z.div2_div. Qed.

Lemma div_ceil2_of_nat n : div_ceil (Z.of_nat n) 2 = Z.of_nat (Nat.div2 (S n)).
Proof. unfold div_ceil. rewrite <- div2_of_nat. f_equal. lia. Qed.

Lemma lxor_1_even (m : nat) : Z.lxor (Z.of_nat (2 * m)) 1 = Z.of_nat (2 * m + 1).
Proof. rewrite Nat2Z.inj_add, Nat2Z.inj_mul. by destruct m. Qed.

Lemma lxor_1_odd (m : nat) : Z.lxor (Z.of_nat (2 * m + 1)) 1 = Z.of_nat (2 * m).
Proof. rewrite Nat2Z.inj_add, !Nat2Z.inj_mul. by destruct m. Qed.

Lemma leb_of_nat n m : (Z.of_nat n <=? Z.of_nat m) = (n <=? m)%nat.
Proof. destruct (n <=? m)%nat eqn:E; [apply Nat.leb_le in E|apply Nat.leb_gt in E]; lia. Qed.

Lemma ltb_of_nat n m : (Z.of_nat n <? Z.of_nat m) = (n <? m)%nat.
Proof. destruct (n <? m)%nat eqn:E; [apply Nat.ltb_lt in E|apply Nat.ltb_ge in E]; lia. Qed.

Lemma eqb_of_nat n m : (Z.of_nat n =? Z.of_nat m) = (n =? m)%nat.
Proof. destruct (Nat.eqb_spec n m); [apply Z.eqb_eq|apply Z.eqb_neq]; lia. Qed.

Lemma get_at_of_nat {A} (l : list A) n : get_at l (Z.of_nat n) = l !! n.
Proof. unfold get_at. rewrite Nat2Z.id. by destruct (Z.leb_spec 0 (Z.of_nat n)); [|lia]. Qed.

Lemma get_at_zero {A} (l : list A) : get_at l 0 = head l.
Proof. by destruct l. Qed.

Lemma index_of_nat {A} (l : list A) n x : l !! n = Some x -> index l (Z.of_nat n) = Ret x.
Proof. unfold index. by rewrite get_at_of_nat; intros ->. Qed.

Lemma index_last {A} (l : list A) x : last l = Some x -> index l (zlen l - 1) = Ret x.
Proof.
  intros H. assert (0 < length l)%nat by (destruct l; [done|simpl; lia]).
  unfold zlen. replace (Z.of_nat (length l) - 1) with (Z.of_nat (pred (length l))) by lia.
  apply index_of_nat. by rewrite <- last_lookup.
Qed.

Lemma last_is_Some_length {A} (l : list A) : (0 < length l)%nat -> is_Some (last l).
Proof. intros. rewrite last_is_Some. intros ->. simpl in *. lia. Qed.

Lemma take_1_drop {A} (l : list A) n x : l !! n = Some x -> take 1 (drop n l) = [x].
Proof. intros H. by rewrite (drop_S _ _ _ H). Qed.

(** ** Runs of [k] elements *)

Section Chunks.
Context {A : Type} (k : nat) (Hk : (0 < k)%nat).
Implicit Types l : list A.

Lemma chunks_fuel_enough f l : (length l <= f)%nat -> chunks_fuel f k l = chunks k l.
Proof.
  assert (Hgen : forall f g l, (length l <= f)%nat -> (length l <= g)%nat ->
    chunks_fuel f k l = chunks_fuel g k l).
  { clear f l. induction f as [|f IH]; intros g l Hf Hg; destruct l as [|x l]; simpl in *; try lia.
    - by destruct g.
    - by destruct g.
    - destruct g as [|g]; [lia|]. simpl. f_equal. apply IH; rewrite length_drop; simpl; lia. }
  intros. by apply Hgen.
Qed.

Lemma chunks_nil : chunks k (@nil A) = [].
Proof. done. Qed.

Lemma chunks_cons l : l <> [] -> chunks k l = take k l :: chunks k (drop k l).
Proof.
  intros Hl. unfold chunks at 1. destruct l as [|x l]; [done|]. cbn [length chunks_fuel].
  f_equal. apply chunks_fuel_enough. rewrite length_drop. simpl. lia.
Qed.

Lemma chunks_drop i l : chunks k (drop (i * k) l) = drop i (chunks k l).
Proof.
  revert l. induction i as [|i IH]; intros l; [done|].
  destruct (decide (l = [])) as [->|Hl]; [by rewrite drop_nil|].
  rewrite (chunks_cons l) by done. simpl. by rewrite <- drop_drop, IH.
Qed.

Lemma chunks_take j l : chunks k (take (j * k) l) = take j (chunks k l).
Proof.
  revert l. induction j as [|j IH]; intros l; [done|].
  destruct (decide (l = [])) as [->|Hl]; [by rewrite take_nil|].
  assert (take (S j * k) l <> []) by (intros [?|?]%take_nil_inv; [lia|done]).
  rewrite (chunks_cons l), chunks_cons by done.
  cbn [take]. rewrite take_take, Nat.min_l, skipn_firstn_comm by lia.
  f_equal. rewrite <- IH. do 2 f_equal. lia.
Qed.

Lemma length_chunks l : Z.of_nat (length (chunks k l)) = div_ceil (zlen l) (Z.of_nat k).
Proof.
  remember (length l) as n eqn:Hn. revert l Hn.
  induction n as [n IH] using lt_wf_ind. intros l ->.
  destruct (decide (l = [])) as [->|Hl].
  { change (0 = (0 + Z.of_nat k - 1) / Z.of_nat k). rewrite Z.div_small; lia. }
  assert (0 < length l)%nat by (destruct l; simpl; [done|lia]).
  rewrite chunks_cons by done. cbn [length]. rewrite Nat2Z.inj_succ.
  rewrite (IH (length (drop k l))) by (rewrite ?length_drop; lia).
  unfold div_ceil, zlen. rewrite length_drop.
  destruct (decide (k <= length l)%nat).
  - rewrite Nat2Z.inj_sub by done.
    replace (Z.of_nat (length l) + Z.of_nat k - 1)
      with (Z.of_nat (length l) - Z.of_nat k + Z.of_nat k - 1 + 1 * Z.of_nat k) by lia.
    rewrite Z.div_add by lia. lia.
  - replace (length l - k)%nat with 0%nat by lia.
    rewrite Z.div_small by lia.
    replace (Z.of_nat (length l) + Z.of_nat k - 1)
      with (Z.of_nat (length l) - 1 + 1 * Z.of_nat k) by lia.
    rewrite Z.div_add, Z.div_small by lia. lia.
Qed.

Lemma concat_chunks l : concat (chunks k l) = l.
Proof.
  remember (length l) as n eqn:Hn. revert l Hn.
  induction n as [n IH] using lt_wf_ind. intros l ->.
  destruct (decide (l = [])) as [->|Hl]; [done|].
  rewrite chunks_cons by done. cbn [concat].
  rewrite (IH (length (drop k l))); [apply take_drop| |done].
  rewrite length_drop. destruct l; simpl in *; [done|lia].
Qed.
End Chunks.

Lemma chunks_full {A} (n c : nat) (l : list A) : (0 < n)%nat -> length l = (c * n)%nat -> Forall (fun b => length b = n) (chunks n l).
Proof.
  intros Hn. revert l. induction c as [|c IH]; intros l Hl; [by destruct l|].
  rewrite chunks_cons by (try done; intros ->; simpl in Hl; lia). constructor; [rewrite length_take; lia|].
  apply IH. rewrite length_drop. lia.
Qed.

Lemma chunks_exact_all {A} (n : nat) (l : list A) : (0 < n)%nat -> zlen l mod Z.of_nat n = 0 -> chunks_exact n l = chunks n l.
Proof.
  intros Hn Hl. unfold chunks_exact. assert (Hf : Forall (fun b => length b = n) (chunks n l)).
  { apply (chunks_full n (Z.to_nat (zlen l / Z.of_nat n))); [done|]. unfold zlen in *. apply Nat2Z.inj. rewrite Nat2Z.inj_mul, Z2Nat.id by (apply Z.div_pos; lia).
    pose proof (Z.div_mod (Z.of_nat (length l)) (Z.of_nat n)). lia. }
  induction Hf as [|c cs Hc _ IH]; [done|]. rewrite filter_cons, decide_True by done. by rewrite IH.
Qed.

Lemma chunks_of_concat {A} (n : nat) (ll : list (list A)) : (0 < n)%nat -> Forall (fun c => length c = n) ll -> chunks n (concat ll) = ll.
Proof.
  intros Hn. induction 1 as [|c ll Hc _ IH]; [done|]. cbn [concat]. rewrite chunks_cons; [|lia|intros [-> _]%app_nil; simpl in Hc; lia].
  by rewrite take_app_length', drop_app_length', IH.
Qed.

Lemma chunks_lookup {A} (n i : nat) (l : list A) : (0 < n)%nat -> (i * n < length l)%nat -> chunks n l !! i = Some (take n (drop (i * n) l)).
Proof.
  intros Hn Hi. rewrite <- (Nat.add_0_r i) at 1. rewrite <- lookup_drop, <- chunks_drop by lia.
  rewrite chunks_cons; [done|lia|]. intros H. apply (f_equal length) in H. rewrite length_drop in H. simpl in H. lia.
Qed.
