(* ===== verification/Merkle.v ===== *)
(** * Merkle proofs ([verifiable-inference/src/merkle.rs])

    The two trees of the protocol: the weight and manifest tree ([rt_*], an odd
    last node is paired with itself) and the BLAKE3 trace tree ([b3_*], an odd
    last node is promoted).  The loops run on [u64] counters modelled in [Z];
    their fuel is the number of levels, [log2_up n], which is exactly the number
    of iterations.  BLAKE3 is third-party code: its entry points are the methods
    of the class [Blake3]. *)
From S2P Require Import Prelude.

(** [pub type Hash = [u8; 32]] *)
Abbreviation Hash := (list byte).

(** The entry points of the [blake3] crate the source calls. *)
Class Blake3 := {
  blake3_hash : list byte -> Hash;
  merge_subtrees_root : Hash -> Hash -> Hash;
  merge_subtrees_non_root : Hash -> Hash -> Hash;
  (** [Hasher::new], [set_input_offset], [update], [finalize_non_root] *)
  chunk_chaining_value : Z -> list byte -> Hash;
}.

(** ** Definitions *)

Section Definitions.
Context `{B3 : Blake3}.

Definition hash_pair (l r : Hash) : Hash := blake3_hash (l ++ r).

(** [p.next()] *)
Definition next_proof (p : list Hash) : option (Hash * list Hash) :=
  match p with s :: p => Some (s, p) | [] => None end.

(** [cur.chunks(2).map(|c| hash_pair(&c[0], &c[1]))] *)
Fixpoint hash_pairs (cur : list Hash) : res (list Hash) :=
  match cur with
  | a :: b :: cur => t ← hash_pairs cur; mret (hash_pair a b :: t)
  | [_] => Panic
  | [] => mret []
  end.

(** The left and right siblings one iteration of [rt_verify_range] reads: the
    window and the proof left, [None] where the source returns [false]. *)
Definition rt_read_left (lo : Z) (p : list Hash) : option (list Hash * Z * list Hash) :=
  if Z.odd lo
  then '(s, p) ← next_proof p; Some ([s], lo - 1, p)
  else Some ([], lo, p).
Definition rt_read_right (hi n : Z) (cur p : list Hash) : res (option (list Hash * list Hash)) :=
  if Z.even hi
  then if hi + 1 <? n
       then mret ('(s, p) ← next_proof p; Some (cur ++ [s], p))
       else s ← index cur (zlen cur - 1); mret (Some (cur ++ [s], p))
  else mret (Some (cur, p)).

(** The [while n > 1] loop of [rt_verify_range]: the last level and the unread
    proof. *)
Fixpoint rt_verify_loop (fuel : nat) (n lo : Z) (level p : list Hash)
  : res (option (list Hash * list Hash)) :=
  if n <=? 1 then mret (Some (level, p)) else
  match fuel with
  | O => mret None
  | S fuel =>
    let hi := lo + zlen level - 1 in
    match rt_read_left lo p with
    | None => mret None
    | Some (cur, start, p) =>
      right ← rt_read_right hi n (cur ++ level) p;
      match right with
      | None => mret None
      | Some (cur, p) =>
        level ← hash_pairs cur;
        rt_verify_loop fuel (div_ceil n 2) (start / 2) level p
      end
    end
  end.

Definition levels (n : Z) : nat := Z.to_nat (Z.log2_up n).

(** Inclusion of the contiguous leaves starting at [first]. *)
Definition rt_verify_range (root : Hash) (n_leaves first : Z) (leaves proof : list Hash) : res bool :=
  if (zlen leaves =? 0)
     || match checked_add 64 first (zlen leaves) with None => true | Some e => n_leaves <? e end
     || (128 <? zlen proof)
  then mret false
  else
    o ← rt_verify_loop (levels n_leaves) n_leaves first leaves proof;
    match o with
    | None => mret false
    | Some (level, p) =>
      if (zlen p =? 0) && (zlen level =? 1)
      then h ← index level 0; mret (bool_decide (h = root))
      else mret false
    end.

(** The siblings one iteration of [rt_range_proof] or [b3_range_proof] pushes. *)
Definition push_left (lo : Z) (level : list Hash) : res (list Hash) :=
  if Z.odd lo then s ← index level (lo - 1); mret [s] else mret [].
Definition push_right (hi n : Z) (level : list Hash) : res (list Hash) :=
  if Z.even hi && (hi + 1 <? n) then s ← index level (hi + 1); mret [s] else mret [].

(** The [while level.len() > 1] loop of [rt_range_proof]. *)
Fixpoint rt_proof_loop (fuel : nat) (lo hi : Z) (level proof : list Hash) : res (Hash * list Hash) :=
  if zlen level <=? 1 then h ← index level 0; mret (h, proof) else
  match fuel with
  | O => Panic
  | S fuel =>
    let n := zlen level in
    l ← push_left lo level;
    r ← push_right hi n level;
    rt_proof_loop fuel (lo / 2) (hi / 2)
      (pair_up hash_pair (fun c => hash_pair c c) level) (proof ++ l ++ r)
  end.

(** Root and range proof of [count] leaves starting at [first]. *)
Definition rt_range_proof (leaves : list Hash) (first count : Z) : res (Hash * list Hash) :=
  rt_proof_loop (levels (zlen leaves)) first (wrap 64 (first + count - 1)) leaves [].

(** Inclusion of one leaf. *)
Definition rt_verify_leaf (root : Hash) (n_leaves index : Z) (leaf : Hash) (path : list Hash) : res bool :=
  rt_verify_range root n_leaves index [leaf] path.

Definition b3_merge (l r : Hash) (root : bool) : Hash :=
  if root then merge_subtrees_root l r else merge_subtrees_non_root l r.

(** One level of the trace tree: [chunks_exact(2)] merged, an odd last node kept. *)
Definition b3_next (level : list Hash) : list Hash :=
  pair_up (fun a b => b3_merge a b (zlen level =? 2)) (fun c => c) level.

Fixpoint b3_root_loop (fuel : nat) (level : list Hash) : res Hash :=
  if zlen level <=? 1 then index level 0 else
  match fuel with O => Panic | S fuel => b3_root_loop fuel (b3_next level) end.

(** Root of the trace tree over [leaves]. *)
Definition b3_root (leaves : list Hash) : res Hash := b3_root_loop (levels (zlen leaves)) leaves.

Fixpoint b3_path_loop (fuel : nat) (level : list Hash) (i : Z) (path : list Hash) : res (list Hash) :=
  if zlen level <=? 1 then mret path else
  match fuel with
  | O => Panic
  | S fuel =>
    let n := zlen level in
    s ← (if Z.even n || negb (i =? n - 1) then s ← index level (Z.lxor i 1); mret [s] else mret []);
    b3_path_loop fuel (b3_next level) (i / 2) (path ++ s)
  end.

(** Sibling path of leaf [index] in the trace tree. *)
Definition b3_path (leaves : list Hash) (index : Z) : res (list Hash) :=
  b3_path_loop (levels (zlen leaves)) leaves index [].

Fixpoint b3_fold_loop (fuel : nat) (n i : Z) (acc : Hash) (p : list Hash) : option (Hash * list Hash) :=
  if n <=? 1 then Some (acc, p) else
  match fuel with
  | O => None
  | S fuel =>
    '(acc, p) ← (if Z.even n || negb (i =? n - 1)
                 then '(s, p) ← next_proof p;
                      Some (if Z.even i then b3_merge acc s (n =? 2) else b3_merge s acc (n =? 2), p)
                 else Some (acc, p));
    b3_fold_loop fuel (div_ceil n 2) (i / 2) acc p
  end.

(** Trace tree root reached from [leaf] at [index]. *)
Definition b3_fold (n_leaves index : Z) (leaf : Hash) (path : list Hash) : option Hash :=
  if (n_leaves <=? index) || (64 <? zlen path) then None else
  '(acc, p) ← b3_fold_loop (levels n_leaves) n_leaves index leaf path;
  if zlen p =? 0 then Some acc else None.

Definition b3_verify (root : Hash) (n_leaves index : Z) (leaf : Hash) (path : list Hash) : bool :=
  bool_decide (b3_fold n_leaves index leaf path = Some root).

Fixpoint b3_range_proof_loop (fuel : nat) (lo hi : Z) (level proof : list Hash) : res (list Hash) :=
  if zlen level <=? 1 then mret proof else
  match fuel with
  | O => Panic
  | S fuel =>
    let n := zlen level in
    l ← push_left lo level;
    r ← push_right hi n level;
    b3_range_proof_loop fuel (lo / 2) (hi / 2) (b3_next level) (proof ++ l ++ r)
  end.

(** Range proof of the [count] leaves from [first] in the trace tree. *)
Definition b3_range_proof (leaves : list Hash) (first count : Z) : res (list Hash) :=
  b3_range_proof_loop (levels (zlen leaves)) first (wrap 64 (first + count - 1)) leaves [].

Fixpoint b3_range_fold_loop (fuel : nat) (n lo : Z) (level p : list Hash)
  : option (list Hash * list Hash) :=
  if n <=? 1 then Some (level, p) else
  match fuel with
  | O => None
  | S fuel =>
    let hi := lo + zlen level - 1 in
    '(cur, start, p) ← (if Z.even lo then Some ([], lo, p)
                        else '(s, p) ← next_proof p; Some ([s], lo - 1, p));
    let cur := cur ++ level in
    '(cur, p) ← (if Z.even hi && (hi + 1 <? n)
                 then '(s, p) ← next_proof p; Some (cur ++ [s], p)
                 else Some (cur, p));
    b3_range_fold_loop fuel (div_ceil n 2) (start / 2)
      (pair_up (fun a b => b3_merge a b (n =? 2)) (fun c => c) cur) p
  end.

(** Trace tree root reached from the contiguous [leaves] at [first]. *)
Definition b3_range_fold (n_leaves first : Z) (leaves proof : list Hash) : option Hash :=
  if zlen leaves =? 0 then None else
  e ← checked_add 64 first (zlen leaves);
  if (n_leaves <? e) || (128 <? zlen proof) then None else
  '(level, p) ← b3_range_fold_loop (levels n_leaves) n_leaves first leaves proof;
  if (zlen p =? 0) && (zlen level =? 1) then get_at level 0 else None.

Definition B3_CHUNK : Z := 1024.

(** Chaining value of chunk [c] of a multi-chunk input. *)
Definition b3_chunk_cv (chunk : list byte) (c : Z) : Hash :=
  chunk_chaining_value (wrap 64 (c * B3_CHUNK)) chunk.

(** BLAKE3 hash of an input rebuilt from one of its chunks. *)
Definition b3_leaf_from_chunk (total_len c : Z) (chunk : list byte) (path : list Hash) : option Hash :=
  let n_chunks := Z.max (div_ceil total_len B3_CHUNK) 1 in
  expected ← (if wrap 64 (c + 1) <? n_chunks then Some B3_CHUNK
              else checked_sub total_len (wrap 64 (c * B3_CHUNK)));
  if (n_chunks <=? c) || negb (zlen chunk =? expected) then None else
  if n_chunks =? 1 then (if zlen path =? 0 then Some (blake3_hash chunk) else None) else
  b3_fold n_chunks c (b3_chunk_cv chunk c) path.

(** [bytes.chunks(B3_CHUNK).enumerate().map(|(i, c)| b3_chunk_cv(c, first + i))] *)
Definition chunk_cvs (first : Z) (bytes : list byte) : list Hash :=
  imap (fun i c => b3_chunk_cv c (first + Z.of_nat i)) (chunks (Z.to_nat B3_CHUNK) bytes).

(** BLAKE3 hash of an input of [total_len] bytes rebuilt from its chunks from [first]. *)
Definition b3_leaf_from_chunks (total_len first : Z) (bytes : list byte) (proof : list Hash) : option Hash :=
  let n := Z.max (div_ceil total_len B3_CHUNK) 1 in
  let count := div_ceil (zlen bytes) B3_CHUNK in
  e ← checked_add 64 first count;
  if (count =? 0) || (n <? e)
     || negb (zlen bytes =? wrap 64 (Z.min total_len (wrap 64 (e * B3_CHUNK)) - wrap 64 (first * B3_CHUNK)))
  then None else
  if n =? 1 then (if zlen proof =? 0 then Some (blake3_hash bytes) else None) else
  b3_range_fold n first (chunk_cvs first bytes) proof.

(** Range proof of the chunks [first..first + count] of [data]. *)
Definition b3_chunks_proof (data : list byte) (first count : Z) : res (list Hash) :=
  let cvs := chunk_cvs 0 data in
  if zlen cvs <=? 1 then mret [] else b3_range_proof cvs first count.

(** Inclusion of chunk [c] of an input whose BLAKE3 hash is [leaf]. *)
Definition b3_verify_chunk (leaf : Hash) (total_len c : Z) (chunk : list byte) (path : list Hash) : bool :=
  bool_decide (b3_leaf_from_chunk total_len c chunk path = Some leaf).
End Definitions.

(** ** The tree one level at a time

    Both trees are instances of one scheme over natural-number indices: a level
    is paired up with [mrg] ([true] on the last level, which makes the root) and
    an odd last node goes through [lone].  The theorems are proved once here. *)

Section Levels.
Context {A : Type} (mrg : bool -> A -> A -> A) (lone : A -> A).

Definition up (l : list A) : list A := pair_up (mrg (bool_decide (length l = 2%nat))) lone l.

Fixpoint root (fuel : nat) (l : list A) : option A :=
  match l, fuel with
  | [x], _ => Some x
  | _ :: _, S fuel => root fuel (up l)
  | _, _ => None
  end.

(** The siblings a range [lo..=hi] needs at one level. *)
Definition left_sibling (lo : nat) (l : list A) : list A :=
  if Nat.odd lo then take 1 (drop (lo - 1) l) else [].
Definition right_sibling (hi : nat) (l : list A) : list A :=
  if Nat.even hi then take 1 (drop (hi + 1) l) else [].

Fixpoint siblings (fuel lo hi : nat) (l : list A) : list A :=
  match fuel with
  | O => []
  | S fuel => if decide (length l <= 1)%nat then [] else
      left_sibling lo l ++ right_sibling hi l
        ++ siblings fuel (Nat.div2 lo) (Nat.div2 hi) (up l)
  end.

(** [k] proof elements *)
Definition read (k : bool) (p : list A) : option (list A * list A) :=
  match k, p with
  | false, _ => Some ([], p)
  | true, x :: p => Some ([x], p)
  | true, [] => None
  end.

Fixpoint fold (fuel n lo : nat) (s p : list A) : option (list A * list A) :=
  if decide (n <= 1)%nat then Some (s, p) else
  match fuel with
  | O => None
  | S fuel =>
    let hi := (lo + length s - 1)%nat in
    '(a, p) ← read (Nat.odd lo) p;
    '(b, p) ← read (Nat.even hi && (hi + 1 <? n)%nat) p;
    fold fuel (Nat.div2 (S n)) (Nat.div2 lo)
      (pair_up (mrg (bool_decide (n = 2%nat))) lone (a ++ s ++ b)) p
  end.

Lemma length_up l : length (up l) = Nat.div2 (S (length l)).
Proof. apply length_pair_up. Qed.

Lemma root_step fuel l : (1 < length l)%nat -> root (S fuel) l = root fuel (up l).
Proof. destruct l as [|x [|y l]]; simpl; [lia|lia|done]. Qed.

Lemma root_single fuel l r : (length l <= 1)%nat -> root fuel l = Some r -> l = [r].
Proof. destruct fuel, l as [|x [|y l]]; simpl; intros; try lia; by simplify_eq. Qed.

Lemma root_0 l r : root 0 l = Some r -> (length l <= 1)%nat.
Proof. by destruct l as [|x [|y l]]; simpl; try lia. Qed.

(** The window one level reads: the range widened to whole pairs. *)
Lemma widen (l : list A) (lo hi : nat) : (lo <= hi < length l)%nat ->
  left_sibling lo l ++ take (hi + 1 - lo) (drop lo l) ++ right_sibling hi l
  = take (2 * (Nat.div2 hi + 1 - Nat.div2 lo)) (drop (2 * Nat.div2 lo) l).
Proof.
  intros H. unfold left_sibling, right_sibling.
  assert (Hlo : left_sibling lo l ++ take (hi + 1 - lo) (drop lo l)
    = take (hi + 1 - 2 * Nat.div2 lo) (drop (2 * Nat.div2 lo) l)).
  { unfold left_sibling. destruct (Nat.odd lo) eqn:E.
    - apply Nat.odd_spec in E as [m ->].
      replace (Nat.div2 (2 * m + 1)) with m by (rewrite Nat.add_1_r, Nat.div2_succ_double; lia).
      replace (2 * m + 1 - 1)%nat with (2 * m)%nat by lia.
      replace (hi + 1 - 2 * m)%nat with (1 + (hi + 1 - (2 * m + 1)))%nat by lia.
      by rewrite <- (take_take_drop (drop (2 * m) l) 1 (hi + 1 - (2 * m + 1))), drop_drop.
    - apply negb_true_iff in E. rewrite Nat.negb_odd in E.
      apply Nat.even_spec in E as [m ->]. by rewrite Nat.div2_double. }
  unfold left_sibling in Hlo. rewrite app_assoc, Hlo. clear Hlo.
  assert (Hd : (Nat.div2 lo <= Nat.div2 hi)%nat) by (rewrite !Nat.div2_div; apply Nat.Div0.div_le_mono; lia).
  destruct (Nat.even hi) eqn:E.
  - apply Nat.even_spec in E as [m ->]. rewrite Nat.div2_double in *.
    replace (2 * (m + 1 - Nat.div2 lo))%nat with (2 * m + 1 - 2 * Nat.div2 lo + 1)%nat by lia.
    rewrite <- (take_take_drop (drop (2 * Nat.div2 lo) l) _ 1), drop_drop. do 3 f_equal. lia.
  - apply negb_true_iff in E. rewrite Nat.negb_even in E.
    apply Nat.odd_spec in E as [m ->]. rewrite app_nil_r.
    replace (Nat.div2 (2 * m + 1)) with m in * by (rewrite Nat.add_1_r, Nat.div2_succ_double; lia).
    f_equal. lia.
Qed.

Lemma up_window (l : list A) (a k : nat) :
  pair_up (mrg (bool_decide (length l = 2%nat))) lone (take (2 * k) (drop (2 * a) l))
  = take k (drop a (up l)).
Proof. by rewrite pair_up_take, pair_up_drop. Qed.

Lemma length_left_sibling lo l : (lo <= length l)%nat ->
  length (left_sibling lo l) = if Nat.odd lo then 1%nat else 0%nat.
Proof.
  intros. unfold left_sibling. destruct (Nat.odd lo) eqn:E; [|done].
  apply Nat.odd_spec in E as [m ->]. rewrite length_take, length_drop. lia.
Qed.

Lemma length_right_sibling hi l :
  length (right_sibling hi l) = if Nat.even hi && (hi + 1 <? length l)%nat then 1%nat else 0%nat.
Proof.
  unfold right_sibling. destruct (Nat.even hi); [|done]. simpl.
  rewrite length_take, length_drop. destruct (_ <? _)%nat eqn:E.
  - apply Nat.ltb_lt in E. lia.
  - apply Nat.ltb_ge in E. lia.
Qed.

Lemma read_app (k : bool) (x p : list A) :
  length x = (if k then 1%nat else 0%nat) -> read k (x ++ p) = Some (x, p).
Proof. destruct k, x as [|y [|z x]]; by simpl. Qed.

Lemma read_length (k : bool) p x q :
  read k p = Some (x, q) -> length x = (if k then 1%nat else 0%nat).
Proof. destruct k, p; intros; simplify_eq/=; done. Qed.

Lemma div2_succ_lt n : (1 < n)%nat -> (Nat.div2 (S n) < n)%nat.
Proof. intros. rewrite Nat.div2_div. apply Nat.Div0.div_lt_upper_bound. lia. Qed.

Lemma div2_succ_pow n f : (n <= 2 ^ S f)%nat -> (Nat.div2 (S n) <= 2 ^ f)%nat.
Proof.
  intros H. rewrite Nat.div2_div. apply Nat.lt_succ_r, Nat.Div0.div_lt_upper_bound.
  rewrite Nat.pow_succ_r' in H. lia.
Qed.

Lemma div2_pos n : (1 < n)%nat -> (0 < Nat.div2 (S n))%nat.
Proof. intros. destruct n as [|[|n]]; simpl; lia. Qed.

Lemma div2_lt_half hi n : (hi < n)%nat -> (Nat.div2 hi < Nat.div2 (S n))%nat.
Proof.
  intros. rewrite !Nat.div2_div. pose proof (Nat.div_mod_eq hi 2). pose proof (Nat.div_mod_eq (S n) 2).
  pose proof (Nat.mod_upper_bound hi 2). pose proof (Nat.mod_upper_bound (S n) 2). lia.
Qed.

(** Completeness: the fold reads exactly the siblings and reaches the root. *)
Lemma fold_complete fuel l lo hi rest r :
  (lo <= hi < length l)%nat -> (length l <= 2 ^ fuel)%nat -> root fuel l = Some r ->
  fold fuel (length l) lo (take (hi + 1 - lo) (drop lo l)) (siblings fuel lo hi l ++ rest)
  = Some ([r], rest).
Proof.
  revert l lo hi. induction fuel as [|fuel IH]; intros l lo hi Hr Hf Hroot.
  - destruct l as [|x [|y l]]; simpl in *; try lia. simplify_eq.
    destruct lo, hi; try lia. done.
  - cbn [fold siblings]. case_decide as Hn.
    { destruct l as [|x [|y l]]; simpl in *; try lia. simplify_eq.
      destruct lo, hi; try lia. done. }
    rewrite root_step in Hroot by lia.
    rewrite length_take, length_drop, Nat.min_l by lia.
    replace (lo + (hi + 1 - lo) - 1)%nat with hi by lia.
    rewrite <- !app_assoc, read_app by (apply length_left_sibling; lia). cbn [mbind option_bind].
    rewrite read_app by apply length_right_sibling. cbn [mbind option_bind].
    rewrite widen, up_window, <- length_up by lia.
    assert (Nat.div2 lo <= Nat.div2 hi)%nat by (rewrite !Nat.div2_div; apply Nat.Div0.div_le_mono; lia).
    apply IH; [|rewrite length_up; by apply div2_succ_pow|done].
    rewrite length_up. split; [done|]. apply div2_lt_half. lia.
Qed.

Lemma length_siblings fuel lo hi l : (length (siblings fuel lo hi l) <= 2 * fuel)%nat.
Proof.
  revert lo hi l. induction fuel as [|fuel IH]; intros lo hi l; simpl; [lia|].
  case_decide; [simpl; lia|]. rewrite !length_app. specialize (IH (Nat.div2 lo) (Nat.div2 hi) (up l)).
  assert (length (left_sibling lo l) <= 1)%nat.
  { unfold left_sibling. destruct (Nat.odd lo); [rewrite length_take; lia|simpl; lia]. }
  assert (length (right_sibling hi l) <= 1)%nat.
  { unfold right_sibling. destruct (Nat.even hi); [rewrite length_take; lia|simpl; lia]. }
  lia.
Qed.

Lemma length_siblings_single fuel i l : (length (siblings fuel i i l) <= fuel)%nat.
Proof.
  revert i l. induction fuel as [|fuel IH]; intros i l; cbn [siblings]; [simpl; lia|].
  case_decide; [simpl; lia|]. rewrite !length_app. specialize (IH (Nat.div2 i) (up l)).
  unfold left_sibling, right_sibling. rewrite <- Nat.negb_odd.
  destruct (Nat.odd i); cbn [negb length]; rewrite length_take; lia.
Qed.

Lemma root_total fuel l : l <> [] -> (length l <= 2 ^ fuel)%nat -> is_Some (root fuel l).
Proof.
  revert l. induction fuel as [|fuel IH]; intros l Hne Hf; destruct l as [|x [|y l]]; simpl in *; try done.
  { lia. }
  apply IH; [|rewrite length_up; by apply div2_succ_pow].
  intros E%(f_equal length). rewrite length_up in E. done.
Qed.

(** Binding: a fold that reaches the root of [l] opened nodes of [l], or exposes a collision. *)
Context `{EqDecision A} (ok : A -> Prop).

(** Two different well-formed inputs of one merge with the same image, or of [lone]. *)
Definition collision : Prop :=
  (exists r a b c d, ok a /\ ok b /\ ok c /\ ok d /\ (a, b) <> (c, d) /\ mrg r a b = mrg r c d)
  \/ (exists a b, ok a /\ ok b /\ a <> b /\ lone a = lone b).

Context (Hmrg : forall r a b, ok a -> ok b -> ok (mrg r a b))
  (Hlone : forall a, ok a -> ok (lone a)).

Lemma pair_up_ok r l : Forall ok l -> Forall ok (pair_up (mrg r) lone l).
Proof.
  induction l as [|a|a b l IH] using list_pair_ind; intros Hl; decompose_Forall_hyps; auto.
Qed.

Lemma read_ok k p x q : read k p = Some (x, q) -> Forall ok p -> Forall ok x /\ Forall ok q.
Proof. destruct k, p; intros; simplify_eq/=; decompose_Forall_hyps; auto. Qed.

Lemma pair_up_inj r (l k : list A) : length l = length k -> Forall ok l -> Forall ok k ->
  pair_up (mrg r) lone l = pair_up (mrg r) lone k -> l = k \/ collision.
Proof.
  revert k. induction l as [|a|a b l IH] using list_pair_ind;
    intros [|c [|d k]] Hl Hok Hok' He; decompose_Forall_hyps; auto.
  - destruct (decide (a = c)) as [->|]; [auto|]. right; right; eauto 10.
  - destruct (decide ((a, b) = (c, d))) as [|Hne]; [|right; left; exists r, a, b, c, d; auto 7].
    simplify_eq. destruct (IH k) as [->|]; auto.
Qed.

(** A fold of well-formed nodes gives well-formed nodes. *)
Lemma fold_ok fuel n lo s p s' p' : Forall ok s -> Forall ok p -> fold fuel n lo s p = Some (s', p') -> Forall ok s'.
Proof.
  revert n lo s p. induction fuel as [|fuel IH]; intros n lo s p Hs Hp; cbn [fold]; destruct (decide _); try congruence.
  destruct (read (Nat.odd lo) p) as [[a q]|] eqn:Ea; [|done]. cbn [mbind option_bind]. apply read_ok in Ea as [Ha Hq]; [|done].
  destruct (read _ q) as [[b q']|] eqn:Eb; [|done]. cbn [mbind option_bind]. apply read_ok in Eb as [Hb Hq']; [|done].
  apply IH; [|done]. apply pair_up_ok. by repeat apply Forall_app_2.
Qed.

(** Two folds of as many nodes that reach one node opened the same nodes, or expose a collision. *)
Lemma fold_agree fuel n lo s p s' p' r rest rest' : length s = length s' ->
  Forall ok s -> Forall ok s' -> Forall ok p -> Forall ok p' ->
  fold fuel n lo s p = Some ([r], rest) -> fold fuel n lo s' p' = Some ([r], rest') -> s = s' \/ collision.
Proof.
  revert n lo s p s' p'. induction fuel as [|fuel IH]; intros n lo s p s' p' Hlen Hs Hs' Hp Hp'; cbn [fold]; case_decide; try done;
    try (intros; left; by simplify_eq). rewrite <- Hlen.
  destruct (read (Nat.odd lo) p) as [[a p1]|] eqn:Ha; [|done]. destruct (read (Nat.odd lo) p') as [[a' p1']|] eqn:Ha'; [|done].
  cbn [mbind option_bind]. destruct (read _ p1) as [[b p2]|] eqn:Hb; [|done]. destruct (read _ p1') as [[b' p2']|] eqn:Hb'; [|done].
  cbn [mbind option_bind]. intros Hf Hf'.
  destruct (read_ok _ _ _ _ Ha Hp) as [Hoka Hp1]. destruct (read_ok _ _ _ _ Hb Hp1) as [Hokb Hp2].
  destruct (read_ok _ _ _ _ Ha' Hp') as [Hoka' Hp1']. destruct (read_ok _ _ _ _ Hb' Hp1') as [Hokb' Hp2'].
  pose proof (read_length _ _ _ _ Ha) as La. pose proof (read_length _ _ _ _ Ha') as La'.
  pose proof (read_length _ _ _ _ Hb) as Lb. pose proof (read_length _ _ _ _ Hb') as Lb'.
  assert (Hok1 : Forall ok (a ++ s ++ b)) by (by rewrite !Forall_app). assert (Hok2 : Forall ok (a' ++ s' ++ b')) by (by rewrite !Forall_app).
  assert (Hl : length (a ++ s ++ b) = length (a' ++ s' ++ b')) by (rewrite !length_app; congruence).
  eapply IH in Hf' as [Heq|]; [|by right|..|exact Hf]; auto using pair_up_ok; [|by rewrite !length_pair_up, Hl].
  apply pair_up_inj in Heq as [Heq|]; [|by right|done..]. left.
  apply app_inj_1 in Heq as [_ Heq]; [|congruence]. by apply app_inj_1 in Heq as [Heq _].
Qed.

Lemma fold_binding fuel l lo s p r rest :
  (0 < length s)%nat -> (lo + length s <= length l)%nat -> (length l <= 2 ^ fuel)%nat ->
  Forall ok l -> Forall ok s -> Forall ok p ->
  root fuel l = Some r -> fold fuel (length l) lo s p = Some ([r], rest) ->
  s = take (length s) (drop lo l) \/ collision.
Proof.
  revert l lo s p. induction fuel as [|fuel IH]; intros l lo s p Hs Hlo Hf Hl Hok Hp Hroot Hfold.
  - destruct l as [|x [|y l]]; simpl in *; try lia. simplify_eq.
    destruct lo; simpl in *; [auto|lia].
  - cbn [fold] in Hfold. case_decide as Hn.
    { simplify_eq. destruct l as [|x [|y l]]; simpl in *; try lia. simplify_eq.
      destruct lo; simpl in *; [auto|lia]. }
    rewrite root_step in Hroot by lia.
    destruct (read _ p) as [[a p1]|] eqn:Ha; simplify_eq/=.
    destruct (read _ p1) as [[b p2]|] eqn:Hb; simplify_eq/=.
    destruct (read_ok _ _ _ _ Ha Hp) as [Hoka Hp1]. destruct (read_ok _ _ _ _ Hb Hp1) as [Hokb Hp2].
    set (hi := (lo + length s - 1)%nat) in *.
    set (k := (Nat.div2 hi + 1 - Nat.div2 lo)%nat).
    set (w := take (2 * k) (drop (2 * Nat.div2 lo) l)).
    assert (Hw : left_sibling lo l ++ take (length s) (drop lo l) ++ right_sibling hi l = w).
    { unfold w, k. rewrite <- widen by lia. do 3 f_equal. lia. }
    assert (Hlen : length (a ++ s ++ b) = length w).
    { rewrite <- Hw, !length_app, (read_length _ _ _ _ Ha), (read_length _ _ _ _ Hb).
      rewrite length_left_sibling, length_right_sibling, length_take, length_drop by lia. lia. }
    assert (Hoks : Forall ok (a ++ s ++ b)) by (by rewrite !Forall_app).
    assert (Hokw : Forall ok w) by (by apply Forall_take, Forall_drop).
    set (s1 := pair_up _ lone (a ++ s ++ b)) in *.
    assert (Hs1 : length s1 = length (take k (drop (Nat.div2 lo) (up l)))).
    { unfold s1. rewrite length_pair_up, Hlen, <- length_pair_up with
        (f := mrg (bool_decide (length l = 2%nat))) (g := lone). unfold w. by rewrite up_window. }
    destruct (IH (up l) (Nat.div2 lo) s1 p2) as [Heq|]; auto using pair_up_ok.
    + apply pair_up_nonempty. rewrite !length_app. lia.
    + rewrite Hs1, length_take, length_drop. pose proof (div2_lt_half lo (length l)).
      rewrite length_up. lia.
    + rewrite length_up. by apply div2_succ_pow.
    + by apply pair_up_ok.
    + by apply pair_up_ok.
    + by rewrite length_up.
    + rewrite Hs1, take_length_take, <- up_window in Heq.
      destruct (pair_up_inj _ _ _ Hlen Hoks Hokw Heq) as [Happ|]; [left|by right].
      rewrite <- Hw in Happ. apply app_inj_1 in Happ as [_ Happ].
      * by apply app_inj_1 in Happ as [Happ _]; [|rewrite length_take, length_drop; lia].
      * rewrite (read_length _ _ _ _ Ha), length_left_sibling by lia. done.
Qed.
End Levels.

(** ** The two trees as instances *)

(** Every digest is 32 bytes long. *)
Definition is_hash (h : Hash) : Prop := length h = 32%nat.
#[export] Instance is_hash_dec h : Decision (is_hash h).
Proof. unfold is_hash. apply _. Defined.

Class Blake3Lengths `{B3 : Blake3} : Prop := {
  blake3_hash_len b : is_hash (blake3_hash b);
  merge_subtrees_root_len l r : is_hash (merge_subtrees_root l r);
  merge_subtrees_non_root_len l r : is_hash (merge_subtrees_non_root l r);
}.

Section Trees.
Context `{B3 : Blake3}.

Definition rt_mrg (_ : bool) (a b : Hash) : Hash := hash_pair a b.
Definition rt_lone (a : Hash) : Hash := hash_pair a a.
Definition b3_mrg (r : bool) (a b : Hash) : Hash := b3_merge a b r.
Definition b3_lone (a : Hash) : Hash := a.

Lemma levels_pow (n : nat) : (n <= 2 ^ levels (Z.of_nat n))%nat.
Proof.
  unfold levels. destruct (decide (n <= 1)%nat).
  { pose proof (Nat.pow_nonzero 2 (Z.to_nat (Z.log2_up (Z.of_nat n)))). lia. }
  pose proof (Z.log2_up_spec (Z.of_nat n) ltac:(lia)) as [_ H].
  pose proof (Z.log2_up_nonneg (Z.of_nat n)).
  apply Nat2Z.inj_le. rewrite Nat2Z.inj_pow, Z2Nat.id by lia. done.
Qed.

Lemma levels_le n : n <= 2 ^ 64 -> (levels n <= 64)%nat.
Proof.
  intros H. unfold levels. apply Z.log2_up_le_mono in H.
  rewrite (Z.log2_up_pow2 64) in H by lia. lia.
Qed.

Lemma hash_pairs_even l : Nat.even (length l) = true ->
  hash_pairs l = Ret (pair_up hash_pair rt_lone l).
Proof.
  induction l as [|a|a b l IH] using list_pair_ind; intros H; [done..|].
  simpl in *. by rewrite IH.
Qed.

Lemma hash_pairs_odd l x : Nat.odd (length l) = true -> last l = Some x ->
  hash_pairs (l ++ [x]) = Ret (pair_up hash_pair rt_lone l).
Proof.
  induction l as [|a|a b l IH] using list_pair_ind; intros H Hx; [done|by simplify_eq/=|].
  simpl in *. rewrite Nat.odd_succ, Nat.even_succ in H. rewrite IH; [done..|].
  by destruct l.
Qed.

Lemma start_div2 lo :
  (if Nat.odd lo then Z.of_nat lo - 1 else Z.of_nat lo) / 2 = Z.of_nat (Nat.div2 lo).
Proof.
  destruct (Nat.odd lo) eqn:E; [|apply div2_of_nat].
  apply Nat.odd_spec in E as [m ->]. rewrite Nat.add_1_r, Nat.div2_succ_double.
  replace (Z.of_nat (S (2 * m)) - 1) with (Z.of_nat (2 * m)) by lia.
  by rewrite div2_of_nat, Nat.div2_double.
Qed.

(** The range stays inside the next level. *)
Lemma next_window (n lo k a b : nat) :
  (0 < k)%nat -> (lo + k <= n)%nat -> a = (if Nat.odd lo then 1 else 0)%nat ->
  b = (if Nat.even (lo + k - 1) && (lo + k - 1 + 1 <? n)%nat then 1 else 0)%nat ->
  (Nat.div2 lo + Nat.div2 (S (a + (k + b))) <= Nat.div2 (S n))%nat.
Proof.
  intros Hk Hn -> ->. rewrite !Nat.div2_div.
  assert (lo = 2 * (lo / 2) + if Nat.odd lo then 1 else 0)%nat.
  { rewrite <- Nat.div2_div. pose proof (Nat.div2_odd lo) as E. by destruct (Nat.odd lo). }
  destruct (Nat.even _ && _) eqn:E.
  - apply andb_true_iff in E as [_ E%Nat.ltb_lt]. destruct (Nat.odd lo); dlia.
  - destruct (Nat.odd lo); dlia.
Qed.

Lemma window_parity (lo k a : nat) :
  (0 < k)%nat -> a = (if Nat.odd lo then 1 else 0)%nat ->
  Nat.odd (a + k) = Nat.even (lo + k - 1).
Proof.
  intros Hk ->. rewrite <- Nat.negb_odd.
  replace (Nat.odd (lo + k - 1)) with (negb (Nat.odd (lo + k))).
  - rewrite negb_involutive, !Nat.odd_add. by destruct (Nat.odd lo), (Nat.odd k).
  - replace (lo + k)%nat with (S (lo + k - 1)) at 1 by lia.
    by rewrite Nat.odd_succ, Nat.negb_even.
Qed.

Lemma rt_read_left_spec lo p :
  rt_read_left (Z.of_nat lo) p
  = '(a, p) ← read (Nat.odd lo) p;
    Some (a, if Nat.odd lo then Z.of_nat lo - 1 else Z.of_nat lo, p).
Proof. unfold rt_read_left. rewrite odd_of_nat. by destruct (Nat.odd lo), p. Qed.

(** An odd window is closed with a copy of its last hash, which is what [rt_lone] hashes. *)
Lemma rt_read_right_spec (hi n : nat) cur p {X} (k : list Hash -> list Hash -> res (option X)) :
  (0 < length cur)%nat -> Nat.odd (length cur) = Nat.even hi ->
  (right ← rt_read_right (Z.of_nat hi) (Z.of_nat n) cur p;
   match right with
   | None => mret None
   | Some (cur, p) => level ← hash_pairs cur; k level p
   end)
  = match read (Nat.even hi && (hi + 1 <? n)%nat) p with
    | None => mret None
    | Some (b, p) => k (pair_up hash_pair rt_lone (cur ++ b)) p
    end.
Proof.
  intros Hc Hpar. unfold rt_read_right. rewrite even_of_nat.
  replace (Z.of_nat hi + 1) with (Z.of_nat (hi + 1)) by lia. rewrite ltb_of_nat.
  destruct (Nat.even hi); [destruct (_ <? _)%nat|]; simpl.
  - destruct p as [|s p]; simpl; [done|]. rewrite hash_pairs_even; [done|].
    by rewrite length_app, Nat.add_1_r, Nat.even_succ.
  - destruct (last_is_Some_length cur Hc) as [x Hx].
    rewrite (index_last _ _ Hx). simpl. rewrite app_nil_r. by rewrite (hash_pairs_odd _ x).
  - rewrite app_nil_r, hash_pairs_even; [done|]. by rewrite <- Nat.negb_odd, Hpar.
Qed.

(** One iteration of the source's loop reads what [fold] reads. *)
Lemma rt_verify_loop_fold fuel (n lo : nat) level p :
  (0 < length level)%nat -> (lo + length level <= n)%nat ->
  rt_verify_loop fuel (Z.of_nat n) (Z.of_nat lo) level p
  = Ret (fold rt_mrg rt_lone fuel n lo level p).
Proof.
  revert n lo level p. induction fuel as [|fuel IH]; intros n lo level p Hl Hn;
    cbn [rt_verify_loop fold]; change 1 with (Z.of_nat 1) at 1; rewrite leb_of_nat;
    case_decide as Hn1; (destruct (Nat.leb_spec n 1); [try done|try done]); try lia.
  rewrite rt_read_left_spec.
  destruct (read (Nat.odd lo) p) as [[a q]|] eqn:Ha; [|done]. cbn [mbind option_bind].
  apply read_length in Ha. unfold zlen.
  replace (Z.of_nat lo + Z.of_nat (length level) - 1)
    with (Z.of_nat (lo + length level - 1)) by lia.
  pose proof (next_window n lo (length level) (length a)) as Hw.
  rewrite rt_read_right_spec; [|rewrite length_app; lia|rewrite length_app; by apply window_parity].
  destruct (read _ q) as [[b q']|] eqn:Hb; [|done]. cbn [mbind option_bind].
  apply read_length in Hb. rewrite start_div2, div_ceil2_of_nat, <- app_assoc. apply IH.
  - apply pair_up_nonempty. rewrite !length_app. lia.
  - rewrite length_pair_up, !length_app. by apply Hw.
Qed.

Lemma push_left_spec (lo : nat) l : (lo <= length l)%nat ->
  push_left (Z.of_nat lo) l = Ret (left_sibling lo l).
Proof.
  intros H. unfold push_left, left_sibling. rewrite odd_of_nat. destruct (Nat.odd lo) eqn:E; [|done].
  apply Nat.odd_spec in E as [m ->].
  destruct (lookup_lt_is_Some_2 l (2 * m)) as [x Hx]; [lia|].
  replace (Z.of_nat (2 * m + 1) - 1) with (Z.of_nat (2 * m)) by lia.
  replace (2 * m + 1 - 1)%nat with (2 * m)%nat by lia.
  by rewrite (index_of_nat _ _ _ Hx), (take_1_drop _ _ _ Hx).
Qed.

Lemma push_right_spec (hi : nat) l :
  push_right (Z.of_nat hi) (zlen l) l = Ret (right_sibling hi l).
Proof.
  unfold push_right, right_sibling, zlen. rewrite even_of_nat. destruct (Nat.even hi); [|done].
  replace (Z.of_nat hi + 1) with (Z.of_nat (hi + 1)) by lia. rewrite ltb_of_nat. simpl.
  destruct (Nat.ltb_spec (hi + 1) (length l)) as [Hlt|].
  - destruct (lookup_lt_is_Some_2 l (hi + 1) Hlt) as [x Hx].
    by rewrite (index_of_nat _ _ _ Hx), (take_1_drop _ _ _ Hx).
  - by rewrite drop_ge by lia.
Qed.

Lemma zlen_leb_1 {A} (l : list A) : (zlen l <=? 1) = (length l <=? 1)%nat.
Proof. unfold zlen. apply (leb_of_nat _ 1). Qed.

Lemma div2_mono lo hi n : (lo <= hi < n)%nat ->
  (Nat.div2 lo <= Nat.div2 hi < Nat.div2 (S n))%nat.
Proof.
  intros. split; [rewrite !Nat.div2_div; apply Nat.Div0.div_le_mono; lia|].
  apply div2_lt_half. lia.
Qed.

Lemma rt_proof_loop_spec fuel (lo hi : nat) level proof r :
  (lo <= hi < length level)%nat -> root rt_mrg rt_lone fuel level = Some r ->
  rt_proof_loop fuel (Z.of_nat lo) (Z.of_nat hi) level proof
  = Ret (r, proof ++ siblings rt_mrg rt_lone fuel lo hi level).
Proof.
  revert lo hi level proof. induction fuel as [|fuel IH]; intros lo hi level proof Hr Hroot;
    cbn [rt_proof_loop siblings]; rewrite zlen_leb_1;
    destruct (Nat.leb_spec (length level) 1).
  1, 3: apply root_single in Hroot; [|done]; subst level; simpl; by rewrite app_nil_r.
  { by apply root_0 in Hroot; lia. }
  case_decide; [lia|]. rewrite root_step in Hroot by done.
  rewrite push_left_spec, push_right_spec by lia. cbn [mret res_ret mbind res_bind].
  rewrite !div2_of_nat. erewrite IH; [by rewrite <- !app_assoc| |done].
  rewrite length_pair_up. by apply div2_mono.
Qed.

Lemma b3_next_up l : b3_next l = up b3_mrg b3_lone l.
Proof.
  unfold b3_next, up, zlen, b3_mrg, b3_lone. change 2 with (Z.of_nat 2) at 1.
  replace (Z.of_nat (length l) =? Z.of_nat 2) with (bool_decide (length l = 2%nat)); [done|].
  case_bool_decide; symmetry; [apply Z.eqb_eq|apply Z.eqb_neq]; lia.
Qed.

Lemma b3_root_loop_spec fuel level r :
  root b3_mrg b3_lone fuel level = Some r -> b3_root_loop fuel level = Ret r.
Proof.
  revert level. induction fuel as [|fuel IH]; intros level Hroot; cbn [b3_root_loop]; rewrite zlen_leb_1;
    destruct (Nat.leb_spec (length level) 1).
  1, 3: apply root_single in Hroot; [|done]; by subst level.
  { by apply root_0 in Hroot; lia. }
  rewrite root_step, <- b3_next_up in Hroot by done. by apply IH.
Qed.

Lemma b3_range_proof_loop_spec fuel (lo hi : nat) level proof :
  (lo <= hi < length level)%nat -> (length level <= 2 ^ fuel)%nat ->
  b3_range_proof_loop fuel (Z.of_nat lo) (Z.of_nat hi) level proof
  = Ret (proof ++ siblings b3_mrg b3_lone fuel lo hi level).
Proof.
  revert lo hi level proof. induction fuel as [|fuel IH]; intros lo hi level proof Hr Hf;
    cbn [b3_range_proof_loop siblings]; rewrite zlen_leb_1;
    destruct (Nat.leb_spec (length level) 1); try case_decide; try lia.
  1, 2: by rewrite app_nil_r.
  rewrite push_left_spec, push_right_spec by lia. cbn [mret res_ret mbind res_bind].
  rewrite !div2_of_nat, b3_next_up. erewrite IH; [by rewrite <- !app_assoc| |].
  - rewrite length_up. by apply div2_mono.
  - rewrite length_up. by apply div2_succ_pow.
Qed.

Lemma b3_range_fold_loop_fold fuel (n lo : nat) level p :
  (0 < length level)%nat -> (lo + length level <= n)%nat ->
  b3_range_fold_loop fuel (Z.of_nat n) (Z.of_nat lo) level p
  = fold b3_mrg b3_lone fuel n lo level p.
Proof.
  revert n lo level p. induction fuel as [|fuel IH]; intros n lo level p Hl Hn;
    cbn [b3_range_fold_loop fold]; change 1 with (Z.of_nat 1) at 1; rewrite leb_of_nat;
    case_decide as Hn1; (destruct (Nat.leb_spec n 1); [try done|try done]); try lia.
  replace (if Z.even (Z.of_nat lo) then _ else _) with (rt_read_left (Z.of_nat lo) p)
    by (unfold rt_read_left; rewrite <- Z.negb_odd; by destruct (Z.odd (Z.of_nat lo))).
  rewrite rt_read_left_spec.
  destruct (read (Nat.odd lo) p) as [[a q]|] eqn:Ha; [|done]. cbn [mbind option_bind].
  apply read_length in Ha. unfold zlen.
  replace (Z.of_nat lo + Z.of_nat (length level) - 1)
    with (Z.of_nat (lo + length level - 1)) by lia.
  pose proof (next_window n lo (length level) (length a)) as Hw.
  replace (Z.of_nat (lo + length level - 1) + 1)
    with (Z.of_nat (lo + length level - 1 + 1)) by lia.
  rewrite even_of_nat, ltb_of_nat, start_div2, div_ceil2_of_nat.
  set (right := Nat.even _ && _) in *.
  replace (if right then _ else _) with ('(b, p) ← read right q; Some ((a ++ level) ++ b, p))
    by (destruct right, q; simpl; rewrite ?app_nil_r; done).
  destruct (read right q) as [[b q']|] eqn:Hb; [|done]. cbn [mbind option_bind].
  apply read_length in Hb. rewrite <- app_assoc.
  replace (pair_up _ _ _) with (pair_up (b3_mrg (bool_decide (n = 2%nat))) b3_lone (a ++ level ++ b)).
  - apply IH.
    + apply pair_up_nonempty. rewrite !length_app. lia.
    + rewrite length_pair_up, !length_app. by apply Hw.
  - unfold b3_mrg. f_equal. replace (Z.of_nat n =? 2) with (bool_decide (n = 2%nat)); [done|].
    case_bool_decide; symmetry; [apply Z.eqb_eq|apply Z.eqb_neq]; lia.
Qed.

Lemma even_pred_neq i n : Nat.odd i = true ->
  Z.even (Z.of_nat n) || negb (Z.of_nat i =? Z.of_nat n - 1) = true.
Proof.
  intros E. apply Nat.odd_spec in E as [m ->]. rewrite even_of_nat.
  destruct (Nat.even n) eqn:En; [done|]. simpl. apply negb_true_iff, Z.eqb_neq. intros Hi.
  assert (n = 2 * (m + 1))%nat as -> by lia. rewrite Nat.even_mul in En. done.
Qed.

Lemma b3_pair_flag n : (Z.of_nat n =? 2) = bool_decide (n = 2%nat).
Proof. case_bool_decide; [apply Z.eqb_eq|apply Z.eqb_neq]; lia. Qed.

(** The single-leaf loop is the range loop on a one-leaf range. *)
Lemma b3_fold_loop_fold fuel (n i : nat) acc p : (i < n)%nat ->
  fold b3_mrg b3_lone fuel n i [acc] p
  = '(acc, p) ← b3_fold_loop fuel (Z.of_nat n) (Z.of_nat i) acc p; Some ([acc], p).
Proof.
  revert n i acc p. induction fuel as [|fuel IH]; intros n i acc p Hi;
    cbn [b3_fold_loop fold]; change 1 with (Z.of_nat 1) at 1; rewrite leb_of_nat;
    case_decide as Hn1; (destruct (Nat.leb_spec n 1); [try done|try done]); try lia.
  cbn [length]. replace (i + 1 - 1)%nat with i by lia.
  rewrite div_ceil2_of_nat, div2_of_nat, b3_pair_flag.
  pose proof (div2_lt_half i n Hi) as Hlt.
  destruct (Nat.odd i) eqn:E.
  - rewrite even_pred_neq by done. rewrite (even_of_nat i), <- Nat.negb_odd, E.
    destruct p as [|x p]; simpl; [done|]. by apply IH.
  - rewrite (even_of_nat i), <- Nat.negb_odd, E. simpl. destruct (Nat.ltb_spec (i + 1) n).
    + replace (Z.of_nat i =? Z.of_nat n - 1) with false by (symmetry; apply Z.eqb_neq; lia).
      rewrite orb_true_r. destruct p as [|x p]; simpl; [done|]. by apply IH.
    + assert (n = S i) as -> by lia.
      replace (Z.of_nat i =? Z.of_nat (S i) - 1) with true by (symmetry; apply Z.eqb_eq; lia).
      rewrite even_of_nat, Nat.even_succ, E. simpl. by apply IH.
Qed.

Lemma b3_path_loop_spec fuel (i : nat) level path :
  (i < length level)%nat -> (length level <= 2 ^ fuel)%nat ->
  b3_path_loop fuel level (Z.of_nat i) path
  = Ret (path ++ siblings b3_mrg b3_lone fuel i i level).
Proof.
  revert i level path. induction fuel as [|fuel IH]; intros i level path Hi Hf;
    cbn [b3_path_loop siblings]; rewrite zlen_leb_1;
    destruct (Nat.leb_spec (length level) 1); try case_decide; try lia.
  1, 2: by rewrite app_nil_r.
  assert (Hnext : forall s, b3_path_loop fuel (b3_next level) (Z.of_nat i / 2) (path ++ s)
    = Ret (path ++ s ++ siblings b3_mrg b3_lone fuel (Nat.div2 i) (Nat.div2 i) (up b3_mrg b3_lone level))).
  { intros s. rewrite div2_of_nat, b3_next_up, IH; [by rewrite <- app_assoc| |].
    - rewrite length_up. by apply div2_lt_half.
    - rewrite length_up. by apply div2_succ_pow. }
  unfold left_sibling, right_sibling. unfold zlen. destruct (Nat.odd i) eqn:E.
  - rewrite even_pred_neq by done. rewrite <- Nat.negb_odd, E. cbn [orb negb].
    apply Nat.odd_spec in E as [m ->].
    destruct (lookup_lt_is_Some_2 level (2 * m)) as [x Hx]; [lia|].
    rewrite lxor_1_odd.
    rewrite (index_of_nat _ _ _ Hx). cbn [mret res_ret mbind res_bind]. rewrite Hnext.
    replace (2 * m + 1 - 1)%nat with (2 * m)%nat by lia. by rewrite (take_1_drop _ _ _ Hx).
  - rewrite <- Nat.negb_odd, E. cbn [orb negb].
    pose proof E as E'. apply negb_true_iff in E'. rewrite Nat.negb_odd in E'.
    apply Nat.even_spec in E' as [m ->].
    destruct (decide (2 * m + 1 < length level)%nat).
    + replace (Z.of_nat (2 * m) =? Z.of_nat (length level) - 1) with false
        by (symmetry; apply Z.eqb_neq; lia).
      rewrite orb_true_r. destruct (lookup_lt_is_Some_2 level (2 * m + 1)) as [x Hx]; [lia|].
      rewrite lxor_1_even.
      rewrite (index_of_nat _ _ _ Hx). cbn [mret res_ret mbind res_bind]. by rewrite Hnext, (take_1_drop _ _ _ Hx).
    + replace (length level) with (S (2 * m)) at 1 2 by lia.
      replace (Z.of_nat (2 * m) =? Z.of_nat (S (2 * m)) - 1) with true
        by (symmetry; apply Z.eqb_eq; lia).
      rewrite even_of_nat, Nat.even_succ, E. cbn [orb negb mret res_ret mbind res_bind]. by rewrite Hnext, drop_ge by lia.
Qed.
End Trees.

(** ** Properties *)

Section Properties.
Context `{B3 : Blake3} {BL : Blake3Lengths}.

(** Two different 64-byte inputs of BLAKE3 with the same digest. *)
Definition blake3_collision : Prop :=
  exists x y, x <> y /\ length x = 64%nat /\ length y = 64%nat /\ blake3_hash x = blake3_hash y.

(** Two different pairs of digests one BLAKE3 subtree merge sends to the same digest. *)
Definition merge_collision : Prop :=
  exists r a b c d, is_hash a /\ is_hash b /\ is_hash c /\ is_hash d /\
    (a, b) <> (c, d) /\ b3_merge a b r = b3_merge c d r.

Lemma hash_pair_len a b : is_hash (hash_pair a b).
Proof. apply blake3_hash_len. Qed.

Lemma b3_merge_len a b r : is_hash (b3_merge a b r).
Proof. destruct r; [apply merge_subtrees_root_len|apply merge_subtrees_non_root_len]. Qed.

Lemma hash_pair_collision a b c d : is_hash a -> is_hash b -> is_hash c -> is_hash d ->
  (a, b) <> (c, d) -> hash_pair a b = hash_pair c d -> blake3_collision.
Proof.
  unfold is_hash. intros Ha Hb Hc Hd Hne He. exists (a ++ b), (c ++ d).
  rewrite !length_app. repeat split; try lia; [|done].
  intros [-> ->]%app_inj_1; [done|lia].
Qed.

Lemma rt_collision : collision rt_mrg rt_lone is_hash -> blake3_collision.
Proof.
  intros [(r & a & b & c & d & ? & ? & ? & ? & Hne & He)|(a & b & ? & ? & Hne & He)].
  - by apply (hash_pair_collision a b c d).
  - apply (hash_pair_collision a a b b); try done. congruence.
Qed.

Lemma b3_collision : collision b3_mrg b3_lone is_hash -> merge_collision.
Proof.
  intros [(r & a & b & c & d & ? & ? & ? & ? & Hne & He)|(a & b & ? & ? & Hne & He)]; [|done].
  exists r, a, b, c, d. done.
Qed.

Lemma root_exists {A} (mrg : bool -> A -> A -> A) lone (l : list A) : 0 < zlen l ->
  is_Some (root mrg lone (levels (zlen l)) l).
Proof.
  intros H. apply root_total; [|apply levels_pow]. by intros ->.
Qed.

Lemma b3_root_eq l r : 0 < zlen l ->
  b3_root l = Ret r <-> root b3_mrg b3_lone (levels (zlen l)) l = Some r.
Proof.
  intros H. destruct (root_exists b3_mrg b3_lone l H) as [r' Hr].
  unfold b3_root. rewrite (b3_root_loop_spec _ _ _ Hr), Hr. split; congruence.
Qed.

(** A range given in [Z], as positions. *)
Lemma range_nat (n first count : Z) : 0 <= first -> 0 < count -> first + count <= n -> n < 2 ^ 64 ->
  exists lo hi, first = Z.of_nat lo /\ wrap 64 (first + count - 1) = Z.of_nat hi /\
    (lo <= hi)%nat /\ Z.of_nat hi < n /\ count = Z.of_nat (hi + 1 - lo).
Proof.
  intros. exists (Z.to_nat first), (Z.to_nat (first + count - 1)).
  rewrite wrap_id by (unfold fits; lia). lia.
Qed.

Lemma slice_nat {A} (l : list A) (lo hi : nat) (count : Z) :
  count = Z.of_nat (hi + 1 - lo) ->
  slice l (Z.of_nat lo) (Z.of_nat lo + count) = take (hi + 1 - lo) (drop lo l).
Proof. intros ->. unfold slice. f_equal; [lia|]. by rewrite Nat2Z.id. Qed.

Lemma siblings_bound {A} (mrg : bool -> A -> A -> A) lone (lo hi : nat) (l : list A) :
  zlen l < 2 ^ 64 -> zlen (siblings mrg lone (levels (zlen l)) lo hi l) <= 128.
Proof.
  intros H. pose proof (length_siblings mrg lone (levels (zlen l)) lo hi l).
  pose proof (levels_le (zlen l) ltac:(lia)). unfold zlen in *. lia.
Qed.

(** Past its guards, the verifier accepts when the fold ends on the root alone, with no proof
    element left. *)
Lemma rt_verify_range_fold rt (n lo : nat) s p :
  (0 < length s)%nat -> (lo + length s <= n)%nat -> Z.of_nat n < 2 ^ 64 -> zlen p <= 128 ->
  rt_verify_range rt (Z.of_nat n) (Z.of_nat lo) s p
  = Ret (match fold rt_mrg rt_lone (levels (Z.of_nat n)) n lo s p with
         | Some ([h], []) => bool_decide (h = rt)
         | _ => false
         end).
Proof.
  intros Hs Hn Hb Hp. unfold rt_verify_range, checked_add. rewrite rt_verify_loop_fold by done.
  unfold zlen in *.
  destruct (Z.eqb_spec (Z.of_nat (length s)) 0); [lia|].
  destruct (Z.ltb_spec (Z.of_nat lo + Z.of_nat (length s)) (2 ^ 64)); [|lia].
  destruct (Z.ltb_spec (Z.of_nat n) (Z.of_nat lo + Z.of_nat (length s))); [lia|].
  destruct (Z.ltb_spec 128 (Z.of_nat (length p))); [lia|]. simpl.
  destruct (fold _ _ _ _ _ _ _) as [[l q]|]; [|done].
  destruct q as [|x q], l as [|h [|h' l]]; try done. cbn [length].
  by destruct (Z.eqb_spec (Z.of_nat (S (S (length l)))) 1); [lia|].
Qed.

(** The guards reject before anything is read. *)
Lemma rt_verify_range_guard rt n lo s p :
  0 <= lo -> 0 <= n -> rt_verify_range rt n lo s p <> Ret false ->
  0 < zlen s /\ lo + zlen s <= n /\ lo + zlen s < 2 ^ 64 /\ zlen p <= 128.
Proof.
  intros Hlo Hn. unfold rt_verify_range, checked_add. pose proof (zlen_nonneg s).
  destruct (Z.eqb_spec (zlen s) 0); [done|].
  destruct (Z.ltb_spec (lo + zlen s) (2 ^ 64)); [|done].
  destruct (Z.ltb_spec n (lo + zlen s)); [done|].
  destruct (Z.ltb_spec 128 (zlen p)); [done|]. lia.
Qed.

(** Completeness of weight and manifest range proofs. *)
Lemma rt_range_opens (leaves : list Hash) (first count : Z) :
  0 <= first -> 0 < count -> first + count <= zlen leaves -> zlen leaves < 2 ^ 64 ->
  exists rt proof,
    rt_range_proof leaves first count = Ret (rt, proof)
    /\ (exists p0, rt_range_proof leaves 0 1 = Ret (rt, p0))
    /\ rt_verify_range rt (zlen leaves) first (slice leaves first (first + count)) proof = Ret true.
Proof.
  intros Hf Hc Hn Hb.
  destruct (root_exists rt_mrg rt_lone leaves ltac:(lia)) as [rt Hrt].
  destruct (range_nat _ _ _ Hf Hc Hn Hb) as (lo & hi & -> & Hhi & Hlh & Hhn & Hcount).
  pose proof (siblings_bound rt_mrg rt_lone lo hi leaves Hb).
  exists rt, (siblings rt_mrg rt_lone (levels (zlen leaves)) lo hi leaves).
  unfold rt_range_proof. rewrite Hhi. split_and!.
  - by rewrite (rt_proof_loop_spec _ lo hi _ _ rt) by (unfold zlen in *; by try lia).
  - eexists. change (wrap 64 (0 + 1 - 1)) with (Z.of_nat 0). change 0 with (Z.of_nat 0).
    by rewrite (rt_proof_loop_spec _ 0 0 _ _ rt) by (unfold zlen in *; by try lia).
  - rewrite (slice_nat _ _ hi) by done. unfold zlen in *.
    rewrite rt_verify_range_fold; rewrite ?length_take, ?length_drop; [|unfold zlen; lia..].
    rewrite <- (app_nil_r (siblings _ _ _ _ _ _)), (fold_complete _ _ _ _ _ _ _ rt);
      [|lia|apply levels_pow|done].
    by rewrite bool_decide_true.
Qed.

(** Binding of weight and manifest range proofs. *)
Lemma rt_range_binds (leaves claimed proof : list Hash) (rt : Hash) p0 (first : Z) :
  rt_range_proof leaves 0 1 = Ret (rt, p0) -> 0 <= first -> 0 < zlen leaves < 2 ^ 64 ->
  Forall is_hash leaves -> Forall is_hash claimed -> Forall is_hash proof ->
  rt_verify_range rt (zlen leaves) first claimed proof = Ret true ->
  claimed = slice leaves first (first + zlen claimed) \/ blake3_collision.
Proof.
  intros Hrt Hf Hb Hl Hc Hp Hv.
  destruct (root_exists rt_mrg rt_lone leaves ltac:(lia)) as [rt' Hrt'].
  unfold rt_range_proof in Hrt.
  change (wrap 64 (0 + 1 - 1)) with (Z.of_nat 0) in Hrt. change 0 with (Z.of_nat 0) in Hrt.
  rewrite (rt_proof_loop_spec _ 0 0 _ _ rt') in Hrt by (unfold zlen in *; by try lia). simplify_eq.
  edestruct (rt_verify_range_guard rt (zlen leaves) first claimed proof) as (Hs & Hn & _ & Hpl);
    [done|lia|congruence|].
  unfold zlen in *. rewrite <- (Z2Nat.id first) in * by done. set (lo := Z.to_nat first) in *.
  rewrite rt_verify_range_fold in Hv by (unfold zlen; lia).
  destruct (fold _ _ _ _ _ _ _) as [[[|h [|h' l]] [|x q]]|] eqn:E; simplify_eq/=.
  rewrite bool_decide_eq_true in Hv. subst h.
  eapply (fold_binding rt_mrg rt_lone is_hash) in E as [Heq|Hcol];
    eauto using rt_collision, hash_pair_len, levels_pow; try lia.
  left. rewrite Heq at 1. unfold slice. f_equal; [lia|]. by rewrite Nat2Z.id.
Qed.


(** The weight and manifest verifier is total: none of its unchecked accesses
    ([c[1]], [cur.last().unwrap()], [level[0]]) can panic. *)
Lemma rt_verify_range_total (rt : Hash) (n first : Z) (claimed proof : list Hash) :
  is_u64 n -> 0 <= first -> exists b, rt_verify_range rt n first claimed proof = Ret b.
Proof.
  intros [Hn Hb] Hf. destruct (decide (rt_verify_range rt n first claimed proof = Ret false)) as [|Hne]; [eauto|].
  edestruct rt_verify_range_guard as (Hs & Hle & _ & Hp); [| |exact Hne|]; [done..|].
  rewrite <- (Z2Nat.id first), <- (Z2Nat.id n) by done. unfold zlen in *.
  rewrite rt_verify_range_fold by (unfold zlen; lia). eauto.
Qed.

(** Past its guards, [b3_range_fold] is the fold ending on one node. *)
Lemma b3_range_fold_eq (n lo : nat) s p :
  (0 < length s)%nat -> (lo + length s <= n)%nat -> Z.of_nat n < 2 ^ 64 -> zlen p <= 128 ->
  b3_range_fold (Z.of_nat n) (Z.of_nat lo) s p
  = match fold b3_mrg b3_lone (levels (Z.of_nat n)) n lo s p with
    | Some ([h], []) => Some h
    | _ => None
    end.
Proof.
  intros Hs Hn Hb Hp. unfold b3_range_fold, checked_add. rewrite b3_range_fold_loop_fold by done.
  unfold zlen in *.
  destruct (Z.eqb_spec (Z.of_nat (length s)) 0); [lia|].
  destruct (Z.ltb_spec (Z.of_nat lo + Z.of_nat (length s)) (2 ^ 64)); [|lia]. simpl.
  destruct (Z.ltb_spec (Z.of_nat n) (Z.of_nat lo + Z.of_nat (length s))); [lia|].
  destruct (Z.ltb_spec 128 (Z.of_nat (length p))); [lia|]. simpl.
  destruct (fold _ _ _ _ _ _ _) as [[l q]|]; [|done].
  destruct q as [|x q], l as [|h [|h' l]]; try done. cbn [mbind option_bind length].
  by destruct (Z.eqb_spec (Z.of_nat (S (S (length l)))) 1); [lia|].
Qed.

Lemma b3_range_fold_guard n lo s p h : b3_range_fold n lo s p = Some h ->
  0 < zlen s /\ lo + zlen s <= n /\ lo + zlen s < 2 ^ 64 /\ zlen p <= 128.
Proof.
  unfold b3_range_fold, checked_add. pose proof (zlen_nonneg s).
  destruct (Z.eqb_spec (zlen s) 0); [done|].
  destruct (Z.ltb_spec (lo + zlen s) (2 ^ 64)); [|done]. simpl.
  destruct (Z.ltb_spec n (lo + zlen s)); [done|].
  destruct (Z.ltb_spec 128 (zlen p)); [done|]. lia.
Qed.

(** Completeness and binding of trace range proofs, on the root reached. *)
Lemma b3_range_opens (leaves : list Hash) (first count : Z) :
  0 <= first -> 0 < count -> first + count <= zlen leaves -> zlen leaves < 2 ^ 64 ->
  exists rt proof,
    b3_root leaves = Ret rt /\ b3_range_proof leaves first count = Ret proof
    /\ b3_range_fold (zlen leaves) first (slice leaves first (first + count)) proof = Some rt.
Proof.
  intros Hf Hc Hn Hb.
  destruct (root_exists b3_mrg b3_lone leaves ltac:(lia)) as [rt Hrt].
  destruct (range_nat _ _ _ Hf Hc Hn Hb) as (lo & hi & -> & Hhi & Hlh & Hhn & Hcount).
  pose proof (siblings_bound b3_mrg b3_lone lo hi leaves Hb).
  exists rt, (siblings b3_mrg b3_lone (levels (zlen leaves)) lo hi leaves).
  unfold b3_range_proof. rewrite Hhi. split_and!.
  - apply b3_root_eq; [lia|done].
  - rewrite b3_range_proof_loop_spec; [done|unfold zlen in *; lia|apply levels_pow].
  - rewrite (slice_nat _ _ hi) by done. unfold zlen in *.
    rewrite b3_range_fold_eq; rewrite ?length_take, ?length_drop; [|unfold zlen; lia..].
    by rewrite <- (app_nil_r (siblings _ _ _ _ _ _)), (fold_complete _ _ _ _ _ _ _ rt);
      [|lia|apply levels_pow|].
Qed.

Lemma b3_range_binds (leaves claimed proof : list Hash) (rt : Hash) (first : Z) :
  b3_root leaves = Ret rt -> 0 <= first -> 0 < zlen leaves < 2 ^ 64 ->
  Forall is_hash leaves -> Forall is_hash claimed -> Forall is_hash proof ->
  b3_range_fold (zlen leaves) first claimed proof = Some rt ->
  claimed = slice leaves first (first + zlen claimed) \/ merge_collision.
Proof.
  intros Hrt Hf Hb Hl Hc Hp Hv. apply b3_root_eq in Hrt; [|lia].
  destruct (b3_range_fold_guard _ _ _ _ _ Hv) as (Hs & Hn & _ & Hpl).
  unfold zlen in *. rewrite <- (Z2Nat.id first) in * by done. set (lo := Z.to_nat first) in *.
  rewrite b3_range_fold_eq in Hv by (unfold zlen; lia).
  destruct (fold _ _ _ _ _ _ _) as [[[|h [|h' l]] [|x q]]|] eqn:E; simplify_eq/=.
  eapply (fold_binding b3_mrg b3_lone is_hash) in E as [Heq|Hcol];
    eauto using b3_collision, b3_merge_len, levels_pow; try lia.
  left. rewrite Heq at 1. unfold slice. f_equal; [lia|]. by rewrite Nat2Z.id.
Qed.

(** A single-leaf path is a one-leaf range proof. *)
Lemma b3_fold_range n i leaf path : 0 <= i -> n < 2 ^ 64 ->
  b3_fold n i leaf path = if zlen path <=? 64 then b3_range_fold n i [leaf] path else None.
Proof.
  intros Hi Hn. unfold b3_fold. rewrite (Z.ltb_antisym (zlen path) 64).
  destruct (Z.leb_spec n i) as [Hle|Hlt].
  { destruct (zlen path <=? 64); [|done]. unfold b3_range_fold, checked_add. simpl.
    destruct (_ <? 2 ^ 64); [|done]. simpl.
    by replace (n <? i + zlen [leaf]) with true by (symmetry; apply Z.ltb_lt; unfold zlen; simpl; lia). }
  destruct (zlen path <=? 64) eqn:Hp; [|done]. apply Z.leb_le in Hp. simpl.
  rewrite <- (Z2Nat.id i), <- (Z2Nat.id n) by lia.
  rewrite b3_range_fold_eq by (simpl; lia). rewrite b3_fold_loop_fold by lia.
  destruct (b3_fold_loop _ _ _ _ _) as [[acc [|x q]]|]; done.
Qed.

Lemma b3_path_range (leaves : list Hash) i : 0 <= i < zlen leaves -> zlen leaves < 2 ^ 64 ->
  b3_path leaves i = b3_range_proof leaves i 1.
Proof.
  intros Hi Hb. unfold b3_path, b3_range_proof. replace (i + 1 - 1) with i by lia.
  rewrite wrap_id by (unfold fits; lia). rewrite <- (Z2Nat.id i) by lia. unfold zlen in *.
  rewrite b3_path_loop_spec, b3_range_proof_loop_spec; [done|lia|apply levels_pow|lia|apply levels_pow].
Qed.

Lemma b3_path_length (leaves path : list Hash) i : 0 <= i < zlen leaves -> zlen leaves < 2 ^ 64 ->
  b3_path leaves i = Ret path -> zlen path <= 64.
Proof.
  intros Hi Hb. unfold b3_path. rewrite <- (Z2Nat.id i) by lia. unfold zlen in *.
  rewrite b3_path_loop_spec by (try apply levels_pow; lia). intros ?; simplify_eq. simpl.
  pose proof (length_siblings_single b3_mrg b3_lone (levels (Z.of_nat (length leaves))) (Z.to_nat i) leaves).
  pose proof (levels_le (Z.of_nat (length leaves))). lia.
Qed.

(** Completeness of trace paths. *)
Lemma b3_path_opens (leaves : list Hash) (i : Z) leaf rt :
  zlen leaves < 2 ^ 64 -> get_at leaves i = Some leaf -> b3_root leaves = Ret rt ->
  exists path, b3_path leaves i = Ret path /\ b3_verify rt (zlen leaves) i leaf path = true.
Proof.
  intros Hb Hg Hrt. pose proof (get_at_Some_lt _ _ _ Hg) as Hi.
  destruct (b3_range_opens leaves i 1) as (rt' & proof & Hrt' & Hp & Hf); [lia..|].
  exists proof. rewrite b3_path_range by done. split; [done|].
  unfold b3_verify. apply bool_decide_eq_true. rewrite b3_fold_range by lia.
  assert (Hs : slice leaves i (i + 1) = [leaf]).
  { unfold slice. replace (Z.to_nat (i + 1 - i)) with 1%nat by lia. apply take_1_drop.
    unfold get_at in Hg. by destruct (0 <=? i). }
  rewrite Hs in Hf. rewrite Hf.
  rewrite <- b3_path_range in Hp by done. apply b3_path_length in Hp; [|done..].
  destruct (Z.leb_spec (zlen proof) 64); [congruence|lia].
Qed.

(** Binding of trace paths. *)
Lemma b3_verify_binds (leaves path : list Hash) (i : Z) leaf rt :
  b3_root leaves = Ret rt -> 0 <= i -> 0 < zlen leaves < 2 ^ 64 ->
  Forall is_hash leaves -> is_hash leaf -> Forall is_hash path ->
  b3_verify rt (zlen leaves) i leaf path = true ->
  get_at leaves i = Some leaf \/ merge_collision.
Proof.
  intros Hrt Hi Hb Hl Hleaf Hp Hv. unfold b3_verify in Hv. rewrite bool_decide_eq_true in Hv.
  rewrite b3_fold_range in Hv by lia. destruct (_ <=? 64); [|done].
  destruct (b3_range_fold_guard _ _ _ _ _ Hv) as (_ & Hn & _).
  apply b3_range_binds in Hv as [Heq|]; auto. left.
  unfold slice in Heq. change (zlen [leaf]) with 1 in *. unfold zlen in *.
  replace (Z.to_nat (i + 1 - i)) with 1%nat in Heq by lia.
  destruct (lookup_lt_is_Some_2 leaves (Z.to_nat i)) as [x Hx]; [lia|].
  rewrite (take_1_drop _ _ _ Hx) in Heq. simplify_eq.
  unfold get_at. by destruct (Z.leb_spec 0 i); [|lia].
Qed.


Lemma b3_range_fold_hash n first s p h : 0 <= first -> 0 <= n < 2 ^ 64 -> Forall is_hash s -> Forall is_hash p ->
  b3_range_fold n first s p = Some h -> is_hash h.
Proof.
  intros Hf Hn Hs Hp H. destruct (b3_range_fold_guard _ _ _ _ _ H) as (? & ? & _ & ?). unfold zlen in *.
  rewrite <- (Z2Nat.id first), <- (Z2Nat.id n) in H by lia. rewrite b3_range_fold_eq in H by (unfold zlen; lia).
  destruct (fold _ _ _ _ _ s p) as [[[|x [|]] []]|] eqn:E; simplify_eq/=.
  eapply (fold_ok b3_mrg b3_lone is_hash) in E; eauto; [by apply Forall_inv in E|..]; intros; unfold b3_lone, b3_mrg; auto using b3_merge_len.
Qed.

(** Two proofs of one verdict opened the same nodes. *)
Lemma rt_verify_range_agree rt n first s p s' p' : 0 <= first -> 0 <= n < 2 ^ 64 -> zlen s = zlen s' ->
  Forall is_hash s -> Forall is_hash s' -> Forall is_hash p -> Forall is_hash p' ->
  rt_verify_range rt n first s p = Ret true -> rt_verify_range rt n first s' p' = Ret true -> s = s' \/ blake3_collision.
Proof.
  intros Hf Hn Hlen Hs Hs' Hp Hp' H H'.
  edestruct (rt_verify_range_guard rt n first s p) as (? & ? & _ & ?); [done|lia|congruence|].
  edestruct (rt_verify_range_guard rt n first s' p') as (? & ? & _ & ?); [done|lia|congruence|]. unfold zlen in *.
  rewrite <- (Z2Nat.id first), <- (Z2Nat.id n) in H, H' by lia. rewrite rt_verify_range_fold in H, H' by (unfold zlen; lia).
  destruct (fold _ _ _ _ _ s p) as [[[|h [|]] []]|] eqn:E; simplify_eq/=. destruct (fold _ _ _ _ _ s' p') as [[[|h' [|]] []]|] eqn:E'; simplify_eq/=.
  rewrite bool_decide_eq_true in H, H'. subst h h'.
  assert (s = s' \/ collision rt_mrg rt_lone is_hash) as [?|?]; [|by left|right; by apply rt_collision].
  eapply (fold_agree rt_mrg rt_lone is_hash); [..|exact E|exact E']; try done; intros; unfold rt_lone, b3_lone, rt_mrg, b3_mrg; by auto using hash_pair_len.
Qed.

Lemma b3_range_fold_agree n first s p s' p' h : 0 <= first -> 0 <= n < 2 ^ 64 -> zlen s = zlen s' ->
  Forall is_hash s -> Forall is_hash s' -> Forall is_hash p -> Forall is_hash p' ->
  b3_range_fold n first s p = Some h -> b3_range_fold n first s' p' = Some h -> s = s' \/ merge_collision.
Proof.
  intros Hf Hn Hlen Hs Hs' Hp Hp' H H'.
  destruct (b3_range_fold_guard _ _ _ _ _ H) as (? & ? & _ & ?). destruct (b3_range_fold_guard _ _ _ _ _ H') as (? & ? & _ & ?). unfold zlen in *.
  rewrite <- (Z2Nat.id first), <- (Z2Nat.id n) in H, H' by lia. rewrite b3_range_fold_eq in H, H' by (unfold zlen; lia).
  destruct (fold _ _ _ _ _ s p) as [[[|x [|]] []]|] eqn:E; simplify_eq/=. destruct (fold _ _ _ _ _ s' p') as [[[|x' [|]] []]|] eqn:E'; simplify_eq/=.
  assert (s = s' \/ collision b3_mrg b3_lone is_hash) as [?|?]; [|by left|right; by apply b3_collision].
  eapply (fold_agree b3_mrg b3_lone is_hash); [..|exact E|exact E']; try done; intros; unfold rt_lone, b3_lone, rt_mrg, b3_mrg; by auto using b3_merge_len.
Qed.

Lemma b3_fold_agree n i a p b q h : 0 <= i -> 0 <= n < 2 ^ 64 -> is_hash a -> is_hash b -> Forall is_hash p -> Forall is_hash q ->
  b3_fold n i a p = Some h -> b3_fold n i b q = Some h -> a = b \/ merge_collision.
Proof.
  intros Hi Hn Ha Hb Hp Hq. rewrite !b3_fold_range by lia. destruct (_ <=? 64); [|done]. destruct (_ <=? 64); [|done]. intros H H'.
  destruct (b3_range_fold_agree n i [a] p [b] q h) as [?|]; eauto. left. by simplify_eq.
Qed.

Lemma b3_verify_agree rt n i a p b q : 0 <= i -> 0 <= n < 2 ^ 64 -> is_hash a -> is_hash b -> Forall is_hash p -> Forall is_hash q ->
  b3_verify rt n i a p = true -> b3_verify rt n i b q = true -> a = b \/ merge_collision.
Proof. unfold b3_verify. rewrite !bool_decide_eq_true. apply b3_fold_agree. Qed.
End Properties.

(** ** The BLAKE3 tree of an input *)

Section Blake3Tree.
Context `{B3 : Blake3}.

(** BLAKE3's definition of the tree over a run of chunk chaining values: the left subtree is the
    largest full tree that leaves something on the right; only the outermost merge is the root. *)
Inductive subtree : bool -> list Hash -> Hash -> Prop :=
| subtree_leaf r x : subtree r [x] x
| subtree_node r l (k : nat) a b :
    (2 ^ k < length l <= 2 ^ S k)%nat ->
    subtree false (take (2 ^ k) l) a -> subtree false (drop (2 ^ k) l) b ->
    subtree r l (b3_merge a b r).

(** One level of pairing, the root flag set on a last pair. *)
Definition pair_level (r : bool) (l : list Hash) : list Hash :=
  pair_up (fun a b => b3_merge a b (r && (length l =? 2)%nat)) (fun c => c) l.

Lemma pair_level_next l : b3_next l = pair_level true l.
Proof. unfold b3_next, pair_level, zlen. by rewrite (eqb_of_nat _ 2). Qed.

Lemma div2_pow_bounds k n : (2 ^ k < Nat.div2 (S n) <= 2 ^ S k)%nat ->
  (2 ^ S k < n <= 2 ^ S (S k))%nat.
Proof. rewrite Nat.div2_div. cbn [Nat.pow]. intros. dlia. Qed.

Lemma subtree_lift r l h : (2 <= length l)%nat -> subtree r (pair_level r l) h -> subtree r l h.
Proof.
  intros Hl Hs. remember (pair_level r l) as l' eqn:E. revert l Hl E.
  induction Hs as [r x|r l' k a b Hk Ha IHa Hb IHb]; intros l Hl E.
  - destruct l as [|y [|z [|w l]]]; try (simpl in Hl; lia); unfold pair_level in E; simpl in E;
      [|by destruct l]. rewrite andb_true_r in E. simplify_eq.
    apply (subtree_node _ _ 0); [simpl; lia|apply subtree_leaf..].
  - subst l'. unfold pair_level in Hk. rewrite length_pair_up in Hk. apply div2_pow_bounds in Hk.
    assert (3 <= length l)%nat by (pose proof (Nat.pow_nonzero 2 k); cbn [Nat.pow] in Hk; lia).
    assert (Hflag : pair_level r l = pair_up (fun a b => b3_merge a b false) (fun c => c) l).
    { unfold pair_level. destruct (Nat.eqb_spec (length l) 2); [lia|]. by rewrite andb_false_r. }
    apply (subtree_node _ _ (S k)); [done| |]; cbn [Nat.pow].
    + apply IHa; [rewrite length_take; cbn [Nat.pow] in Hk; pose proof (Nat.pow_nonzero 2 k); lia|].
      rewrite Hflag, <- pair_up_take. unfold pair_level. done.
    + rewrite Hflag, <- pair_up_drop in *.
      destruct (decide (2 <= length (drop (2 * 2 ^ k) l))%nat) as [|Hshort]; [by apply IHb|].
      rewrite length_drop in Hshort. cbn [Nat.pow] in Hk.
      destruct (drop (2 * 2 ^ k) l) as [|x [|y m]] eqn:Ed.
      * apply (f_equal length) in Ed. rewrite length_drop in Ed. simpl in Ed. lia.
      * exact Hb.
      * apply (f_equal length) in Ed. rewrite length_drop in Ed. simpl in Ed. lia.
Qed.

Lemma root_subtree fuel l h : root b3_mrg b3_lone fuel l = Some h -> subtree true l h.
Proof.
  revert l. induction fuel as [|fuel IH]; intros l Hroot;
    (destruct (decide (length l <= 1)%nat); [apply root_single in Hroot as ->; [apply subtree_leaf|done]|]).
  { apply root_0 in Hroot. lia. }
  rewrite root_step, <- b3_next_up, pair_level_next in Hroot by lia.
  apply subtree_lift; [lia|by apply IH].
Qed.

(** C22: The level-by-level trace tree is the BLAKE3 tree: what [b3_root] computes over chunk
    chaining values is the root BLAKE3's recursive left-full construction gives, with the root
    flag on the outermost merge only. *)
Theorem b3_root_is_blake3_tree (cvs : list Hash) : cvs <> [] ->
  exists rt, b3_root cvs = Ret rt /\ subtree true cvs rt.
Proof.
  intros Hne. assert (0 < zlen cvs) by (destruct cvs; [done|rewrite zlen_cons; pose proof (zlen_nonneg cvs); lia]).
  destruct (root_exists b3_mrg b3_lone cvs) as [rt Hrt]; [done|].
  exists rt. split; [by apply b3_root_eq|by eapply root_subtree].
Qed.

Lemma subtree_nonempty r l a : subtree r l a -> (0 < length l)%nat.
Proof. destruct 1; simpl; lia. Qed.

(** The construction is deterministic. *)
Lemma subtree_det r l a b : subtree r l a -> subtree r l b -> a = b.
Proof.
  intros Ha. revert b. induction Ha as [r x|r l k a1 a2 Hk Ha1 IH1 Ha2 IH2]; intros b Hb.
  - inversion Hb as [|? ? k ? ? Hk]; subst; [done|]. pose proof (Nat.pow_nonzero 2 k). simpl in Hk. lia.
  - inversion Hb as [|? ? k' b1 b2 Hk' Hb1 Hb2]; subst.
    + pose proof (Nat.pow_nonzero 2 k). simpl in Hk. lia.
    + assert (k = k') as ->; [|f_equal; eauto].
      destruct (Nat.lt_total k k') as [Hlt|[|Hlt]]; [|done|].
      * assert (2 ^ S k <= 2 ^ k')%nat by (apply Nat.pow_le_mono_r; lia). lia.
      * assert (2 ^ S k' <= 2 ^ k)%nat by (apply Nat.pow_le_mono_r; lia). lia.
Qed.
End Blake3Tree.

(** ** Chunks of an input *)

(** BLAKE3's documented construction: an input longer than one chunk hashes to the root of the
    tree over its chunk chaining values; chaining values are digests. *)
Class Blake3Chunks `{B3 : Blake3} : Prop := {
  blake3_hash_chunks data : B3_CHUNK < zlen data -> subtree true (chunk_cvs 0 data) (blake3_hash data);
  chunk_chaining_value_len o c : is_hash (chunk_chaining_value o c);
}.

Section Chunks.
Context `{B3 : Blake3}.

Abbreviation CHUNK := 1024%nat.

(** Two inputs of one length with the same digest, or the same chaining value at one offset. *)
Definition chunk_collision : Prop :=
  exists x y, x <> y /\ length x = length y /\
    (blake3_hash x = blake3_hash y \/ exists o, chunk_chaining_value o x = chunk_chaining_value o y).

Lemma chunk_cvs_cons f b : b <> [] ->
  chunk_cvs f b = b3_chunk_cv (take CHUNK b) f :: chunk_cvs (f + 1) (drop CHUNK b).
Proof.
  intros Hb. unfold chunk_cvs. change (Z.to_nat B3_CHUNK) with CHUNK.
  rewrite chunks_cons by (done || lia). cbn [imap]. f_equal; [f_equal; lia|].
  apply imap_ext. intros i x _. simpl. f_equal. lia.
Qed.

Lemma chunk_cvs_length f b : zlen (chunk_cvs f b) = div_ceil (zlen b) B3_CHUNK.
Proof. unfold chunk_cvs, zlen at 1. rewrite length_imap. by rewrite length_chunks by (unfold B3_CHUNK; lia). Qed.

(** A run of whole chunks of the input has the chaining values of those chunks. *)
Lemma chunk_cvs_window (b : list byte) (i j : nat) :
  chunk_cvs (Z.of_nat i) (take (j * CHUNK) (drop (i * CHUNK) b)) = take j (drop i (chunk_cvs 0 b)).
Proof.
  unfold chunk_cvs. change (Z.to_nat B3_CHUNK) with CHUNK.
  rewrite chunks_take, chunks_drop by lia. apply list_eq. intros n.
  rewrite list_lookup_imap, !lookup_take.
  case_decide; [|done]. rewrite !lookup_drop, list_lookup_imap.
  destruct (chunks CHUNK b !! (i + n)%nat); simpl; [|done]. do 2 f_equal. lia.
Qed.

Lemma chunk_cvs_slice (b : list byte) (first e : Z) : 0 <= first -> first <= e ->
  chunk_cvs first (slice b (first * B3_CHUNK) (Z.min (zlen b) (e * B3_CHUNK)))
  = slice (chunk_cvs 0 b) first e.
Proof.
  intros Hf He. unfold slice.
  rewrite <- chunk_cvs_window, Z2Nat.id by lia. f_equal.
  replace (Z.to_nat (first * B3_CHUNK)) with (Z.to_nat first * CHUNK)%nat by (unfold B3_CHUNK; rewrite Z2Nat.inj_mul by lia; done).
  destruct (decide (e * B3_CHUNK <= zlen b)); unfold B3_CHUNK, zlen in *.
  - f_equal. lia.
  - rewrite !take_ge; [done|rewrite length_drop; lia..].
Qed.

(** Equal chaining values pin the bytes. *)
Lemma chunk_cvs_inj f b c : length b = length c -> chunk_cvs f b = chunk_cvs f c ->
  b = c \/ chunk_collision.
Proof.
  remember (length b) as n eqn:Hn. revert f b c Hn.
  induction n as [n IH] using lt_wf_ind. intros f b c -> Hl He.
  destruct (decide (b = [])) as [->|Hb]; [left; by destruct c|].
  assert (Hc : c <> []) by (intros ->; by destruct b).
  assert (0 < length b)%nat by (destruct b; [done|simpl; lia]).
  rewrite (chunk_cvs_cons _ b), (chunk_cvs_cons _ c) in He by done.
  injection He as Hh Ht. apply (IH (length (drop CHUNK b))) in Ht as [Ht|]; [|by right| |done|].
  - destruct (decide (take CHUNK b = take CHUNK c)) as [Heq|Hne].
    + left. by rewrite <- (take_drop CHUNK b), <- (take_drop CHUNK c), Heq, Ht.
    + right. exists (take CHUNK b), (take CHUNK c). split; [done|]. split; [rewrite !length_take; lia|].
      right. eexists. exact Hh.
  - rewrite length_drop. lia.
  - rewrite !length_drop. lia.
Qed.

Context {BL : Blake3Lengths} {BC : Blake3Chunks}.

Lemma chunk_cvs_hashes f b : Forall is_hash (chunk_cvs f b).
Proof.
  apply Forall_lookup. intros i x. unfold chunk_cvs. rewrite list_lookup_imap.
  destruct (_ !! i); intros ?; simplify_eq/=. apply chunk_chaining_value_len.
Qed.

(** The trace root of the chaining values of a long input is its digest. *)
Lemma b3_root_chunks data : B3_CHUNK < zlen data -> b3_root (chunk_cvs 0 data) = Ret (blake3_hash data).
Proof.
  intros Hd. assert (0 < zlen (chunk_cvs 0 data)).
  { rewrite chunk_cvs_length. apply div_ceil_pos; unfold B3_CHUNK in *; lia. }
  apply b3_root_eq; [done|].
  destruct (root_exists b3_mrg b3_lone (chunk_cvs 0 data)) as [rt Hrt]; [done|].
  rewrite Hrt. f_equal. eapply subtree_det; [by eapply root_subtree|by apply blake3_hash_chunks].
Qed.

(** The guards of [b3_leaf_from_chunks], on an input of fewer than 2^63 bytes. *)
Lemma b3_leaf_from_chunks_guard total first bytes proof h : 0 < total < 2 ^ 63 -> 0 <= first ->
  b3_leaf_from_chunks total first bytes proof = Some h ->
  let count := div_ceil (zlen bytes) B3_CHUNK in
  0 < count /\ first + count <= div_ceil total B3_CHUNK
  /\ zlen bytes = Z.min total ((first + count) * B3_CHUNK) - first * B3_CHUNK
  /\ h = (if div_ceil total B3_CHUNK =? 1 then blake3_hash bytes else h)
  /\ (div_ceil total B3_CHUNK <> 1 ->
      b3_range_fold (div_ceil total B3_CHUNK) first (chunk_cvs first bytes) proof = Some h).
Proof.
  intros Ht Hf. unfold b3_leaf_from_chunks, checked_add.
  pose proof (div_ceil_pos total B3_CHUNK ltac:(done) ltac:(lia)).
  pose proof (div_ceil_spec total B3_CHUNK ltac:(done)) as Hdc.
  pose proof (div_ceil_spec (zlen bytes) B3_CHUNK ltac:(done)). pose proof (zlen_nonneg bytes).
  rewrite Z.max_l by lia. set (count := div_ceil (zlen bytes) B3_CHUNK) in *.
  set (n := div_ceil total B3_CHUNK) in *.
  destruct (_ <? 2 ^ 64); [|done]. cbn [mbind option_bind].
  destruct (Z.eqb_spec count 0); [done|]. destruct (Z.ltb_spec n (first + count)); [done|]. cbn [orb].
  unfold B3_CHUNK in *.
  assert (Hsm : forall x, 0 <= x <= n -> wrap 64 (x * 1024) = x * 1024).
  { intros. apply wrap_id. unfold fits. lia. }
  rewrite !Hsm by lia. rewrite wrap_id by (unfold fits; lia).
  destruct (Z.eqb_spec (zlen bytes) (Z.min total ((first + count) * 1024) - first * 1024)); [|done].
  cbn [negb]. intros Hr. destruct (Z.eqb_spec n 1).
  - destruct (zlen proof =? 0); simplify_eq. split_and!; (lia || done).
  - split_and!; (lia || done).
Qed.
End Chunks.

Section ChunkProperties.
Context `{B3 : Blake3} {BL : Blake3Lengths} {BC : Blake3Chunks}.

(** Completeness of chunk proofs. *)
Lemma b3_chunks_opens (data : list byte) (first count : Z) :
  0 < zlen data < 2 ^ 63 -> 0 <= first -> 0 < count ->
  first + count <= div_ceil (zlen data) B3_CHUNK ->
  exists proof, b3_chunks_proof data first count = Ret proof
    /\ b3_leaf_from_chunks (zlen data) first
         (slice data (first * B3_CHUNK) (Z.min (zlen data) ((first + count) * B3_CHUNK))) proof
       = Some (blake3_hash data).
Proof.
  intros Hd Hf Hc Hn. pose proof (div_ceil_spec (zlen data) B3_CHUNK ltac:(done)) as Hdc.
  set (n := div_ceil (zlen data) B3_CHUNK) in *.
  set (bytes := slice data _ _).
  assert (Hlen : zlen bytes = Z.min (zlen data) ((first + count) * B3_CHUNK) - first * B3_CHUNK)
    by (apply zlen_slice; unfold B3_CHUNK in *; lia).
  assert (Hcvs : chunk_cvs first bytes = slice (chunk_cvs 0 data) first (first + count))
    by (apply chunk_cvs_slice; lia).
  assert (Hcn : zlen (chunk_cvs 0 data) = n) by apply chunk_cvs_length.
  assert (Hcount : div_ceil (zlen bytes) B3_CHUNK = count).
  { rewrite <- (chunk_cvs_length first), Hcvs, zlen_slice; lia. }
  unfold b3_chunks_proof, b3_leaf_from_chunks, checked_add.
  rewrite Hcount, Hcn, Z.max_l, Hlen by lia. fold n. unfold B3_CHUNK in *.
  destruct (Z.ltb_spec (first + count) (2 ^ 64)); [|lia]. cbn [mbind option_bind].
  assert (Hsm : forall x, 0 <= x <= n -> wrap 64 (x * 1024) = x * 1024).
  { intros. apply wrap_id. unfold fits. lia. }
  rewrite !Hsm, wrap_id by (unfold fits; lia).
  destruct (Z.eqb_spec count 0); [lia|]. destruct (Z.ltb_spec n (first + count)); [lia|].
  rewrite Z.eqb_refl. cbn [orb negb].
  destruct (Z.leb_spec n 1).
  - exists []. split; [done|]. destruct (Z.eqb_spec n 1); [|lia]. cbn. do 2 f_equal.
    unfold bytes. replace first with 0 by lia. replace count with 1 by lia. unfold slice, zlen in *.
    change (Z.to_nat (0 * 1024)) with 0%nat. rewrite drop_0. apply take_ge. lia.
  - destruct (b3_range_opens (chunk_cvs 0 data) first count) as (rt & proof & Hrt & Hp & Hfold); [lia..|].
    exists proof. split; [done|]. destruct (Z.eqb_spec n 1); [lia|].
    rewrite b3_root_chunks in Hrt by (unfold B3_CHUNK; lia). by rewrite Hcvs, <- Hcn, Hfold; simplify_eq.
Qed.

(** Binding of chunk proofs. *)
Lemma b3_chunks_binds (data bytes : list byte) (first : Z) (proof : list Hash) :
  0 < zlen data < 2 ^ 63 -> 0 <= first -> Forall is_hash proof ->
  b3_leaf_from_chunks (zlen data) first bytes proof = Some (blake3_hash data) ->
  bytes = slice data (first * B3_CHUNK) (first * B3_CHUNK + zlen bytes)
  \/ merge_collision \/ chunk_collision.
Proof.
  intros Hd Hf Hp Hv. apply b3_leaf_from_chunks_guard in Hv as (Hc & Hn & Hlen & Hone & Hmany); [|lia..].
  pose proof (div_ceil_spec (zlen data) B3_CHUNK ltac:(done)) as Hdc.
  set (n := div_ceil (zlen data) B3_CHUNK) in *.
  set (count := div_ceil (zlen bytes) B3_CHUNK) in *.
  set (own := slice data _ _).
  assert (Hown : zlen own = zlen bytes) by (unfold own; rewrite zlen_slice; unfold B3_CHUNK in *; lia).
  destruct (Z.eqb_spec n 1) as [H1|H1].
  - destruct (decide (bytes = data)) as [->|Hne].
    + left. unfold own, slice, B3_CHUNK. replace first with 0 by lia. unfold zlen.
      change (Z.to_nat (0 * 1024)) with 0%nat. rewrite drop_0, take_ge by lia. done.
    + right; right. exists bytes, data. split; [done|]. split; [unfold zlen, B3_CHUNK in *; lia|by left].
  - specialize (Hmany H1).
    assert (Hcn : zlen (chunk_cvs 0 data) = n) by apply chunk_cvs_length.
    rewrite <- Hcn in Hmany.
    apply b3_range_binds in Hmany as [Heq|]; [|by auto|..|done]; auto using chunk_cvs_hashes.
    + rewrite chunk_cvs_length in Heq. fold count in Heq.
      rewrite <- chunk_cvs_slice in Heq by lia.
      apply chunk_cvs_inj in Heq as [Heq|]; [left|by auto|].
      * rewrite Heq at 1. unfold own. do 2 f_equal. lia.
      * enough (zlen bytes = zlen (slice data (first * B3_CHUNK) (Z.min (zlen data) ((first + count) * B3_CHUNK))))
          by (unfold zlen in *; lia).
        rewrite zlen_slice; unfold B3_CHUNK in *; lia.
    + apply b3_root_chunks. unfold B3_CHUNK in *. lia.
    + unfold B3_CHUNK in *. lia.
Qed.


(** A single chunk of an input is a run of one chunk. *)
Lemma b3_leaf_from_chunk_chunks total c chunk path h : 0 <= c -> 0 < total < 2 ^ 63 ->
  b3_leaf_from_chunk total c chunk path = Some h -> b3_leaf_from_chunks total c chunk path = Some h /\ zlen chunk = Z.min total ((c + 1) * B3_CHUNK) - c * B3_CHUNK.
Proof.
  intros Hc Ht. unfold b3_leaf_from_chunk, b3_leaf_from_chunks, checked_add, checked_sub.
  pose proof (div_ceil_pos total B3_CHUNK ltac:(done) ltac:(lia)) as Hpos. pose proof (div_ceil_spec total B3_CHUNK ltac:(done)) as Hdc.
  rewrite Z.max_l by lia. set (n := div_ceil total B3_CHUNK) in *. unfold B3_CHUNK in *.
  destruct (Z.leb_spec n c) as [|Hcn]; [by destruct (if wrap 64 (c + 1) <? n then _ else _)|].
  rewrite !(wrap_id 64 (c + 1)) by (unfold fits; lia). rewrite !(wrap_id 64 (c * 1024)) by (unfold fits; lia).
  assert (Hexp : (if c + 1 <? n then Some 1024 else if c * 1024 <=? total then Some (total - c * 1024) else None) = Some (Z.min total ((c + 1) * 1024) - c * 1024)).
  { destruct (Z.ltb_spec (c + 1) n); [f_equal; lia|]. destruct (Z.leb_spec (c * 1024) total); [f_equal; lia|lia]. }
  rewrite Hexp. cbn [mbind option_bind orb].
  destruct (Z.eqb_spec (zlen chunk) (Z.min total ((c + 1) * 1024) - c * 1024)) as [Hl|]; [|done]. cbn [negb].
  assert (Hcount : div_ceil (zlen chunk) 1024 = 1) by (rewrite Hl; unfold div_ceil; dlia). rewrite Hcount.
  destruct (Z.ltb_spec (c + 1) (2 ^ 64)); [|lia]. cbn [mbind option_bind]. destruct (Z.eqb_spec 1 0); [lia|].
  destruct (Z.ltb_spec n (c + 1)); [lia|]. rewrite (wrap_id 64 ((c + 1) * 1024)), wrap_id by (unfold fits; lia).
  rewrite <- Hl, Z.eqb_refl. cbn [orb negb]. intros Hr. split; [|done]. destruct (n =? 1); [done|].
  rewrite b3_fold_range in Hr by lia. destruct (zlen path <=? 64); [|done].
  assert (Hcv : chunk_cvs c chunk = [b3_chunk_cv chunk c]); [|by rewrite Hcv].
  assert (Hne : chunk <> []) by (intros ->; unfold zlen in Hl; simpl in Hl; lia).
  rewrite chunk_cvs_cons by done. unfold zlen in Hl. rewrite take_ge, drop_ge by lia. done.
Qed.

(** Two runs of chunks of inputs of one length with one digest hold the same bytes. *)
Lemma b3_leaf_from_chunks_agree total first b p b' p' h : 0 < total < 2 ^ 63 -> 0 <= first -> zlen b = zlen b' -> Forall is_hash p -> Forall is_hash p' ->
  b3_leaf_from_chunks total first b p = Some h -> b3_leaf_from_chunks total first b' p' = Some h -> b = b' \/ merge_collision \/ chunk_collision.
Proof.
  intros Ht Hf Hlen Hp Hp' H H'.
  destruct (b3_leaf_from_chunks_guard _ _ _ _ _ Ht Hf H) as (Hc & Hn & Hl & Hone & Hmany).
  destruct (b3_leaf_from_chunks_guard _ _ _ _ _ Ht Hf H') as (_ & _ & _ & Hone' & Hmany').
  destruct (decide (b = b')) as [|Hne]; [by left|right]. destruct (Z.eqb_spec (div_ceil total B3_CHUNK) 1) as [H1|H1].
  - right. exists b, b'. split; [done|]. split; [unfold zlen in Hlen; lia|]. left. congruence.
  - specialize (Hmany H1). specialize (Hmany' H1).
    pose proof (div_ceil_spec total B3_CHUNK ltac:(done)) as Hdc. unfold B3_CHUNK in *.
    assert (Hn64 : 0 <= div_ceil total 1024 < 2 ^ 64) by lia.
    assert (Hcv : zlen (chunk_cvs first b) = zlen (chunk_cvs first b')) by (rewrite !chunk_cvs_length; congruence).
    destruct (b3_range_fold_agree _ _ _ _ _ _ _ Hf Hn64 Hcv (chunk_cvs_hashes _ _) (chunk_cvs_hashes _ _) Hp Hp' Hmany Hmany') as [Heq|]; [|by left].
    apply chunk_cvs_inj in Heq as [?|?]; [done|by right|unfold zlen in Hlen; lia].
Qed.

Lemma b3_leaf_from_chunks_hash total first bytes proof h : 0 < total < 2 ^ 63 -> 0 <= first -> Forall is_hash proof ->
  b3_leaf_from_chunks total first bytes proof = Some h -> is_hash h.
Proof.
  intros Ht Hf Hp H. destruct (b3_leaf_from_chunks_guard _ _ _ _ _ Ht Hf H) as (Hc & Hn & Hl & Hone & Hmany).
  pose proof (div_ceil_spec total B3_CHUNK ltac:(done)). unfold B3_CHUNK in *.
  destruct (Z.eqb_spec (div_ceil total 1024) 1) as [H1|H1]; [rewrite Hone; apply blake3_hash_len|].
  eapply b3_range_fold_hash; [..|by apply Hmany]; [done|lia|apply chunk_cvs_hashes|done].
Qed.

Lemma b3_leaf_from_chunk_agree total c b p b' p' h : 0 < total < 2 ^ 63 -> 0 <= c -> Forall is_hash p -> Forall is_hash p' ->
  b3_leaf_from_chunk total c b p = Some h -> b3_leaf_from_chunk total c b' p' = Some h -> b = b' \/ merge_collision \/ chunk_collision.
Proof.
  intros Ht Hc Hp Hp' H H'. apply b3_leaf_from_chunk_chunks in H as [H Hl]; [|done..]. apply b3_leaf_from_chunk_chunks in H' as [H' Hl']; [|done..].
  apply (b3_leaf_from_chunks_agree total c b p b' p' h); try done. congruence.
Qed.
End ChunkProperties.

(** ** Concrete inputs

    A toy digest with the laws of the classes above, and the theorems applied to three leaves. *)

Module Toy.
(** 32 bytes of a polynomial in the first 64 input bytes. *)
Definition digest (seed : Z) (b : list byte) : Hash :=
  to_le 32 (foldl (fun acc x => Z.land (Z.shiftl acc 8 + acc + u8_of_byte x + 1) (Z.ones 64)) seed (take 64 b)).

Definition short_inputs : Blake3 := {|
  blake3_hash := digest 1;
  merge_subtrees_root l r := digest 2 (l ++ r);
  merge_subtrees_non_root l r := digest 3 (l ++ r);
  chunk_chaining_value o c := digest (4 + o) c;
|}.

#[export] Instance toy_blake3 : Blake3 := {|
  blake3_hash data :=
    if zlen data <=? B3_CHUNK then digest 1 data
    else match b3_root (B3 := short_inputs) (chunk_cvs (B3 := short_inputs) 0 data) with
         | Ret h => h
         | Panic => digest 1 data
         end;
  merge_subtrees_root := merge_subtrees_root (Blake3 := short_inputs);
  merge_subtrees_non_root := merge_subtrees_non_root (Blake3 := short_inputs);
  chunk_chaining_value := chunk_chaining_value (Blake3 := short_inputs);
|}.

Lemma digest_len s b : is_hash (digest s b).
Proof. apply length_to_le. Qed.

Lemma b3_root_len (B3 : Blake3) l h :
  (forall a b r, is_hash (b3_merge a b r)) -> Forall is_hash l -> b3_root l = Ret h -> is_hash h.
Proof.
  intros Hm. unfold b3_root. generalize (levels (zlen l)) as fuel. intros fuel. revert l.
  induction fuel as [|fuel IH]; intros l Hl; simpl; destruct (zlen l <=? 1).
  - unfold index, get_at. simpl. destruct l; simpl; intros ?; simplify_eq. by apply Forall_inv in Hl.
  - done.
  - unfold index, get_at. simpl. destruct l; simpl; intros ?; simplify_eq. by apply Forall_inv in Hl.
  - apply IH. unfold b3_next. generalize (zlen l =? 2). intros f.
    induction l as [|a|a b l IHl] using list_pair_ind; simpl; [done..|].
    apply Forall_cons in Hl as [_ Hl]. apply Forall_cons in Hl as [_ Hl]. constructor; auto.
Qed.

#[export] Instance toy_lengths : Blake3Lengths.
Proof.
  split; try (intros; apply digest_len). intros b. cbn [blake3_hash toy_blake3].
  destruct (zlen b <=? B3_CHUNK); [apply digest_len|].
  destruct (b3_root _) eqn:E; [|apply digest_len].
  eapply b3_root_len; [| |exact E].
  - intros ?? []; apply digest_len.
  - apply Forall_lookup. intros i x. unfold chunk_cvs. rewrite list_lookup_imap.
    destruct (_ !! i); intros ?; simplify_eq/=. apply digest_len.
Qed.

#[export] Instance toy_chunks : Blake3Chunks.
Proof.
  split; [|intros; apply digest_len]. intros data Hd. cbn [blake3_hash toy_blake3].
  destruct (Z.leb_spec (zlen data) B3_CHUNK); [lia|].
  assert (0 < zlen (chunk_cvs 0 data)).
  { rewrite chunk_cvs_length. apply div_ceil_pos; unfold B3_CHUNK in *; lia. }
  destruct (root_exists b3_mrg b3_lone (chunk_cvs 0 data)) as [rt Hrt]; [done|].
  assert (b3_root (B3 := short_inputs) (chunk_cvs (B3 := short_inputs) 0 data) = Ret rt) as ->
    by exact (proj2 (b3_root_eq _ _ H0) Hrt).
  by eapply root_subtree.
Qed.

(** A proof the code computed, where it computed one. *)
Definition the (r : res (list Hash)) : list Hash := match r with Ret p => p | Panic => [] end.
Definition root_of (leaves : list Hash) : Hash := match b3_root leaves with Ret h => h | Panic => [] end.
Definition rt_root_of (leaves : list Hash) : Hash :=
  match rt_range_proof leaves 0 1 with Ret (h, _) => h | Panic => [] end.

Definition leaves : list Hash := (fun i => digest 5 [byte_of_u8 i]) <$> [1; 2; 3].
Definition input : list byte := replicate 1500 (byte_of_u8 7).
End Toy.

Section Witnesses.
Import Toy.



Lemma b3_root_is_blake3_tree_witness : exists rt, b3_root leaves = Ret rt /\ subtree true leaves rt.
Proof. apply (b3_root_is_blake3_tree leaves). done. Defined.

End Witnesses.
