(* ===== verification/Float.v ===== *)
(** * Floating point: [f32], [f64] and half precision ([verifiable-inference/src/f16.rs])

    The [f32] and [f64] of the language are the binary32 and binary64 of the
    Standard Library's executable IEEE specification; a NaN carries no payload, and
    the source only asks whether a value is one.  The half-precision conversions
    of the source work on bit patterns, and so do their definitions here.  The
    theorems state that the widening conversion is exact and injective, and that the
    narrowing one rounds to the nearest half, ties to even. *)
From S2P Require Import Prelude.
From Stdlib Require Export SpecFloat.
#[local] Open Scope Z_scope.

(** ** The types of the language *)

Definition f32 : Type := spec_float.
Definition f64 : Type := spec_float.

(** [f32::from_bits] *)
Definition f32_from_bits (b : Z) : f32 :=
  let sign := Z.testbit b 31 in
  let exp := Z.land (Z.shiftr b 23) 0xff in
  let man := Z.land b 0x7fffff in
  if exp =? 0xff then (if man =? 0 then S754_infinity sign else S754_nan)
  else match (if exp =? 0 then man else man + 2 ^ 23) with
       | Zpos m => S754_finite sign m (Z.max exp 1 - 150)
       | _ => S754_zero sign
       end.

(** [f32::to_bits]; the canonical NaN. *)
Definition f32_to_bits (x : f32) : Z :=
  let sgn (s : bool) := if s then 2 ^ 31 else 0 in
  match x with
  | S754_zero s => sgn s
  | S754_infinity s => sgn s + 0x7f800000
  | S754_nan => 0x7fc00000
  | S754_finite s m e => sgn s + (if Zpos m <? 2 ^ 23 then Zpos m else (e + 149) * 2 ^ 23 + Zpos m)
  end.

(** [f32::from_le_bytes] *)
Definition f32_from_le (b : list byte) : f32 := f32_from_bits (from_le b).

(** [x as f64] and [z as f32], [z as f64]. *)
Definition f64_of_f32 (x : f32) : f64 :=
  match x with S754_finite s m e => binary_round 53 1024 s m e | _ => x end.
Definition f32_of_Z (z : Z) : f32 := binary_normalize 24 128 z 0 false.
Definition f64_of_Z (z : Z) : f64 := binary_normalize 53 1024 z 0 false.
(** The decimal literal [n / d]. *)
Definition f64_lit (n d : positive) : f64 := SFdiv 53 1024 (S754_finite false n 0) (S754_finite false d 0).

Definition f32_mul : f32 -> f32 -> f32 := SFmul 24 128.
Definition f32_sub : f32 -> f32 -> f32 := SFsub 24 128.
Definition f64_add : f64 -> f64 -> f64 := SFadd 53 1024.
Definition f64_sub : f64 -> f64 -> f64 := SFsub 53 1024.
Definition f64_mul : f64 -> f64 -> f64 := SFmul 53 1024.
Definition f64_div : f64 -> f64 -> f64 := SFdiv 53 1024.
Definition f64_sqrt : f64 -> f64 := SFsqrt 53 1024.

Definition is_finite (x : spec_float) : bool :=
  match x with S754_zero _ | S754_finite _ _ _ => true | _ => false end.
(** [f64::max]: the other operand when one is a NaN. *)
Definition f64_max (x y : f64) : f64 :=
  match SFcompare x y with
  | Some Lt => y
  | Some _ => x
  | None => match x with S754_nan => y | _ => x end
  end.
(** [Iterator::sum::<f64>], which starts from negative zero. *)
Definition f64_sum (l : list f64) : f64 := foldl f64_add (S754_zero true) l.

(** ** Half precision *)

(** [while m & 0x400 == 0]: at most ten shifts for a non-zero ten-bit [m]. *)
Fixpoint half_shift (fuel : nat) (e m : Z) : Z * Z :=
  match fuel with
  | S fuel => if Z.land m 0x400 =? 0 then half_shift fuel (e - 1) (Z.shiftl m 1) else (e, m)
  | O => (e, m)
  end.

(** [to_f32], up to [f32::from_bits]. *)
Definition to_f32_bits (h : Z) : Z :=
  let sign := Z.shiftl (Z.land h 0x8000) 16 in
  let exp := Z.land (Z.shiftr h 10) 0x1f in
  let man := Z.land h 0x3ff in
  if exp =? 0 then
    if man =? 0 then sign
    else let '(e, m) := half_shift 10 (127 - 15 + 1) man in
         Z.lor (Z.lor sign (Z.shiftl e 23)) (Z.shiftl (Z.land m 0x3ff) 13)
  else if exp =? 0x1f then Z.lor (Z.lor sign 0x7f800000) (Z.shiftl man 13)
  else Z.lor (Z.lor sign (Z.shiftl (exp + 127 - 15) 23)) (Z.shiftl man 13).
Definition to_f32 (h : Z) : f32 := f32_from_bits (to_f32_bits h).

(** [out + 1] when the dropped bits are past the half, or at the half with an odd [out]. *)
Definition round_up (rest half out : Z) : Z :=
  if (half <? rest) || ((rest =? half) && (Z.land out 1 =? 1)) then wrap 16 (out + 1) else out.

(** [from_f32], from [f32::to_bits] on. *)
Definition from_f32_bits (bits : Z) : Z :=
  let sign := Z.land (Z.shiftr bits 16) 0x8000 in
  let exp := Z.land (Z.shiftr bits 23) 0xff in
  let man := Z.land bits 0x7fffff in
  if exp =? 0xff then Z.lor (Z.lor sign 0x7c00) (if man =? 0 then 0 else 0x200) else
  let e := exp - 127 + 15 in
  if 0x1f <=? e then Z.lor sign 0x7c00 else
  if e <=? 0 then
    if e <? -10 then sign else
    let m := Z.lor man 0x800000 in
    let shift := 14 - e in
    let half := Z.shiftl 1 (shift - 1) in
    let rest := Z.land m (Z.shiftl 1 shift - 1) in
    Z.lor sign (round_up rest half (Z.shiftr m shift))
  else
    Z.lor sign (round_up (Z.land man 0x1fff) 0x1000 (Z.lor (Z.shiftl e 10) (Z.shiftr man 13))).
Definition from_f32 (x : f32) : Z := from_f32_bits (f32_to_bits x).

Definition f16_round (x : f32) : f32 := to_f32 (from_f32 x).
Definition f16_read (b : list byte) (off : Z) : res f32 :=
  lo ← index b off; hi ← index b (off + 1); Ret (to_f32 (from_le [lo; hi])).

(** ** The fields of a pattern *)

(** The magnitude of a pattern, [exp * 2^k + man], as an integer: halves count units of 2^-24, singles
    units of 2^-149.  The pattern of an infinity gets the value of the next power of two. *)
Definition units (k a : Z) : Z :=
  let exp := a / 2 ^ k in
  if exp =? 0 then a else (a mod 2 ^ k + 2 ^ k) * 2 ^ (exp - 1).
Definition half_units : Z -> Z := units 10.
Definition single_units : Z -> Z := units 23.

Section Fields.

Lemma land_field b k : 0 <= k -> Z.land b (2 ^ k - 1) = b mod 2 ^ k.
Proof. intros. rewrite <- Z.land_ones by done. f_equal. by rewrite Z.ones_equiv, Z.sub_1_r. Qed.

Lemma land_top b k : 0 <= k -> fits (k + 1) b -> Z.land b (2 ^ k) = b / 2 ^ k * 2 ^ k.
Proof.
  intros Hk [H0 H1]. rewrite Z.pow_add_r in H1 by lia. change (2 ^ 1) with 2 in H1.
  assert (Hq : 0 <= b / 2 ^ k < 2) by (split; [apply Z.div_pos; lia|apply Z.div_lt_upper_bound; lia]).
  rewrite <- Z.shiftl_mul_pow2, <- Z.shiftr_div_pow2 by done. apply Z.bits_inj'. intros i Hi.
  rewrite Z.land_spec, Z.pow2_bits_eqb, Z.shiftl_spec by lia.
  destruct (Z.eqb_spec k i) as [<-|Hne].
  - rewrite andb_true_r, Z.shiftr_spec by lia. f_equal. lia.
  - rewrite andb_false_r. destruct (decide (i < k)) as [?|Hik]; [by rewrite Z.testbit_neg_r by lia|].
    rewrite Z.shiftr_spec by lia. replace (i - k + k) with i by lia. symmetry. rewrite Z.testbit_false by lia.
    rewrite Z.div_small; [done|]. split; [done|]. apply Z.lt_le_trans with (2 ^ (k + 1)); [rewrite Z.pow_add_r by lia; lia|].
    apply Z.pow_le_mono_r; lia.
Qed.

Lemma div_field a b k : 0 <= k -> 0 <= b < 2 ^ k -> (a * 2 ^ k + b) / 2 ^ k = a.
Proof. intros. rewrite Z.div_add_l, Z.div_small by lia. lia. Qed.
Lemma mod_field a b k : 0 <= k -> 0 <= b < 2 ^ k -> (a * 2 ^ k + b) mod 2 ^ k = b.
Proof. intros. rewrite Z.add_comm, Z.mod_add, Z.mod_small by lia. done. Qed.

(** The three fields the source extracts, as quotients and remainders. *)
Lemma half_fields h : fits 16 h ->
  Z.land h 0x8000 = h / 2 ^ 15 * 2 ^ 15 /\ Z.land (Z.shiftr h 10) 0x1f = h mod 2 ^ 15 / 2 ^ 10
  /\ Z.land h 0x3ff = h mod 2 ^ 15 mod 2 ^ 10.
Proof.
  intros Hh. change 0x8000 with (2 ^ 15). change 0x1f with (2 ^ 5 - 1). change 0x3ff with (2 ^ 10 - 1).
  rewrite land_top, !land_field, Z.shiftr_div_pow2 by done. split_and!; dlia.
Qed.
Lemma single_fields b : fits 32 b ->
  Z.land (Z.shiftr b 16) 0x8000 = b / 2 ^ 31 * 2 ^ 15 /\ Z.land (Z.shiftr b 23) 0xff = b mod 2 ^ 31 / 2 ^ 23
  /\ Z.land b 0x7fffff = b mod 2 ^ 31 mod 2 ^ 23.
Proof.
  intros [Hb0 Hb1]. change 0x8000 with (2 ^ 15). change 0xff with (2 ^ 8 - 1). change 0x7fffff with (2 ^ 23 - 1).
  rewrite land_top, !land_field, !Z.shiftr_div_pow2 by (try done; rewrite ?Z.shiftr_div_pow2; unfold fits; dlia). split_and!; dlia.
Qed.

(** Consecutive patterns have increasing magnitudes. *)
Lemma units_pos k a : 0 < k -> 0 <= a -> 0 <= units k a.
Proof.
  intros Hk Ha. unfold units. destruct (Z.eqb_spec (a / 2 ^ k) 0); [done|].
  apply Z.mul_nonneg_nonneg; [|apply Z.pow_nonneg; lia]. pose proof (Z.mod_pos_bound a (2 ^ k)). lia.
Qed.

Lemma units_step k a : 0 < k -> 0 <= a -> units k (a + 1) = units k a + 2 ^ (Z.max (a / 2 ^ k) 1 - 1).
Proof.
  intros Hk Ha. assert (Hp : 1 < 2 ^ k) by (apply (Z.pow_gt_1 2 k); lia).
  pose proof (Z.div_mod a (2 ^ k) ltac:(lia)) as Hd. pose proof (Z.mod_pos_bound a (2 ^ k) ltac:(lia)) as Hm.
  assert (Hx : 0 <= a / 2 ^ k) by (apply Z.div_pos; lia).
  set (x := a / 2 ^ k) in *. set (m := a mod 2 ^ k) in *. unfold units.
  destruct (decide (m + 1 = 2 ^ k)) as [Hl|Hl].
  - assert (Hx1 : (a + 1) / 2 ^ k = x + 1) by (rewrite (Z.div_unique (a + 1) (2 ^ k) (x + 1) 0); lia).
    assert (Hm1 : (a + 1) mod 2 ^ k = 0) by (rewrite (Z.mod_unique (a + 1) (2 ^ k) (x + 1) 0); lia).
    rewrite Hx1, Hm1. fold x m. destruct (Z.eqb_spec (x + 1) 0); [lia|].
    destruct (Z.eqb_spec x 0) as [->|]; [change (Z.max 0 1) with 1; change (0 + 1 - 1) with 0; rewrite Z.pow_0_r; lia|].
    rewrite Z.max_l by lia. replace (x + 1 - 1) with (Z.succ (x - 1)) by lia. rewrite Z.pow_succ_r by lia. nia.
  - assert (Hx1 : (a + 1) / 2 ^ k = x) by (rewrite (Z.div_unique (a + 1) (2 ^ k) x (m + 1)); lia).
    assert (Hm1 : (a + 1) mod 2 ^ k = m + 1) by (rewrite (Z.mod_unique (a + 1) (2 ^ k) x (m + 1)); lia).
    rewrite Hx1, Hm1. fold x m. destruct (Z.eqb_spec x 0) as [->|]; [change (Z.max 0 1) with 1; lia|].
    rewrite Z.max_l by lia. nia.
Qed.

Lemma units_mono k a b : 0 < k -> 0 <= a < b -> units k a < units k b.
Proof.
  intros Hk Hab. replace b with (a + 1 + Z.of_nat (Z.to_nat (b - a - 1))) by lia. generalize (Z.to_nat (b - a - 1)) as n.
  assert (Hs : forall c, 0 <= c -> units k c < units k (c + 1)).
  { intros c Hc. rewrite units_step by done. assert (0 < 2 ^ (Z.max (c / 2 ^ k) 1 - 1)) by (apply Z.pow_pos_nonneg; lia). lia. }
  induction n as [|n IH]; [rewrite Z.add_0_r; apply Hs; lia|].
  replace (a + 1 + Z.of_nat (S n)) with (a + 1 + Z.of_nat n + 1) by lia. specialize (Hs (a + 1 + Z.of_nat n)). lia.
Qed.
End Fields.

(** ** The conversions on magnitudes *)

(** [n / 2^k] rounded to the nearest integer, ties to even. *)
Definition rne (n k : Z) : Z :=
  let q := n / 2 ^ k in let r := n mod 2 ^ k in
  if (2 ^ (k - 1) <? r) || ((r =? 2 ^ (k - 1)) && Z.odd q) then q + 1 else q.

Definition widen (g : Z) : Z :=
  let exp := g / 2 ^ 10 in let man := g mod 2 ^ 10 in
  if exp =? 0 then
    if man =? 0 then 0 else let '(e, m) := half_shift 10 113 man in e * 2 ^ 23 + (m - 2 ^ 10) * 2 ^ 13
  else if exp =? 31 then 0x7f800000 + man * 2 ^ 13
  else (exp + 112) * 2 ^ 23 + man * 2 ^ 13.

Definition narrow (a : Z) : Z :=
  let exp := a / 2 ^ 23 in let man := a mod 2 ^ 23 in
  if exp =? 255 then (if man =? 0 then 0x7c00 else 0x7e00)
  else if 143 <=? exp then 0x7c00
  else if exp <? 102 then 0
  else if exp <=? 112 then rne (man + 2 ^ 23) (126 - exp)
  else rne ((exp - 112) * 2 ^ 23 + man) 13.

Section Magnitudes.

Lemma half_shift_spec fuel e m : 0 < m < 2 ^ 11 -> 2 ^ 10 <= m * 2 ^ Z.of_nat fuel ->
  exists j, 0 <= j <= Z.of_nat fuel /\ half_shift fuel e m = (e - j, m * 2 ^ j) /\ 2 ^ 10 <= m * 2 ^ j < 2 ^ 11.
Proof.
  revert e m. induction fuel as [|fuel IH]; intros e m Hm Hf.
  - exists 0. rewrite Z.sub_0_r, Z.mul_1_r. split_and!; try done; lia.
  - cbn [half_shift]. change 0x400 with (2 ^ 10). rewrite land_top by (done || (unfold fits; lia)).
    destruct (Z.eqb_spec (m / 2 ^ 10 * 2 ^ 10) 0) as [Hz|Hz].
    + rewrite Nat2Z.inj_succ, Z.pow_succ_r in Hf by lia. rewrite Z.shiftl_mul_pow2 by done.
      destruct (IH (e - 1) (m * 2 ^ 1)) as (j & Hj & Hh & Hb); [dlia|lia|]. exists (j + 1). rewrite Hh.
      replace (m * 2 ^ 1 * 2 ^ j) with (m * 2 ^ (j + 1)) in * by (rewrite Z.pow_add_r by lia; lia).
      split_and!; try lia. f_equal. lia.
    + exists 0. rewrite Z.sub_0_r, Z.mul_1_r. split_and!; try done; lia.
Qed.

Lemma widen_range g : fits 15 g -> fits 31 (widen g).
Proof.
  intros Hg. unfold fits in Hg. unfold widen. destruct (Z.eqb_spec (g / 2 ^ 10) 0).
  - destruct (Z.eqb_spec (g mod 2 ^ 10) 0); [unfold fits; lia|].
    destruct (half_shift_spec 10 113 (g mod 2 ^ 10)) as (j & Hj & -> & Hb); [dlia..|]. unfold fits. lia.
  - destruct (Z.eqb_spec (g / 2 ^ 10) 31); unfold fits; dlia.
Qed.

Lemma to_f32_bits_widen h : fits 16 h -> to_f32_bits h = h / 2 ^ 15 * 2 ^ 31 + widen (h mod 2 ^ 15).
Proof.
  intros Hh. assert (Hg : fits 15 (h mod 2 ^ 15)) by (apply Z.mod_pos_bound; lia). unfold to_f32_bits, widen.
  destruct (half_fields h Hh) as (-> & -> & ->). set (s := h / 2 ^ 15). set (g := h mod 2 ^ 15) in *. unfold fits in *.
  assert (Hs : 0 <= s < 2) by (unfold s; dlia).
  assert (Hor : forall x m, 0 <= x < 2 ^ 8 -> 0 <= m < 2 ^ 10 ->
    Z.lor (Z.lor (Z.shiftl (s * 2 ^ 15) 16) (Z.shiftl x 23)) (Z.shiftl m 13) = s * 2 ^ 31 + (x * 2 ^ 23 + m * 2 ^ 13)).
  { intros x m Hx Hm. rewrite (Z.shiftl_mul_pow2 m), (Z.shiftl_mul_pow2 (s * 2 ^ 15)) by done.
    replace (s * 2 ^ 15 * 2 ^ 16) with (Z.shiftl (s * 2 ^ 8) 23) by (rewrite Z.shiftl_mul_pow2 by done; lia).
    rewrite <- Z.shiftl_lor. replace (s * 2 ^ 8) with (Z.shiftl s 8) by (rewrite Z.shiftl_mul_pow2 by done; lia).
    rewrite !lor_shiftl_add by lia. lia. }
  destruct (Z.eqb_spec (g / 2 ^ 10) 0).
  - destruct (Z.eqb_spec (g mod 2 ^ 10) 0); [rewrite Z.shiftl_mul_pow2 by done; lia|]. change (127 - 15 + 1) with 113.
    destruct (half_shift_spec 10 113 (g mod 2 ^ 10)) as (j & Hj & -> & Hb); [dlia..|].
    change 0x3ff with (2 ^ 10 - 1). rewrite land_field by done.
    rewrite <- (Z.mod_unique (g mod 2 ^ 10 * 2 ^ j) (2 ^ 10) 1 (g mod 2 ^ 10 * 2 ^ j - 2 ^ 10)) by lia. apply Hor; lia.
  - destruct (Z.eqb_spec (g / 2 ^ 10) 31).
    + change 0x7f800000 with (Z.shiftl 255 23). rewrite Hor by dlia. rewrite Z.shiftl_mul_pow2 by done. lia.
    + rewrite Hor by dlia. lia.
Qed.

Lemma round_up_rne n k : 0 < k -> 0 <= n -> n / 2 ^ k < 2 ^ 15 -> round_up (n mod 2 ^ k) (2 ^ (k - 1)) (n / 2 ^ k) = rne n k.
Proof.
  intros Hk Hn Hq. assert (0 <= n / 2 ^ k) by (apply Z.div_pos; lia). unfold round_up, rne. rewrite wrap_id by (unfold fits; lia).
  pose proof (land_field (n / 2 ^ k) 1 ltac:(done)) as Hl. change (2 ^ 1 - 1) with 1 in Hl. rewrite Hl, Zmod_odd. by destruct (Z.odd (n / 2 ^ k)).
Qed.

Lemma from_f32_bits_narrow b : fits 32 b -> from_f32_bits b = b / 2 ^ 31 * 2 ^ 15 + narrow (b mod 2 ^ 31).
Proof.
  intros Hb. assert (Ha : fits 31 (b mod 2 ^ 31)) by (apply Z.mod_pos_bound; lia). unfold from_f32_bits, narrow.
  destruct (single_fields b Hb) as (-> & -> & ->). set (s := b / 2 ^ 31). set (a := b mod 2 ^ 31) in *. unfold fits in *.
  set (x := a / 2 ^ 23). set (m := a mod 2 ^ 23). assert (Hx : 0 <= x < 256) by (unfold x; dlia). assert (Hm : 0 <= m < 2 ^ 23) by (unfold m; dlia).
  assert (Hor : forall y, 0 <= y < 2 ^ 15 -> Z.lor (s * 2 ^ 15) y = s * 2 ^ 15 + y).
  { intros y Hy. rewrite <- Z.shiftl_mul_pow2, lor_shiftl_add, Z.shiftl_mul_pow2 by lia. done. }
  assert (Hrne : forall n k, 0 < k -> 0 <= n -> n / 2 ^ k < 2 ^ 15 - 1 -> 0 <= rne n k < 2 ^ 15).
  { intros n k Hk Hn Hq. assert (0 <= n / 2 ^ k) by (apply Z.div_pos; lia). unfold rne. destruct (_ || _); lia. }
  destruct (Z.eqb_spec x 255).
  - destruct (Z.eqb_spec m 0); rewrite <- Z.lor_assoc; apply Hor; done.
  - replace (0x1f <=? x - 127 + 15) with (143 <=? x) by (destruct (Z.leb_spec 143 x), (Z.leb_spec 0x1f (x - 127 + 15)); lia).
    destruct (Z.leb_spec 143 x); [rewrite Hor; lia|].
    replace (x - 127 + 15 <=? 0) with (x <=? 112) by (destruct (Z.leb_spec x 112), (Z.leb_spec (x - 127 + 15) 0); lia).
    replace (x - 127 + 15 <? -10) with (x <? 102) by (destruct (Z.ltb_spec x 102), (Z.ltb_spec (x - 127 + 15) (-10)); lia).
    destruct (Z.leb_spec x 112).
    + destruct (Z.ltb_spec x 102); [lia|]. replace (14 - (x - 127 + 15)) with (126 - x) by lia.
      assert (Hlor : Z.lor m 0x800000 = m + 2 ^ 23).
      { change 0x800000 with (Z.shiftl 1 23). rewrite Z.lor_comm, lor_shiftl_add by lia. lia. }
      rewrite Hlor, Z.shiftr_div_pow2, !Z.shiftl_1_l, land_field by lia.
      assert (Hq : (m + 2 ^ 23) / 2 ^ (126 - x) < 2 ^ 10).
      { apply Z.div_lt_upper_bound; [apply Z.pow_pos_nonneg; lia|]. rewrite <- Z.pow_add_r by lia.
        apply Z.lt_le_trans with (2 ^ 24); [lia|]. apply Z.pow_le_mono_r; lia. }
      rewrite round_up_rne by lia. apply Hor, Hrne; lia.
    + destruct (Z.ltb_spec x 102); [lia|]. replace (x - 127 + 15) with (x - 112) by lia.
      rewrite Z.shiftr_div_pow2 by done. rewrite lor_shiftl_add by dlia. change 0x1fff with (2 ^ 13 - 1). rewrite land_field by done.
      set (v := (x - 112) * 2 ^ 23 + m).
      assert (Hd : (x - 112) * 2 ^ 10 + m / 2 ^ 13 = v / 2 ^ 13) by (unfold v; dlia).
      assert (Hr : m mod 2 ^ 13 = v mod 2 ^ 13) by (unfold v; dlia).
      assert (Hq : v / 2 ^ 13 < 2 ^ 15 - 1) by (unfold v; dlia). assert (0 <= v) by (unfold v; lia).
      rewrite Hd, Hr. change 0x1000 with (2 ^ (13 - 1)). rewrite round_up_rne by lia. apply Hor, Hrne; lia.
Qed.
End Magnitudes.

(** ** Rounding to the nearest half *)

(** Halves in the units of singles. *)
Definition half_value (g : Z) : Z := half_units g * 2 ^ 125.

(** [g] is nearest to [v] among the halves up to infinity, and even when another is as near. *)
Definition nearest (v g : Z) : Prop := forall g', 0 <= g' <= 0x7c00 ->
  Z.abs (half_value g - v) <= Z.abs (half_value g' - v)
  /\ (Z.abs (half_value g - v) = Z.abs (half_value g' - v) -> g' = g \/ Z.even g = true).

Section Nearest.

Lemma half_value_mono a b : 0 <= a < b -> half_value a < half_value b.
Proof. intros H. unfold half_value. pose proof (units_mono 10 a b ltac:(lia) H) as Hu. unfold half_units. lia. Qed.

Lemma half_value_step q : 0 <= q -> half_value (q + 1) = half_value q + 2 ^ (Z.max (q / 2 ^ 10) 1 + 124).
Proof.
  intros H. unfold half_value, half_units. rewrite units_step, Z.mul_add_distr_r, <- Z.pow_add_r by lia. do 2 f_equal. lia.
Qed.

(** Between two consecutive halves, the rounding of the position chooses the nearest. *)
Lemma nearest_step v q r k p : 0 < k -> 0 < p -> 0 <= q < 0x7c00 -> 0 <= r < 2 ^ k ->
  v = half_value q + r * p -> half_value (q + 1) = half_value q + 2 ^ k * p ->
  nearest v (if (2 ^ (k - 1) <? r) || ((r =? 2 ^ (k - 1)) && Z.odd q) then q + 1 else q).
Proof.
  intros Hk Hp Hq Hr Hv Hs g' Hg.
  assert (H2 : 2 ^ k = 2 * 2 ^ (k - 1)) by (rewrite <- Z.pow_succ_r by lia; f_equal; lia). set (h := 2 ^ (k - 1)) in *.
  assert (Hcase : g' < q /\ half_value g' < half_value q \/ g' = q \/ g' = q + 1 \/ q + 1 < g' /\ half_value (q + 1) < half_value g').
  { destruct (Z.lt_total g' q) as [?|[?|?]]; [left; split; [done|apply half_value_mono; lia]|auto|]. right; right.
    destruct (decide (g' = q + 1)); [auto|]. right. split; [lia|]. apply half_value_mono. lia. }
  assert (Hrp : 0 <= r * p) by nia.
  destruct (Z.ltb_spec h r); cbn [orb].
  { assert (h * p < r * p) by nia. assert (r * p < 2 * h * p) by nia.
    destruct Hcase as [[? ?]|[->|[->|[? ?]]]]; (split; [lia|]); intros He; try lia; auto. }
  assert (r * p <= h * p) by nia. assert (0 < h * p) by nia.
  destruct (Z.eqb_spec r h) as [->|Hne]; cbn [andb].
  - destruct (Z.odd q) eqn:Ho.
    + destruct Hcase as [[? ?]|[->|[->|[? ?]]]]; (split; [lia|]); intros He; try lia; auto. right. by rewrite Z.even_add, <- Z.negb_odd, Ho.
    + destruct Hcase as [[? ?]|[->|[->|[? ?]]]]; (split; [lia|]); intros He; try lia; auto. right. by rewrite <- Z.negb_odd, Ho.
  - assert (r * p < h * p) by nia.
    destruct Hcase as [[? ?]|[->|[->|[? ?]]]]; (split; [lia|]); intros He; try lia; auto.
Qed.

Lemma nearest_rne v q k p n : 0 < k -> 0 < p -> 0 <= q < 0x7c00 -> q = n / 2 ^ k ->
  v = half_value q + n mod 2 ^ k * p -> half_value (q + 1) = half_value q + 2 ^ k * p -> nearest v (rne n k).
Proof.
  intros Hk Hp Hq -> Hv Hs. unfold rne. apply (nearest_step v _ _ k p); try done. apply Z.mod_pos_bound. lia.
Qed.

Lemma nearest_zero v : 0 <= v < 2 ^ 124 -> nearest v 0.
Proof.
  intros Hv. pose proof (nearest_step v 0 v 125 1 ltac:(lia) ltac:(lia) ltac:(lia)) as Hn. change (125 - 1) with 124 in Hn.
  destruct (Z.ltb_spec (2 ^ 124) v); [lia|]. destruct (Z.eqb_spec v (2 ^ 124)); [lia|]. cbn [orb andb] in Hn. apply Hn; try done; change (half_value 0) with 0; lia.
Qed.

Lemma narrow_nearest a : 0 <= a <= 0x7f800000 -> nearest (single_units a) (narrow a).
Proof.
  intros Ha. unfold narrow, single_units, units. set (x := a / 2 ^ 23). set (m := a mod 2 ^ 23).
  assert (Hm : 0 <= m < 2 ^ 23) by (unfold m; dlia). assert (Hx : 0 <= x) by (unfold x; dlia).
  assert (Hbig : 143 <= x -> nearest ((m + 2 ^ 23) * 2 ^ (x - 1)) 0x7c00).
  { intros H. assert (2 ^ 165 <= (m + 2 ^ 23) * 2 ^ (x - 1)).
    { assert (2 ^ 142 <= 2 ^ (x - 1)) by (apply Z.pow_le_mono_r; lia). nia. }
    intros g' Hg. change (half_value 0x7c00) with (2 ^ 165).
    destruct (decide (g' = 0x7c00)) as [->|]; [split; [done|auto]|].
    pose proof (half_value_mono g' 0x7c00 ltac:(lia)) as Hlt. change (half_value 0x7c00) with (2 ^ 165) in Hlt. split; [lia|lia]. }
  destruct (Z.eqb_spec x 0) as [H0|H0].
  - rewrite H0. apply nearest_zero. dlia.
  - destruct (Z.eqb_spec x 255) as [H255|]; [|destruct (Z.leb_spec 143 x)].
    + assert (m = 0) as -> by (unfold m, x in *; dlia). cbn. apply (Hbig ltac:(lia)).
    + by apply Hbig.
    + destruct (Z.ltb_spec x 102).
      * assert ((m + 2 ^ 23) * 2 ^ (x - 1) < 2 ^ 124).
        { assert (2 ^ (x - 1) <= 2 ^ 100) by (apply Z.pow_le_mono_r; lia). nia. }
        assert (0 <= (m + 2 ^ 23) * 2 ^ (x - 1)) by (assert (0 <= 2 ^ (x - 1)) by (apply Z.pow_nonneg; lia); nia).
        by apply nearest_zero.
      * destruct (Z.leb_spec x 112).
        -- apply (nearest_rne _ ((m + 2 ^ 23) / 2 ^ (126 - x)) (126 - x) (2 ^ (x - 1))); try lia.
           all: assert (Hk : 2 ^ 14 <= 2 ^ (126 - x)) by (apply Z.pow_le_mono_r; lia).
           all: assert (Hq : 0 <= (m + 2 ^ 23) / 2 ^ (126 - x) < 2 ^ 10) by (split; [apply Z.div_pos; lia|apply Z.div_lt_upper_bound; nia]).
           all: set (q := (m + 2 ^ 23) / 2 ^ (126 - x)) in *; assert (Hpq : 2 ^ 125 = 2 ^ (126 - x) * 2 ^ (x - 1)) by (rewrite <- Z.pow_add_r by lia; f_equal; lia).
           ++ lia.
           ++ assert (half_value q = q * 2 ^ 125) as ->.
              { unfold half_value, half_units, units. rewrite Z.div_small by lia. done. }
              rewrite Hpq. pose proof (Z.div_mod (m + 2 ^ 23) (2 ^ (126 - x)) ltac:(lia)) as Hd. fold q in Hd. rewrite Hd at 1. ring.
           ++ rewrite half_value_step, (Z.div_small q) by lia. change (Z.max 0 1 + 124) with 125. by rewrite Hpq.
        -- set (v := (x - 112) * 2 ^ 23 + m). set (q := v / 2 ^ 13).
           assert (Hq : q / 2 ^ 10 = x - 112 /\ q mod 2 ^ 10 = m / 2 ^ 13) by (unfold q, v; split; dlia). destruct Hq as [Hq1 Hq2].
           assert (Hqr : 0 <= q < 0x7c00) by (unfold q, v; dlia).
           assert (Hp : 2 ^ (x - 113) * 2 ^ 125 = 2 ^ 13 * 2 ^ (x - 1)) by (rewrite <- !Z.pow_add_r by lia; f_equal; lia).
           apply (nearest_rne _ q 13 (2 ^ (x - 1))); try lia.
           ++ unfold half_value, half_units, units. rewrite Hq1, Hq2. destruct (Z.eqb_spec (x - 112) 0); [lia|].
              replace (x - 112 - 1) with (x - 113) by lia. rewrite <- Z.mul_assoc, Hp.
              assert (Hmm : m + 2 ^ 23 = (m / 2 ^ 13 + 2 ^ 10) * 2 ^ 13 + v mod 2 ^ 13) by (unfold v; dlia). rewrite Hmm. ring.
           ++ rewrite half_value_step, Hq1, Z.max_l by lia. replace (x - 112 + 124) with (x - 113 + 125) by lia. rewrite Z.pow_add_r by lia. by rewrite Hp.
Qed.

Lemma widen_exact g : 0 <= g <= 0x7c00 -> single_units (widen g) = half_value g \/ (g = 0x7c00 /\ widen g = 0x7f800000).
Proof.
  intros Hg. unfold widen. destruct (Z.eqb_spec (g / 2 ^ 10) 0) as [H0|H0].
  - assert (g < 2 ^ 10) by dlia. left. rewrite Z.mod_small by lia. destruct (Z.eqb_spec g 0) as [->|Hne]; [done|].
    destruct (half_shift_spec 10 113 g ltac:(lia) ltac:(lia)) as (j & Hj & -> & Hb).
    unfold single_units, half_value, half_units, units. rewrite H0, div_field, mod_field by lia. cbn [Z.eqb].
    destruct (Z.eqb_spec (113 - j) 0); [lia|]. replace (2 ^ 125) with (2 ^ j * 2 ^ 13 * 2 ^ (113 - j - 1)); [ring|].
    rewrite <- !Z.pow_add_r by lia. f_equal. lia.
  - destruct (Z.eqb_spec (g / 2 ^ 10) 31) as [H31|H31]; [right; assert (g = 0x7c00) as -> by dlia; done|]. left.
    assert (Hx : 0 < g / 2 ^ 10 < 31) by dlia. unfold single_units, half_value, half_units, units.
    assert (Hm : 0 <= g mod 2 ^ 10 * 2 ^ 13 < 2 ^ 23) by dlia. rewrite div_field, mod_field by lia.
    destruct (Z.eqb_spec (g / 2 ^ 10 + 112) 0); [lia|]. destruct (Z.eqb_spec (g / 2 ^ 10) 0); [lia|].
    set (x := g / 2 ^ 10) in *. replace (2 ^ (x + 112 - 1)) with (2 ^ (x - 1) * 2 ^ 112) by (rewrite <- Z.pow_add_r by lia; f_equal; lia).
    change (2 ^ 125) with (2 ^ 13 * 2 ^ 112). ring.
Qed.

(** A magnitude at distance zero is the rounding. *)
Lemma narrow_widen g : 0 <= g <= 0x7c00 -> narrow (widen g) = g.
Proof.
  intros Hg. destruct (widen_exact g Hg) as [He|[-> ->]]; [|done].
  assert (Hw : fits 31 (widen g)) by (apply widen_range; unfold fits; lia).
  assert (Hlt : widen g <= 0x7f800000).
  { unfold widen. destruct (Z.eqb_spec (g / 2 ^ 10) 0).
    - destruct (Z.eqb_spec (g mod 2 ^ 10) 0); [lia|]. destruct (half_shift_spec 10 113 (g mod 2 ^ 10)) as (j & Hj & -> & Hb); [dlia..|lia].
    - destruct (Z.eqb_spec (g / 2 ^ 10) 31); dlia. }
  destruct (narrow_nearest (widen g) ltac:(unfold fits in Hw; lia) g Hg) as [Hd _]. rewrite He, Z.sub_diag in Hd. change (Z.abs 0) with 0 in Hd.
  assert (Hn : 0 <= narrow (widen g)).
  { unfold narrow. unfold fits in Hw. set (x := widen g / 2 ^ 23) in *. repeat case_match; try lia; unfold rne; case_match.
    all: match goal with |- 0 <= ?a / ?b + 1 => enough (0 <= a / b) by lia | _ => idtac end.
    all: apply Z.div_pos; try (apply Z.pow_pos_nonneg; lia); try lia; pose proof (Z.mod_pos_bound (widen g) (2 ^ 23)); lia. }
  destruct (Z.lt_total (narrow (widen g)) g) as [Hl|[Hl|Hl]]; [|done|].
  - pose proof (half_value_mono _ _ (conj Hn Hl)). lia.
  - pose proof (half_value_mono _ _ (conj (proj1 Hg) Hl)). lia.
Qed.
End Nearest.

(** ** The bits of a single *)

Lemma f32_bits_roundtrip b : fits 32 b -> b mod 2 ^ 31 <= 0x7f800000 -> f32_to_bits (f32_from_bits b) = b.
Proof.
  intros Hb Hn. unfold f32_from_bits. destruct (single_fields b Hb) as (_ & -> & ->). set (a := b mod 2 ^ 31) in *. unfold fits in Hb.
  assert (Hs : (if Z.testbit b 31 then 2 ^ 31 else 0) = b - a).
  { rewrite Z.testbit_eqb by done. unfold a. destruct (Z.eqb_spec (b / 2 ^ 31 mod 2) 1); dlia. }
  destruct (Z.eqb_spec (a / 2 ^ 23) 0xff) as [H1|H1].
  - assert (a mod 2 ^ 23 = 0) as -> by (unfold a in *; dlia). cbn [Z.eqb f32_to_bits]. unfold a in *. dlia.
  - destruct (Z.eqb_spec (a / 2 ^ 23) 0) as [H2|H2].
    + destruct (a mod 2 ^ 23) as [|m|m] eqn:Em; [|cbn [f32_to_bits]; destruct (Z.ltb_spec (Z.pos m) (2 ^ 23))|]; unfold a in *; try (cbn [f32_to_bits]; dlia); dlia.
    + destruct (a mod 2 ^ 23 + 2 ^ 23) as [|m|m] eqn:Em; [unfold a in *; dlia| |unfold a in *; dlia]. cbn [f32_to_bits].
      destruct (Z.ltb_spec (Z.pos m) (2 ^ 23)); [unfold a in *; dlia|]. rewrite Z.max_l by (unfold a in *; dlia). unfold a in *. dlia.
Qed.

Lemma is_finite_bits b : fits 32 b -> is_finite (f32_from_bits b) = (b mod 2 ^ 31 <? 0x7f800000).
Proof.
  intros Hb. unfold f32_from_bits. destruct (single_fields b Hb) as (_ & -> & ->). set (a := b mod 2 ^ 31) in *. unfold fits in Hb.
  destruct (Z.ltb_spec a 0x7f800000); destruct (Z.eqb_spec (a / 2 ^ 23) 0xff); try (unfold a in *; dlia).
  - by repeat case_match.
  - by repeat case_match.
Qed.

(** The singles that are halves, and the finite ones. *)
Definition half_precision (x : f32) : Prop := exists h, fits 16 h /\ h mod 2 ^ 15 < 0x7c00 /\ x = to_f32 h.
Definition single_precision (x : f32) : Prop := exists b, fits 32 b /\ b mod 2 ^ 31 < 0x7f800000 /\ x = f32_from_bits b.

Lemma to_f32_finite h : fits 16 h -> is_finite (to_f32 h) = (h mod 2 ^ 15 <? 0x7c00).
Proof.
  intros Hh. assert (Hg : fits 15 (h mod 2 ^ 15)) by (apply Z.mod_pos_bound; lia). unfold to_f32. pose proof (widen_range _ Hg) as Hw.
  rewrite (to_f32_bits_widen h Hh). unfold fits in *. rewrite is_finite_bits by (unfold fits; dlia). rewrite mod_field by lia.
  set (g := h mod 2 ^ 15) in *. unfold widen. destruct (Z.eqb_spec (g / 2 ^ 10) 0) as [H0|H0].
  - destruct (Z.ltb_spec g 0x7c00); [|dlia]. destruct (Z.eqb_spec (g mod 2 ^ 10) 0); [done|].
    destruct (half_shift_spec 10 113 (g mod 2 ^ 10)) as (j & Hj & -> & Hb); [dlia..|]. apply Z.ltb_lt. lia.
  - destruct (Z.eqb_spec (g / 2 ^ 10) 31); destruct (Z.ltb_spec g 0x7c00); try dlia; (apply Z.ltb_ge || apply Z.ltb_lt); dlia.
Qed.

Lemma from_to_f32 h : fits 16 h -> h mod 2 ^ 15 < 0x7c00 -> from_f32 (to_f32 h) = h.
Proof.
  intros Hh Hl. assert (Hg : fits 15 (h mod 2 ^ 15)) by (apply Z.mod_pos_bound; lia). pose proof (widen_range _ Hg) as Hw.
  pose proof (to_f32_bits_widen h Hh) as Hb. pose proof (to_f32_finite h Hh) as Hf. unfold to_f32 in *. unfold from_f32.
  assert (Hfit : fits 32 (to_f32_bits h)) by (rewrite Hb; unfold fits in *; dlia).
  destruct (Z.ltb_spec (h mod 2 ^ 15) 0x7c00); [|lia]. rewrite is_finite_bits in Hf by done. apply Z.ltb_lt in Hf.
  rewrite f32_bits_roundtrip by (done || lia). rewrite (from_f32_bits_narrow _ Hfit), Hb.
  rewrite div_field, mod_field by (unfold fits in *; lia). rewrite narrow_widen by (unfold fits in *; lia). unfold fits in *. dlia.
Qed.

(** C28: Narrowing rounds to nearest.  The half [from_f32] makes of a single that is not a NaN has its sign,
    and its magnitude is nearest to the single's among all halves up to infinity (which counts as
    65536), the even pattern when two are equally near: overflow, subnormals and the carry into the
    next exponent included. *)
Theorem from_f32_nearest_even (b : Z) : fits 32 b -> b mod 2 ^ 31 <= 0x7f800000 ->
  let h := from_f32_bits b in
  h / 2 ^ 15 = b / 2 ^ 31 /\ 0 <= h mod 2 ^ 15 <= 0x7c00 /\ nearest (single_units (b mod 2 ^ 31)) (h mod 2 ^ 15).
Proof.
  intros Hb Hn h. assert (Ha : 0 <= b mod 2 ^ 31) by (apply Z.mod_pos_bound; lia).
  pose proof (narrow_nearest _ (conj Ha Hn)) as Hnear.
  assert (Hr : 0 <= narrow (b mod 2 ^ 31) <= 0x7c00).
  { unfold narrow. set (a := b mod 2 ^ 31) in *. repeat case_match; try lia; try (assert (a = 0x7f800000) by dlia; dlia); unfold rne.
    - assert (Hk : 2 ^ 14 <= 2 ^ (126 - a / 2 ^ 23)) by (apply Z.pow_le_mono_r; lia). pose proof (Z.mod_pos_bound a (2 ^ 23)).
      assert (0 <= (a mod 2 ^ 23 + 2 ^ 23) / 2 ^ (126 - a / 2 ^ 23) < 2 ^ 10) by (split; [apply Z.div_pos; lia|apply Z.div_lt_upper_bound; nia]). case_match; lia.
    - case_match; dlia. }
  unfold h. rewrite (from_f32_bits_narrow b Hb), div_field, mod_field by lia. done.
Qed.

(** The conversions compose to the identity.  Every half widens exactly to a single of the same
    sign, infinities to infinities, and narrowing gives back the half; a NaN stays a NaN of its sign. *)
Theorem f16_roundtrip (h : Z) : fits 16 h ->
  let b := to_f32_bits h in
  fits 32 b /\ b / 2 ^ 31 = h / 2 ^ 15
  /\ (h mod 2 ^ 15 < 0x7c00 -> single_units (b mod 2 ^ 31) = half_value (h mod 2 ^ 15))
  /\ (h mod 2 ^ 15 <= 0x7c00 -> from_f32_bits b = h)
  /\ (0x7c00 < h mod 2 ^ 15 -> from_f32_bits b = h / 2 ^ 15 * 2 ^ 15 + 0x7e00 /\ to_f32 h = S754_nan).
Proof.
  intros Hh b. assert (Hg : fits 15 (h mod 2 ^ 15)) by (apply Z.mod_pos_bound; lia).
  pose proof (to_f32_bits_widen h Hh) as Hb. fold b in Hb. pose proof (widen_range _ Hg) as Hw. set (g := h mod 2 ^ 15) in *.
  unfold fits in *. assert (Hfit : 0 <= b < 2 ^ 32) by (rewrite Hb; dlia).
  assert (Hbs : b / 2 ^ 31 = h / 2 ^ 15) by (rewrite Hb; apply div_field; lia).
  assert (Hbm : b mod 2 ^ 31 = widen g) by (rewrite Hb; apply mod_field; lia).
  pose proof (from_f32_bits_narrow b Hfit) as Hf. rewrite Hbs, Hbm in Hf. rewrite Hbm. split; [done|split; [done|split; [|split]]].
  - intros Hl. assert (0 <= g <= 0x7c00) as Hg2 by lia. destruct (widen_exact g Hg2) as [|[? _]]; [done|lia].
  - intros Hl. rewrite Hf, narrow_widen by lia. unfold g. dlia.
  - intros Hl. assert (Hwn : widen g = 255 * 2 ^ 23 + g mod 2 ^ 10 * 2 ^ 13).
    { unfold widen. destruct (Z.eqb_spec (g / 2 ^ 10) 0); [dlia|]. destruct (Z.eqb_spec (g / 2 ^ 10) 31); [done|dlia]. }
    assert (Hnz : 0 < g mod 2 ^ 10 * 2 ^ 13 < 2 ^ 23) by dlia. split.
    + rewrite Hf, Hwn. unfold narrow. rewrite div_field, mod_field by lia. cbn [Z.eqb]. by destruct (Z.eqb_spec (g mod 2 ^ 10 * 2 ^ 13) 0); [lia|].
    + unfold to_f32. fold b. unfold f32_from_bits. destruct (single_fields b Hfit) as (_ & -> & ->).
      rewrite Hbm, Hwn, div_field, mod_field by lia. cbn [Z.eqb]. by destruct (Z.eqb_spec (g mod 2 ^ 10 * 2 ^ 13) 0); [lia|].
Qed.

(** The smallest subnormal half comes back; the single just above 65519.99 rounds to infinity. *)
Lemma f16_roundtrip_witness : fits 16 1 /\ from_f32_bits (to_f32_bits 1) = 1 /\ to_f32_bits 1 = 0x33800000.
Proof. split; [evaluate|]. split; [|reflexivity]. apply (f16_roundtrip 1); evaluate. Defined.

Lemma from_f32_nearest_even_witness : from_f32_bits 0x477ff000 = 0x7c00 /\ nearest (single_units 0x477ff000) 0x7c00.
Proof. split; [reflexivity|]. apply (from_f32_nearest_even 0x477ff000); evaluate. Defined.
