(* ===== verification/Magnitude.v ===== *)
(** * Magnitudes of floating-point results

    Coarse bounds on the binary64 operations of the language, enough to bound an
    integer cast of a product or of a quotient: [below t x] says that [x] is finite and
    less than 2^t in magnitude.  Rounding loses at most one binade. *)
From S2P Require Import Prelude Float.
#[local] Open Scope Z_scope.

Definition below (t : Z) (x : spec_float) : Prop :=
  match x with
  | S754_zero _ => True
  | S754_finite _ m e => Zdigits2 (Zpos m) + e <= t
  | _ => False
  end.

(** The value of a finite number is at least 2^t in magnitude. *)
Definition above (t : Z) (x : spec_float) : Prop :=
  match x with S754_finite _ m e => t < Zdigits2 (Zpos m) + e | _ => False end.

Section Digits.

Lemma digits_log2 m : 0 < m -> Zdigits2 m = Z.log2 m + 1.
Proof.
  destruct m as [|p|]; try done. intros _. change (Zdigits2 (Zpos p)) with (Zpos (digits2_pos p)). assert (H : forall p, digits2_pos p = Pos.size p) by (clear; induction p as [p IH|p IH|]; cbn; congruence).
  rewrite H. destruct p; cbn [Pos.size Z.log2]; lia.
Qed.

Lemma digits_nonneg m : 0 <= m -> 0 <= Zdigits2 m.
Proof. intros Hm. destruct (decide (m = 0)) as [->|]; [done|]. rewrite digits_log2 by lia. pose proof (Z.log2_nonneg m). lia. Qed.

Lemma digits_le m d : 0 <= m -> 0 <= d -> Zdigits2 m <= d <-> m < 2 ^ d.
Proof.
  intros Hm Hd. destruct (decide (m = 0)) as [->|]; [change (Zdigits2 0) with 0; lia|]. rewrite digits_log2 by lia.
  rewrite (Z.log2_lt_pow2 m d) by lia. lia.
Qed.

Lemma digits_bounds m : 0 < m -> 2 ^ (Zdigits2 m - 1) <= m < 2 ^ Zdigits2 m.
Proof. intros Hm. rewrite digits_log2 by lia. destruct (Z.log2_spec m Hm). replace (Z.log2 m + 1 - 1) with (Z.log2 m) by lia. rewrite Z.add_1_r. done. Qed.

Lemma digits_shift m k : 0 < m -> 0 <= k -> Zdigits2 (m * 2 ^ k) = Zdigits2 m + k.
Proof. intros. rewrite !digits_log2 by lia. rewrite Z.log2_mul_pow2 by lia. lia. Qed.
End Digits.

Section Rounding.
Context (prec emax : Z) (Hprec : 0 < prec) (Hmax : prec < emax).

Lemma shr_1_m mrs : 0 <= shr_m mrs -> shr_m (shr_1 mrs) = shr_m mrs / 2.
Proof. destruct mrs as [m r s]. cbn. destruct m as [|[p|p|]|]; cbn; intros; try lia; try (rewrite ?Pos2Z.inj_xI, ?Pos2Z.inj_xO; dlia). Qed.

Lemma shr_iter_m p mrs : 0 <= shr_m mrs -> shr_m (iter_pos shr_1 p mrs) = shr_m mrs / 2 ^ Zpos p.
Proof.
  revert mrs. induction p as [p IH|p IH|]; intros mrs H; cbn [iter_pos].
  - assert (H1 : 0 <= shr_m (shr_1 mrs)) by (rewrite shr_1_m by done; dlia).
    assert (H2 : 0 <= shr_m (iter_pos shr_1 p (shr_1 mrs))) by (rewrite IH by done; apply Z.div_pos; lia).
    rewrite IH, IH, shr_1_m by done. rewrite !Z.div_div by lia. f_equal.
    replace (Zpos p~1) with (Zpos p + Zpos p + 1) by lia. rewrite !Z.pow_add_r by lia. lia.
  - assert (H2 : 0 <= shr_m (iter_pos shr_1 p mrs)) by (rewrite IH by done; apply Z.div_pos; lia).
    rewrite IH, IH by done. rewrite Z.div_div by lia. f_equal.
    replace (Zpos p~0) with (Zpos p + Zpos p) by lia. rewrite Z.pow_add_r by lia. lia.
  - rewrite shr_1_m by done. done.
Qed.

Lemma shr_record_m m l : shr_m (shr_record_of_loc m l) = m.
Proof. by destruct l as [|[]]. Qed.

Lemma shr_fexp_below m e l t : 0 <= m < 2 ^ (t - e) -> e <= t -> emin prec emax <= t -> e <= emax - prec -> t <= emax ->
  let '(mrs, e') := shr_fexp prec emax m e l in 0 <= shr_m mrs < 2 ^ (t - e') /\ e' <= t /\ e' <= emax - prec.
Proof.
  intros Hm He Ht Hee Hte. unfold shr_fexp, shr. set (n := fexp prec emax (Zdigits2 m + e) - e).
  assert (Hd : Zdigits2 m <= t - e) by (apply digits_le; lia).
  assert (Hn : n + e <= t /\ n + e <= emax - prec) by (unfold n, fexp, emin in *; lia).
  destruct n as [|p|p] eqn:En; try (rewrite shr_record_m; lia).
  rewrite shr_iter_m by (rewrite shr_record_m; lia). rewrite shr_record_m. split; [|lia]. split; [apply Z.div_pos; lia|].
  apply Z.div_lt_upper_bound; [lia|]. rewrite <- Z.pow_add_r by lia. replace (Zpos p + (t - (e + Zpos p))) with (t - e) by lia. lia.
Qed.

Lemma round_aux_below sx m e l t : 0 <= m < 2 ^ (t - e) -> e <= t -> emin prec emax <= t -> e <= emax - prec -> t + 1 <= emax ->
  below (t + 1) (binary_round_aux prec emax sx m e l).
Proof.
  intros Hm He Ht Hee Hte. unfold binary_round_aux. pose proof (shr_fexp_below m e l t Hm He Ht Hee ltac:(lia)) as H1.
  destruct (shr_fexp prec emax m e l) as [mrs e'] eqn:E1. destruct H1 as (H1 & He' & Hee').
  set (m2 := round_nearest_even (shr_m mrs) (loc_of_shr_record mrs)).
  assert (Hm2 : 0 <= m2 < 2 ^ (t + 1 - e')).
  { assert (Hr : shr_m mrs <= m2 <= shr_m mrs + 1) by (unfold m2, round_nearest_even; destruct (loc_of_shr_record mrs) as [|[]]; try destruct (Z.even _); lia).
    replace (t + 1 - e') with (Z.succ (t - e')) by lia. rewrite Z.pow_succ_r by lia. lia. }
  pose proof (shr_fexp_below m2 e' loc_Exact (t + 1) Hm2 ltac:(lia) ltac:(lia) Hee' ltac:(lia)) as H2.
  destruct (shr_fexp prec emax m2 e' loc_Exact) as [mrs2 e2]. destruct H2 as (H2 & He2 & Hee2).
  destruct (shr_m mrs2) as [|p|p] eqn:Ep; [done| |lia]. destruct (Z.leb_spec e2 (emax - prec)); [|lia]. cbn [below].
  enough (Zdigits2 (Zpos p) <= t + 1 - e2) by lia. apply digits_le; lia.
Qed.

(** A product of bounded numbers. *)
Lemma mul_below tx ty t x y : below tx x -> below ty y -> tx + ty <= t -> emin prec emax <= t -> t + 1 <= emax - prec -> below (t + 1) (SFmul prec emax x y).
Proof.
  destruct x as [sx|sx| |sx mx ex], y as [sy|sy| |sy my ey]; try done. cbn [below SFmul]. intros Hx Hy Ht He Hm.
  pose proof (digits_nonneg (Zpos mx) ltac:(lia)). pose proof (digits_nonneg (Zpos my) ltac:(lia)).
  apply round_aux_below; try lia. split; [lia|]. rewrite Pos2Z.inj_mul.
  apply Z.lt_le_trans with (2 ^ Zdigits2 (Zpos mx) * 2 ^ Zdigits2 (Zpos my)); [pose proof (digits_bounds (Zpos mx)); pose proof (digits_bounds (Zpos my)); nia|].
  rewrite <- Z.pow_add_r by lia. apply Z.pow_le_mono_r; lia.
Qed.

(** A quotient by a number that is at least as large is at most two. *)
Lemma div_below t x y : below t x -> above (t - 1) y -> below 2 (SFdiv prec emax x y).
Proof.
  destruct x as [sx|sx| |sx mx ex], y as [sy|sy| |sy my ey]; try done. cbn [below above SFdiv]. intros Hx Hy.
  unfold SFdiv_core_binary. set (d1 := Zdigits2 (Zpos mx)) in *. set (d2 := Zdigits2 (Zpos my)) in *.
  pose proof (digits_bounds (Zpos mx) ltac:(lia)) as Hb1. pose proof (digits_bounds (Zpos my) ltac:(lia)) as Hb2. fold d1 in Hb1. fold d2 in Hb2.
  assert (Hd : 0 < d1 /\ 0 < d2) by (unfold d1, d2; rewrite !digits_log2 by lia; pose proof (Z.log2_nonneg (Zpos mx)); pose proof (Z.log2_nonneg (Zpos my)); lia).
  set (e := Z.min (fexp prec emax (d1 + ex - (d2 + ey))) (ex - ey)).
  assert (He : e <= 0 /\ e <= emax - prec /\ e <= ex - ey) by (unfold e, fexp, emin in *; lia).
  set (m' := match ex - ey - e with Zpos _ => Z.shiftl (Zpos mx) (ex - ey - e) | Z0 => Zpos mx | Zneg _ => 0 end).
  assert (Hm' : m' = Zpos mx * 2 ^ (ex - ey - e)).
  { unfold m'. destruct (ex - ey - e) eqn:Es; [lia| |lia]. by rewrite Z.shiftl_mul_pow2. }
  destruct (Z.div_eucl m' (Zpos my)) as [q r] eqn:Eq. assert (Hq : q = m' / Zpos my) by (unfold Z.div; by rewrite Eq).
  apply (round_aux_below _ _ _ _ 1); try (unfold emin in *; lia). split.
  - rewrite Hq. apply Z.div_pos; [rewrite Hm'|]; lia.
  - rewrite Hq. apply Z.div_lt_upper_bound; [lia|]. rewrite Hm'. apply Z.lt_le_trans with (2 ^ (d2 - 1) * 2 ^ (1 - e)); [|nia].
    apply Z.lt_le_trans with (2 ^ d1 * 2 ^ (ex - ey - e)); [nia|]. rewrite <- !Z.pow_add_r by lia. apply Z.pow_le_mono_r; lia.
Qed.

Lemma shift_pos_Z m p : Zpos (Pos.iter xO m p) = Zpos m * 2 ^ Zpos p.
Proof. induction p as [|p IH] using Pos.peano_ind; [cbn; lia|]. rewrite Pos.iter_succ, Pos2Z.inj_xO, IH, Pos2Z.inj_succ, Z.pow_succ_r by lia. lia. Qed.

(** Widening a number that fits is exact. *)
Lemma round_exact sx m e : Zdigits2 (Zpos m) <= prec -> emin prec emax <= e -> Zdigits2 (Zpos m) + e <= emax ->
  exists m' e', binary_round prec emax sx m e = S754_finite sx m' e' /\ Zdigits2 (Zpos m') + e' = Zdigits2 (Zpos m) + e.
Proof.
  intros Hd He Hm. unfold binary_round, shl_align. set (d := Zdigits2 (Zpos m)) in *.
  assert (Hf : fexp prec emax (Zpos (digits2_pos m) + e) <= e) by (change (Zpos (digits2_pos m)) with d; unfold fexp; lia).
  set (ez := fexp prec emax (Zpos (digits2_pos m) + e)) in *.
  assert (Hal : exists mz, (match ez - e with Zneg d => (Pos.iter xO m d, ez) | _ => (m, e) end) = (mz, ez) /\ Zpos mz = Zpos m * 2 ^ (e - ez)).
  { destruct (ez - e) as [|p|p] eqn:Ez; [exists m; split; [f_equal; lia|replace (e - ez) with 0 by lia; lia]|lia|].
    exists (Pos.iter xO m p). split; [done|]. rewrite shift_pos_Z. do 2 f_equal. lia. }
  destruct Hal as (mz & -> & Hmz).
  assert (Hdz : Zdigits2 (Zpos mz) + ez = d + e) by (rewrite Hmz, digits_shift by lia; unfold d; lia).
  assert (Hshr : shr_fexp prec emax (Zpos mz) ez loc_Exact = (shr_record_of_loc (Zpos mz) loc_Exact, ez)).
  { unfold shr_fexp. rewrite Hdz. change (fexp prec emax (d + e)) with ez. by rewrite Z.sub_diag. }
  unfold binary_round_aux. rewrite Hshr. cbn [shr_record_of_loc shr_m loc_of_shr_record round_nearest_even]. rewrite Hshr. cbn [shr_record_of_loc shr_m].
  assert (ez <= emax - prec) by (unfold ez; change (Zpos (digits2_pos m)) with d; unfold fexp, emin in *; lia).
  destruct (Z.leb_spec ez (emax - prec)); [|lia]. by exists mz, ez.
Qed.
End Rounding.

(** ** Single-precision magnitudes *)

(** The values of [f32]. *)
Definition single (x : f32) : Prop := exists b, fits 32 b /\ x = f32_from_bits b.

(** Sign, mantissa and exponent are those of a binary32. *)
Definition normal (x : f32) : Prop :=
  match x with S754_finite _ m e => Zpos m < 2 ^ 24 /\ -149 <= e <= 104 /\ (e = -149 \/ 2 ^ 23 <= Zpos m) | _ => True end.

(** [x] is [NaN], or at most [peak] in magnitude. *)
Definition covers (peak x : f32) : Prop :=
  match x with
  | S754_nan | S754_zero _ => True
  | S754_infinity _ => False
  | S754_finite _ m e => match peak with S754_finite _ m' e' => Zdigits2 (Zpos m) + e <= Zdigits2 (Zpos m') + e' | _ => False end
  end.

Definition nonneg (x : f32) : Prop := match x with S754_zero s | S754_infinity s | S754_finite s _ _ => s = false | S754_nan => False end.

Section Singles.

Lemma single_normal x : single x -> normal x.
Proof.
  intros (b & Hb & ->). unfold f32_from_bits. change 0xff with (2 ^ 8 - 1). change 0x7fffff with (2 ^ 23 - 1). rewrite !land_field by done.
  pose proof (Z.mod_pos_bound (Z.shiftr b 23) (2 ^ 8)) as He. pose proof (Z.mod_pos_bound b (2 ^ 23)) as Hm.
  set (e := Z.shiftr b 23 mod 2 ^ 8) in *. set (m := b mod 2 ^ 23) in *. change (2 ^ 8 - 1) with 255.
  destruct (Z.eqb_spec e 255); [by destruct (m =? 0)|]. destruct (Z.eqb_spec e 0); [destruct m as [|p|p] eqn:E|destruct (m + 2 ^ 23) as [|p|p] eqn:E]; cbn [normal]; try done; lia.
Qed.

Lemma normal_abs x : normal x -> normal (SFabs x).
Proof. by destruct x. Qed.

Lemma normal_mag_le m e m' e' : normal (S754_finite false m e) -> normal (S754_finite false m' e') ->
  (e < e' \/ e = e' /\ (m <= m')%positive) -> Zdigits2 (Zpos m) + e <= Zdigits2 (Zpos m') + e'.
Proof.
  intros (Hm & He & _) (_ & He' & Hn') [Hlt|[-> Hle]].
  - assert (Zdigits2 (Zpos m) <= 24) by (apply digits_le; lia).
    assert (~ Zdigits2 (Zpos m') <= 23) by (rewrite digits_le by lia; destruct Hn'; lia). lia.
  - enough (Zdigits2 (Zpos m) <= Zdigits2 (Zpos m')) by lia. rewrite !digits_log2 by lia. pose proof (Z.log2_le_mono (Zpos m) (Zpos m')). lia.
Qed.

Lemma f64_max_covers x y : nonneg x -> normal x -> normal y -> (y = S754_nan \/ nonneg y) ->
  nonneg (f64_max x y) /\ normal (f64_max x y) /\ (is_finite (f64_max x y) = true -> covers (f64_max x y) x /\ covers (f64_max x y) y).
Proof.
  intros Hx Nx Ny Hy. unfold f64_max, SFcompare.
  destruct x as [[]|[]| |[] m e], y as [[]|[]| |[] m' e']; try done; try (destruct Hy; done); try (split; [done|]; split; [done|]; intros; by repeat split; cbn; try lia).
  change (Pos.compare_cont Eq m m') with (Pos.compare m m').
  destruct (Z.compare_spec e e') as [->|Hlt|Hgt]; [destruct (Pos.compare_spec m m') as [->|Hm|Hm]|..]; (split; [done|]); (split; [done|]); intros _; cbn [covers]; (split; [|]);
    try lia; apply normal_mag_le; try done; lia.
Qed.

Lemma covers_trans p q x : is_finite p = true -> covers p q -> covers q x -> covers p x.
Proof. destruct x, q, p; cbn; try done. lia. Qed.

(** The fold of the maximum covers every value. *)
Lemma fold_max_covers l acc : nonneg acc -> normal acc -> Forall (fun x => normal x /\ (x = S754_nan \/ nonneg x)) l ->
  let r := foldl f64_max acc l in nonneg r /\ normal r /\ (is_finite r = true -> covers r acc /\ Forall (covers r) l).
Proof.
  revert acc. induction l as [|x l IH]; intros acc Ha Na Hl; cbn [foldl].
  { split; [done|]. split; [done|]. intros Hf. split; [destruct acc; try done; cbn; lia|constructor]. }
  apply Forall_cons in Hl as [[Nx Hx] Hl]. destruct (f64_max_covers acc x Ha Na Nx Hx) as (Hm & Nm & Hc). destruct (IH _ Hm Nm Hl) as (Hr & Nr & Hcr).
  split; [done|]. split; [done|]. intros Hf. destruct (Hcr Hf) as [Hcm HF].
  assert (Hfm : is_finite (f64_max acc x) = true) by (destruct (f64_max acc x); try done; by destruct (foldl _ _ _)). destruct (Hc Hfm) as [H1 H2].
  split; [by eapply covers_trans|]. constructor; [by eapply covers_trans|done].
Qed.

(** The widening conversion keeps the magnitude. *)
Lemma widened_mag s m e : normal (S754_finite s m e) ->
  exists m' e', f64_of_f32 (S754_finite s m e) = S754_finite s m' e' /\ Zdigits2 (Zpos m') + e' = Zdigits2 (Zpos m) + e.
Proof.
  intros (Hm & He & _). assert (Zdigits2 (Zpos m) <= 24) by (apply digits_le; lia). apply (round_exact 53 1024); try lia; unfold emin; lia.
Qed.

(** A covered value over the peak is at most two, or not a number. *)
Lemma ratio_below peak x : normal peak -> normal x -> covers peak x -> is_finite peak = true -> SFltb (S754_zero false) peak = true ->
  let q := f64_div (f64_of_f32 (SFabs x)) (f64_of_f32 peak) in q = S754_nan \/ below 2 q.
Proof.
  intros Np Nx Hc Hf Hpos. destruct peak as [[]|[]| |[] m' e']; try done. destruct (widened_mag _ _ _ Np) as (mp & ep & Hp & Dp). rewrite Hp.
  destruct x as [s|s| |s m e]; try done; [by right|by left|]. cbn [SFabs]. destruct (widened_mag false m e Nx) as (mx & ex & -> & Dx). right.
  cbn [covers] in Hc. apply (div_below 53 1024 ltac:(lia) ltac:(lia) (Zdigits2 (Zpos mx) + ex)); cbn [below above]; lia.
Qed.
End Singles.

(** Narrowing a widened single is exact. *)
Lemma round_exact_value prec emax sx m e : let ez := fexp prec emax (Zdigits2 (Zpos m) + e) in ez <= e -> ez <= emax - prec ->
  exists mz, binary_round prec emax sx m e = S754_finite sx mz ez /\ Zpos mz = Zpos m * 2 ^ (e - ez).
Proof.
  intros ez He Hm. unfold binary_round, shl_align. change (Zpos (digits2_pos m)) with (Zdigits2 (Zpos m)). fold ez.
  assert (Hal : exists mz, (match ez - e with Zneg d => (Pos.iter xO m d, ez) | _ => (m, e) end) = (mz, ez) /\ Zpos mz = Zpos m * 2 ^ (e - ez)).
  { destruct (ez - e) as [|p|p] eqn:Ez; [exists m; split; [f_equal; lia|replace (e - ez) with 0 by lia; lia]|lia|].
    exists (Pos.iter xO m p). split; [done|]. rewrite shift_pos_Z. do 2 f_equal. lia. }
  destruct Hal as (mz & -> & Hmz).
  assert (Hshr : shr_fexp prec emax (Zpos mz) ez loc_Exact = (shr_record_of_loc (Zpos mz) loc_Exact, ez)).
  { unfold shr_fexp. rewrite Hmz, digits_shift by lia. replace (Zdigits2 (Zpos m) + (e - ez) + ez) with (Zdigits2 (Zpos m) + e) by lia. change (fexp prec emax (Zdigits2 (Zpos m) + e)) with ez. by rewrite Z.sub_diag. }
  unfold binary_round_aux. rewrite Hshr. cbn [shr_record_of_loc shr_m loc_of_shr_record round_nearest_even]. rewrite Hshr. cbn [shr_record_of_loc shr_m].
  destruct (Z.leb_spec ez (emax - prec)); [|lia]. by exists mz.
Qed.

Lemma shr_1_even z : 0 < z -> shr_1 {| shr_m := z * 2; shr_r := false; shr_s := false |} = {| shr_m := z; shr_r := false; shr_s := false |}.
Proof. intros Hz. rewrite Z.mul_comm. by destruct z as [|q|q]; [lia| |lia]. Qed.

Lemma shr_iter_exact p z : 0 < z -> iter_pos shr_1 p {| shr_m := z * 2 ^ Zpos p; shr_r := false; shr_s := false |} = {| shr_m := z; shr_r := false; shr_s := false |}.
Proof.
  revert z. induction p as [p IH|p IH|]; intros z Hz; cbn [iter_pos].
  - assert (0 < z * 2 ^ Zpos p) by nia. replace (z * 2 ^ Zpos p~1) with (z * 2 ^ Zpos p * 2 ^ Zpos p * 2) by (replace (Zpos p~1) with (Zpos p + Zpos p + 1) by lia; rewrite !Z.pow_add_r, Z.pow_1_r by lia; lia).
    rewrite shr_1_even by nia. by rewrite !IH.
  - assert (0 < z * 2 ^ Zpos p) by nia. replace (z * 2 ^ Zpos p~0) with (z * 2 ^ Zpos p * 2 ^ Zpos p) by (replace (Zpos p~0) with (Zpos p + Zpos p) by lia; rewrite Z.pow_add_r by lia; lia). by rewrite !IH.
  - rewrite Z.pow_1_r. by apply shr_1_even.
Qed.

Lemma narrow_widened s m e : normal (S754_finite s m e) ->
  exists m' e', f64_of_f32 (S754_finite s m e) = S754_finite s m' e' /\ binary_round 24 128 s m' e' = S754_finite s m e.
Proof.
  intros (Hm & He & Hn). set (d := Zdigits2 (Zpos m)). assert (Hd : 1 <= d <= 24) by (unfold d; split; [rewrite digits_log2 by lia; pose proof (Z.log2_nonneg (Zpos m)); lia|apply digits_le; lia]).
  assert (Hfull : e = -149 \/ d = 24) by (destruct Hn; [by left|right; unfold d in *; assert (~ Zdigits2 (Zpos m) <= 23) by (rewrite digits_le by lia; lia); lia]).
  destruct (round_exact_value 53 1024 s m e) as (m' & E & Em'); [unfold fexp, emin; fold d; lia..|]. fold d in E, Em'. unfold fexp, emin in E, Em'.
  set (e' := Z.max (d + e - 53) (3 - 1024 - 53)) in *. exists m', e'. split; [exact E|].
  unfold binary_round, shl_align. change (Zpos (digits2_pos m')) with (Zdigits2 (Zpos m')). rewrite Em', digits_shift by lia. fold d.
  replace (fexp 24 128 (d + (e - e') + e')) with e by (unfold fexp, emin; lia).
  assert (Hk : exists k, e - e' = Zpos k) by (destruct (e - e') as [|k|k] eqn:?; [lia|by exists k|lia]). destruct Hk as [k Hk]. rewrite Hk in *.
  unfold binary_round_aux, shr_fexp. rewrite Em', digits_shift by lia. fold d. replace (fexp 24 128 (d + Zpos k + e') - e') with (Zpos k) by (unfold fexp, emin; lia).
  unfold shr. cbn [shr_record_of_loc]. rewrite shr_iter_exact by lia. cbn [shr_m loc_of_shr_record round_nearest_even]. fold d.
  replace (fexp 24 128 (d + (e' + Zpos k)) - (e' + Zpos k)) with 0 by (unfold fexp, emin; lia). cbn [shr_record_of_loc shr_m].
  destruct (Z.leb_spec (e' + Zpos k) (128 - 24)); [|lia]. f_equal. lia.
Qed.
