(* ===== verification/Manifest.v ===== *)
(** * Model manifests ([verifiable-inference/src/manifest.rs])

    A manifest lists the weight tensors of a model; stage-2 manifests add to each
    entry a chain extension that says what its input is and what the layer adds
    to the residual stream.  [parse] reads the entry an opening carries, [read_file]
    reads a whole manifest file, [chain_bytes] writes the chain extension. *)
From S2P Require Import Prelude Merkle.

Definition ROLE_PRODUCT : Z := 0.
Definition ROLE_BIAS : Z := 1.
Definition ROLE_OUTPUT : Z := 2.
Definition ROLE_EMBD : Z := 3.
Definition ROLE_NORM : Z := 4.
Definition ROLE_LAYER : Z := 5.
Definition ROLE_ROUTER : Z := 6.
Definition ROLE_HEADS : Z := 7.
Definition FORM_NONE : Z := 0.
Definition FORM_SPLIT : Z := 1.
Definition FORM_PAIR_GATE : Z := 2.
Definition FORM_PAIR_UP : Z := 3.
Definition GLU_SWIGLU : Z := 1.
Definition GLU_GEGLU : Z := 2.
Definition NONE : Z := 2 ^ 32 - 1.
Definition LINK_NONE : Z := 0.
Definition LINK_ATTN_IN : Z := 1.
Definition LINK_FFN_IN : Z := 2.
Definition LINK_GLU : Z := 3.
Definition LINK_HEAD : Z := 4.
Definition LINK_DIRECT : Z := 5.
Definition LINK_HEAD_SLICE : Z := 6.

Definition TAG_NONE : Z := 0.
Definition TAG_PRODUCT : Z := 1.
Definition TAG_LAYER : Z := 2.
Definition TAG_MOE_LAYER : Z := 3.
Definition TAG_ATTN_LAYER : Z := 4.
Definition TAG_ATTN_MOE_LAYER : Z := 5.
Definition TAG_RECUR_LAYER : Z := 6.
Definition TAG_RECUR_MOE_LAYER : Z := 7.

(** ** Data *)

Record ProductLink := { pl_layer : Z; pl_link : Z; pl_norm : Z; pl_src : Z }.

Record MoeLinks := {
  down_exps : Z;
  router : Z;
  probs_bias : Z;
  w_scale : Z;
  ffn_norm : Z;
  gate_exps : Z;
}.

Record AttnLinks := {
  al_q : Z; al_k : Z; al_v : Z; al_q_norm : Z; al_k_norm : Z;
  al_n_head : Z; al_n_head_kv : Z; al_head_dim : Z; al_rope_kind : Z; al_n_rot : Z;
  al_rope_base : Z; al_kq_scale : Z; al_swa_window : Z; al_softcap : Z; al_rope_freqs : Z;
  al_v_norm : Z; al_gated : Z; al_slot : Z; al_mla_rank : Z; al_absorb : Z; al_out : Z;
}.

Definition ATTN_FIELDS : nat := 21.

Definition attn_fields (a : AttnLinks) : list Z :=
  [al_q a; al_k a; al_v a; al_q_norm a; al_k_norm a; al_n_head a; al_n_head_kv a; al_head_dim a;
   al_rope_kind a; al_n_rot a; al_rope_base a; al_kq_scale a; al_swa_window a; al_softcap a;
   al_rope_freqs a; al_v_norm a; al_gated a; al_slot a; al_mla_rank a; al_absorb a; al_out a].

(** The array the source destructures has the right length by its type. *)
Definition attn_from_fields (f : list Z) : option AttnLinks :=
  match f with
  | [q; k; v; q_norm; k_norm; n_head; n_head_kv; head_dim; rope_kind; n_rot; rope_base; kq_scale;
     swa_window; softcap; rope_freqs; v_norm; gated; slot; mla_rank; absorb; out] =>
      Some {| al_q := q; al_k := k; al_v := v; al_q_norm := q_norm; al_k_norm := k_norm;
              al_n_head := n_head; al_n_head_kv := n_head_kv; al_head_dim := head_dim;
              al_rope_kind := rope_kind; al_n_rot := n_rot; al_rope_base := rope_base;
              al_kq_scale := kq_scale; al_swa_window := swa_window; al_softcap := softcap;
              al_rope_freqs := rope_freqs; al_v_norm := v_norm; al_gated := gated; al_slot := slot;
              al_mla_rank := mla_rank; al_absorb := absorb; al_out := out |}
  | _ => None
  end.

Definition RECUR_GDA : Z := 0.
Definition RECUR_KDA : Z := 1.

Record RecurLinks := {
  rl_kind : Z; rl_slot : Z; rl_n_v_heads : Z; rl_n_k_heads : Z; rl_head_dim : Z;
  rl_q : Z; rl_k : Z; rl_v : Z; rl_conv_q : Z; rl_conv_k : Z; rl_conv_v : Z; rl_beta : Z;
  rl_decay : Z; rl_dt : Z; rl_a : Z; rl_norm : Z; rl_gate : Z; rl_interval : Z; rl_conv_len : Z;
}.

Definition RECUR_FIELDS : nat := 19.

Definition recur_fields (r : RecurLinks) : list Z :=
  [rl_kind r; rl_slot r; rl_n_v_heads r; rl_n_k_heads r; rl_head_dim r; rl_q r; rl_k r; rl_v r;
   rl_conv_q r; rl_conv_k r; rl_conv_v r; rl_beta r; rl_decay r; rl_dt r; rl_a r; rl_norm r;
   rl_gate r; rl_interval r; rl_conv_len r].

Definition recur_from_fields (f : list Z) : option RecurLinks :=
  match f with
  | [kind; slot; n_v_heads; n_k_heads; head_dim; q; k; v; conv_q; conv_k; conv_v; beta; decay; dt;
     a; norm; gate; interval; conv_len] =>
      Some {| rl_kind := kind; rl_slot := slot; rl_n_v_heads := n_v_heads; rl_n_k_heads := n_k_heads;
              rl_head_dim := head_dim; rl_q := q; rl_k := k; rl_v := v; rl_conv_q := conv_q;
              rl_conv_k := conv_k; rl_conv_v := conv_v; rl_beta := beta; rl_decay := decay; rl_dt := dt;
              rl_a := a; rl_norm := norm; rl_gate := gate; rl_interval := interval;
              rl_conv_len := conv_len |}
  | _ => None
  end.

Record LayerLinks := {
  ll_layer : Z;
  proj : Z;
  down : Z;
  post_attn : Z;
  post_ffn : Z;
  scale : Z;
  ll_moe : option MoeLinks;
  ll_attn : option AttnLinks;
  ll_recur : option RecurLinks;
}.

Inductive Chain :=
| Chain_None
| Chain_Product (p : ProductLink)
| Chain_Layer (l : LayerLinks).

Record Entry := {
  name : list byte;
  wtype : Z;
  e_k : Z;
  e_m : Z;
  n_exp : Z;
  chunk_base : Z;
  n_bytes : Z;
  row_bytes : Z;
  role : Z;
  glu_op : Z;
  glu_form : Z;
  partner : Z;
  bias : Z;
  chain : Chain;
}.

(** ** Chain extension *)

(** [b.get(o..o + 4).map(|s| u32::from_le_bytes(..))] *)
Definition u32a (b : list byte) (o : Z) : option Z := from_le <$> get_range b o (o + 4).

(** [for (i, v) in f.iter_mut().enumerate() { *v = u32a(base + 4 * i)?; }] *)
Fixpoint u32s (b : list byte) (base : Z) (n : nat) : option (list Z) :=
  match n with
  | O => Some []
  | S n => v ← u32a b base; t ← u32s b (base + 4) n; Some (v :: t)
  end.

(** [matches!(tag, ..)] *)
Definition tag_in (tag : Z) (tags : list Z) : bool := existsb (Z.eqb tag) tags.

(** The fields of each part of a layer extension, in the order [parse_chain] reads them. *)
Definition parse_moe (b : list byte) : option MoeLinks :=
  down_exps ← u32a b 25; router ← u32a b 29; probs_bias ← u32a b 33;
  w_scale ← u32a b 37; ffn_norm ← u32a b 41; gate_exps ← u32a b 45;
  Some {| down_exps := down_exps; router := router; probs_bias := probs_bias;
          w_scale := w_scale; ffn_norm := ffn_norm; gate_exps := gate_exps |}.
Definition parse_attn (base : Z) (b : list byte) : option AttnLinks :=
  f ← u32s b base ATTN_FIELDS; attn_from_fields f.
Definition parse_recur (base : Z) (b : list byte) : option RecurLinks :=
  f ← u32s b base RECUR_FIELDS; recur_from_fields f.
Definition parse_layer (moe : option MoeLinks) (attn : option AttnLinks) (recur : option RecurLinks)
  (b : list byte) : option LayerLinks :=
  layer ← u32a b 1; proj ← u32a b 5; down ← u32a b 9;
  post_attn ← u32a b 13; post_ffn ← u32a b 17; scale ← u32a b 21;
  Some {| ll_layer := layer; proj := proj; down := down; post_attn := post_attn;
          post_ffn := post_ffn; scale := scale; ll_moe := moe; ll_attn := attn; ll_recur := recur |}.

(** [if c { Some(f?) } else { None }] *)
Definition optional {A} (c : bool) (f : option A) : option (option A) :=
  if c then x ← f; Some (Some x) else Some None.

Definition parse_product (b : list byte) : option ProductLink :=
  link ← get_at b 5;
  layer ← u32a b 1; norm ← u32a b 6; src ← u32a b 10;
  Some {| pl_layer := layer; pl_link := u8_of_byte link; pl_norm := norm; pl_src := src |}.

Definition parse_tagged (tag : Z) (b : list byte) : option (Chain * Z) :=
  if tag =? TAG_NONE then Some (Chain_None, 1)
  else if tag =? TAG_PRODUCT then p ← parse_product b; Some (Chain_Product p, 14)
  else if tag_in tag [TAG_LAYER; TAG_MOE_LAYER; TAG_ATTN_LAYER; TAG_ATTN_MOE_LAYER; TAG_RECUR_LAYER;
                      TAG_RECUR_MOE_LAYER] then
    moe ← optional (tag_in tag [TAG_MOE_LAYER; TAG_ATTN_MOE_LAYER; TAG_RECUR_MOE_LAYER]) (parse_moe b);
    let base := match moe with Some _ => 49 | None => 25 end in
    attn ← optional (tag_in tag [TAG_ATTN_LAYER; TAG_ATTN_MOE_LAYER]) (parse_attn base b);
    recur ← optional (tag_in tag [TAG_RECUR_LAYER; TAG_RECUR_MOE_LAYER]) (parse_recur base b);
    l ← parse_layer moe attn recur b;
    Some (Chain_Layer l,
          base + match attn with Some _ => 4 * Z.of_nat ATTN_FIELDS | None => 0 end
               + match recur with Some _ => 4 * Z.of_nat RECUR_FIELDS | None => 0 end)
  else None.

Definition parse_chain (b : list byte) : option (Chain * Z) :=
  tag ← head b; parse_tagged (u8_of_byte tag) b.

(** [for v in vs { b.extend_from_slice(&v.to_le_bytes()); }] *)
Definition le_words (vs : list Z) : list byte := mjoin (to_le 4 <$> vs).

Definition layer_tag (l : LayerLinks) : Z :=
  match ll_moe l, ll_attn l, ll_recur l with
  | None, None, None => TAG_LAYER
  | Some _, None, None => TAG_MOE_LAYER
  | None, Some _, _ => TAG_ATTN_LAYER
  | Some _, Some _, _ => TAG_ATTN_MOE_LAYER
  | None, None, Some _ => TAG_RECUR_LAYER
  | Some _, None, Some _ => TAG_RECUR_MOE_LAYER
  end.

Definition moe_words (m : MoeLinks) : list Z :=
  [down_exps m; router m; probs_bias m; w_scale m; ffn_norm m; gate_exps m].

Definition chain_bytes (c : Chain) : list byte :=
  match c with
  | Chain_None => [byte_of_u8 TAG_NONE]
  | Chain_Product p =>
      byte_of_u8 TAG_PRODUCT :: to_le 4 (pl_layer p) ++ byte_of_u8 (pl_link p)
      :: to_le 4 (pl_norm p) ++ to_le 4 (pl_src p)
  | Chain_Layer l =>
      byte_of_u8 (layer_tag l)
      :: le_words [ll_layer l; proj l; down l; post_attn l; post_ffn l; scale l]
      ++ from_option (fun m => le_words (moe_words m)) [] (ll_moe l)
      ++ match ll_attn l, ll_recur l with
         | Some a, _ => le_words (attn_fields a)
         | None, Some r => le_words (recur_fields r)
         | None, None => []
         end
  end.

(** ** Entries *)

Definition is_cont (b : byte) : bool := (0x80 <=? u8_of_byte b) && (u8_of_byte b <=? 0xbf).
Definition u8_in (b : byte) (lo hi : Z) : bool := (lo <=? u8_of_byte b) && (u8_of_byte b <=? hi).

(** Whether [String::from_utf8] accepts the bytes: the well-formed sequences of the Unicode standard
    (table 3-7). *)
Fixpoint utf8_valid (l : list byte) : bool :=
  match l with
  | [] => true
  | a :: l1 =>
    if u8_in a 0 0x7f then utf8_valid l1 else
    match l1 with
    | [] => false
    | b :: l2 =>
      if u8_in a 0xc2 0xdf then is_cont b && utf8_valid l2 else
      match l2 with
      | [] => false
      | c :: l3 =>
        if u8_in a 0xe0 0xe0 then u8_in b 0xa0 0xbf && is_cont c && utf8_valid l3 else
        if u8_in a 0xe1 0xec || u8_in a 0xee 0xef then is_cont b && is_cont c && utf8_valid l3 else
        if u8_in a 0xed 0xed then u8_in b 0x80 0x9f && is_cont c && utf8_valid l3 else
        match l3 with
        | [] => false
        | d :: l4 =>
          if u8_in a 0xf0 0xf0 then u8_in b 0x90 0xbf && is_cont c && is_cont d && utf8_valid l4 else
          if u8_in a 0xf1 0xf3 then is_cont b && is_cont c && is_cont d && utf8_valid l4 else
          if u8_in a 0xf4 0xf4 then u8_in b 0x80 0x8f && is_cont c && is_cont d && utf8_valid l4 else
          false
        end
      end
    end
  end.

(** Fields of the 55-byte record [r]: [r[o..o + n]] is in range for every offset the source uses. *)
Definition field (r : list byte) (o n : Z) : Z := from_le (slice r o (o + n)).

Definition parse_base (b : list byte) : option (Entry * Z) :=
  nl ← from_le <$> get_range b 0 2;
  name ← get_range b 2 (2 + nl);
  if negb (utf8_valid name) then None else
  r ← get_range b (2 + nl) (2 + nl + 55);
  Some ({| name := name;
           wtype := field r 0 4;
           e_k := field r 4 8;
           e_m := field r 12 8;
           n_exp := field r 20 4;
           chunk_base := field r 24 8;
           n_bytes := field r 32 8;
           row_bytes := field r 40 4;
           role := field r 44 1;
           glu_op := field r 45 1;
           glu_form := field r 46 1;
           partner := field r 47 4;
           bias := field r 51 4;
           chain := Chain_None |}, 2 + nl + 55).

Definition with_chain (e : Entry) (c : Chain) : Entry :=
  {| name := name e; wtype := wtype e; e_k := e_k e; e_m := e_m e; n_exp := n_exp e;
     chunk_base := chunk_base e; n_bytes := n_bytes e; row_bytes := row_bytes e; role := role e;
     glu_op := glu_op e; glu_form := glu_form e; partner := partner e; bias := bias e; chain := c |}.

(** [Entry::parse]: [b] is one whole entry. *)
Definition parse (b : list byte) : option (Entry * Z) :=
  '(e, len) ← parse_base b;
  if len =? zlen b then Some (e, len) else
  '(c, n) ← parse_chain (drop (Z.to_nat len) b);
  Some (with_chain e c, len + n).

(** [Entry::parse_in_file]: the entry at the start of [b]. *)
Definition parse_in_file (b : list byte) (chain : bool) : option (Entry * Z) :=
  '(e, len) ← parse_base b;
  if negb chain then Some (e, len) else
  '(c, n) ← parse_chain (drop (Z.to_nat len) b);
  Some (with_chain e c, len + n).

(** Chunk range covering a weight row, and the row offset in its first chunk. *)
Definition row_chunks (e : Entry) (exp row : Z) : option (Z * Z * Z) :=
  if (e_m e <=? row) || (n_exp e <=? exp) then None else
  let start := wrap 64 ((exp * e_m e + row) * row_bytes e) in
  let fin := wrap 64 (start + row_bytes e) in
  if n_bytes e / 32 * 32 <? fin then None else
  Some (wrap 64 (chunk_base e + start / 32), wrap 64 (chunk_base e + wrap 64 (fin - 1) / 32), start mod 32).

Section Leaves.
Context `{B3 : Blake3}.

(** [Entry::leaf] *)
Definition leaf (bytes : list byte) : Hash := blake3_hash bytes.

(** Inclusion of an entry in the manifest. *)
Definition verify_entry (m_t : Hash) (n_entries index : Z) (entry_bytes : list byte) (path : list Hash)
  : res bool :=
  rt_verify_leaf m_t n_entries index (leaf entry_bytes) path.
End Leaves.

(** ** Manifest files *)

Definition MAGIC1 : list byte := byte_of_u8 <$> [75; 88; 77; 65; 78; 73; 70; 49].
Definition MAGIC2 : list byte := byte_of_u8 <$> [75; 88; 77; 65; 78; 73; 70; 50].

(** The [for _ in 0..n] loop of [read_file].  [data[o..]] panics past the end of the file. *)
Fixpoint read_entries (n : nat) (data : list byte) (o : Z) (chain : bool)
  : res (option (list (Entry * list byte))) :=
  match n with
  | O => Ret (Some [])
  | S n =>
    tail ← index_range data o (zlen data);
    match parse_in_file tail chain with
    | None => Ret None
    | Some (e, len) =>
      bytes ← index_range data o (o + len);
      rest ← read_entries n data (o + len) chain;
      Ret (option_map (cons (e, bytes)) rest)
    end
  end.

(** Entries of a serialized manifest, and its product count. *)
Definition read_file (data : list byte) : res (option (list (Entry * list byte) * Z)) :=
  match get_range data 0 8 with
  | None => Ret None
  | Some magic =>
    if negb (bool_decide (magic = MAGIC1) || bool_decide (magic = MAGIC2)) then Ret None else
    let chain := bool_decide (magic = MAGIC2) in
    n ← index_range data 8 12;
    n_products ← index_range data 12 16;
    entries ← read_entries (Z.to_nat (from_le n)) data 16 chain;
    Ret (option_map (fun out => (out, from_le n_products)) entries)
  end.

(** ** Readers look only at the entry *)

(** [f] reads the first [n] bytes: it needs them, and nothing after them. *)
Definition local {A} (f : list byte -> option A) (n : Z) : Prop :=
  forall b x, f b = Some x -> n <= zlen b /\ forall k, n <= Z.of_nat k -> f (take k b) = Some x.

Lemma local_eq {A} (f : list byte -> option A) n m : n = m -> local f n -> local f m.
Proof. by intros ->. Qed.

Lemma local_ret {A} (x : A) : local (fun _ => Some x) 0.
Proof. intros b y H. split; [apply zlen_nonneg|done]. Qed.

Lemma local_none {A} n : local (fun _ => @None A) n.
Proof. done. Qed.

Lemma local_bind {A B} (f : list byte -> option A) (g : A -> list byte -> option B) n m :
  local f n -> (forall x, local (g x) m) -> local (fun b => x ← f b; g x b) (Z.max n m).
Proof.
  intros Hf Hg b y H. destruct (f b) as [x|] eqn:E; [|done]. cbn in H.
  apply Hf in E as [Hn Hk]. apply Hg in H as [Hm Hk'].
  split; [lia|]. intros k Hle. rewrite Hk by lia. cbn. apply Hk'. lia.
Qed.

Lemma local_get_range lo hi : local (fun b => get_range b lo hi) hi.
Proof.
  intros b x H. pose proof (get_range_Some_le _ _ _ _ H). split; [done|]. intros. by rewrite get_range_take.
Qed.

Lemma local_u32a o : local (fun b => u32a b o) (o + 4).
Proof.
  intros b x. unfold u32a. destruct (get_range b o (o + 4)) as [s|] eqn:E; [|done].
  apply local_get_range in E as [Hn Hk]. intros [= <-]. split; [done|]. intros k Hle. by rewrite Hk.
Qed.

Lemma local_get_at i : local (fun b => get_at b i) (i + 1).
Proof.
  intros b x H. pose proof (get_at_Some_lt _ _ _ H). split; [lia|]. intros k Hk.
  unfold get_at in *. destruct (Z.leb_spec 0 i); [|done]. by rewrite lookup_take_lt by lia.
Qed.

Lemma local_u32s base n : 0 <= base ->
  local (fun b => u32s b base n) (if (n =? 0)%nat then 0 else base + 4 * Z.of_nat n).
Proof.
  revert base. induction n as [|n IH]; intros base Hb; cbn [u32s]; [apply local_ret|].
  eapply local_eq; [|apply local_bind; [apply local_u32a|intros v; apply local_bind; [apply IH; lia|intros; apply local_ret]]].
  destruct n; cbn [Nat.eqb]; lia.
Qed.

(** Peels the binds of a reader. *)
Ltac local_reader :=
  eapply local_eq;
  [|repeat first [apply local_ret | apply local_none | apply local_u32a | apply local_get_at
                 | apply local_u32s; done | apply local_bind; [|intros ?]]];
  reflexivity.

Lemma local_moe : local parse_moe 49.
Proof. unfold parse_moe. local_reader. Qed.
Lemma local_layer m a r : local (parse_layer m a r) 25.
Proof. unfold parse_layer. local_reader. Qed.
Lemma local_product : local parse_product 14.
Proof. unfold parse_product. local_reader. Qed.

Lemma local_option {A B} (f : list byte -> option A) (g : A -> option B) n :
  local f n -> local (fun b => x ← f b; g x) n.
Proof.
  intros Hf b y H. destruct (f b) as [x|] eqn:E; [|done]. cbn in H. apply Hf in E as [Hn Hk].
  split; [done|]. intros k Hle. by rewrite Hk.
Qed.

Lemma local_attn base : 0 <= base -> local (parse_attn base) (base + 84).
Proof.
  intros Hb. apply (local_option (fun b => u32s b base ATTN_FIELDS)).
  eapply local_eq; [|by apply local_u32s]. done.
Qed.
Lemma local_recur base : 0 <= base -> local (parse_recur base) (base + 76).
Proof.
  intros Hb. apply (local_option (fun b => u32s b base RECUR_FIELDS)).
  eapply local_eq; [|by apply local_u32s]. done.
Qed.

Lemma local_optional {A} (c : bool) (f : list byte -> option A) n :
  local f n -> local (fun b => optional c (f b)) (if c then n else 0).
Proof. intros Hf. unfold optional. destruct c; [by apply local_option|apply local_ret]. Qed.

(** Length of the extension a tag announces. *)
Definition tag_len (tag : Z) : Z :=
  if tag =? TAG_NONE then 1 else if tag =? TAG_PRODUCT then 14 else
  if tag =? TAG_LAYER then 25 else if tag =? TAG_MOE_LAYER then 49 else
  if tag =? TAG_ATTN_LAYER then 109 else if tag =? TAG_ATTN_MOE_LAYER then 133 else
  if tag =? TAG_RECUR_LAYER then 101 else 125.

Lemma local_optional_bind {A B} (c : bool) (f : list byte -> option A) (g : option A -> list byte -> option B) n m :
  local f n -> (if c then forall x, local (g (Some x)) m else local (g None) m) ->
  local (fun b => x ← optional c (f b); g x b) (Z.max (if c then n else 0) m).
Proof.
  intros Hf Hg b y H. destruct (optional c (f b)) as [x|] eqn:E; [|done]. cbn in H.
  pose proof E as E'. apply (local_optional c f n Hf) in E' as [Hn Hk].
  assert (Hx : local (g x) m).
  { unfold optional in E. destruct c; [destruct (f b); simplify_eq/=; apply Hg|by simplify_eq]. }
  apply Hx in H as [Hm Hk']. split; [lia|]. intros k Hle. rewrite Hk by lia. cbn. apply Hk'. lia.
Qed.

Lemma local_layer_end moe attn recur (n : Z) :
  local (fun b => l ← parse_layer moe attn recur b; Some (Chain_Layer l, n)) 25.
Proof. apply (local_option _ (fun l => Some (Chain_Layer l, n))), local_layer. Qed.

(** The branch of a concrete tag. *)
Ltac tag_branch :=
  cbv beta iota zeta; lazymatch goal with |- forall _, _ => intros ? | _ => idtac end.

Lemma layer_tagged_local tag : tag ∈ [2; 3; 4; 5; 6; 7] -> local (parse_tagged tag) (tag_len tag).
Proof.
  intros Ht. rewrite !elem_of_cons, elem_of_nil in Ht.
  destruct Ht as [-> |[-> |[-> |[-> |[-> |[-> | []]]]]]];
    cbv [parse_tagged tag_in existsb Z.eqb Pos.eqb orb TAG_NONE TAG_PRODUCT TAG_LAYER TAG_MOE_LAYER
         TAG_ATTN_LAYER TAG_ATTN_MOE_LAYER TAG_RECUR_LAYER TAG_RECUR_MOE_LAYER];
    (eapply local_eq; [|eapply local_optional_bind; [apply local_moe|]; tag_branch;
      (eapply local_optional_bind; [by apply local_attn|]); tag_branch;
      (eapply local_optional_bind; [by apply local_recur|]); tag_branch; apply local_layer_end]);
    reflexivity.
Qed.

Lemma layer_tagged_len tag b c n : tag ∈ [2; 3; 4; 5; 6; 7] -> parse_tagged tag b = Some (c, n) -> n = tag_len tag.
Proof.
  intros Ht. rewrite !elem_of_cons, elem_of_nil in Ht.
  destruct Ht as [-> |[-> |[-> |[-> |[-> |[-> | []]]]]]];
    cbv [parse_tagged tag_in existsb Z.eqb Pos.eqb orb TAG_NONE TAG_PRODUCT TAG_LAYER TAG_MOE_LAYER
         TAG_ATTN_LAYER TAG_ATTN_MOE_LAYER TAG_RECUR_LAYER TAG_RECUR_MOE_LAYER optional];
    intros H; simplify_option_eq; done.
Qed.

Lemma parse_chain_local b c n : parse_chain b = Some (c, n) ->
  1 <= n <= zlen b /\ forall k, n <= Z.of_nat k -> parse_chain (take k b) = Some (c, n).
Proof.
  unfold parse_chain. destruct (head b) as [t|] eqn:Hh; [|done]. cbn [mbind option_bind]. intros H.
  assert (Hb : 1 <= zlen b) by (destruct b; [done|unfold zlen; cbn [length]; lia]).
  enough (1 <= n <= zlen b /\ forall k, n <= Z.of_nat k -> parse_tagged (u8_of_byte t) (take k b) = Some (c, n))
    as [Hn Hk].
  { split; [done|]. intros k Hle. assert (head (take k b) = Some t) as -> by (destruct b, k; [..|lia|]; done).
    by apply Hk. }
  generalize dependent (u8_of_byte t). intros tag H. pose proof H as H'.
  unfold parse_tagged in H. destruct (tag =? TAG_NONE) eqn:E0.
  { simplify_eq. split; [lia|]. intros k _. unfold parse_tagged. by rewrite E0. }
  destruct (tag =? TAG_PRODUCT) eqn:E1.
  { destruct (parse_product b) as [p|] eqn:E; [|done]. cbn in H. simplify_eq.
    apply local_product in E as [Hn Hk]. split; [lia|]. intros k Hle. unfold parse_tagged.
    by rewrite E0, E1, Hk. }
  destruct (tag_in tag _) eqn:Et; [|done]. clear H.
  assert (Ht : tag ∈ [2; 3; 4; 5; 6; 7]).
  { cbn in Et. rewrite !orb_true_iff, !Z.eqb_eq in Et. rewrite !elem_of_cons, elem_of_nil.
    unfold TAG_LAYER, TAG_MOE_LAYER, TAG_ATTN_LAYER, TAG_ATTN_MOE_LAYER, TAG_RECUR_LAYER, TAG_RECUR_MOE_LAYER in Et.
    lia. }
  pose proof (layer_tagged_len _ _ _ _ Ht H') as ->. apply layer_tagged_local in H' as [Hn Hk]; [|done].
  split; [|done]. split; [|done]. rewrite !elem_of_cons, elem_of_nil in Ht.
  by destruct Ht as [-> |[-> |[-> |[-> |[-> |[-> | []]]]]]].
Qed.

Lemma parse_base_local b e len : parse_base b = Some (e, len) ->
  57 <= len <= zlen b /\ forall k, len <= Z.of_nat k -> parse_base (take k b) = Some (e, len).
Proof.
  unfold parse_base. intros H.
  destruct (get_range b 0 2) as [nlb|] eqn:E1; [|done]. cbn [fmap option_fmap option_map mbind option_bind] in H.
  pose proof (from_le_fits nlb) as [Hnl _].
  destruct (get_range b 2 (2 + from_le nlb)) as [nm|] eqn:E2; [|done]. cbn [mbind option_bind] in H.
  destruct (utf8_valid nm) eqn:E3; [|done]. cbn [negb] in H.
  destruct (get_range b (2 + from_le nlb) (2 + from_le nlb + 55)) as [r|] eqn:E4; [|done].
  cbn [mbind option_bind] in H. pose proof (get_range_Some_le _ _ _ _ E4).
  assert (Hlen : len = 2 + from_le nlb + 55) by congruence.
  split; [lia|]. intros k Hk.
  rewrite (get_range_take b 0 2) by lia. rewrite E1. cbn [fmap option_fmap option_map mbind option_bind].
  rewrite (get_range_take b 2 (2 + from_le nlb)) by lia. rewrite E2. cbn [mbind option_bind]. rewrite E3. cbn [negb].
  rewrite get_range_take by lia. by rewrite E4.
Qed.

Definition chain_words (l : LayerLinks) : list Z :=
  [ll_layer l; proj l; down l; post_attn l; post_ffn l; scale l]
  ++ from_option moe_words [] (ll_moe l)
  ++ match ll_attn l, ll_recur l with
     | Some a, _ => attn_fields a
     | None, Some r => recur_fields r
     | None, None => []
     end.

(** What a chain extension can carry: every field fits its width, and a layer has an attention or a
    recurrent descriptor, not both. *)
Definition chain_ok (c : Chain) : Prop :=
  match c with
  | Chain_None => True
  | Chain_Product p => is_u32 (pl_layer p) /\ is_u8 (pl_link p) /\ is_u32 (pl_norm p) /\ is_u32 (pl_src p)
  | Chain_Layer l => Forall is_u32 (chain_words l) /\ (ll_attn l = None \/ ll_recur l = None)
  end.

(** Every field a chain extension is parsed to has the width it is stored at. *)
Lemma u32a_fits b o v : u32a b o = Some v -> is_u32 v.
Proof.
  unfold u32a. destruct (get_range b o (o + 4)) as [s|] eqn:E; [|done]. intros [= <-]. pose proof (zlen_get_range _ _ _ _ E) as Hz.
  pose proof (from_le_fits s) as Hf. by replace (8 * zlen s) with 32 in Hf by lia.
Qed.

Lemma u32s_fit b base n f : u32s b base n = Some f -> Forall is_u32 f.
Proof.
  revert base f. induction n as [|n IH]; intros base f H; cbn [u32s] in H; [by injection H as <-|].
  destruct (u32a b base) as [v|] eqn:Ev; [|done]. cbn [mbind option_bind] in H. destruct (u32s b (base + 4) n) as [t|] eqn:Et; [|done].
  injection H as <-. constructor; [by eapply u32a_fits|by eapply IH].
Qed.

(** A list of [n] words is split into its fields and back. *)
Lemma attn_from_fields_inv f a : attn_from_fields f = Some a -> attn_fields a = f.
Proof. unfold attn_from_fields. repeat (destruct f as [|? f]; try done). by intros [= <-]. Qed.
Lemma recur_from_fields_inv f r : recur_from_fields f = Some r -> recur_fields r = f.
Proof. unfold recur_from_fields. repeat (destruct f as [|? f]; try done). by intros [= <-]. Qed.

Lemma optional_inv {A} c (f : option A) o : optional c f = Some o -> o = None \/ exists x, f = Some x /\ o = Some x /\ c = true.
Proof. unfold optional. destruct c; [|intros [= <-]; by left]. destruct f as [x|]; [|done]. intros [= <-]. right. by exists x. Qed.

Ltac words_fit := repeat match goal with
  | H : u32a ?b ?o ≫= _ = Some _ |- _ => let v := fresh "v" in let E := fresh "E" in
      destruct (u32a b o) as [v|] eqn:E; [cbn [mbind option_bind] in H; apply u32a_fits in E|done] end.

Lemma parse_chain_ok b c n : parse_chain b = Some (c, n) -> chain_ok c.
Proof.
  unfold parse_chain. destruct (head b) as [t|]; [|done]. cbn [mbind option_bind]. generalize (u8_of_byte t) as tag. intros tag. unfold parse_tagged.
  destruct (tag =? TAG_NONE); [by intros [= <- <-]|]. destruct (tag =? TAG_PRODUCT).
  { unfold parse_product. destruct (get_at b 5) as [l|]; [|done]. cbn [mbind option_bind]. intros H.
    destruct (u32a b 1) as [v|] eqn:E1; [|done]. destruct (u32a b 6) as [v0|] eqn:E2; [|done]. destruct (u32a b 10) as [v1|] eqn:E3; [|done].
    injection H as <- _. cbn. split; [by eapply u32a_fits|]. split; [apply u8_of_byte_range|]. split; by eapply u32a_fits. }
  destruct (tag_in tag _); [|done].
  destruct (optional (tag_in tag [TAG_MOE_LAYER; TAG_ATTN_MOE_LAYER; TAG_RECUR_MOE_LAYER]) (parse_moe b)) as [moe|] eqn:Em; [|done]. cbn [mbind option_bind].
  set (base := match moe with Some _ => 49 | None => 25 end). clearbody base.
  destruct (optional (tag_in tag [TAG_ATTN_LAYER; TAG_ATTN_MOE_LAYER]) (parse_attn base b)) as [attn|] eqn:Ea; [|done]. cbn [mbind option_bind].
  destruct (optional (tag_in tag [TAG_RECUR_LAYER; TAG_RECUR_MOE_LAYER]) (parse_recur base b)) as [recur|] eqn:Er; [|done]. cbn [mbind option_bind].
  intros H. destruct (parse_layer moe attn recur b) as [l|] eqn:El; [|done]. injection H as <- _. unfold parse_layer in El. words_fit. injection El as <-.
  cbn [chain_ok]. unfold chain_words. cbn [ll_layer proj down post_attn post_ffn scale ll_moe ll_attn ll_recur]. split.
  - repeat (constructor; [done|]). apply Forall_app. split.
    + apply optional_inv in Em as [->|(m & Em & -> & _)]; [by apply Forall_nil|]. unfold parse_moe in Em. words_fit. injection Em as <-. cbn.
      repeat (constructor; [done|]). constructor.
    + apply optional_inv in Ea as [->|(a & Ea & -> & _)]; cbn.
      * apply optional_inv in Er as [->|(r & Er & -> & _)]; [by apply Forall_nil|]. unfold parse_recur in Er.
        destruct (u32s b base RECUR_FIELDS) as [f|] eqn:Ef; [|done]. apply recur_from_fields_inv in Er as ->. by eapply u32s_fit.
      * unfold parse_attn in Ea. destruct (u32s b base ATTN_FIELDS) as [f|] eqn:Ef; [|done]. apply attn_from_fields_inv in Ea as ->. by eapply u32s_fit.
  - apply optional_inv in Ea as [->|(a & _ & -> & Ta)]; [by left|]. apply optional_inv in Er as [->|(r & _ & -> & Tr)]; [by right|].
    exfalso. cbn in Ta, Tr. rewrite !orb_true_iff, !Z.eqb_eq in Ta, Tr. unfold TAG_ATTN_LAYER, TAG_ATTN_MOE_LAYER, TAG_RECUR_LAYER, TAG_RECUR_MOE_LAYER in *. lia.
Qed.

(** Every field an entry is parsed to has the width it is stored at. *)
Definition widths (e : Entry) : Prop :=
  is_u32 (wtype e) /\ is_u64 (e_k e) /\ is_u64 (e_m e) /\ is_u32 (n_exp e) /\ is_u64 (chunk_base e) /\ is_u64 (n_bytes e)
  /\ is_u32 (row_bytes e) /\ is_u32 (partner e) /\ is_u32 (bias e) /\ chain_ok (chain e).

Lemma field_fits r o n w : 0 <= n -> w = 8 * n -> fits w (field r o n).
Proof.
  intros Hn ->. unfold field. pose proof (from_le_fits (slice r o (o + n))) as [Hf Hb]. split; [done|].
  eapply Z.lt_le_trans; [exact Hb|]. apply Z.pow_le_mono_r; [done|]. unfold slice, zlen. rewrite length_take. lia.
Qed.

Lemma parse_widths b e len : parse b = Some (e, len) -> widths e.
Proof.
  assert (Hbase : forall e0 l0, parse_base b = Some (e0, l0) -> widths e0).
  { intros e0 l0. unfold parse_base. destruct (get_range b 0 2); [|done]. cbn [fmap option_fmap option_map mbind option_bind].
    destruct (get_range b 2 _); [|done]. cbn [mbind option_bind]. destruct (negb _); [done|]. destruct (get_range b _ _); [|done].
    cbn [mbind option_bind]. intros [= <- <-]. unfold widths. cbn. split_and!; try done; by apply field_fits. }
  unfold parse. destruct (parse_base b) as [[e0 l0]|]; [|done]. specialize (Hbase _ _ eq_refl). cbn [mbind option_bind].
  destruct (_ =? zlen b); [by intros [= <- <-]|]. destruct (parse_chain _) as [[c n]|] eqn:Ec; [|done]. intros [= <- <-].
  apply parse_chain_ok in Ec. unfold widths in *. cbn. tauto.
Qed.

Lemma parse_in_file_local b ch e len : parse_in_file b ch = Some (e, len) ->
  57 <= len <= zlen b /\ parse (take (Z.to_nat len) b) = Some (e, len).
Proof.
  unfold parse_in_file, parse. intros H. destruct (parse_base b) as [[e0 l0]|] eqn:E0; [|done].
  cbn [mbind option_bind] in H. apply parse_base_local in E0 as [Hl Hk]. destruct ch; cbn [negb] in H.
  - destruct (parse_chain _) as [[c n]|] eqn:Ec; [|done]. cbn [mbind option_bind] in H. simplify_eq.
    apply parse_chain_local in Ec as [Hn Hkc]. rewrite zlen_drop in Hn by lia. split; [lia|].
    rewrite Hk by lia. cbn [mbind option_bind]. rewrite zlen_take by lia.
    destruct (Z.eqb_spec l0 (l0 + n)); [lia|]. rewrite skipn_firstn_comm.
    by rewrite Hkc by lia.
  - simplify_eq. split; [lia|]. rewrite Hk by lia. cbn [mbind option_bind].
    by rewrite zlen_take, Z.eqb_refl by lia.
Qed.

Lemma read_entries_spec n data o ch : 0 <= o <= zlen data ->
  read_entries n data o ch = Ret None \/
  exists out rest, read_entries n data o ch = Ret (Some out) /\ length out = n
    /\ Forall (fun x => parse x.2 = Some (x.1, zlen x.2)) out
    /\ drop (Z.to_nat o) data = mjoin out.*2 ++ rest.
Proof.
  revert o. induction n as [|n IH]; intros o Ho; cbn [read_entries].
  { right. by exists [], (drop (Z.to_nat o) data). }
  rewrite (index_range_Ret data o (zlen data)), slice_to_end by lia.
  cbn [mbind res_bind]. destruct (parse_in_file _ ch) as [[e len]|] eqn:E; [|by left].
  apply parse_in_file_local in E as [Hl Hp]. rewrite zlen_drop in Hl by lia.
  rewrite (index_range_Ret data o (o + len)) by lia. unfold slice.
  replace (o + len - o) with len by lia.
  cbn [mbind res_bind]. destruct (IH (o + len)) as [->|(out & rest & -> & Hlo & Hf & Hd)]; [lia|by left|].
  right. eexists _, rest. split; [reflexivity|]. cbn [length fmap list_fmap snd]. split; [by f_equal|]. split.
  - constructor; [|done]. cbn [fst snd]. rewrite Hp. f_equal. f_equal. rewrite zlen_take; [done|].
    rewrite zlen_drop; lia.
  - change (mjoin (?x :: ?l)) with (x ++ mjoin l). rewrite <- app_assoc, <- Hd.
    rewrite <- (take_drop (Z.to_nat len) (drop (Z.to_nat o) data)) at 1. f_equal.
    rewrite drop_drop. f_equal. lia.
Qed.

(** ** Properties *)

Section Properties.

(** Where [read_file] can fail hard.  Its only panic is a file cut after the magic and before
    the end of the 16-byte header; every other input gives entries or [None]. *)
Theorem read_file_panics (data : list byte) :
  read_file data = Panic <->
  (slice data 0 8 = MAGIC1 \/ slice data 0 8 = MAGIC2) /\ 8 <= zlen data < 16.
Proof.
  unfold read_file. destruct (get_range data 0 8) as [magic|] eqn:E0.
  2: { split; [done|]. intros [_ H]. unfold get_range in E0. by destruct (Z.leb_spec 8 (zlen data)); [|lia]. }
  apply get_range_Some in E0 as (_ & H8 & ->).
  destruct (bool_decide (slice data 0 8 = MAGIC1) || bool_decide (slice data 0 8 = MAGIC2)) eqn:Em; cbn [negb].
  2: { apply orb_false_iff in Em. rewrite !bool_decide_eq_false in Em. split; [done|tauto]. }
  rewrite orb_true_iff, !bool_decide_eq_true in Em.
  unfold index_range. destruct (decide (16 <= zlen data)).
  - rewrite (proj2 (get_range_Some data _ 8 12)) by (split_and!; [lia..|done]).
    rewrite (proj2 (get_range_Some data _ 12 16)) by (split_and!; [lia..|done]). cbn [mbind res_bind].
    destruct (read_entries_spec (Z.to_nat (from_le (slice data 8 12))) data 16 (bool_decide (slice data 0 8 = MAGIC2)))
      as [->|(? & ? & -> & _)]; [lia|..]; cbn; (split; [done|lia]).
  - split; [intros _; split; [done|lia]|]. intros _. destruct (get_range data 8 12); [|done]. cbn [mbind res_bind].
    destruct (get_range data 12 16) eqn:E; [|done]. apply get_range_Some in E. lia.
Qed.
End Properties.

(** ** Writing and reading back a chain extension *)

Lemma zlen_le_words ws : zlen (le_words ws) = 4 * zlen ws.
Proof.
  unfold le_words. induction ws as [|w ws IH]; [done|].
  change (mjoin (to_le 4 <$> w :: ws)) with (to_le 4 w ++ mjoin (to_le 4 <$> ws)).
  rewrite zlen_app, zlen_to_le, zlen_cons, IH. lia.
Qed.

Lemma le_words_app u v : le_words (u ++ v) = le_words u ++ le_words v.
Proof.
  unfold le_words. induction u as [|x u IH]; [done|]. cbn [app].
  change (mjoin (to_le 4 <$> x :: ?l)) with (to_le 4 x ++ mjoin (to_le 4 <$> l)).
  by rewrite IH, app_assoc.
Qed.

Lemma u32a_word pre v post : is_u32 v -> u32a (pre ++ to_le 4 v ++ post) (zlen pre) = Some v.
Proof.
  intros Hv. unfold u32a.
  rewrite (proj2 (get_range_Some _ (to_le 4 v) _ _)).
  - cbn. by rewrite from_to_le.
  - rewrite !zlen_app, zlen_to_le. pose proof (zlen_nonneg pre). pose proof (zlen_nonneg post).
    split; [lia|]. split; [lia|]. replace 4 with (zlen (to_le 4 v)) by apply zlen_to_le. by rewrite slice_app_mid.
Qed.

Section Words.
Context (t : byte) (ws : list Z) (post : list byte).

Lemma u32a_words (i : nat) v o : Forall is_u32 ws -> ws !! i = Some v -> o = 1 + 4 * Z.of_nat i ->
  u32a (t :: le_words ws ++ post) o = Some v.
Proof using Type.
  intros Hws Hv ->. pose proof (Forall_lookup_1 _ _ _ _ Hws Hv) as Hu.
  apply list_elem_of_split_length in Hv as (w1 & w2 & -> & ->).
  rewrite le_words_app. change (le_words (v :: w2)) with (to_le 4 v ++ le_words w2).
  rewrite <- !app_assoc. rewrite app_comm_cons.
  replace (1 + 4 * Z.of_nat (length w1)) with (zlen (t :: le_words w1))
    by (rewrite zlen_cons, zlen_le_words; done).
  by apply u32a_word.
Qed.

(** The same at a numeral offset, where the position computes. *)
Lemma u32a_at o v : Forall is_u32 ws -> 1 <= o -> (o - 1) mod 4 = 0 ->
  ws !! Z.to_nat ((o - 1) / 4) = Some v -> u32a (t :: le_words ws ++ post) o = Some v.
Proof using Type. intros Hws Ho Hm Hv. apply (u32a_words _ _ _ Hws Hv). dlia. Qed.

Lemma u32s_words (i n : nat) o : Forall is_u32 ws -> (i + n <= length ws)%nat -> o = 1 + 4 * Z.of_nat i ->
  u32s (t :: le_words ws ++ post) o n = Some (take n (drop i ws)).
Proof using Type.
  intros Hws. revert i o. induction n as [|n IH]; intros i o Hn ->; [done|]. cbn [u32s].
  destruct (lookup_lt_is_Some_2 ws i) as [v Hv]; [lia|].
  rewrite (u32a_words i v) by done. cbn [mbind option_bind].
  rewrite (IH (S i)) by lia. cbn [mbind option_bind]. by rewrite (drop_S _ _ _ Hv).
Qed.
End Words.

Lemma chain_bytes_layer l : chain_bytes (Chain_Layer l) = byte_of_u8 (layer_tag l) :: le_words (chain_words l).
Proof.
  unfold chain_words. cbn [chain_bytes]. rewrite !le_words_app.
  f_equal. f_equal. destruct (ll_moe l), (ll_attn l), (ll_recur l); done.
Qed.

Section RoundTrip.
Context (t : byte) (l : LayerLinks) (post : list byte).
Context (Hws : Forall is_u32 (chain_words l)).
Abbreviation buf := (t :: le_words (chain_words l) ++ post).

Lemma parse_moe_written m : ll_moe l = Some m -> parse_moe buf = Some m.
Proof using Hws.
  intros E. unfold parse_moe, chain_words in *. rewrite E in *.
  repeat (erewrite u32a_at; [|done|done|done|reflexivity]). cbn [mbind option_bind]. by destruct m.
Qed.

Lemma parse_layer_written : parse_layer (ll_moe l) (ll_attn l) (ll_recur l) buf = Some l.
Proof using Hws.
  unfold parse_layer, chain_words in *. repeat (erewrite u32a_at; [|done|done|done|reflexivity]).
  cbn [mbind option_bind]. by destruct l.
Qed.

Lemma parse_attn_written a : ll_attn l = Some a ->
  parse_attn (match ll_moe l with Some _ => 49 | None => 25 end) buf = Some a.
Proof using Hws.
  intros E. unfold parse_attn.
  rewrite (u32s_words _ _ _ (match ll_moe l with Some _ => 12 | None => 6 end)%nat) by
    (done || (unfold chain_words; rewrite E; unfold ATTN_FIELDS, RECUR_FIELDS; destruct (ll_moe l); cbn; lia) || (by destruct (ll_moe l))).
  cbn [mbind option_bind]. unfold chain_words. rewrite E. by destruct (ll_moe l), a.
Qed.

Lemma parse_recur_written r : ll_attn l = None -> ll_recur l = Some r ->
  parse_recur (match ll_moe l with Some _ => 49 | None => 25 end) buf = Some r.
Proof using Hws.
  intros Ea E. unfold parse_recur.
  rewrite (u32s_words _ _ _ (match ll_moe l with Some _ => 12 | None => 6 end)%nat) by
    (done || (unfold chain_words; rewrite Ea, E; unfold ATTN_FIELDS, RECUR_FIELDS; destruct (ll_moe l); cbn; lia) || (by destruct (ll_moe l))).
  cbn [mbind option_bind]. unfold chain_words. rewrite Ea, E. by destruct (ll_moe l), r.
Qed.
End RoundTrip.

Lemma parse_product_written t p post : chain_ok (Chain_Product p) ->
  parse_product (t :: to_le 4 (pl_layer p) ++ byte_of_u8 (pl_link p) :: to_le 4 (pl_norm p)
                 ++ to_le 4 (pl_src p) ++ post) = Some p.
Proof.
  destruct p as [layer link norm src]. cbn [chain_ok pl_layer pl_link pl_norm pl_src].
  intros (Hl & Hk & Hn & Hs). unfold parse_product. set (buf := t :: _).
  assert (get_at buf 5 = Some (byte_of_u8 link)) as ->.
  { unfold buf, get_at. change (0 <=? 5) with true. cbv iota. change (Z.to_nat 5) with (S (4 + 0)).
    rewrite lookup_cons, lookup_app_r by (rewrite length_to_le; lia). by rewrite length_to_le. }
  assert (u32a buf 1 = Some layer) as -> by by apply (u32a_word [t]).
  assert (u32a buf 6 = Some norm) as ->.
  { replace buf with ((t :: to_le 4 layer ++ [byte_of_u8 link]) ++ to_le 4 norm ++ to_le 4 src ++ post)
      by (unfold buf; cbn [app]; by rewrite <- app_assoc).
    by apply (u32a_word (t :: to_le 4 layer ++ [byte_of_u8 link])). }
  assert (u32a buf 10 = Some src) as ->.
  { replace buf with ((t :: to_le 4 layer ++ byte_of_u8 link :: to_le 4 norm) ++ to_le 4 src ++ post)
      by (unfold buf; cbn [app]; by rewrite <- app_assoc).
    by apply (u32a_word (t :: to_le 4 layer ++ byte_of_u8 link :: to_le 4 norm)). }
  cbn [mbind option_bind]. by rewrite u8_of_byte_of_u8.
Qed.

Section RoundTripProperty.
(** Chain extensions survive the wire.  For every extension the format can carry, whatever follows
    it, [parse_chain] reads back the extension [chain_bytes] wrote and its exact length. *)
Theorem chain_roundtrip (c : Chain) (post : list byte) :
  chain_ok c -> parse_chain (chain_bytes c ++ post) = Some (c, zlen (chain_bytes c)).
Proof.
  destruct c as [|p|l]; [done|..]; intros Hok.
  - unfold parse_chain. cbn [chain_bytes app head mbind option_bind].
    change (u8_of_byte (byte_of_u8 TAG_PRODUCT)) with TAG_PRODUCT. unfold parse_tagged.
    change (TAG_PRODUCT =? TAG_NONE) with false. change (TAG_PRODUCT =? TAG_PRODUCT) with true. cbv iota.
    rewrite <- app_assoc. cbn [app]. rewrite <- app_assoc. rewrite parse_product_written by done.
    cbn [mbind option_bind]. by rewrite zlen_cons, zlen_app, zlen_cons, zlen_app, !zlen_to_le.
  - destruct Hok as [Hws Hex]. rewrite chain_bytes_layer. cbn [app]. unfold parse_chain. cbn [head mbind option_bind].
    assert (Ht : u8_of_byte (byte_of_u8 (layer_tag l)) = layer_tag l).
    { apply u8_of_byte_of_u8. unfold layer_tag. destruct (ll_moe l), (ll_attn l), (ll_recur l); done. }
    rewrite Ht.
    pose proof (parse_moe_written (byte_of_u8 (layer_tag l)) l post Hws) as Hm.
    pose proof (parse_attn_written (byte_of_u8 (layer_tag l)) l post Hws) as Ha.
    pose proof (parse_recur_written (byte_of_u8 (layer_tag l)) l post Hws) as Hr.
    pose proof (parse_layer_written (byte_of_u8 (layer_tag l)) l post Hws) as Hl.
    assert (Hw : zlen (byte_of_u8 (layer_tag l) :: le_words (chain_words l))
      = 25 + match ll_moe l with Some _ => 24 | None => 0 end
        + match ll_attn l, ll_recur l with Some _, _ => 84 | None, Some _ => 76 | None, None => 0 end).
    { rewrite zlen_cons, zlen_le_words. unfold chain_words, zlen.
      by destruct (ll_moe l), (ll_attn l), (ll_recur l). }
    rewrite Hw. clear Hw Ht Hws.
    generalize dependent (byte_of_u8 (layer_tag l) :: le_words (chain_words l) ++ post). intros buf.
    unfold parse_tagged, layer_tag.
    destruct (ll_moe l) as [m|], (ll_attn l) as [a|], (ll_recur l) as [r|]; try (by destruct Hex); clear Hex;
      cbv [tag_in existsb Z.eqb Pos.eqb orb TAG_NONE TAG_PRODUCT TAG_LAYER TAG_MOE_LAYER
       TAG_ATTN_LAYER TAG_ATTN_MOE_LAYER TAG_RECUR_LAYER TAG_RECUR_MOE_LAYER optional];
      intros Hm Ha Hr Hl; rewrite ?(Hm _ eq_refl); cbn [mbind option_bind];
      rewrite ?(Ha _ eq_refl); cbn [mbind option_bind];
      rewrite ?(Hr _ eq_refl eq_refl); cbn [mbind option_bind]; by rewrite Hl.
Qed.
End RoundTripProperty.

Section RowChunks.
(** Sizes that fit their words: no offset into the tensor wraps. *)
Definition sizes_ok (e : Entry) : Prop :=
  0 <= e_m e /\ 0 <= n_exp e /\ 0 < row_bytes e /\ 0 <= chunk_base e /\ 0 <= n_bytes e
  /\ n_exp e * e_m e * row_bytes e < 2 ^ 64 /\ chunk_base e + n_bytes e / 32 < 2 ^ 64.

(** The chunks of a weight row.  For a tensor whose size fits 64 bits, [row_chunks] accepts a row
    exactly when it lies inside the tensor and its bytes inside the committed chunks, and the
    chunks it names are the fewest that cover the row: the row starts at the offset returned in
    the first one and ends in the last one. *)
Theorem row_chunks_cover (e : Entry) (exp row first last off : Z) :
  sizes_ok e -> 0 <= exp -> 0 <= row ->
  row_chunks e exp row = Some (first, last, off) <->
  let start := (exp * e_m e + row) * row_bytes e in
  (exp < n_exp e /\ row < e_m e /\ start + row_bytes e <= 32 * (n_bytes e / 32))
  /\ 0 <= off < 32 /\ start = 32 * (first - chunk_base e) + off
  /\ 32 * (last - chunk_base e) < start + row_bytes e <= 32 * (last + 1 - chunk_base e).
Proof.
  intros (Hm & Hn & Hrb & Hcb & Hnb & Hsz & Hch) He Hr. cbv zeta. unfold row_chunks.
  set (start := (exp * e_m e + row) * row_bytes e).
  destruct (Z.leb_spec (e_m e) row); cbn [orb]; [split; [done|lia]|].
  destruct (Z.leb_spec (n_exp e) exp); [split; [done|lia]|].
  assert (Hrow : exp * e_m e + row + 1 <= n_exp e * e_m e) by nia.
  assert (Hs : 0 <= start /\ start + row_bytes e <= n_exp e * e_m e * row_bytes e).
  { unfold start. apply (Z.mul_le_mono_nonneg_r _ _ (row_bytes e)) in Hrow; [|lia]. split; [|lia].
    apply Z.mul_nonneg_nonneg; [|lia]. apply Z.add_nonneg_nonneg; [|lia]. apply Z.mul_nonneg_nonneg; lia. }
  rewrite (wrap_id 64 start), (wrap_id 64 (start + _)) by (unfold fits; lia).
  destruct (Z.ltb_spec (n_bytes e / 32 * 32) (start + row_bytes e)); [split; [done|lia]|].
  rewrite (wrap_id 64 (start + row_bytes e - 1)) by (unfold fits; lia).
  rewrite !wrap_id by (unfold fits; dlia).
  split.
  - intros [= <- <- <-]. dlia.
  - intros (_ & Ho & Hst & Hl). do 3 f_equal; dlia.
Qed.
End RowChunks.

(** ** Concrete inputs *)

Module Sample.
Definition moe : MoeLinks :=
  {| down_exps := 12; router := 30; probs_bias := 31; w_scale := 7; ffn_norm := 29; gate_exps := 13 |}.
Definition recur : RecurLinks :=
  {| rl_kind := RECUR_KDA; rl_slot := 2; rl_n_v_heads := 32; rl_n_k_heads := 32; rl_head_dim := 128;
     rl_q := 40; rl_k := 41; rl_v := 42; rl_conv_q := 300; rl_conv_k := 301; rl_conv_v := 302;
     rl_beta := 43; rl_decay := 44; rl_dt := 303; rl_a := 304; rl_norm := 305; rl_gate := 45;
     rl_interval := 48; rl_conv_len := 4 |}.
Definition layer : LayerLinks :=
  {| ll_layer := 8; proj := 9; down := 15; post_attn := 2 ^ 32 - 1; post_ffn := 5; scale := 6;
     ll_moe := Some moe; ll_attn := None; ll_recur := Some recur |}.
Definition base_bytes (n : byte) (words : list Z) : list byte :=
  to_le 2 1 ++ [n] ++ take 55 (le_words words ++ replicate 55 (byte_of_u8 0)).
Definition file : list byte :=
  MAGIC2 ++ to_le 4 2 ++ to_le 4 1
  ++ base_bytes (byte_of_u8 65) [2; 64; 0; 10] ++ chain_bytes (Chain_Layer layer)
  ++ base_bytes (byte_of_u8 66) [3; 32; 0; 20] ++ chain_bytes Chain_None.
Definition entries : list (Entry * list byte) :=
  match read_file file with Ret (Some (out, _)) => out | _ => [] end.
Definition tensor : Entry :=
  {| name := []; wtype := 2; e_k := 64; e_m := 10; n_exp := 4; chunk_base := 100; n_bytes := 1440;
     row_bytes := 36; role := 0; glu_op := 0; glu_form := 0; partner := 0; bias := 0; chain := Chain_None |}.
End Sample.

Section Witnesses.
Import Sample.

Lemma chain_roundtrip_witness :
  parse_chain (chain_bytes (Chain_Layer layer) ++ file) = Some (Chain_Layer layer, 125).
Proof.
  apply (chain_roundtrip (Chain_Layer layer) file). split; [|by left].
  repeat (apply Forall_cons; split; [evaluate|]). apply Forall_nil. exact I.
Defined.


Lemma row_chunks_cover_witness :
  row_chunks tensor 3 9 = Some (143, 144, 28) <->
  let start := (3 * e_m tensor + 9) * row_bytes tensor in
  (3 < n_exp tensor /\ 9 < e_m tensor /\ start + row_bytes tensor <= 32 * (n_bytes tensor / 32))
  /\ 0 <= 28 < 32 /\ start = 32 * (143 - chunk_base tensor) + 28
  /\ 32 * (144 - chunk_base tensor) < start + row_bytes tensor <= 32 * (144 + 1 - chunk_base tensor).
Proof. apply row_chunks_cover; [unfold sizes_ok; cbn; lia|lia|lia]. Defined.
End Witnesses.
