(* ===== verification/Seq.v ===== *)
(** * Sequence leaves ([verifiable-inference/src/seq.rs])

    One leaf per layer and head holds every position end to end.  [SeqLayout]
    numbers the leaves of the sequence tree, [open_span] opens a byte span of one
    leaf against the root of that tree, and the checkpoint functions place the
    state rows of a recurrent head inside its leaf.  All integers are [u64] and
    wrap. *)
From S2P Require Import Prelude Merkle Float Manifest.
#[local] Open Scope Z_scope.

(** ** Leaf numbering *)

Record SeqLayout := { n_attn : Z; n_recur : Z; heads : Z }.

Section Layout.
Context (l : SeqLayout).

Definition n_leaves : Z :=
  wrap 64 (2 * heads l * (n_attn l + n_recur l) + heads l * n_attn l).

Definition kcache (slot h : Z) : option Z :=
  if (slot <? n_attn l) && (h <? heads l) then Some (wrap 64 (2 * (slot * heads l + h))) else None.

Definition vcache (slot h : Z) : option Z :=
  (fun i => wrap 64 (i + 1)) <$> kcache slot h.

Definition record (slot h : Z) : option Z :=
  if (slot <? n_recur l) && (h <? heads l)
  then Some (wrap 64 (2 * heads l * n_attn l + 2 * (slot * heads l + h))) else None.

Definition checkpoint (slot h : Z) : option Z :=
  (fun i => wrap 64 (i + 1)) <$> record slot h.

Definition lse (slot h : Z) : option Z :=
  if (slot <? n_attn l) && (h <? heads l)
  then Some (wrap 64 (2 * heads l * (n_attn l + n_recur l) + slot * heads l + h)) else None.
End Layout.

(** ** Spans *)

Record SeqSpan := {
  span_first_chunk : Z;
  span_bytes : list byte;
  span_chunk_proof : list Hash;
  span_leaf_path : list Hash;
}.

#[export] Instance SeqSpan_eq_dec : EqDecision SeqSpan.
Proof. solve_decision. Defined.

Section Spans.
Context `{B3 : Blake3}.

(** Trace root over the position tree root and the sequence tree root. *)
Definition trace_root (pos_root seq_root : Hash) : res Hash := b3_root [pos_root; seq_root].

(** Bytes [lo..hi] of sequence leaf [leaf] of [total_len] bytes, from [span]. *)
Definition open_span (seq_root : Hash) (layout : SeqLayout) (leaf total_len lo hi : Z) (span : SeqSpan)
  : option (list byte) :=
  let c := B3_CHUNK in
  if (hi <=? lo) || (total_len <? hi) || negb (span_first_chunk span =? lo / c)
     || negb (zlen (span_bytes span)
              =? wrap 64 (Z.min total_len (wrap 64 (div_ceil hi c * c)) - lo / c * c))
  then None else
  h ← b3_leaf_from_chunks total_len (lo / c) (span_bytes span) (span_chunk_proof span);
  r ← b3_fold (n_leaves layout) leaf h (span_leaf_path span);
  if bool_decide (r = seq_root) then
    let base := lo / c * c in
    get_range (span_bytes span) (lo - base) (hi - base)
  else None.

(** Bytes of a checkpoint leaf. *)
Definition checkpoint_len (hd n_pos interval : Z) : res Z :=
  if interval =? 0 then Panic else Ret (wrap 64 (n_pos / interval * hd * hd * 4)).

(** Byte span of the state rows [r0..r0 + n] of checkpoint [m]. *)
Definition checkpoint_rows (hd m r0 n : Z) : Z * Z :=
  let base := wrap 64 ((m - 1) * hd * hd * 4) in
  (wrap 64 (base + r0 * hd * 4), wrap 64 (base + (r0 + n) * hd * 4)).
End Spans.

(** ** Records of recurrent heads *)

(** Inputs and output of the delta rule of one head at one position. *)
Record DeltaRecord := { rec_q : list f32; rec_k : list f32; rec_v : list f32; rec_o : list f32; rec_beta : f32; rec_g : list f32 }.

Definition record_len (kind hd : Z) : Z := wrap 64 (4 * 2 * hd + 4 + if kind =? RECUR_KDA then 2 * hd else 4).

Definition half_bytes (x : f32) : list byte := to_le 2 (from_f32 x).
Definition single_bytes (x : f32) : list byte := to_le 4 (f32_to_bits x).

(** [Record::encode] *)
Definition encode (r : DeltaRecord) (kind : Z) : res (list byte) :=
  let halves := concat (half_bytes <$> rec_q r ++ rec_k r ++ rec_v r ++ rec_o r) in
  if kind =? RECUR_KDA then Ret (halves ++ single_bytes (rec_beta r) ++ concat (half_bytes <$> rec_g r))
  else g0 ← index (rec_g r) 0; Ret (halves ++ single_bytes (rec_beta r) ++ single_bytes g0).

(** [halves] and [f32_at] of [Record::decode] *)
Definition halves (b : list byte) (o n : Z) : res (list f32) := mapM (M:=res) (fun i => f16_read b (o + 2 * i)) (seqZ 0 n).
Definition f32_at (b : list byte) (o : Z) : res f32 := f32_from_le <$> index_range b o (o + 4).

(** [Record::decode] *)
Definition decode (kind hd : Z) (b : list byte) : res (option DeltaRecord) :=
  if negb ((kind =? RECUR_GDA) || (kind =? RECUR_KDA)) || negb (zlen b =? record_len kind hd) then Ret None else
  beta ← f32_at b (8 * hd);
  g ← (if kind =? RECUR_KDA then halves b (8 * hd + 4) hd else g ← f32_at b (8 * hd + 4); Ret [g]);
  q ← halves b 0 hd; k ← halves b (2 * hd) hd; v ← halves b (4 * hd) hd; o ← halves b (6 * hd) hd;
  let r := {| rec_q := q; rec_k := k; rec_v := v; rec_o := o; rec_beta := beta; rec_g := g |} in
  Ret (if forallb is_finite (q ++ k ++ v ++ o ++ g) && is_finite beta then Some r else None).

(** ** The leaves of a layout are numbered once each *)

Inductive SeqLeaf := KCache | VCache | RecordLeaf | Checkpoint | Lse.

#[export] Instance SeqLeaf_eq_dec : EqDecision SeqLeaf.
Proof. solve_decision. Defined.

Definition leaf_index (l : SeqLayout) (kind : SeqLeaf) : Z -> Z -> option Z :=
  match kind with KCache => kcache l | VCache => vcache l | RecordLeaf => record l | Checkpoint => checkpoint l | Lse => lse l end.

(** The layout's counts do not overflow. *)
Definition layout_fits (l : SeqLayout) : Prop :=
  0 <= n_attn l /\ 0 <= n_recur l /\ 0 <= heads l /\ 2 * heads l * (n_attn l + n_recur l) + heads l * n_attn l < 2 ^ 64.

Section Numbering.
Context (l : SeqLayout) (Hl : layout_fits l).

(** Without overflow: the slots of a kind, the first index of its run and the distance between its leaves. *)
Definition slots_of (kind : SeqLeaf) : Z := match kind with RecordLeaf | Checkpoint => n_recur l | _ => n_attn l end.
Definition base_of (kind : SeqLeaf) : Z :=
  match kind with
  | KCache => 0 | VCache => 1 | RecordLeaf => 2 * heads l * n_attn l | Checkpoint => 2 * heads l * n_attn l + 1
  | Lse => 2 * heads l * (n_attn l + n_recur l)
  end.
Definition stride_of (kind : SeqLeaf) : Z := match kind with Lse => 1 | _ => 2 end.

Lemma n_leaves_exact : n_leaves l = 2 * heads l * (n_attn l + n_recur l) + heads l * n_attn l.
Proof. destruct Hl as (? & ? & ? & ?). apply wrap_id. unfold fits. nia. Qed.

Lemma leaf_index_spec kind slot h i : 0 <= slot -> 0 <= h ->
  leaf_index l kind slot h = Some i <-> slot < slots_of kind /\ h < heads l /\ i = base_of kind + stride_of kind * (slot * heads l + h).
Proof.
  intros Hs Hh. destruct Hl as (Ha & Hr & Hd & Hn).
  assert (Hin : forall n, slot < n -> h < heads l -> 0 <= slot * heads l + h < n * heads l) by (intros; nia).
  destruct kind; unfold leaf_index, kcache, vcache, record, checkpoint, lse, slots_of, base_of, stride_of; cbn [fmap option_fmap option_map].
  - destruct (Z.ltb_spec slot (n_attn l)), (Z.ltb_spec h (heads l)); cbn; split; try done; try lia; specialize (Hin (n_attn l)).
    + intros [= <-]. rewrite wrap_id by (unfold fits; nia). lia.
    + intros (_ & _ & ->). rewrite wrap_id by (unfold fits; nia). f_equal; lia.
  - unfold kcache. destruct (Z.ltb_spec slot (n_attn l)), (Z.ltb_spec h (heads l)); cbn; split; try done; try lia; specialize (Hin (n_attn l)).
    + intros [= <-]. rewrite (wrap_id 64 (2 * _)), wrap_id by (unfold fits; nia). lia.
    + intros (_ & _ & ->). rewrite (wrap_id 64 (2 * _)), wrap_id by (unfold fits; nia). f_equal; lia.
  - destruct (Z.ltb_spec slot (n_recur l)), (Z.ltb_spec h (heads l)); cbn; split; try done; try lia; specialize (Hin (n_recur l)).
    + intros [= <-]. rewrite wrap_id by (unfold fits; nia). lia.
    + intros (_ & _ & ->). rewrite wrap_id by (unfold fits; nia). f_equal; lia.
  - unfold record. destruct (Z.ltb_spec slot (n_recur l)), (Z.ltb_spec h (heads l)); cbn; split; try done; try lia; specialize (Hin (n_recur l)).
    + intros [= <-]. rewrite (wrap_id 64 (2 * heads l * n_attn l + _)), wrap_id by (unfold fits; nia). lia.
    + intros (_ & _ & ->). rewrite (wrap_id 64 (2 * heads l * n_attn l + _)), wrap_id by (unfold fits; nia). f_equal; lia.
  - destruct (Z.ltb_spec slot (n_attn l)), (Z.ltb_spec h (heads l)); cbn; split; try done; try lia; specialize (Hin (n_attn l)).
    + intros [= <-]. rewrite wrap_id by (unfold fits; nia). lia.
    + intros (_ & _ & ->). rewrite wrap_id by (unfold fits; nia). f_equal; lia.
Qed.

Lemma pair_unique a b c d n : 0 <= b < n -> 0 <= d < n -> a * n + b = c * n + d -> a = c /\ b = d.
Proof. intros. assert (a = c) by nia. subst. lia. Qed.

Lemma leaf_index_unique kind slot h kind' slot' h' i : 0 <= slot -> 0 <= h -> 0 <= slot' -> 0 <= h' ->
  leaf_index l kind slot h = Some i -> leaf_index l kind' slot' h' = Some i -> (kind, slot, h) = (kind', slot', h').
Proof.
  intros Hs Hh Hs' Hh'. rewrite !leaf_index_spec by done. intros (H1 & H2 & E) (H1' & H2' & E'). destruct Hl as (Ha & Hr & Hd & Hn).
  assert (Hin : 0 <= slot * heads l + h < slots_of kind * heads l) by nia.
  assert (Hin' : 0 <= slot' * heads l + h' < slots_of kind' * heads l) by nia.
  assert (kind = kind') as <-.
  { destruct kind, kind'; try done; exfalso; unfold slots_of, base_of, stride_of in *; nia. }
  destruct (pair_unique slot h slot' h' (heads l)) as [-> ->]; [lia|lia| |done]. destruct kind; unfold stride_of in *; lia.
Qed.

Lemma leaf_index_covers i : 0 <= i < n_leaves l -> exists kind slot h, 0 <= slot /\ 0 <= h /\ leaf_index l kind slot h = Some i.
Proof.
  rewrite n_leaves_exact. intros Hi. destruct Hl as (Ha & Hr & Hd & Hn).
  assert (Hh : 0 < heads l) by nia.
  assert (Hput : forall kind x, 0 <= x < slots_of kind * heads l -> i = base_of kind + stride_of kind * x ->
    exists kind slot h, 0 <= slot /\ 0 <= h /\ leaf_index l kind slot h = Some i).
  { intros kind x Hx ->. exists kind, (x / heads l), (x mod heads l). pose proof (Z.mod_pos_bound x (heads l) Hh).
    assert (0 <= x / heads l) by (apply Z.div_pos; lia). split; [done|]. split; [lia|]. apply leaf_index_spec; [done|lia|].
    split; [apply Z.div_lt_upper_bound; lia|]. split; [lia|]. pose proof (Z.div_mod x (heads l)). lia. }
  destruct (Z.ltb_spec i (2 * heads l * n_attn l)); [|destruct (Z.ltb_spec i (2 * heads l * (n_attn l + n_recur l)))].
  - destruct (Z.even i) eqn:He.
    + apply Z.even_spec in He as [x Hx]. apply (Hput KCache x); unfold slots_of, base_of, stride_of; nia.
    + rewrite <- Z.negb_odd in He. apply negb_false_iff, Z.odd_spec in He as [x Hx]. apply (Hput VCache x); unfold slots_of, base_of, stride_of; nia.
  - destruct (Z.even i) eqn:He.
    + apply Z.even_spec in He as [x Hx]. apply (Hput RecordLeaf (x - heads l * n_attn l)); unfold slots_of, base_of, stride_of; nia.
    + rewrite <- Z.negb_odd in He. apply negb_false_iff, Z.odd_spec in He as [x Hx]. apply (Hput Checkpoint (x - heads l * n_attn l)); unfold slots_of, base_of, stride_of; nia.
  - apply (Hput Lse (i - 2 * heads l * (n_attn l + n_recur l))); unfold slots_of, base_of, stride_of; nia.
Qed.
End Numbering.

(** C24: The numbering of sequence leaves is a bijection.  While the counts of a layout fit 64 bits, every
    cache, record, checkpoint and mass leaf of a slot and head inside the layout has an index below
    [n_leaves], and every index below [n_leaves] is that of exactly one leaf. *)
Theorem leaf_numbering (l : SeqLayout) : layout_fits l ->
  (forall kind slot h i, 0 <= slot -> 0 <= h -> leaf_index l kind slot h = Some i -> 0 <= i < n_leaves l)
  /\ (forall i, 0 <= i < n_leaves l -> exists kind slot h, 0 <= slot /\ 0 <= h /\ leaf_index l kind slot h = Some i
       /\ forall kind' slot' h', 0 <= slot' -> 0 <= h' -> leaf_index l kind' slot' h' = Some i -> (kind', slot', h') = (kind, slot, h)).
Proof.
  intros Hl. split.
  - intros kind slot h i Hs Hh. rewrite leaf_index_spec, n_leaves_exact by done. destruct Hl as (Ha & Hr & Hd & Hn). intros (H1 & H2 & ->).
    assert (Hin : 0 <= slot * heads l + h < slots_of l kind * heads l) by nia. destruct kind; unfold slots_of, base_of, stride_of in *; nia.
  - intros i Hi. destruct (leaf_index_covers l Hl i Hi) as (kind & slot & h & Hs & Hh & Hk). exists kind, slot, h. split; [done|]. split; [done|]. split; [done|].
    intros kind' slot' h' Hs' Hh' Hk'. by eapply leaf_index_unique.
Qed.

Lemma leaf_numbering_witness : let l := {| n_attn := 3; n_recur := 5; heads := 4 |} in
  n_leaves l = 76 /\ forall i, 0 <= i < 76 -> exists kind slot h, 0 <= slot /\ 0 <= h /\ leaf_index l kind slot h = Some i.
Proof.
  intros l. split; [reflexivity|]. intros i Hi. assert (Hl : layout_fits l) by (unfold layout_fits; cbn; lia).
  destruct (proj2 (leaf_numbering l Hl) i Hi) as (kind & slot & h & ? & ? & ? & _). by exists kind, slot, h.
Defined.

(** ** Spans open the committed bytes *)

Section SpanProperties.
Context `{B3 : Blake3} {BL : Blake3Lengths} {BC : Blake3Chunks}.

(** Chunk bounds of the bytes [lo..hi] of an input of [total] bytes. *)
Lemma span_bounds total lo hi : 0 <= lo < hi -> hi <= total < 2 ^ 63 ->
  let c0 := lo / B3_CHUNK in let c1 := div_ceil hi B3_CHUNK in
  0 <= c0 < c1 /\ c1 <= div_ceil total B3_CHUNK /\ c0 * B3_CHUNK <= lo /\ hi <= Z.min total (c1 * B3_CHUNK)
  /\ wrap 64 (Z.min total (wrap 64 (c1 * B3_CHUNK)) - c0 * B3_CHUNK) = Z.min total (c1 * B3_CHUNK) - c0 * B3_CHUNK.
Proof.
  intros Hlo Hhi. cbv zeta. unfold div_ceil, B3_CHUNK. rewrite (wrap_id 64 (_ * 1024)) by (unfold fits; dlia). rewrite wrap_id by (unfold fits; dlia). split_and!; dlia.
Qed.

Lemma open_span_opens layout datas i data root lo hi :
  zlen datas = n_leaves layout -> get_at datas i = Some data -> b3_root (blake3_hash <$> datas) = Ret root ->
  0 <= lo < hi -> hi <= zlen data < 2 ^ 63 ->
  exists span, open_span root layout i (zlen data) lo hi span = Some (slice data lo hi).
Proof.
  intros Hn Hi Hr Hlo Hhi. destruct (span_bounds (zlen data) lo hi Hlo Hhi) as (Hc & Hct & Hcl & Hch & Hw).
  set (c0 := lo / B3_CHUNK) in *. set (c1 := div_ceil hi B3_CHUNK) in *.
  destruct (b3_chunks_opens data c0 (c1 - c0)) as (proof & _ & Hproof); [lia..|]. replace (c0 + (c1 - c0)) with c1 in Hproof by lia.
  assert (Hz : zlen (blake3_hash <$> datas) = n_leaves layout) by (by rewrite zlen_fmap).
  destruct (b3_path_opens (blake3_hash <$> datas) i (blake3_hash data) root) as (path & _ & Hpath); [rewrite Hz; apply wrap_fits; lia| |done|].
  { unfold get_at in *. destruct (0 <=? i); [|done]. by rewrite list_lookup_fmap, Hi. }
  exists {| span_first_chunk := c0; span_bytes := slice data (c0 * B3_CHUNK) (Z.min (zlen data) (c1 * B3_CHUNK)); span_chunk_proof := proof; span_leaf_path := path |}.
  unfold open_span. cbn [span_first_chunk span_bytes span_chunk_proof span_leaf_path]. fold c0 c1. rewrite Hw, zlen_slice by lia.
  destruct (Z.leb_spec hi lo); [lia|]. destruct (Z.ltb_spec (zlen data) hi); [lia|]. rewrite !Z.eqb_refl. cbn [orb negb]. rewrite Hproof. cbn [mbind option_bind].
  unfold b3_verify in Hpath. rewrite bool_decide_eq_true, Hz in Hpath. rewrite Hpath. cbn [mbind option_bind]. rewrite bool_decide_true by done.
  apply get_range_Some. rewrite zlen_slice by lia. split; [lia|]. split; [lia|]. rewrite slice_slice by lia. f_equal; lia.
Qed.

Lemma open_span_binds layout datas i data root lo hi span b :
  zlen datas = n_leaves layout -> get_at datas i = Some data -> b3_root (blake3_hash <$> datas) = Ret root ->
  0 <= lo -> 0 < zlen data < 2 ^ 63 -> Forall is_hash (span_chunk_proof span) -> Forall is_hash (span_leaf_path span) ->
  open_span root layout i (zlen data) lo hi span = Some b -> b = slice data lo hi \/ merge_collision \/ chunk_collision.
Proof.
  intros Hn Hi Hr Hlo Hd Hp Hl. unfold open_span. destruct (Z.leb_spec hi lo); [done|]. destruct (Z.ltb_spec (zlen data) hi); [done|].
  destruct (Z.eqb_spec (span_first_chunk span) (lo / B3_CHUNK)); [|done]. cbn [orb negb].
  destruct (Z.eqb_spec (zlen (span_bytes span)) (wrap 64 (Z.min (zlen data) (wrap 64 (div_ceil hi B3_CHUNK * B3_CHUNK)) - lo / B3_CHUNK * B3_CHUNK))) as [Hlen|]; [|done].
  destruct (span_bounds (zlen data) lo hi ltac:(lia) ltac:(lia)) as (Hc & Hct & Hcl & Hch & Hw). rewrite Hw in Hlen. cbn [negb].
  destruct (b3_leaf_from_chunks _ _ _ _) as [h|] eqn:Eh; [|done]. cbn [mbind option_bind]. destruct (b3_fold _ _ _ _) as [r|] eqn:Er; [|done]. cbn [mbind option_bind].
  destruct (bool_decide (r = root)) eqn:Eb; [|done]. apply bool_decide_eq_true in Eb as ->. intros Hg.
  assert (Hz : zlen (blake3_hash <$> datas) = n_leaves layout) by (by rewrite zlen_fmap). pose proof (get_at_Some_lt _ _ _ Hi) as Hil.
  pose proof (wrap_fits 64 (2 * heads layout * (n_attn layout + n_recur layout) + heads layout * n_attn layout) ltac:(lia)) as Hnl. fold (n_leaves layout) in Hnl. unfold fits in Hnl.
  assert (Hc0 : 0 <= lo / B3_CHUNK) by lia.
  assert (Hh : is_hash h) by exact (b3_leaf_from_chunks_hash _ _ _ _ _ Hd Hc0 Hp Eh).
  assert (Hv : b3_verify root (zlen (blake3_hash <$> datas)) i h (span_leaf_path span) = true) by (unfold b3_verify; by rewrite Hz, bool_decide_eq_true).
  apply b3_verify_binds in Hv as [Hat|]; [|by right; left|done|lia|lia|apply Forall_fmap, Forall_true; intros; apply blake3_hash_len|done|done].
  assert (h = blake3_hash data) as ->.
  { unfold get_at in *. destruct (0 <=? i); [|done]. rewrite list_lookup_fmap, Hi in Hat. by injection Hat. }
  apply b3_chunks_binds in Eh as [Heq|]; [left|by right|done..].
  apply get_range_Some in Hg as (_ & Hg & ->). rewrite Heq, slice_slice by lia. f_equal; lia.
Qed.
End SpanProperties.


(** ** Records *)

Section Records.

Lemma concat_len {A} (n : nat) (ll : list (list A)) : Forall (fun c => length c = n) ll -> length (concat ll) = (length ll * n)%nat.
Proof. induction 1 as [|c ll Hc _ IH]; [done|]. cbn. rewrite length_app, IH. lia. Qed.

Lemma f16_read_slice b o : 0 <= o -> o + 2 <= zlen b -> f16_read b o = Ret (to_f32 (from_le (slice b o (o + 2)))).
Proof.
  intros H0 H1. unfold f16_read. destruct (returns_index b o ltac:(lia)) as (x & -> & Hx). destruct (returns_index b (o + 1) ltac:(lia)) as (y & -> & Hy).
  cbn [mbind res_bind]. do 3 f_equal. unfold slice. replace (Z.to_nat (o + 2 - o)) with 2%nat by lia.
  rewrite (drop_S _ x) by done. cbn. f_equal. rewrite (drop_S _ y); [done|]. by replace (S (Z.to_nat o)) with (Z.to_nat (o + 1)) by lia.
Qed.

Lemma halves_spec b o n : 0 <= o -> 0 <= n -> o + 2 * n <= zlen b ->
  halves b o n = Ret ((fun c => to_f32 (from_le c)) <$> chunks 2 (slice b o (o + 2 * n))).
Proof.
  intros Ho Hn Hb. unfold halves.
  destruct (returns_mapM (fun i x => x = to_f32 (from_le (slice b (o + 2 * i) (o + 2 * i + 2)))) (fun i => f16_read b (o + 2 * i)) (seqZ 0 n)) as (r & -> & HF).
  { intros i Hi%elem_of_seqZ. exists (to_f32 (from_le (slice b (o + 2 * i) (o + 2 * i + 2)))). split; [apply f16_read_slice; lia|done]. }
  f_equal. apply list_eq. intros i. rewrite list_lookup_fmap.
  assert (Hlr : length r = Z.to_nat n) by (apply Forall2_length in HF; by rewrite length_seqZ in HF).
  assert (Hls : length (slice b o (o + 2 * n)) = (2 * Z.to_nat n)%nat) by (pose proof (zlen_slice b o (o + 2 * n)); unfold zlen in *; lia).
  destruct (decide (i < Z.to_nat n)%nat) as [Hi|Hi].
  - rewrite chunks_lookup by lia. cbn. destruct (lookup_lt_is_Some_2 r i) as [x Hx]; [lia|]. rewrite Hx.
    destruct (Forall2_lookup_r _ _ _ _ _ HF Hx) as (j & Hj & ->). apply lookup_seqZ in Hj as [-> _]. do 3 f_equal.
    assert (Hw : forall l : list byte, take 2 (drop (i * 2) l) = slice l (2 * Z.of_nat i) (2 * Z.of_nat i + 2)) by (intros l; unfold slice; f_equal; [lia|f_equal; lia]).
    rewrite Hw, slice_slice by lia. f_equal; lia.
  - rewrite lookup_ge_None_2 by lia. rewrite lookup_ge_None_2; [done|]. pose proof (length_chunks 2 ltac:(lia) (slice b o (o + 2 * n))) as Hl.
    unfold zlen, div_ceil in Hl. rewrite Hls in Hl. lia.
Qed.

(** Writing the halves read from bytes gives the bytes. *)
Lemma half_bytes_read s n : length s = (n * 2)%nat -> forallb is_finite ((fun c => to_f32 (from_le c)) <$> chunks 2 s) = true ->
  concat (half_bytes <$> ((fun c => to_f32 (from_le c)) <$> chunks 2 s)) = s.
Proof.
  intros Hs Hf. rewrite <- (concat_chunks 2 ltac:(lia) s) at 2. pose proof (chunks_full 2 n s ltac:(lia) Hs) as HF. f_equal.
  induction HF as [|c cs Hc _ IH]; [done|]. cbn in Hf |- *. apply andb_true_iff in Hf as [Hfc Hf]. f_equal; [|by apply IH].
  unfold half_bytes. pose proof (from_le_fits c) as Hfit. unfold zlen in Hfit. rewrite Hc in Hfit. change (8 * Z.of_nat 2) with 16 in Hfit.
  rewrite to_f32_finite in Hfc by done. apply Z.ltb_lt in Hfc. rewrite from_to_f32 by done. by apply to_from_le.
Qed.

(** Reading the halves written gives them. *)
Lemma half_bytes_written (l : list f32) : Forall half_precision l ->
  (fun c => to_f32 (from_le c)) <$> chunks 2 (concat (half_bytes <$> l)) = l /\ forallb is_finite l = true.
Proof.
  intros H. rewrite chunks_of_concat; [|lia|apply Forall_fmap, Forall_true; intros; apply length_to_le].
  induction H as [|x l (h & Hh & Hlt & ->) _ [IH IHf]]; [done|]. cbn. rewrite IH, IHf. unfold half_bytes. rewrite from_to_f32, from_to_le by done.
  rewrite to_f32_finite by done. split; [done|]. by apply andb_true_iff; split; [apply Z.ltb_lt|].
Qed.

Lemma single_bytes_written x : single_precision x -> f32_from_le (single_bytes x) = x /\ is_finite x = true.
Proof.
  intros (b & Hb & Hlt & ->). unfold f32_from_le, single_bytes. rewrite f32_bits_roundtrip by (done || lia). rewrite from_to_le by done.
  rewrite is_finite_bits by done. split; [done|]. by apply Z.ltb_lt.
Qed.

Lemma single_bytes_read c : length c = 4%nat -> is_finite (f32_from_le c) = true -> single_bytes (f32_from_le c) = c.
Proof.
  intros Hc Hf. unfold f32_from_le, single_bytes in *. pose proof (from_le_fits c) as Hfit. unfold zlen in Hfit. rewrite Hc in Hfit. change (8 * Z.of_nat 4) with 32 in Hfit.
  rewrite is_finite_bits in Hf by done. apply Z.ltb_lt in Hf. rewrite f32_bits_roundtrip by (done || lia). by apply to_from_le.
Qed.

Lemma f32_at_Ret b o : 0 <= o -> o + 4 <= zlen b -> f32_at b o = Ret (f32_from_le (slice b o (o + 4))).
Proof. intros. unfold f32_at. by rewrite index_range_Ret by lia. Qed.
End Records.

Definition record_ok (kind hd : Z) (r : DeltaRecord) : Prop :=
  Forall (fun l => zlen l = hd /\ Forall half_precision l) [rec_q r; rec_k r; rec_v r; rec_o r] /\ single_precision (rec_beta r)
  /\ if kind =? RECUR_KDA then zlen (rec_g r) = hd /\ Forall half_precision (rec_g r) else exists x, rec_g r = [x] /\ single_precision x.

Section RecordCodec.
Context (kind hd : Z) (Hkind : kind = RECUR_GDA \/ kind = RECUR_KDA) (Hhd : is_u32 hd).

Abbreviation read_halves s := ((fun c => to_f32 (from_le c)) <$> chunks 2 s).

(** The record at the bytes of a record of the right length. *)
Definition record_at (b : list byte) : DeltaRecord :=
  let part i := read_halves (slice b (2 * i * hd) (2 * i * hd + 2 * hd)) in
  {| rec_q := part 0; rec_k := part 1; rec_v := part 2; rec_o := part 3; rec_beta := f32_from_le (slice b (8 * hd) (8 * hd + 4));
     rec_g := if kind =? RECUR_KDA then read_halves (slice b (8 * hd + 4) (8 * hd + 4 + 2 * hd)) else [f32_from_le (slice b (8 * hd + 4) (8 * hd + 4 + 4))] |}.

Definition record_finite (r : DeltaRecord) : bool := forallb is_finite (rec_q r ++ rec_k r ++ rec_v r ++ rec_o r ++ rec_g r) && is_finite (rec_beta r).

Lemma record_len_exact : record_len kind hd = 8 * hd + 4 + if kind =? RECUR_KDA then 2 * hd else 4.
Proof. unfold fits in Hhd. unfold record_len. destruct (kind =? RECUR_KDA); rewrite wrap_id by (unfold fits; lia); lia. Qed.

Lemma decode_at b : decode kind hd b
  = Ret (if zlen b =? record_len kind hd then (if record_finite (record_at b) then Some (record_at b) else None) else None).
Proof.
  unfold fits in Hhd. pose proof record_len_exact as Hrl. unfold decode.
  assert (Hk : (kind =? RECUR_GDA) || (kind =? RECUR_KDA) = true) by (destruct Hkind as [-> | ->]; done). rewrite Hk. cbn [negb orb].
  destruct (Z.eqb_spec (zlen b) (record_len kind hd)) as [Hl|]; [|done]. rewrite Hrl in Hl. cbn [negb].
  assert (Hpos : 0 <= if kind =? RECUR_KDA then 2 * hd else 4) by (destruct (kind =? RECUR_KDA); lia).
  rewrite (f32_at_Ret b (8 * hd)) by lia. cbn [mbind res_bind]. rewrite (halves_spec b 0), (halves_spec b (2 * hd)), (halves_spec b (4 * hd)), (halves_spec b (6 * hd)) by lia. unfold record_finite, record_at.
  replace (2 * 0 * hd) with 0 by lia. replace (2 * 1 * hd) with (2 * hd) by lia. replace (2 * 2 * hd) with (4 * hd) by lia. replace (2 * 3 * hd) with (6 * hd) by lia.
  destruct (kind =? RECUR_KDA).
  - rewrite halves_spec by lia. done.
  - rewrite f32_at_Ret by lia. done.
Qed.

Lemma part_ok b lo : 0 <= lo -> lo + 2 * hd <= zlen b -> forallb is_finite (read_halves (slice b lo (lo + 2 * hd))) = true ->
  let l := read_halves (slice b lo (lo + 2 * hd)) in zlen l = hd /\ Forall half_precision l /\ concat (half_bytes <$> l) = slice b lo (lo + 2 * hd).
Proof.
  unfold fits in Hhd. intros Hlo Hb Hf. cbv zeta. pose proof (zlen_slice b lo (lo + 2 * hd)) as Hz. unfold zlen in *.
  assert (Hs : length (slice b lo (lo + 2 * hd)) = (Z.to_nat hd * 2)%nat) by lia. split; [|split; [|by eapply half_bytes_read]].
  - rewrite length_fmap. rewrite length_chunks by lia. unfold div_ceil, zlen. rewrite Hs. dlia.
  - pose proof (chunks_full 2 _ _ ltac:(lia) Hs) as HF. rewrite Forall_fmap. revert Hf. induction HF as [|c cs Hc _ IH]; [constructor|].
    intros Hf. cbn in Hf. apply andb_true_iff in Hf as [Hfc Hf]. constructor; [|by apply IH]. cbn. exists (from_le c).
    pose proof (from_le_fits c) as Hfit. unfold zlen in Hfit. rewrite Hc in Hfit. change (8 * Z.of_nat 2) with 16 in Hfit.
    split; [done|]. split; [|done]. rewrite to_f32_finite in Hfc by done. by apply Z.ltb_lt.
Qed.

Lemma single_at b o : 0 <= o -> o + 4 <= zlen b -> is_finite (f32_from_le (slice b o (o + 4))) = true ->
  single_precision (f32_from_le (slice b o (o + 4))) /\ single_bytes (f32_from_le (slice b o (o + 4))) = slice b o (o + 4).
Proof.
  intros Ho Hb Hf. pose proof (zlen_slice b o (o + 4)) as Hz. assert (Hl : length (slice b o (o + 4)) = 4%nat) by (unfold zlen in Hz; lia).
  split; [|by apply single_bytes_read]. pose proof (from_le_fits (slice b o (o + 4))) as Hfit. unfold zlen in Hfit. rewrite Hl in Hfit. change (8 * Z.of_nat 4) with 32 in Hfit.
  exists (from_le (slice b o (o + 4))). split; [done|]. split; [|done]. unfold f32_from_le in Hf. rewrite is_finite_bits in Hf by done. by apply Z.ltb_lt.
Qed.

Lemma decode_encodes b r : decode kind hd b = Ret (Some r) -> record_ok kind hd r /\ encode r kind = Ret b.
Proof.
  unfold fits in Hhd. rewrite decode_at. destruct (Z.eqb_spec (zlen b) (record_len kind hd)) as [Hl|]; [|done]. destruct (record_finite _) eqn:Hf; [|done].
  intros [= <-]. unfold record_finite in Hf. rewrite andb_true_iff, !forallb_app, !andb_true_iff in Hf. destruct Hf as [(Hq & Hk & Hv & Ho & Hg) Hb].
  rewrite record_len_exact in Hl. cbn [record_at rec_q rec_k rec_v rec_o rec_beta rec_g] in *.
  assert (Hpos : 0 <= if kind =? RECUR_KDA then 2 * hd else 4) by (destruct (kind =? RECUR_KDA); lia).
  apply part_ok in Hq as (Zq & Pq & Eq); [|lia..]. apply part_ok in Hk as (Zk & Pk & Ek); [|lia..].
  apply part_ok in Hv as (Zv & Pv & Ev); [|lia..]. apply part_ok in Ho as (Zo & Po & Eo); [|lia..].
  apply single_at in Hb as [Pb Eb]; [|lia..].
  assert (Hcat : forall c, slice b (2 * 0 * hd) (2 * 0 * hd + 2 * hd) ++ slice b (2 * 1 * hd) (2 * 1 * hd + 2 * hd) ++ slice b (2 * 2 * hd) (2 * 2 * hd + 2 * hd)
    ++ slice b (2 * 3 * hd) (2 * 3 * hd + 2 * hd) ++ slice b (8 * hd) (8 * hd + 4) ++ slice b (8 * hd + 4) (8 * hd + 4 + c) = slice b 0 (8 * hd + 4 + c) \/ c < 0).
  { intros c. destruct (Z.ltb_spec c 0); [by right|left]. replace (2 * 0 * hd) with 0 by lia. replace (2 * 1 * hd) with (2 * hd) by lia.
    replace (0 + 2 * hd) with (2 * hd) by lia. replace (2 * 2 * hd) with (2 * hd + 2 * hd) by lia. replace (2 * 3 * hd) with (2 * hd + 2 * hd + 2 * hd) by lia.
    replace (8 * hd) with (2 * hd + 2 * hd + 2 * hd + 2 * hd) by lia. rewrite !slice_slice_app by lia. done. }
  assert (Hwhole : slice b 0 (zlen b) = b) by (by rewrite slice_to_end by lia). unfold record_ok, encode. cbn [record_at rec_q rec_k rec_v rec_o rec_beta rec_g].
  rewrite !fmap_app, !concat_app, Eq, Ek, Ev, Eo, Eb.
  destruct (kind =? RECUR_KDA).
  - apply part_ok in Hg as (Zg & Pg & Eg); [|lia..]. split; [by repeat constructor|]. f_equal. rewrite Eg, <- !app_assoc.
    destruct (Hcat (2 * hd)) as [->|]; [|lia]. replace (8 * hd + 4 + 2 * hd) with (zlen b) by lia. done.
  - cbn [forallb] in Hg. rewrite andb_true_r in Hg. apply single_at in Hg as [Pg Eg]; [|lia..]. split; [repeat constructor; try done; eauto|].
    cbn [index mbind res_bind]. change (index ?l 0) with (match l with x :: _ => Ret x | [] => Panic end). cbn [mbind res_bind]. rewrite Eg, <- !app_assoc.
    destruct (Hcat 4) as [->|]; [|lia]. f_equal. replace (8 * hd + 4 + 4) with (zlen b) by lia. done.
Qed.

Lemma zlen_half_bytes l : zlen (concat (half_bytes <$> l)) = 2 * zlen l.
Proof.
  unfold zlen. rewrite (concat_len 2); [rewrite length_fmap; lia|]. apply Forall_fmap, Forall_true. intros. apply length_to_le.
Qed.

Lemma slice_part (l p s t : list byte) lo hi : l = p ++ s ++ t -> zlen p = lo -> hi = lo + zlen s -> slice l lo hi = s.
Proof. intros -> <- ->. apply slice_app_mid. Qed.

Lemma encode_decodes r : record_ok kind hd r -> exists b, encode r kind = Ret b /\ zlen b = record_len kind hd /\ decode kind hd b = Ret (Some r).
Proof.
  unfold fits in Hhd. intros (Hparts & Hb & Hg). rewrite !Forall_cons in Hparts. destruct Hparts as ((Zq & Pq) & (Zk & Pk) & (Zv & Pv) & (Zo & Po) & _).
  destruct r as [q k v o beta g]. cbn [rec_q rec_k rec_v rec_o rec_beta rec_g] in *.
  assert (Htail : exists t, encode {| rec_q := q; rec_k := k; rec_v := v; rec_o := o; rec_beta := beta; rec_g := g |} kind
      = Ret (concat (half_bytes <$> q) ++ concat (half_bytes <$> k) ++ concat (half_bytes <$> v) ++ concat (half_bytes <$> o) ++ single_bytes beta ++ t)
    /\ zlen t = (if kind =? RECUR_KDA then 2 * hd else 4)
    /\ (if kind =? RECUR_KDA then read_halves t else [f32_from_le t]) = g /\ forallb is_finite g = true).
  { unfold encode. cbn [rec_q rec_k rec_v rec_o rec_beta rec_g]. rewrite !fmap_app, !concat_app, <- !app_assoc. destruct (kind =? RECUR_KDA).
    - destruct Hg as [Zg Pg]. eexists. split; [reflexivity|]. rewrite zlen_half_bytes. split; [lia|]. by apply half_bytes_written.
    - destruct Hg as (x & -> & Px). eexists. split; [change (index [x] 0) with (Ret x); cbn [mbind res_bind]; rewrite <- !app_assoc; reflexivity|]. split; [unfold single_bytes; by rewrite zlen_to_le|].
      destruct (single_bytes_written x Px) as [-> Hf]. split; [done|]. cbn. by rewrite Hf. }
  destruct Htail as (t & He & Zt & Et & Ft). set (b := concat (half_bytes <$> q) ++ _) in He. exists b. split; [done|].
  assert (Hz : zlen b = record_len kind hd).
  { unfold b. rewrite !zlen_app, !zlen_half_bytes, record_len_exact, Zt. unfold single_bytes. rewrite zlen_to_le. lia. }
  split; [done|]. rewrite decode_at, Hz, Z.eqb_refl.
  assert (Zb : zlen (single_bytes beta) = 4) by (unfold single_bytes; by rewrite zlen_to_le).
  assert (Hr : record_at b = {| rec_q := q; rec_k := k; rec_v := v; rec_o := o; rec_beta := beta; rec_g := g |}).
  { set (bq := concat (half_bytes <$> q)) in *. set (bk := concat (half_bytes <$> k)) in *. set (bv := concat (half_bytes <$> v)) in *. set (bo := concat (half_bytes <$> o)) in *.
    assert (Lq : zlen bq = 2 * hd /\ zlen bk = 2 * hd /\ zlen bv = 2 * hd /\ zlen bo = 2 * hd) by (unfold bq, bk, bv, bo; rewrite !zlen_half_bytes; lia).
    destruct Lq as (Lq & Lk & Lv & Lo). unfold record_at.
    rewrite (slice_part b [] bq (bk ++ bv ++ bo ++ single_bytes beta ++ t)); [|done|change (zlen (@nil byte)) with 0; lia|lia].
    rewrite (slice_part b bq bk (bv ++ bo ++ single_bytes beta ++ t)); [|done|lia|lia].
    rewrite (slice_part b (bq ++ bk) bv (bo ++ single_bytes beta ++ t)); [|by rewrite <- !app_assoc|rewrite zlen_app; lia|lia].
    rewrite (slice_part b (bq ++ bk ++ bv) bo (single_bytes beta ++ t)); [|by rewrite <- !app_assoc|rewrite !zlen_app; lia|lia].
    rewrite (slice_part b (bq ++ bk ++ bv ++ bo) (single_bytes beta) t); [|by rewrite <- !app_assoc|rewrite !zlen_app; lia|lia].
    assert (Ht : forall c, c = zlen t -> slice b (8 * hd + 4) (8 * hd + 4 + c) = t).
    { intros c ->. apply (slice_part b (bq ++ bk ++ bv ++ bo ++ single_bytes beta) t []); [by rewrite <- !app_assoc, app_nil_r|rewrite !zlen_app; lia|lia]. }
    f_equal; [by apply half_bytes_written..|by apply single_bytes_written|]. rewrite <- Et. by destruct (kind =? RECUR_KDA); rewrite Ht. }
  rewrite Hr. unfold record_finite. cbn [rec_q rec_k rec_v rec_o rec_beta rec_g]. rewrite !forallb_app.
  unfold f32 in *. rewrite Ft. destruct (half_bytes_written q Pq) as [_ ->], (half_bytes_written k Pk) as [_ ->], (half_bytes_written v Pv) as [_ ->], (half_bytes_written o Po) as [_ ->].
  by destruct (single_bytes_written beta Hb) as [_ ->].
Qed.
End RecordCodec.

(** C25: The record codec is exact.  Decoding the bytes of a recurrent record never panics; what it accepts
    has the declared lengths, holds finite values of the stored precisions and encodes back to the same
    bytes; and every such record encodes to bytes that decode to it. *)
Theorem record_codec_exact (kind hd : Z) : kind = RECUR_GDA \/ kind = RECUR_KDA -> is_u32 hd ->
  (forall b, exists o, decode kind hd b = Ret o)
  /\ (forall b r, decode kind hd b = Ret (Some r) -> record_ok kind hd r /\ encode r kind = Ret b)
  /\ (forall r, record_ok kind hd r -> exists b, encode r kind = Ret b /\ zlen b = record_len kind hd /\ decode kind hd b = Ret (Some r)).
Proof.
  intros Hk Hhd. split; [|split].
  - intros b. rewrite decode_at by done. eauto.
  - intros b r. by apply decode_encodes.
  - intros r. by apply encode_decodes.
Qed.

(** ** Concrete inputs *)

Section Witnesses.
Import Toy.

Definition toy_record : list byte := concat (to_le 2 <$> replicate 128 0x3c00) ++ to_le 4 0x3f000000 ++ to_le 4 0xbf800000.

Lemma record_codec_exact_witness : exists r, decode RECUR_GDA 32 toy_record = Ret (Some r) /\ encode r RECUR_GDA = Ret toy_record.
Proof.
  assert (Hd : exists r, decode RECUR_GDA 32 toy_record = Ret (Some r)) by (eexists; vm_compute; reflexivity).
  destruct Hd as [r E]. exists r. split; [exact E|]. destruct (record_codec_exact RECUR_GDA 32) as (_ & H & _); [by left|unfold fits; lia|].
  exact (proj2 (H _ _ E)).
Defined.

Definition toy_layout : SeqLayout := {| n_attn := 0; n_recur := 1; heads := 1 |}.
Definition toy_root : Hash := root_of (blake3_hash <$> [input; take 3 input]).

End Witnesses.
