(* ===== verification/Wire.v ===== *)
(** * Readers and writers of the opening format ([verifiable-inference/src/opening.rs])

    A writer method of [W] appends bytes to its buffer; it is modelled by the
    bytes it appends.  A reader method of [R] moves the offset [o] through the
    fixed buffer [b] or fails; the [?] operator is the bind of the reader monad.

    [decodes] and [consumes] are the two halves of a codec's contract: what a
    writer appends is read back, and what a reader accepts is what the writer
    appends for the value read.  The class [Wire] packs a codec with its laws. *)
From S2P Require Import Prelude Merkle.

(** ** The reader *)

Record R := mkR { b : list byte; o : Z }.

Definition reader (A : Type) : Type := R -> option (A * R).

#[export] Instance reader_ret : MRet reader := fun A a r => Some (a, r).
#[export] Instance reader_bind : MBind reader := fun A B f m r =>
  match m r with Some (a, r) => f a r | None => None end.

Definition fail {A} : reader A := fun _ => None.
(** [x?] on a value that reads nothing. *)
Definition lift {A} (x : option A) : reader A := fun r => match x with Some a => Some (a, r) | None => None end.

Definition rd_take (n : Z) : reader (list byte) := fun r =>
  match checked_add 64 (o r) n with
  | None => None
  | Some e =>
    match get_range (b r) (o r) e with
    | Some s => Some (s, mkR (b r) (o r + n))
    | None => None
    end
  end.

Definition rd_u8 : reader Z := s ← rd_take 1; mret (from_le s).
Definition rd_u16 : reader Z := s ← rd_take 2; mret (from_le s).
Definition rd_u32 : reader Z := s ← rd_take 4; mret (from_le s).
Definition rd_u64 : reader Z := s ← rd_take 8; mret (from_le s).

Definition rd_bytes32 : reader (list byte) := n ← rd_u32; rd_take n.

(** [(0..n).map(|_| m).collect::<Option<Vec<_>>>()] *)
Fixpoint many {A} (n : nat) (m : reader A) : reader (list A) :=
  match n with
  | O => mret []
  | S n => x ← m; t ← many n m; mret (x :: t)
  end.
Definition rd_list {A} (m : reader A) : reader (list A) := n ← rd_u8; many (Z.to_nat n) m.

Definition rd_hash : reader Hash := rd_take 32.
Definition rd_hashes : reader (list Hash) := rd_list rd_hash.

(** [match r.u8()? { 0 => None, 1 => Some(m), _ => return None }] *)
Definition rd_option {A} (m : reader A) : reader (option A) :=
  t ← rd_u8;
  if t =? 0 then mret None else if t =? 1 then x ← m; mret (Some x) else fail.

(** ** The writer *)

Definition w_u8 (v : Z) : list byte := to_le 1 v.
Definition w_u16 (v : Z) : list byte := to_le 2 v.
Definition w_u32 (v : Z) : list byte := to_le 4 v.
Definition w_u64 (v : Z) : list byte := to_le 8 v.
(** [v as u8], [v as u16], [v as u32] truncate, and so does [to_le]. *)
Definition w_bytes32 (s : list byte) : list byte := w_u32 (zlen s) ++ s.
Definition w_list {A} (w : A -> list byte) (l : list A) : list byte :=
  w_u8 (zlen l) ++ mjoin (w <$> l).
Definition w_hash (h : Hash) : list byte := h.
Definition w_hashes (h : list Hash) : list byte := w_list w_hash h.
Definition w_option {A} (w : A -> list byte) (x : option A) : list byte :=
  match x with Some x => w_u8 1 ++ w x | None => w_u8 0 end.

(** ** The contract of a codec *)

(** [w] stands at offset [p] of the buffer [s]. *)
Definition is_at (s : list byte) (p : Z) (w : list byte) : Prop :=
  zlen s < 2 ^ 64 /\ exists pre post, s = pre ++ w ++ post /\ p = zlen pre.

Definition decodes {A} (m : reader A) (a : A) (w : list byte) : Prop :=
  forall s p, is_at s p w -> m (mkR s p) = Some (a, mkR s (p + zlen w)).

Definition consumes {A} (m : reader A) (Q : A -> list byte -> Prop) : Prop :=
  forall s p a r, zlen s < 2 ^ 64 -> 0 <= p <= zlen s -> m (mkR s p) = Some (a, r) ->
    exists w, is_at s p w /\ r = mkR s (p + zlen w) /\ Q a w.

(** On the values [P] describes, the reader inverts the writer. *)
Class Decodes {A} (m : reader A) (w : A -> list byte) (P : A -> Prop) : Prop :=
  decodes_written x : P x -> decodes m x (w x).
(** The reader returns only values [P] describes, off as many bytes as the writer makes of them. *)
Class Sound {A} (m : reader A) (w : A -> list byte) (P : A -> Prop) : Prop :=
  sound_read : consumes m (fun x s => P x /\ zlen s = zlen (w x)).
(** A codec is canonical as well: the writer gives back the bytes the reader accepted. *)
Class Codec {A} (m : reader A) (w : A -> list byte) (P : A -> Prop) : Prop := {
  codec_decodes :: Decodes m w P;
  codec_consumes : consumes m (fun x s => P x /\ s = w x);
}.

Definition bytes_ok (s : list byte) : Prop := zlen s < 2 ^ 32.
Definition list_ok {A} (P : A -> Prop) (l : list A) : Prop := zlen l < 2 ^ 8 /\ Forall P l.
Definition hashes_ok (l : list Hash) : Prop := list_ok is_hash l.
Definition option_ok {A} (P : A -> Prop) (x : option A) : Prop := match x with Some x => P x | None => True end.

(** ** Laws of the combinators *)

Lemma is_at_app s p w1 w2 : is_at s p (w1 ++ w2) <-> is_at s p w1 /\ is_at s (p + zlen w1) w2.
Proof.
  unfold is_at. split.
  - intros (Hs & pre & post & -> & ->). split; split; try done.
    + exists pre, (w2 ++ post). by rewrite <- !app_assoc.
    + exists (pre ++ w1), post. rewrite zlen_app. by rewrite <- !app_assoc.
  - intros [(Hs & pre & post & -> & ->) (_ & pre' & post' & E & Hp)]. split; [done|].
    exists pre, post'. split; [|done]. rewrite <- zlen_app in Hp. unfold zlen in Hp.
    rewrite app_assoc in E.
    apply app_inj_1 in E as [<- ->]; [|lia]. by rewrite <- !app_assoc.
Qed.

Lemma is_at_nil s p : zlen s < 2 ^ 64 -> 0 <= p <= zlen s -> is_at s p [].
Proof.
  intros Hs Hp. split; [done|]. exists (take (Z.to_nat p) s), (drop (Z.to_nat p) s). simpl.
  rewrite take_drop. split; [done|]. unfold zlen in *. rewrite length_take. lia.
Qed.

Lemma is_at_bounds s p w : is_at s p w -> 0 <= p /\ p + zlen w <= zlen s /\ zlen s < 2 ^ 64.
Proof.
  intros (Hs & pre & post & -> & ->). rewrite !zlen_app in *.
  pose proof (zlen_nonneg pre). pose proof (zlen_nonneg post). lia.
Qed.

Lemma decodes_ret {A} (a : A) : decodes (mret a) a [].
Proof. intros s p _. rewrite zlen_nil. cbv [mret reader_ret]. by rewrite Z.add_0_r. Qed.

Lemma decodes_bind {A B} (m : reader A) (k : A -> reader B) a c w1 w2 :
  decodes m a w1 -> decodes (k a) c w2 -> decodes (x ← m; k x) c (w1 ++ w2).
Proof.
  intros H1 H2 s p [Ha Hb]%is_at_app. unfold mbind, reader_bind.
  rewrite (H1 _ _ Ha), (H2 _ _ Hb), zlen_app. do 3 f_equal. lia.
Qed.

Lemma decodes_eq {A} (m : reader A) a w w' : w = w' -> decodes m a w -> decodes m a w'.
Proof. by intros ->. Qed.

Lemma consumes_ret {A} (a : A) (Q : A -> list byte -> Prop) : Q a [] -> consumes (mret a) Q.
Proof.
  intros HQ s p a' r Hs Hp [= <- <-]. exists []. split; [by apply is_at_nil|].
  by rewrite zlen_nil, Z.add_0_r.
Qed.

Lemma consumes_fail {A} (Q : A -> list byte -> Prop) : consumes fail Q.
Proof. done. Qed.

Lemma consumes_bind {A B} (m : reader A) (k : A -> reader B) P (Q : B -> list byte -> Prop) :
  consumes m P -> (forall a w1, P a w1 -> consumes (k a) (fun c w2 => Q c (w1 ++ w2))) ->
  consumes (x ← m; k x) Q.
Proof.
  intros H1 H2 s p c r Hs Hp. unfold mbind, reader_bind.
  destruct (m (mkR s p)) as [[a r1]|] eqn:E; [|done].
  apply H1 in E as (w1 & Ha & -> & HP); [|done..]. intros Hk.
  pose proof (is_at_bounds _ _ _ Ha). pose proof (zlen_nonneg w1).
  apply (H2 _ _ HP) in Hk as (w2 & Hb & -> & HQ); [|lia..].
  exists (w1 ++ w2). rewrite is_at_app, zlen_app. split; [done|]. split; [|done]. f_equal. lia.
Qed.

Lemma consumes_mono {A} (m : reader A) (P Q : A -> list byte -> Prop) :
  consumes m P -> (forall a w, P a w -> Q a w) -> consumes m Q.
Proof. intros H HPQ s p a r Hs Hp E. apply H in E as (w & ? & ? & ?); [|done..]. eauto. Qed.

(** [rd_take] reads exactly the bytes asked for. *)
Lemma decodes_rd_take w : decodes (rd_take (zlen w)) w w.
Proof.
  intros s p (Hs & pre & post & -> & ->). unfold rd_take, checked_add. simpl.
  rewrite !zlen_app in Hs. pose proof (zlen_nonneg post). pose proof (zlen_nonneg w).
  destruct (Z.ltb_spec (zlen pre + zlen w) (2 ^ 64)); [|lia].
  rewrite (proj2 (get_range_Some _ w _ _)); [done|].
  rewrite !zlen_app, slice_app_mid. pose proof (zlen_nonneg pre). repeat split; lia.
Qed.

Lemma consumes_rd_take n : 0 <= n -> consumes (rd_take n) (fun w s => zlen w = n /\ s = w).
Proof.
  intros Hn s p a r Hs Hp. unfold rd_take, checked_add. cbn [b o].
  destruct (_ <? 2 ^ 64); [|done].
  destruct (get_range s p (p + n)) as [w|] eqn:E; [|done]. intros [= <- <-].
  apply get_range_Some in E as (_ & Hle & ->).
  assert (Hl : zlen (slice s p (p + n)) = n) by (rewrite zlen_slice; lia).
  exists (slice s p (p + n)). rewrite Hl. repeat split; try done.
  exists (take (Z.to_nat p) s), (drop (Z.to_nat (p + n)) s). split.
  - rewrite <- (take_drop (Z.to_nat p) s) at 1. f_equal. unfold slice.
    rewrite <- (take_drop (Z.to_nat n) (drop (Z.to_nat p) s)) at 1. rewrite drop_drop.
    f_equal; [f_equal|f_equal]; lia.
  - unfold zlen in *. rewrite length_take. lia.
Qed.

(** Steps of a [decodes] and of a [consumes] proof for a reader in the code's order; codecs of
    the fields are found by instance search. *)
Ltac decode_field := eapply decodes_bind; [apply decodes_written|cbv beta].
Ltac consume_field :=
  eapply consumes_bind; [apply codec_consumes|let H := fresh "Hok" in intros ? ? [H ->]; cbv beta].
Ltac consume_sound :=
  eapply consumes_bind; [apply sound_read|let H := fresh "Hok" in let L := fresh "Hlen" in intros ? ? [H L]; cbv beta].
Ltac flatten_bytes := rewrite <- ?app_assoc, ?app_nil_r; cbn [app].

#[export] Instance codec_sound {A} (m : reader A) w P : Codec m w P -> Sound m w P.
Proof. intros C. eapply consumes_mono; [apply codec_consumes|]. by intros ? ? [? ->]. Qed.

Section WordCodecs.
Lemma word_codec (n : nat) :
  Codec (s ← rd_take (Z.of_nat n); mret (from_le s)) (to_le n) (fits (8 * Z.of_nat n)).
Proof.
  split.
  - intros x Hx. apply (decodes_eq _ _ (to_le n x ++ [])); [apply app_nil_r|].
    eapply decodes_bind; [rewrite <- (zlen_to_le n x); apply decodes_rd_take|].
    rewrite <- (from_to_le n x) at 2 by done. apply decodes_ret.
  - eapply consumes_bind; [apply consumes_rd_take; lia|]. intros a w1 [Ha ->]. apply consumes_ret.
    rewrite app_nil_r. split; [rewrite <- Ha; apply from_le_fits|].
    symmetry. apply to_from_le. unfold zlen in Ha. lia.
Qed.

#[export] Instance u8_codec : Codec rd_u8 w_u8 is_u8 := word_codec 1.
#[export] Instance u16_codec : Codec rd_u16 w_u16 is_u16 := word_codec 2.
#[export] Instance u32_codec : Codec rd_u32 w_u32 is_u32 := word_codec 4.
#[export] Instance u64_codec : Codec rd_u64 w_u64 is_u64 := word_codec 8.
End WordCodecs.

#[export] Instance hash_codec : Codec rd_hash w_hash is_hash.
Proof.
  split.
  - intros h Hh. replace rd_hash with (rd_take (zlen h)) by (unfold rd_hash, zlen; by rewrite Hh).
    apply decodes_rd_take.
  - eapply consumes_mono; [by apply consumes_rd_take|]. intros h w [Hh ->].
    split; [unfold is_hash, zlen in *; lia|done].
Qed.

#[export] Instance bytes32_codec : Codec rd_bytes32 w_bytes32 bytes_ok.
Proof.
  split; unfold rd_bytes32, w_bytes32.
  - intros x Hx. decode_field; [|apply decodes_rd_take]. pose proof (zlen_nonneg x). by split.
  - consume_field. destruct Hok as [? Hb].
    eapply consumes_mono; [by apply consumes_rd_take|]. intros x w [Hx ->]. subst a.
    by split.
Qed.

(** [match r.u8()? { 1 => Some(m), _ => None }]: any other flag reads as absent. *)
Definition rd_flag {A} (m : reader A) : reader (option A) :=
  t ← rd_u8; if t =? 1 then x ← m; mret (Some x) else mret None.

Section ListDecodes.
Context {A} (m : reader A) (w : A -> list byte) (P : A -> Prop) {D : Decodes m w P}.

Lemma many_decodes l : Forall P l -> decodes (many (length l) m) l (mjoin (w <$> l)).
Proof.
  induction 1 as [|x l Hx Hl IH]; [apply decodes_ret|]. cbn [length many].
  change (mjoin (w <$> x :: l)) with (w x ++ mjoin (w <$> l)).
  eapply decodes_bind; [by apply decodes_written|].
  apply (decodes_eq _ _ (mjoin (w <$> l) ++ [])); [apply app_nil_r|].
  eapply decodes_bind; [done|apply decodes_ret].
Qed.

#[export] Instance list_decodes : Decodes (rd_list m) (w_list w) (list_ok P).
Proof.
  unfold rd_list, w_list. intros l [Hl HP]. pose proof (zlen_nonneg l). decode_field; [by split|].
  unfold zlen. rewrite Nat2Z.id. by apply many_decodes.
Qed.

#[export] Instance option_decodes : Decodes (rd_option m) (w_option w) (option_ok P).
Proof.
  unfold rd_option, w_option. intros [x|] Hx.
  - decode_field; [done|]. cbn. apply (decodes_eq _ _ (w x ++ [])); [apply app_nil_r|].
    decode_field; [done|apply decodes_ret].
  - apply (decodes_eq _ _ (w_u8 0 ++ [])); [apply app_nil_r|].
    decode_field; [done|]. apply decodes_ret.
Qed.

#[export] Instance flag_decodes : Decodes (rd_flag m) (w_option w) (option_ok P).
Proof.
  unfold rd_flag, w_option. intros [x|] Hx.
  - decode_field; [done|]. cbn. apply (decodes_eq _ _ (w x ++ [])); [apply app_nil_r|].
    decode_field; [done|apply decodes_ret].
  - apply (decodes_eq _ _ (w_u8 0 ++ [])); [apply app_nil_r|].
    decode_field; [done|]. apply decodes_ret.
Qed.
End ListDecodes.

Section ListSound.
Context {A} (m : reader A) (w : A -> list byte) (P : A -> Prop) {S : Sound m w P}.

Lemma many_sound n :
  consumes (many n m) (fun l s => length l = n /\ Forall P l /\ zlen s = zlen (mjoin (w <$> l))).
Proof.
  induction n as [|n IH]; cbn [many]; [by apply consumes_ret|].
  consume_sound. eapply consumes_bind; [exact IH|]. intros l ? (Hl & HP & Hs).
  apply consumes_ret. subst n. repeat constructor; [done..|].
  change (mjoin (w <$> a :: l)) with (w a ++ mjoin (w <$> l)). rewrite !zlen_app, zlen_nil. lia.
Qed.

#[export] Instance list_sound : Sound (rd_list m) (w_list w) (list_ok P).
Proof.
  unfold rd_list, w_list, Sound. consume_sound. destruct Hok as [? Hb].
  eapply consumes_mono; [apply many_sound|]. intros l s (Hl & HP & Hs).
  rewrite !zlen_app in *. split; [split; [unfold zlen; lia|done]|]. rewrite Hs, Hlen. done.
Qed.

#[export] Instance flag_sound : Sound (rd_flag m) (w_option w) (option_ok P).
Proof.
  unfold rd_flag, Sound. consume_sound. destruct (_ =? 1).
  - consume_sound. apply consumes_ret. split; [done|]. cbn [w_option].
    rewrite !zlen_app, zlen_nil, Hlen, Hlen0, Z.add_0_r. done.
  - apply consumes_ret. by rewrite app_nil_r.
Qed.
End ListSound.

Section ListCodec.
Context {A} (m : reader A) (w : A -> list byte) (P : A -> Prop) {C : Codec m w P}.

Lemma many_consumes n :
  consumes (many n m) (fun l s => length l = n /\ Forall P l /\ s = mjoin (w <$> l)).
Proof.
  induction n as [|n IH]; cbn [many]; [by apply consumes_ret|].
  consume_field. eapply consumes_bind; [exact IH|]. intros l ? (Hl & HP & ->).
  apply consumes_ret. rewrite app_nil_r. by subst n; repeat constructor.
Qed.

#[export] Instance list_codec : Codec (rd_list m) (w_list w) (list_ok P).
Proof.
  split; [apply _|]. unfold rd_list, w_list. consume_field. destruct Hok as [? Hb].
  eapply consumes_mono; [apply many_consumes|]. intros l s (Hl & HP & ->).
  assert (zlen l = a) as Ha by (unfold zlen; lia). rewrite Ha. by repeat split; rewrite ?Ha.
Qed.

#[export] Instance option_codec : Codec (rd_option m) (w_option w) (option_ok P).
Proof.
  split; [apply _|]. unfold rd_option, w_option. consume_field.
  destruct (Z.eqb_spec a 0) as [->|]; [by apply consumes_ret|].
  destruct (Z.eqb_spec a 1) as [->|]; [|apply consumes_fail].
  consume_field. apply consumes_ret. by rewrite app_nil_r.
Qed.
End ListCodec.

#[export] Instance hashes_codec : Codec rd_hashes w_hashes hashes_ok := list_codec rd_hash w_hash is_hash.

(** ** Whole bodies

    [decode] starts a reader at offset [from] and ends with [(r.o == b.len()).then_some(x)]. *)
Definition decode_all {A} (m : reader A) (from : Z) (body : list byte) : option A :=
  '(x, r) ← m (mkR body from);
  if o r =? zlen body then Some x else None.

(** [w] read to the end of the buffer. *)
Definition decodes_end {A} (m : reader A) (x : A) (w : list byte) : Prop :=
  forall pre, zlen (pre ++ w) < 2 ^ 64 ->
    m (mkR (pre ++ w) (zlen pre)) = Some (x, mkR (pre ++ w) (zlen (pre ++ w))).

Lemma decodes_decodes_end {A} (m : reader A) x w : decodes m x w -> decodes_end m x w.
Proof.
  intros H pre Hl. rewrite (zlen_app pre). apply H. split; [done|]. exists pre, [].
  by rewrite app_nil_r.
Qed.

Lemma decodes_end_bind {A B} (m : reader A) (k : A -> reader B) a c w1 w2 :
  decodes m a w1 -> decodes_end (k a) c w2 -> decodes_end (x ← m; k x) c (w1 ++ w2).
Proof.
  intros H1 H2 pre Hl. unfold mbind, reader_bind. rewrite H1.
  - rewrite <- zlen_app. rewrite (app_assoc pre) in *. by apply H2.
  - split; [done|]. by exists pre, w2.
Qed.

Lemma decodes_end_ret {A B} (m : reader A) (f : A -> B) a w :
  decodes_end m a w -> decodes_end (x ← m; mret (f x)) (f a) w.
Proof. intros H pre Hl. unfold mbind, reader_bind. by rewrite H. Qed.

Lemma decodes_end_eq {A} (m : reader A) a w w' : w = w' -> decodes_end m a w -> decodes_end m a w'.
Proof. by intros ->. Qed.

(** [if r.o < b.len() { Some(m?) } else { None }] *)
Definition rd_rest {A} (m : reader A) : reader (option A) := fun r =>
  if o r <? zlen (b r) then (x ← m; mret (Some x)) r else Some (None, r).

Lemma rd_rest_decodes {A} (m : reader A) w P (x : option A) : Decodes m w P -> option_ok P x ->
  (forall y, 0 < zlen (w y)) -> decodes_end (rd_rest m) x (from_option w [] x).
Proof.
  intros D Hx Hw pre Hl. unfold rd_rest. cbn [o b]. destruct x as [x|]; cbn [from_option] in *.
  - rewrite zlen_app. specialize (Hw x). destruct (Z.ltb_spec (zlen pre) (zlen pre + zlen (w x))); [|lia].
    rewrite <- zlen_app. apply (decodes_end_eq _ _ (w x ++ [])); [apply app_nil_r| |done].
    apply (decodes_end_bind _ _ x); [by apply D|]. apply decodes_decodes_end, decodes_ret.
  - rewrite app_nil_r, Z.ltb_irrefl. done.
Qed.

Lemma rd_rest_sound {A} (m : reader A) w P : Sound m w P ->
  consumes (rd_rest m) (fun x s => option_ok P x /\ zlen s = zlen (from_option w [] x)).
Proof.
  intros S s p x r Hs Hp. unfold rd_rest. cbn [o b]. destruct (_ <? _).
  - revert s p x r Hs Hp. change (consumes (x ← m; mret (Some x))
      (fun x s => option_ok P x /\ zlen s = zlen (from_option w [] x))).
    consume_sound. apply consumes_ret. by rewrite app_nil_r.
  - intros [= <- <-]. exists []. rewrite zlen_nil, Z.add_0_r. split; [by apply is_at_nil|done].
Qed.

Lemma decode_all_written {A} (m : reader A) x pre w :
  decodes_end m x w -> zlen (pre ++ w) < 2 ^ 64 -> decode_all m (zlen pre) (pre ++ w) = Some x.
Proof. intros Hm Hl. unfold decode_all. rewrite Hm by done. cbn. by rewrite Z.eqb_refl. Qed.

Lemma decode_all_read {A} (m : reader A) Q from body x : consumes m Q ->
  zlen body < 2 ^ 64 -> 0 <= from <= zlen body -> decode_all m from body = Some x ->
  exists w, Q x w /\ body = take (Z.to_nat from) body ++ w.
Proof.
  intros Hm Hl Hf. unfold decode_all. destruct (m _) as [[y r]|] eqn:E; [|done]. cbn.
  apply Hm in E as (w & (_ & pre & post & Hb & Hp) & -> & HQ); [|done..]. cbn [o].
  destruct (Z.eqb_spec (from + zlen w) (zlen body)) as [He|]; [|done]. intros [= ->].
  exists w. split; [done|]. rewrite Hb in He |- *. rewrite !zlen_app in He.
  assert (post = []) as -> by (destruct post; [done|rewrite zlen_cons in He; pose proof (zlen_nonneg post); lia]).
  rewrite app_nil_r. rewrite Hp. unfold zlen. by rewrite Nat2Z.id, take_app_length.
Qed.

(** ** Decidability of the codec domains *)

#[export] Instance bytes_ok_dec s : Decision (bytes_ok s).
Proof. unfold bytes_ok. apply _. Defined.
#[export] Instance list_ok_dec {A} (P : A -> Prop) `{!forall x, Decision (P x)} l : Decision (list_ok P l).
Proof. unfold list_ok. apply _. Defined.
#[export] Instance hashes_ok_dec l : Decision (hashes_ok l).
Proof. unfold hashes_ok. apply _. Defined.
#[export] Instance option_ok_dec {A} (P : A -> Prop) `{!forall x, Decision (P x)} x : Decision (option_ok P x).
Proof. destruct x; simpl; apply _. Defined.
