(* ===== verification/Opening.v ===== *)
(** * Opening payloads ([verifiable-inference/src/opening.rs])

    The four bodies a miner posts to answer an audit draw, their codecs, the
    seeded envelope and the signed payload around them.  Every [encode] and
    [decode] is the code's field by field; the laws of the pieces are [Codec]
    instances that the proofs about whole bodies compose. *)
From S2P Require Import Prelude Merkle Seq Wire.

Definition VERSION : Z := 1.
Definition VERSION_PREFIX : Z := 2.
Definition VERSION_CHAIN : Z := 3.
Definition VERSION_SEEDED : Z := 4.
Definition VERSION_ATTN : Z := 5.
Definition VERSION_RECUR : Z := 6.
Definition VERSION_ROOTS : Z := 7.
Definition VERSION_RESID : Z := 8.
Definition MAX_BODY_LEN : Z := 112 * 1024.
Definition SIGNATURE_LEN : Z := 32 + 64.
Definition MIN_PAYLOAD_LEN : Z := 1 + 32 + 1 + SIGNATURE_LEN.
Definition MAX_PAYLOAD_LEN : Z := MAX_BODY_LEN + SIGNATURE_LEN.

(** ** Signed payloads *)

Record SignedPayload := {
  signed_body : list byte;
  escrow_pubkey : list byte;
  signature : list byte;
}.

(** [SignedPayload::split] *)
Definition split_payload (payload : list byte) : option SignedPayload :=
  if (zlen payload <? MIN_PAYLOAD_LEN) || (MAX_PAYLOAD_LEN <? zlen payload) then None else
  let n := zlen payload - SIGNATURE_LEN in
  Some {| signed_body := slice payload 0 n;
          escrow_pubkey := slice payload n (n + 32);
          signature := slice payload (n + 32) (zlen payload) |}.

(** ** The data of the bodies *)

Record EntryOpening := { entry_index : Z; entry_bytes : list byte; entry_path : list Hash }.

Record ChunkRange := { range_first_chunk : Z; range_chunks : list byte; range_proof : list Hash }.

Abbreviation Weights := (EntryOpening * ChunkRange)%type.

Record Point := {
  p_n_ubatch : Z;
  p_pos_path : list Hash;
  p_meta_path : list Hash;
  p_entry : EntryOpening;
  p_partner : option EntryOpening;
  p_bias : option Weights;
  p_rows : list ChunkRange;
  p_x : list byte;
  p_x_path : list Hash;
  p_y_total_len : Z;
  p_y_chunk_index : Z;
  p_y_chunk : list byte;
  p_y_chunk_path : list Hash;
  p_y_path : list Hash;
}.

Record PrefixPoint := {
  pre_n_ubatch : Z;
  pre_pos_path : list Hash;
  pre_meta_path : list Hash;
  pre_entry : EntryOpening;
  pre_x : list byte;
  pre_x_path : list Hash;
  pre_embd : Weights;
  pre_norm : Weights;
}.

Record ExpertIds := { ids_chunk : list byte; ids_chunk_path : list Hash }.

Record LeafChunk := {
  lc_total_len : Z;
  lc_index : Z;
  lc_chunk : list byte;
  lc_chunk_path : list Hash;
  lc_leaf_path : list Hash;
}.

Record LeafBytes := { lb_bytes : list byte; lb_leaf_path : list Hash }.

Inductive LinkOpening :=
| Link_None
| Link_Norm (src : LeafBytes) (norm : Weights)
| Link_Token (embd norm : Weights)
| Link_Source (src : EntryOpening) (y : LeafChunk) (ids : option ExpertIds).

Inductive ResidSrc :=
| Src_Chunk (c : LeafChunk)
| Src_Token (e : EntryOpening) (r : ChunkRange).

Record MoeAdd := {
  scores : LeafBytes;
  moe_bias : Weights;
  ids : ExpertIds;
  slots : list LeafChunk;
  shexp : LeafChunk;
  router_row : Weights;
  moe_resid : LeafBytes;
  moe_norm : Weights;
}.

Inductive ResidAdd :=
| Add_Chunk (c : LeafChunk)
| Add_Normed (y : LeafBytes) (norm : Weights)
| Add_Moe (m : MoeAdd).

Record ResidPoint := {
  r_n_ubatch : Z;
  r_tok : Z;
  r_pos_path : list Hash;
  r_meta_path : list Hash;
  r_layer : EntryOpening;
  r_product : EntryOpening;
  r_dst : LeafChunk;
  r_src : ResidSrc;
  r_add : ResidAdd;
}.

Record Opening := {
  response_txid : Hash;
  points : list Point;
  prefix : option PrefixPoint;
  links : list (Z * LinkOpening);
  experts : list (option ExpertIds);
  resid : option ResidPoint;
  roots : option (Hash * Hash);
}.

Record FeedRow := {
  feed_x : list byte;
  feed_x_path : list Hash;
  feed_row : ChunkRange;
  feed_bias : option Weights;
}.

Record ExpertRow := {
  expert_entry : EntryOpening;
  expert_x : list byte;
  expert_x_path : list Hash;
  expert_row : ChunkRange;
}.

Record ResidOpening := {
  ro_response_txid : Hash;
  ro_roots : option (Hash * Hash);
  ro_resid : ResidPoint;
  ro_feed : FeedRow;
  ro_expert : option ExpertRow;
}.

Record AttnOpening := {
  at_response_txid : Hash;
  at_pos_root : Hash;
  at_seq_root : Hash;
  at_layer : EntryOpening;
  at_q_entry : EntryOpening;
  at_o_entry : EntryOpening;
  at_norms : list Weights;
  at_pos_path : list Hash;
  at_q : list LeafChunk;
  at_out : LeafBytes;
  at_kcache : SeqSpan;
  at_vcache : SeqSpan;
  at_anchor_pos_path : list Hash;
  at_anchor_k : list LeafChunk;
  at_anchor_v : list LeafChunk;
  at_absorb : list LeafChunk;
  at_path : list Z;
  at_parent : list byte;
  at_parent_path : list Hash;
  at_partials : list byte;
  at_lse : SeqSpan;
}.

Record RecurTap := {
  tap_pos_path : list Hash;
  tap_q : LeafChunk;
  tap_k : LeafChunk;
  tap_v : LeafChunk;
}.

Record RecurOpening := {
  re_response_txid : Hash;
  re_pos_root : Hash;
  re_seq_root : Hash;
  re_layer : EntryOpening;
  re_out_entry : EntryOpening;
  re_decay_entry : EntryOpening;
  re_weights : list Weights;
  re_records : SeqSpan;
  re_start_rows : SeqSpan;
  re_end_rows : SeqSpan;
  re_taps : list RecurTap;
  re_beta : LeafChunk;
  re_decay : LeafChunk;
  re_gate : LeafChunk;
  re_out : LeafBytes;
}.

(** ** Writers *)

Definition w_bytes16 (s : list byte) : list byte := w_u16 (zlen s) ++ s.
Definition w_chunks (s : list byte) : list byte := w_u32 (zlen s / 32) ++ s.

Definition w_entry (e : EntryOpening) : list byte :=
  w_u32 (entry_index e) ++ w_bytes16 (entry_bytes e) ++ w_hashes (entry_path e).

Definition w_range (r : ChunkRange) : list byte :=
  w_u64 (range_first_chunk r) ++ w_chunks (range_chunks r) ++ w_hashes (range_proof r).

Definition w_weights (w : Weights) : list byte := w_entry w.1 ++ w_range w.2.

Definition w_leaf_chunk (c : LeafChunk) : list byte :=
  w_u32 (lc_total_len c) ++ w_u32 (lc_index c) ++ w_bytes32 (lc_chunk c)
  ++ w_hashes (lc_chunk_path c) ++ w_hashes (lc_leaf_path c).

Definition w_leaf_bytes (l : LeafBytes) : list byte :=
  w_bytes32 (lb_bytes l) ++ w_hashes (lb_leaf_path l).

Definition w_seq_span (s : SeqSpan) : list byte :=
  w_u32 (span_first_chunk s) ++ w_bytes32 (span_bytes s)
  ++ w_hashes (span_chunk_proof s) ++ w_hashes (span_leaf_path s).

Definition w_expert_ids (e : ExpertIds) : list byte :=
  w_bytes32 (ids_chunk e) ++ w_hashes (ids_chunk_path e).

Definition w_link (l : LinkOpening) : list byte :=
  match l with
  | Link_None => w_u8 0
  | Link_Norm src norm => w_u8 1 ++ w_leaf_bytes src ++ w_weights norm
  | Link_Token embd norm => w_u8 2 ++ w_weights embd ++ w_weights norm
  | Link_Source src y ids =>
      w_u8 3 ++ w_entry src ++ w_leaf_chunk y ++ w_option w_expert_ids ids
  end.

Definition w_resid_src (s : ResidSrc) : list byte :=
  match s with
  | Src_Chunk c => w_u8 0 ++ w_leaf_chunk c
  | Src_Token e r => w_u8 1 ++ w_entry e ++ w_range r
  end.

Definition w_resid_add (a : ResidAdd) : list byte :=
  match a with
  | Add_Chunk c => w_u8 0 ++ w_leaf_chunk c
  | Add_Normed y norm => w_u8 1 ++ w_leaf_bytes y ++ w_weights norm
  | Add_Moe m =>
      w_u8 2 ++ w_leaf_bytes (scores m) ++ w_weights (moe_bias m) ++ w_expert_ids (ids m)
      ++ w_list w_leaf_chunk (slots m) ++ w_leaf_chunk (shexp m) ++ w_weights (router_row m)
      ++ w_leaf_bytes (moe_resid m) ++ w_weights (moe_norm m)
  end.

Definition w_resid (p : ResidPoint) : list byte :=
  w_u32 (r_n_ubatch p) ++ w_u32 (r_tok p) ++ w_hashes (r_pos_path p) ++ w_hashes (r_meta_path p)
  ++ w_entry (r_layer p) ++ w_entry (r_product p) ++ w_leaf_chunk (r_dst p)
  ++ w_resid_src (r_src p) ++ w_resid_add (r_add p).

Definition w_roots (r : Hash * Hash) : list byte := w_hash r.1 ++ w_hash r.2.

Definition w_point (p : Point) : list byte :=
  w_u32 (p_n_ubatch p) ++ w_hashes (p_pos_path p) ++ w_hashes (p_meta_path p) ++ w_entry (p_entry p)
  ++ w_option w_entry (p_partner p) ++ w_option w_weights (p_bias p) ++ w_list w_range (p_rows p)
  ++ w_bytes32 (p_x p) ++ w_hashes (p_x_path p) ++ w_u32 (p_y_total_len p) ++ w_u32 (p_y_chunk_index p)
  ++ w_bytes32 (p_y_chunk p) ++ w_hashes (p_y_chunk_path p) ++ w_hashes (p_y_path p).

Definition w_prefix (p : PrefixPoint) : list byte :=
  w_u32 (pre_n_ubatch p) ++ w_hashes (pre_pos_path p) ++ w_hashes (pre_meta_path p)
  ++ w_entry (pre_entry p) ++ w_bytes32 (pre_x p) ++ w_hashes (pre_x_path p)
  ++ w_weights (pre_embd p) ++ w_weights (pre_norm p).

(** Link [i] of a chain opening: its token, the link, then the expert ids of point [i]. *)
Definition w_step (s : Z * LinkOpening * option ExpertIds) : list byte :=
  w_u32 s.1.1 ++ w_link s.1.2 ++ w_option w_expert_ids s.2.

Definition w_tap (t : RecurTap) : list byte :=
  w_hashes (tap_pos_path t) ++ w_leaf_chunk (tap_q t) ++ w_leaf_chunk (tap_k t) ++ w_leaf_chunk (tap_v t).

Definition w_feed (f : FeedRow) : list byte :=
  w_bytes32 (feed_x f) ++ w_hashes (feed_x_path f) ++ w_range (feed_row f)
  ++ w_option w_weights (feed_bias f).

Definition w_expert_row (e : ExpertRow) : list byte :=
  w_entry (expert_entry e) ++ w_bytes32 (expert_x e) ++ w_hashes (expert_x_path e)
  ++ w_range (expert_row e).

(** ** Readers *)

Definition rd_bytes16 : reader (list byte) := n ← rd_u16; rd_take n.
Definition rd_chunks : reader (list byte) :=
  n ← rd_u32; n ← lift (checked_mul 64 n 32); rd_take n.

Definition rd_entry : reader EntryOpening :=
  index ← rd_u32;
  bytes ← rd_bytes16;
  path ← rd_hashes;
  mret {| entry_index := index; entry_bytes := bytes; entry_path := path |}.

Definition rd_range : reader ChunkRange :=
  first_chunk ← rd_u64;
  chunks ← rd_chunks;
  proof ← rd_hashes;
  mret {| range_first_chunk := first_chunk; range_chunks := chunks; range_proof := proof |}.

Definition rd_weights : reader Weights := e ← rd_entry; r ← rd_range; mret (e, r).

Definition rd_leaf_chunk : reader LeafChunk :=
  total_len ← rd_u32;
  index ← rd_u32;
  chunk ← rd_bytes32;
  chunk_path ← rd_hashes;
  leaf_path ← rd_hashes;
  mret {| lc_total_len := total_len; lc_index := index; lc_chunk := chunk;
          lc_chunk_path := chunk_path; lc_leaf_path := leaf_path |}.

Definition rd_leaf_bytes : reader LeafBytes :=
  bytes ← rd_bytes32;
  leaf_path ← rd_hashes;
  mret {| lb_bytes := bytes; lb_leaf_path := leaf_path |}.

Definition rd_seq_span : reader SeqSpan :=
  first_chunk ← rd_u32;
  bytes ← rd_bytes32;
  chunk_proof ← rd_hashes;
  leaf_path ← rd_hashes;
  mret {| span_first_chunk := first_chunk; span_bytes := bytes;
          span_chunk_proof := chunk_proof; span_leaf_path := leaf_path |}.

Definition rd_expert_ids : reader ExpertIds :=
  chunk ← rd_bytes32;
  chunk_path ← rd_hashes;
  mret {| ids_chunk := chunk; ids_chunk_path := chunk_path |}.

Definition rd_link : reader LinkOpening :=
  t ← rd_u8;
  if t =? 0 then mret Link_None
  else if t =? 1 then src ← rd_leaf_bytes; norm ← rd_weights; mret (Link_Norm src norm)
  else if t =? 2 then embd ← rd_weights; norm ← rd_weights; mret (Link_Token embd norm)
  else if t =? 3 then
    src ← rd_entry; y ← rd_leaf_chunk; ids ← rd_option rd_expert_ids; mret (Link_Source src y ids)
  else fail.

Definition rd_resid_src : reader ResidSrc :=
  t ← rd_u8;
  if t =? 0 then c ← rd_leaf_chunk; mret (Src_Chunk c)
  else if t =? 1 then e ← rd_entry; r ← rd_range; mret (Src_Token e r)
  else fail.

Definition rd_resid_add : reader ResidAdd :=
  t ← rd_u8;
  if t =? 0 then c ← rd_leaf_chunk; mret (Add_Chunk c)
  else if t =? 1 then y ← rd_leaf_bytes; norm ← rd_weights; mret (Add_Normed y norm)
  else if t =? 2 then
    scores ← rd_leaf_bytes;
    bias ← rd_weights;
    ids ← rd_expert_ids;
    slots ← rd_list rd_leaf_chunk;
    shexp ← rd_leaf_chunk;
    router_row ← rd_weights;
    resid ← rd_leaf_bytes;
    norm ← rd_weights;
    mret (Add_Moe {| scores := scores; moe_bias := bias; ids := ids; slots := slots; shexp := shexp;
                     router_row := router_row; moe_resid := resid; moe_norm := norm |})
  else fail.

Definition rd_resid : reader ResidPoint :=
  n_ubatch ← rd_u32;
  tok ← rd_u32;
  pos_path ← rd_hashes;
  meta_path ← rd_hashes;
  layer ← rd_entry;
  product ← rd_entry;
  dst ← rd_leaf_chunk;
  src ← rd_resid_src;
  add ← rd_resid_add;
  mret {| r_n_ubatch := n_ubatch; r_tok := tok; r_pos_path := pos_path; r_meta_path := meta_path;
          r_layer := layer; r_product := product; r_dst := dst; r_src := src; r_add := add |}.

Definition rd_roots : reader (Hash * Hash) := p ← rd_hash; q ← rd_hash; mret (p, q).

Definition rd_point : reader Point :=
  n_ubatch ← rd_u32;
  pos_path ← rd_hashes;
  meta_path ← rd_hashes;
  entry ← rd_entry;
  partner ← rd_flag rd_entry;
  bias ← rd_flag rd_weights;
  rows ← rd_list rd_range;
  x ← rd_bytes32;
  x_path ← rd_hashes;
  y_total_len ← rd_u32;
  y_chunk_index ← rd_u32;
  y_chunk ← rd_bytes32;
  y_chunk_path ← rd_hashes;
  y_path ← rd_hashes;
  mret {| p_n_ubatch := n_ubatch; p_pos_path := pos_path; p_meta_path := meta_path; p_entry := entry;
          p_partner := partner; p_bias := bias; p_rows := rows; p_x := x; p_x_path := x_path;
          p_y_total_len := y_total_len; p_y_chunk_index := y_chunk_index; p_y_chunk := y_chunk;
          p_y_chunk_path := y_chunk_path; p_y_path := y_path |}.

Definition rd_prefix : reader PrefixPoint :=
  n_ubatch ← rd_u32;
  pos_path ← rd_hashes;
  meta_path ← rd_hashes;
  entry ← rd_entry;
  x ← rd_bytes32;
  x_path ← rd_hashes;
  embd ← rd_weights;
  norm ← rd_weights;
  mret {| pre_n_ubatch := n_ubatch; pre_pos_path := pos_path; pre_meta_path := meta_path;
          pre_entry := entry; pre_x := x; pre_x_path := x_path; pre_embd := embd; pre_norm := norm |}.

Definition rd_step : reader (Z * LinkOpening * option ExpertIds) :=
  tok ← rd_u32; link ← rd_link; ids ← rd_option rd_expert_ids; mret (tok, link, ids).

Definition rd_tap : reader RecurTap :=
  pos_path ← rd_hashes;
  q ← rd_leaf_chunk;
  k ← rd_leaf_chunk;
  v ← rd_leaf_chunk;
  mret {| tap_pos_path := pos_path; tap_q := q; tap_k := k; tap_v := v |}.

Definition rd_feed : reader FeedRow :=
  x ← rd_bytes32;
  x_path ← rd_hashes;
  row ← rd_range;
  bias ← rd_option rd_weights;
  mret {| feed_x := x; feed_x_path := x_path; feed_row := row; feed_bias := bias |}.

Definition rd_expert_row : reader ExpertRow :=
  entry ← rd_entry;
  x ← rd_bytes32;
  x_path ← rd_hashes;
  row ← rd_range;
  mret {| expert_entry := entry; expert_x := x; expert_x_path := x_path; expert_row := row |}.

(** ** Bodies *)

Definition chain (x : Opening) : bool :=
  negb (zlen (links x) =? 0) || bool_decide (is_Some (resid x)).

(** [self.links.iter().enumerate()] with [self.experts.get(i).cloned().flatten()] *)
Definition steps (x : Opening) : list (Z * LinkOpening * option ExpertIds) :=
  imap (fun i l => (l, mjoin (experts x !! i))) (links x).

(** [Opening::encode] *)
Definition encode (x : Opening) : list byte :=
  let chain := chain x in
  w_u8 (if chain && bool_decide (is_Some (roots x)) then VERSION_ROOTS
        else if chain then VERSION_CHAIN
        else if bool_decide (is_Some (prefix x)) then VERSION_PREFIX
        else VERSION)
  ++ w_hash (response_txid x)
  ++ (if chain then from_option w_roots [] (roots x) else [])
  ++ w_list w_point (points x)
  ++ (if chain then mjoin (w_step <$> steps x) else [])
  ++ from_option w_prefix [] (prefix x)
  ++ from_option w_resid [] (resid x).

Definition rd_opening : reader Opening :=
  version ← rd_u8;
  if negb ((version =? VERSION) || (version =? VERSION_PREFIX)
           || (version =? VERSION_CHAIN) || (version =? VERSION_ROOTS)) then fail else
  let chain := (version =? VERSION_CHAIN) || (version =? VERSION_ROOTS) in
  response_txid ← rd_hash;
  roots ← (if version =? VERSION_ROOTS then x ← rd_roots; mret (Some x) else mret None);
  n ← rd_u8;
  points ← many (Z.to_nat n) rd_point;
  steps ← (if chain then many (Z.to_nat n) rd_step else mret []);
  prefix ← (if VERSION_PREFIX <=? version then x ← rd_prefix; mret (Some x) else mret None);
  resid ← (if chain then rd_rest rd_resid else mret None);
  mret {| response_txid := response_txid; points := points; prefix := prefix; links := steps.*1;
          experts := steps.*2; resid := resid; roots := roots |}.

(** The body inside a seeded envelope, or [body] itself when unseeded.  The slices are in range
    because [body.get(65)] is. *)
Definition inner_body (body : list byte) : option (list byte) :=
  if bool_decide (u8_of_byte <$> head body = Some VERSION_SEEDED) then
    inner ← get_at body 65;
    if u8_of_byte inner =? VERSION_SEEDED then None
    else Some (inner :: slice body 1 33 ++ drop 66 body)
  else Some body.

(** [Opening::decode]: the recursive call is on a body whose version is not [VERSION_SEEDED], so
    it reads the body. *)
Definition decode (body : list byte) : option Opening :=
  v ← inner_body body; decode_all rd_opening 0 v.

(** [ResidOpening::encode] and [ResidOpening::decode] *)
Definition w_resid_opening (x : ResidOpening) : list byte :=
  w_hash (ro_response_txid x) ++ w_option w_roots (ro_roots x)
  ++ w_resid (ro_resid x) ++ w_feed (ro_feed x) ++ w_option w_expert_row (ro_expert x).

Definition resid_encode (x : ResidOpening) : list byte := w_u8 VERSION_RESID ++ w_resid_opening x.

Definition rd_resid_opening : reader ResidOpening :=
  response_txid ← rd_hash;
  roots ← rd_option rd_roots;
  resid ← rd_resid;
  feed ← rd_feed;
  expert ← rd_option rd_expert_row;
  mret {| ro_response_txid := response_txid; ro_roots := roots; ro_resid := resid;
          ro_feed := feed; ro_expert := expert |}.

(** [if b.first() != Some(&version) { return None }], then the body from offset 1. *)
Definition decode_version {A} (version : Z) (m : reader A) (body : list byte) : option A :=
  if bool_decide (u8_of_byte <$> head body = Some version) then decode_all m 1 body else None.

Definition resid_decode : list byte -> option ResidOpening := decode_version VERSION_RESID rd_resid_opening.

(** [AttnOpening::encode] and [AttnOpening::decode] *)
Definition w_attn_opening (x : AttnOpening) : list byte :=
  w_hash (at_response_txid x) ++ w_hash (at_pos_root x) ++ w_hash (at_seq_root x)
  ++ w_entry (at_layer x) ++ w_entry (at_q_entry x) ++ w_entry (at_o_entry x)
  ++ w_list w_weights (at_norms x) ++ w_hashes (at_pos_path x) ++ w_list w_leaf_chunk (at_q x)
  ++ w_leaf_bytes (at_out x) ++ w_seq_span (at_kcache x) ++ w_seq_span (at_vcache x)
  ++ w_hashes (at_anchor_pos_path x)
  ++ w_list w_leaf_chunk (at_anchor_k x) ++ w_list w_leaf_chunk (at_anchor_v x)
  ++ w_list w_leaf_chunk (at_absorb x)
  ++ w_list w_u64 (at_path x) ++ w_bytes32 (at_parent x) ++ w_hashes (at_parent_path x)
  ++ w_bytes32 (at_partials x) ++ w_seq_span (at_lse x).

Definition attn_encode (x : AttnOpening) : list byte := w_u8 VERSION_ATTN ++ w_attn_opening x.

Definition rd_attn_opening : reader AttnOpening :=
  response_txid ← rd_hash;
  pos_root ← rd_hash;
  seq_root ← rd_hash;
  layer ← rd_entry;
  q_entry ← rd_entry;
  o_entry ← rd_entry;
  norms ← rd_list rd_weights;
  pos_path ← rd_hashes;
  q ← rd_list rd_leaf_chunk;
  out ← rd_leaf_bytes;
  kcache ← rd_seq_span;
  vcache ← rd_seq_span;
  anchor_pos_path ← rd_hashes;
  anchor_k ← rd_list rd_leaf_chunk;
  anchor_v ← rd_list rd_leaf_chunk;
  absorb ← rd_list rd_leaf_chunk;
  path ← rd_list rd_u64;
  parent ← rd_bytes32;
  parent_path ← rd_hashes;
  partials ← rd_bytes32;
  lse ← rd_seq_span;
  mret {| at_response_txid := response_txid; at_pos_root := pos_root; at_seq_root := seq_root;
          at_layer := layer; at_q_entry := q_entry; at_o_entry := o_entry; at_norms := norms;
          at_pos_path := pos_path; at_q := q; at_out := out; at_kcache := kcache;
          at_vcache := vcache; at_anchor_pos_path := anchor_pos_path; at_anchor_k := anchor_k;
          at_anchor_v := anchor_v; at_absorb := absorb; at_path := path; at_parent := parent;
          at_parent_path := parent_path; at_partials := partials; at_lse := lse |}.

Definition attn_decode : list byte -> option AttnOpening := decode_version VERSION_ATTN rd_attn_opening.

(** [RecurOpening::encode] and [RecurOpening::decode] *)
Definition w_recur_opening (x : RecurOpening) : list byte :=
  w_hash (re_response_txid x) ++ w_hash (re_pos_root x) ++ w_hash (re_seq_root x)
  ++ w_entry (re_layer x) ++ w_entry (re_out_entry x) ++ w_entry (re_decay_entry x)
  ++ w_list w_weights (re_weights x)
  ++ w_seq_span (re_records x) ++ w_seq_span (re_start_rows x) ++ w_seq_span (re_end_rows x)
  ++ w_list w_tap (re_taps x)
  ++ w_leaf_chunk (re_beta x) ++ w_leaf_chunk (re_decay x) ++ w_leaf_chunk (re_gate x)
  ++ w_leaf_bytes (re_out x).

Definition recur_encode (x : RecurOpening) : list byte := w_u8 VERSION_RECUR ++ w_recur_opening x.

Definition rd_recur_opening : reader RecurOpening :=
  response_txid ← rd_hash;
  pos_root ← rd_hash;
  seq_root ← rd_hash;
  layer ← rd_entry;
  out_entry ← rd_entry;
  decay_entry ← rd_entry;
  weights ← rd_list rd_weights;
  records ← rd_seq_span;
  start_rows ← rd_seq_span;
  end_rows ← rd_seq_span;
  taps ← rd_list rd_tap;
  beta ← rd_leaf_chunk;
  decay ← rd_leaf_chunk;
  gate ← rd_leaf_chunk;
  out ← rd_leaf_bytes;
  mret {| re_response_txid := response_txid; re_pos_root := pos_root; re_seq_root := seq_root;
          re_layer := layer; re_out_entry := out_entry; re_decay_entry := decay_entry;
          re_weights := weights; re_records := records; re_start_rows := start_rows;
          re_end_rows := end_rows; re_taps := taps; re_beta := beta; re_decay := decay;
          re_gate := gate; re_out := out |}.

Definition recur_decode : list byte -> option RecurOpening :=
  decode_version VERSION_RECUR rd_recur_opening.

(** ** Envelope *)

(** The seed block a seeded opening body names. *)
Definition seed_block (body : list byte) : option Hash :=
  if bool_decide (u8_of_byte <$> head body = Some VERSION_SEEDED) then get_range body 33 65 else None.

(** Whether [body] decodes as a trace, attention, recurrent or residual opening. *)
Definition is_audit_body (body : list byte) : bool :=
  bool_decide (is_Some (decode body))
  || match inner_body body with
     | Some b => bool_decide (is_Some (attn_decode b)) || bool_decide (is_Some (recur_decode b))
                 || bool_decide (is_Some (resid_decode b))
     | None => false
     end.

(** Path of an attention opening body, seeded or not. *)
Definition attn_path (body : list byte) : option (list Z) :=
  b ← inner_body body; at_path <$> attn_decode b.

(** Wraps an unseeded opening body into the seeded envelope naming [seed_block]. *)
Definition seeded (body : list byte) (seed_block : Hash) : option (list byte) :=
  version ← head body;
  let v := u8_of_byte version in
  if negb ((v =? VERSION) || (v =? VERSION_PREFIX) || (v =? VERSION_CHAIN) || (v =? VERSION_ATTN)
           || (v =? VERSION_RECUR) || (v =? VERSION_ROOTS) || (v =? VERSION_RESID))
     || (zlen body <? 33)
  then None
  else Some (byte_of_u8 VERSION_SEEDED :: slice body 1 33 ++ seed_block ++ version :: drop 33 body).

(** ** What the fields can carry *)

Definition bytes16_ok (s : list byte) : Prop := zlen s < 2 ^ 16.
Definition chunks_ok (s : list byte) : Prop := zlen s / 32 < 2 ^ 32 /\ zlen s mod 32 = 0.
Definition entry_ok (e : EntryOpening) : Prop :=
  is_u32 (entry_index e) /\ bytes16_ok (entry_bytes e) /\ hashes_ok (entry_path e).
Definition range_ok (r : ChunkRange) : Prop :=
  is_u64 (range_first_chunk r) /\ chunks_ok (range_chunks r) /\ hashes_ok (range_proof r).
Definition weights_ok (w : Weights) : Prop := entry_ok w.1 /\ range_ok w.2.
Definition leaf_chunk_ok (c : LeafChunk) : Prop :=
  is_u32 (lc_total_len c) /\ is_u32 (lc_index c) /\ bytes_ok (lc_chunk c)
  /\ hashes_ok (lc_chunk_path c) /\ hashes_ok (lc_leaf_path c).
Definition leaf_bytes_ok (l : LeafBytes) : Prop := bytes_ok (lb_bytes l) /\ hashes_ok (lb_leaf_path l).
Definition seq_span_ok (s : SeqSpan) : Prop :=
  is_u32 (span_first_chunk s) /\ bytes_ok (span_bytes s)
  /\ hashes_ok (span_chunk_proof s) /\ hashes_ok (span_leaf_path s).
Definition expert_ids_ok (e : ExpertIds) : Prop := bytes_ok (ids_chunk e) /\ hashes_ok (ids_chunk_path e).
Definition link_ok (l : LinkOpening) : Prop :=
  match l with
  | Link_None => True
  | Link_Norm src norm => leaf_bytes_ok src /\ weights_ok norm
  | Link_Token embd norm => weights_ok embd /\ weights_ok norm
  | Link_Source src y ids => entry_ok src /\ leaf_chunk_ok y /\ option_ok expert_ids_ok ids
  end.
Definition resid_src_ok (s : ResidSrc) : Prop :=
  match s with
  | Src_Chunk c => leaf_chunk_ok c
  | Src_Token e r => entry_ok e /\ range_ok r
  end.
Definition resid_add_ok (a : ResidAdd) : Prop :=
  match a with
  | Add_Chunk c => leaf_chunk_ok c
  | Add_Normed y norm => leaf_bytes_ok y /\ weights_ok norm
  | Add_Moe m =>
      leaf_bytes_ok (scores m) /\ weights_ok (moe_bias m) /\ expert_ids_ok (ids m)
      /\ list_ok leaf_chunk_ok (slots m) /\ leaf_chunk_ok (shexp m) /\ weights_ok (router_row m)
      /\ leaf_bytes_ok (moe_resid m) /\ weights_ok (moe_norm m)
  end.
Definition resid_ok (p : ResidPoint) : Prop :=
  is_u32 (r_n_ubatch p) /\ is_u32 (r_tok p) /\ hashes_ok (r_pos_path p) /\ hashes_ok (r_meta_path p)
  /\ entry_ok (r_layer p) /\ entry_ok (r_product p) /\ leaf_chunk_ok (r_dst p)
  /\ resid_src_ok (r_src p) /\ resid_add_ok (r_add p).
Definition roots_ok (r : Hash * Hash) : Prop := is_hash r.1 /\ is_hash r.2.
Definition point_ok (p : Point) : Prop :=
  is_u32 (p_n_ubatch p) /\ hashes_ok (p_pos_path p) /\ hashes_ok (p_meta_path p) /\ entry_ok (p_entry p)
  /\ option_ok entry_ok (p_partner p) /\ option_ok weights_ok (p_bias p) /\ list_ok range_ok (p_rows p)
  /\ bytes_ok (p_x p) /\ hashes_ok (p_x_path p) /\ is_u32 (p_y_total_len p) /\ is_u32 (p_y_chunk_index p)
  /\ bytes_ok (p_y_chunk p) /\ hashes_ok (p_y_chunk_path p) /\ hashes_ok (p_y_path p).
Definition prefix_ok (p : PrefixPoint) : Prop :=
  is_u32 (pre_n_ubatch p) /\ hashes_ok (pre_pos_path p) /\ hashes_ok (pre_meta_path p)
  /\ entry_ok (pre_entry p) /\ bytes_ok (pre_x p) /\ hashes_ok (pre_x_path p)
  /\ weights_ok (pre_embd p) /\ weights_ok (pre_norm p).
Definition step_ok (s : Z * LinkOpening * option ExpertIds) : Prop :=
  is_u32 s.1.1 /\ link_ok s.1.2 /\ option_ok expert_ids_ok s.2.
Definition tap_ok (t : RecurTap) : Prop :=
  hashes_ok (tap_pos_path t) /\ leaf_chunk_ok (tap_q t) /\ leaf_chunk_ok (tap_k t) /\ leaf_chunk_ok (tap_v t).
Definition feed_ok (f : FeedRow) : Prop :=
  bytes_ok (feed_x f) /\ hashes_ok (feed_x_path f) /\ range_ok (feed_row f)
  /\ option_ok weights_ok (feed_bias f).
Definition expert_row_ok (e : ExpertRow) : Prop :=
  entry_ok (expert_entry e) /\ bytes_ok (expert_x e) /\ hashes_ok (expert_x_path e)
  /\ range_ok (expert_row e).

Definition resid_opening_ok (x : ResidOpening) : Prop :=
  is_hash (ro_response_txid x) /\ option_ok roots_ok (ro_roots x) /\ resid_ok (ro_resid x)
  /\ feed_ok (ro_feed x) /\ option_ok expert_row_ok (ro_expert x).
Definition attn_opening_ok (x : AttnOpening) : Prop :=
  is_hash (at_response_txid x) /\ is_hash (at_pos_root x) /\ is_hash (at_seq_root x)
  /\ entry_ok (at_layer x) /\ entry_ok (at_q_entry x) /\ entry_ok (at_o_entry x)
  /\ list_ok weights_ok (at_norms x) /\ hashes_ok (at_pos_path x) /\ list_ok leaf_chunk_ok (at_q x)
  /\ leaf_bytes_ok (at_out x) /\ seq_span_ok (at_kcache x) /\ seq_span_ok (at_vcache x)
  /\ hashes_ok (at_anchor_pos_path x)
  /\ list_ok leaf_chunk_ok (at_anchor_k x) /\ list_ok leaf_chunk_ok (at_anchor_v x)
  /\ list_ok leaf_chunk_ok (at_absorb x)
  /\ list_ok is_u64 (at_path x) /\ bytes_ok (at_parent x) /\ hashes_ok (at_parent_path x)
  /\ bytes_ok (at_partials x) /\ seq_span_ok (at_lse x).
Definition recur_opening_ok (x : RecurOpening) : Prop :=
  is_hash (re_response_txid x) /\ is_hash (re_pos_root x) /\ is_hash (re_seq_root x)
  /\ entry_ok (re_layer x) /\ entry_ok (re_out_entry x) /\ entry_ok (re_decay_entry x)
  /\ list_ok weights_ok (re_weights x)
  /\ seq_span_ok (re_records x) /\ seq_span_ok (re_start_rows x) /\ seq_span_ok (re_end_rows x)
  /\ list_ok tap_ok (re_taps x)
  /\ leaf_chunk_ok (re_beta x) /\ leaf_chunk_ok (re_decay x) /\ leaf_chunk_ok (re_gate x)
  /\ leaf_bytes_ok (re_out x).

(** A trace opening the format can carry: links and expert ids go with the points, a chain opening
    has a prefix point, and only a chain opening has roots. *)
Definition opening_ok (x : Opening) : Prop :=
  is_hash (response_txid x) /\ list_ok point_ok (points x)
  /\ length (experts x) = length (links x) /\ Forall step_ok (zip (links x) (experts x))
  /\ option_ok prefix_ok (prefix x) /\ option_ok resid_ok (resid x) /\ option_ok roots_ok (roots x)
  /\ (if chain x then length (links x) = length (points x) /\ is_Some (prefix x)
      else roots x = None).

(** ** The codecs of the pieces *)

#[export] Instance bytes16_codec : Codec rd_bytes16 w_bytes16 bytes16_ok.
Proof.
  split; unfold rd_bytes16, w_bytes16.
  - intros x Hx. decode_field; [|apply decodes_rd_take]. pose proof (zlen_nonneg x). by split.
  - consume_field. destruct Hok as [? Hb].
    eapply consumes_mono; [by apply consumes_rd_take|]. intros x w [Hx ->]. subst a. by split.
Qed.

#[export] Instance chunks_codec : Codec rd_chunks w_chunks chunks_ok.
Proof.
  split; unfold rd_chunks, w_chunks, checked_mul.
  - intros x [Hx Hm]. pose proof (zlen_nonneg x).
    decode_field; [split; [apply Z.div_pos; lia|done]|].
    replace (zlen x / 32 * 32) with (zlen x) by dlia.
    destruct (Z.ltb_spec (zlen x) (2 ^ 64)); [|dlia]. apply decodes_rd_take.
  - consume_field. destruct Hok as [? Hb]. destruct (Z.ltb_spec (a * 32) (2 ^ 64)); [|lia].
    change (consumes (rd_take (a * 32)) (fun c w2 => chunks_ok c /\ w_u32 a ++ w2 = w_u32 (zlen c / 32) ++ c)).
    eapply consumes_mono; [by apply consumes_rd_take; lia|]. intros x w [Hx ->].
    unfold chunks_ok. rewrite Hx, Z.div_mul, Z.mod_mul by lia. by repeat split.
Qed.

(** The two halves of a codec whose reader reads the fields in the writer's order. *)
Ltac decode_fields :=
  eapply decodes_eq; [apply app_nil_r|]; rewrite <- ?app_assoc; cbn [app];
  repeat (decode_field; [first [done|assumption]|cbn [Z.eqb Pos.eqb]]); apply decodes_ret.
Ltac decode_record := intros [] Hok; cbv beta;
  repeat match goal with m : MoeAdd |- _ => destruct m | p : (_ * _)%type |- _ => destruct p end;
  cbn in Hok; destruct_and? Hok; decode_fields.
Ltac consume_fields :=
  repeat consume_field; apply consumes_ret; flatten_bytes;
  split_and?; first [exact I|assumption|reflexivity].
Ltac codec_record := split; [decode_record|consume_fields].

(** The same for a tagged union: the tag, then the fields of the variant it selects. *)
Ltac consume_variant := consume_field;
  repeat match goal with |- consumes (if ?t =? ?k then _ else _) _ => destruct (Z.eqb_spec t k) as [->|] end;
  try apply consumes_fail; consume_fields.
Ltac codec_variant := split; [decode_record|consume_variant].

Section PieceCodecs.
#[export] Instance entry_codec : Codec rd_entry w_entry entry_ok.
Proof. unfold rd_entry, w_entry, entry_ok. codec_record. Qed.
#[export] Instance range_codec : Codec rd_range w_range range_ok.
Proof. unfold rd_range, w_range, range_ok. codec_record. Qed.
#[export] Instance weights_codec : Codec rd_weights w_weights weights_ok.
Proof. unfold rd_weights, w_weights, weights_ok. codec_record. Qed.
#[export] Instance leaf_chunk_codec : Codec rd_leaf_chunk w_leaf_chunk leaf_chunk_ok.
Proof. unfold rd_leaf_chunk, w_leaf_chunk, leaf_chunk_ok. codec_record. Qed.
#[export] Instance leaf_bytes_codec : Codec rd_leaf_bytes w_leaf_bytes leaf_bytes_ok.
Proof. unfold rd_leaf_bytes, w_leaf_bytes, leaf_bytes_ok. codec_record. Qed.
#[export] Instance seq_span_codec : Codec rd_seq_span w_seq_span seq_span_ok.
Proof. unfold rd_seq_span, w_seq_span, seq_span_ok. codec_record. Qed.
#[export] Instance expert_ids_codec : Codec rd_expert_ids w_expert_ids expert_ids_ok.
Proof. unfold rd_expert_ids, w_expert_ids, expert_ids_ok. codec_record. Qed.
#[export] Instance link_codec : Codec rd_link w_link link_ok.
Proof. unfold rd_link, w_link, link_ok. codec_variant. Qed.
#[export] Instance resid_src_codec : Codec rd_resid_src w_resid_src resid_src_ok.
Proof. unfold rd_resid_src, w_resid_src, resid_src_ok. codec_variant. Qed.
#[export] Instance resid_add_codec : Codec rd_resid_add w_resid_add resid_add_ok.
Proof. unfold rd_resid_add, w_resid_add, resid_add_ok. codec_variant. Qed.
#[export] Instance resid_codec : Codec rd_resid w_resid resid_ok.
Proof. unfold rd_resid, w_resid, resid_ok. codec_record. Qed.
#[export] Instance roots_codec : Codec rd_roots w_roots roots_ok.
Proof. unfold rd_roots, w_roots, roots_ok. codec_record. Qed.
#[export] Instance prefix_codec : Codec rd_prefix w_prefix prefix_ok.
Proof. unfold rd_prefix, w_prefix, prefix_ok. codec_record. Qed.
#[export] Instance step_codec : Codec rd_step w_step step_ok.
Proof. unfold rd_step, w_step, step_ok. codec_record. Qed.
#[export] Instance tap_codec : Codec rd_tap w_tap tap_ok.
Proof. unfold rd_tap, w_tap, tap_ok. codec_record. Qed.
#[export] Instance feed_codec : Codec rd_feed w_feed feed_ok.
Proof. unfold rd_feed, w_feed, feed_ok. codec_record. Qed.
#[export] Instance expert_row_codec : Codec rd_expert_row w_expert_row expert_row_ok.
Proof. unfold rd_expert_row, w_expert_row, expert_row_ok. codec_record. Qed.
End PieceCodecs.

#[export] Instance point_decodes : Decodes rd_point w_point point_ok.
Proof. unfold rd_point, w_point, point_ok. decode_record. Qed.

#[export] Instance point_sound : Sound rd_point w_point point_ok.
Proof.
  unfold rd_point, Sound. repeat consume_sound. apply consumes_ret. split.
  - unfold point_ok. split_and!; assumption.
  - unfold w_point. rewrite !zlen_app, zlen_nil, Z.add_0_r.
    repeat match goal with H : zlen _ = zlen _ |- _ => rewrite H; clear H end. reflexivity.
Qed.

(** ** Whole bodies *)

Section Opening.
Lemma version_decodes_end {B} (k : Z -> reader B) x v w :
  is_u8 v -> decodes_end (k v) x w -> decodes_end (v ← rd_u8; k v) x (w_u8 v ++ w).
Proof. intros Hv Hk. eapply decodes_end_bind; [by apply (decodes_written v)|done]. Qed.

Lemma steps_zip x : length (experts x) = length (links x) -> steps x = zip (links x) (experts x).
Proof.
  unfold steps. generalize (links x) as l, (experts x) as e. intros l. induction l as [|y l IH]; intros [|z e] H;
    simplify_eq/=; [done..|]. f_equal. rewrite <- IH by done. by apply imap_ext.
Qed.

Lemma zip_fsts {A B} (l : list A) (k : list B) : length k = length l -> (zip l k).*1 = l.
Proof. intros H. apply fst_zip. lia. Qed.
Lemma zip_snds {A B} (l : list A) (k : list B) : length k = length l -> (zip l k).*2 = k.
Proof. intros H. apply snd_zip. lia. Qed.

Lemma some_decodes {A} (m : reader A) w P x : Decodes m w P -> P x ->
  decodes (x ← m; mret (Some x)) (Some x) (w x).
Proof.
  intros D Hx. apply (decodes_eq _ _ (w x ++ [])); [apply app_nil_r|].
  eapply decodes_bind; [by apply D|apply decodes_ret].
Qed.

Lemma w_resid_nonempty p : 0 < zlen (w_resid p).
Proof.
  unfold w_resid. rewrite zlen_app. unfold w_u32 at 1. rewrite zlen_to_le.
  match goal with |- context [zlen ?w] => pose proof (zlen_nonneg w) end. lia.
Qed.

(** Everything after the version and the roots, for a chain and for a plain body. *)
Lemma chain_body_decodes v txid pts p l e r rts : v = VERSION_CHAIN \/ v = VERSION_ROOTS ->
  opening_ok (Build_Opening txid pts (Some p) l e r rts) -> length l = length pts ->
  decodes_end (n ← rd_u8;
    points ← many (Z.to_nat n) rd_point;
    steps ← many (Z.to_nat n) rd_step;
    prefix ← (if VERSION_PREFIX <=? v then x ← rd_prefix; mret (Some x) else mret None);
    resid ← rd_rest rd_resid;
    mret (Build_Opening txid points prefix steps.*1 steps.*2 resid rts))
   (Build_Opening txid pts (Some p) l e r rts)
   (w_list w_point pts ++ mjoin (w_step <$> zip l e) ++ w_prefix p ++ from_option w_resid [] r).
Proof.
  intros Hv (_ & [Hn Hpts] & Hexp & Hsteps & Hpre & Hres & _) Hl. cbn in *.
  pose proof (zlen_nonneg pts). unfold w_list. rewrite <- app_assoc.
  apply version_decodes_end; [by split|].
  unfold zlen at 1 2. rewrite !Nat2Z.id.
  eapply decodes_end_bind; [by apply (many_decodes _ _ point_ok)|].
  assert (length (zip l e) = length pts) as <- by (rewrite length_zip_with; lia).
  eapply decodes_end_bind; [by apply (many_decodes _ _ step_ok)|].
  apply (rd_rest_decodes rd_resid w_resid resid_ok) in Hres; [|apply _|apply w_resid_nonempty].
  replace (VERSION_PREFIX <=? v) with true by (destruct Hv as [-> | ->]; done).
  eapply decodes_end_bind; [by apply (some_decodes _ w_prefix prefix_ok); [apply _|]|].
  eapply (decodes_end_ret _ (fun r => Build_Opening _ _ _ _ _ r _)) in Hres.
  rewrite zip_fsts, zip_snds by done. exact Hres.
Qed.

Lemma rd_opening_decodes x : opening_ok x -> decodes_end rd_opening x (encode x).
Proof.
  intros Hok. destruct x as [txid pts pre l e r rts]. pose proof Hok as (Htx & Hpts & Hexp & _ & Hpre & Hres & Hroots & Hch).
  unfold encode, rd_opening. rewrite steps_zip by done. cbn in *.
  destruct (chain _) eqn:Ec; cbn [andb] in *.
  - destruct Hch as [Hl [p ->]]. destruct rts as [rt|]; cbn [bool_decide is_Some_dec from_option].
    + apply version_decodes_end; [done|]. cbn.
      eapply decodes_end_bind; [by apply (decodes_written (w:=w_hash) txid)|].
      eapply decodes_end_bind; [by apply (some_decodes _ w_roots roots_ok); [apply _|]|].
      apply (chain_body_decodes VERSION_ROOTS); auto.
    + apply version_decodes_end; [done|]. cbn.
      eapply decodes_end_bind; [by apply (decodes_written (w:=w_hash) txid)|].
      eapply decodes_end_eq; [apply app_nil_l|].
      eapply decodes_end_bind; [apply decodes_ret|].
      apply (chain_body_decodes VERSION_CHAIN); auto.
  - subst rts. unfold chain in Ec. cbn in Ec. apply orb_false_iff in Ec as [El Er].
    destruct l; [|by rewrite zlen_cons in El; pose proof (zlen_nonneg l); destruct (Z.eqb_spec (1 + zlen l) 0); [lia|]].
    destruct e; [|done]. rewrite bool_decide_eq_false in Er. destruct r; [by destruct Er|].
    destruct pre as [p|]; cbn [bool_decide is_Some_dec from_option];
      (apply version_decodes_end; [done|]); cbn;
      (eapply decodes_end_bind; [by apply (decodes_written (w:=w_hash) txid)|]);
      (eapply decodes_end_eq; [apply app_nil_l|]);
      (eapply decodes_end_bind; [apply decodes_ret|]);
      unfold w_list; rewrite <- app_assoc; destruct Hpts as [Hn Hpts]; pose proof (zlen_nonneg pts);
      (apply version_decodes_end; [by split|]); unfold zlen at 1; rewrite !Nat2Z.id;
      (eapply decodes_end_bind; [by apply (many_decodes _ _ point_ok)|]);
      (eapply decodes_end_eq; [apply app_nil_l|]);
      (eapply decodes_end_bind; [apply decodes_ret|]); rewrite ?app_nil_r.
    + eapply decodes_end_eq; [apply app_nil_r|].
      eapply decodes_end_bind; [by apply (some_decodes _ w_prefix prefix_ok); [apply _|]|].
      apply decodes_decodes_end. eapply decodes_eq; [apply app_nil_l|].
      eapply decodes_bind; apply decodes_ret.
    + apply decodes_decodes_end. eapply decodes_eq; [apply app_nil_l|].
      eapply decodes_bind; [apply decodes_ret|]. eapply decodes_eq; [apply app_nil_l|].
      eapply decodes_bind; apply decodes_ret.
Qed.

Lemma some_sound {A} (m : reader A) w P : Sound m w P ->
  consumes (x ← m; mret (Some x)) (fun x s => exists y, x = Some y /\ P y /\ zlen s = zlen (w y)).
Proof. intros S. consume_sound. apply consumes_ret. rewrite app_nil_r. eauto. Qed.

Lemma none_sound {A} : consumes (mret (@None A)) (fun x s => x = None /\ s = []).
Proof. by apply consumes_ret. Qed.

Lemma chain_cons x : links x <> [] -> chain x = true.
Proof. intros H. unfold chain. destruct (links x); [done|]. rewrite zlen_cons. pose proof (zlen_nonneg l).
  by destruct (Z.eqb_spec (1 + zlen l) 0); [lia|].
Qed.

(** What the reader of a chain body accepts after the roots. *)
Lemma chain_body_sound v txid rts : v = VERSION_CHAIN \/ v = VERSION_ROOTS ->
  is_hash txid -> option_ok roots_ok rts ->
  consumes (n ← rd_u8;
    points ← many (Z.to_nat n) rd_point;
    steps ← many (Z.to_nat n) rd_step;
    prefix ← (if VERSION_PREFIX <=? v then x ← rd_prefix; mret (Some x) else mret None);
    resid ← rd_rest rd_resid;
    mret (Build_Opening txid points prefix steps.*1 steps.*2 resid rts))
   (fun x s => response_txid x = txid /\ roots x = rts /\ ((chain x = false -> rts = None) -> opening_ok x) /\
      zlen s = zlen (w_list w_point (points x) ++ (if chain x then mjoin (w_step <$> steps x) else [])
                     ++ from_option w_prefix [] (prefix x) ++ from_option w_resid [] (resid x))).
Proof.
  intros Hv Htx Hrt. consume_sound. destruct Hok as [? Hb].
  eapply consumes_bind; [apply (many_sound _ w_point point_ok)|]. intros pts ? (Hn & Hpts & Hl1).
  eapply consumes_bind; [apply (many_sound _ w_step step_ok)|]. intros sts ? (Hn' & Hsts & Hl2).
  replace (VERSION_PREFIX <=? v) with true by (destruct Hv as [-> | ->]; done).
  eapply consumes_bind; [apply (some_sound _ w_prefix prefix_ok), _|]. intros ? ? (p & -> & Hp & Hl3).
  eapply consumes_bind; [apply (rd_rest_sound _ w_resid resid_ok), _|]. intros r ? (Hr & Hl4).
  apply consumes_ret. split; [done|]. split; [done|].
  assert (Hz : zip sts.*1 sts.*2 = sts) by apply zip_fst_snd.
  assert (Hst : steps (Build_Opening txid pts (Some p) sts.*1 sts.*2 r rts) = sts)
    by (rewrite steps_zip by (cbn; by rewrite !length_fmap); exact Hz).
  assert (Ha : zlen pts = a) by (unfold zlen; lia).
  rewrite Hst. split.
  - intros Hroots. unfold opening_ok. cbn [response_txid points prefix links experts resid roots] in *.
    rewrite Hz, !length_fmap. split_and!; try done; [split; [by rewrite Ha|done]|].
    destruct (chain _) eqn:E; [split; [congruence|done]|auto].
  - cbn [points prefix resid from_option]. rewrite !zlen_app, zlen_nil, Hl3, Hl4. unfold w_list.
    rewrite zlen_app, Hl1, Hlen, Ha.
    destruct (chain _) eqn:E; [lia|]. destruct sts; [rewrite Hl2; cbn; lia|by rewrite chain_cons in E].
Qed.

Lemma encode_length x : zlen (encode x)
  = 1 + zlen (response_txid x) + zlen (if chain x then from_option w_roots [] (roots x) else [])
    + zlen (w_list w_point (points x) ++ (if chain x then mjoin (w_step <$> steps x) else [])
            ++ from_option w_prefix [] (prefix x) ++ from_option w_resid [] (resid x)).
Proof. unfold encode, w_hash, w_u8 at 1. cbv zeta. rewrite !(zlen_app _ (_ ++ _)), zlen_to_le. lia. Qed.

(** What the reader of a plain body accepts. *)
Lemma plain_body_sound txid (rp : reader (option PrefixPoint)) : is_hash txid ->
  consumes rp (fun p s => option_ok prefix_ok p /\ zlen s = zlen (from_option w_prefix [] p)) ->
  consumes (n ← rd_u8;
    points ← many (Z.to_nat n) rd_point;
    steps ← mret [];
    prefix ← rp;
    resid ← mret None;
    mret (Build_Opening txid points prefix steps.*1 steps.*2 resid None))
   (fun x s => response_txid x = txid /\ opening_ok x /\ 33 + zlen s = zlen (encode x)).
Proof.
  intros Htx Hrp. consume_sound. destruct Hok as [? Hb].
  eapply consumes_bind; [apply (many_sound _ w_point point_ok)|]. intros pts ? (Hn & Hpts & Hl1).
  eapply consumes_bind; [by apply (consumes_ret [] (fun s w => s = [] /\ w = []))|]. intros ? ? [-> ->].
  eapply consumes_bind; [exact Hrp|]. intros p ? [Hp Hl2].
  eapply consumes_bind; [apply none_sound|]. intros ? ? [-> ->]. apply consumes_ret.
  assert (Ha : zlen pts = a) by (unfold zlen; lia).
  split; [done|]. split.
  - unfold opening_ok. cbn. split_and!; try done. split; [by rewrite Ha|done].
  - assert (zlen txid = 32) by (unfold zlen; by rewrite Htx).
    rewrite encode_length. cbn [chain links resid roots response_txid points prefix from_option].
    change (chain _) with false. cbv iota. rewrite !zlen_app, !zlen_nil, Hl2. unfold w_list.
    rewrite zlen_app, Hl1, Hlen, Ha. lia.
Qed.

Lemma rd_opening_sound : consumes rd_opening (fun x s =>
  (chain x = false -> roots x = None) -> opening_ok x /\ zlen s = zlen (encode x)).
Proof.
  unfold rd_opening. consume_sound. rename a into v.
  destruct (negb _) eqn:Hv; [apply consumes_fail|].
  apply negb_false_iff in Hv. rewrite !orb_true_iff, !Z.eqb_eq in Hv.
  eapply consumes_bind; [apply codec_consumes|]. intros txid ? [Htx ->].
  assert (zlen w1 = 1) by (rewrite Hlen; apply zlen_to_le). clear Hlen.
  assert (zlen (w_hash txid) = 32) by (unfold zlen, w_hash; by rewrite Htx).
  destruct Hv as [[[-> | ->]| ->]| ->].
  - eapply consumes_bind; [apply none_sound|]. intros ? ? [-> ->].
    eapply consumes_mono; [apply (plain_body_sound txid (mret None)); [done|by apply consumes_ret]|].
    intros x s (_ & Hx & Hs) _. rewrite !zlen_app, zlen_nil. split; [done|lia].
  - eapply consumes_bind; [apply none_sound|]. intros ? ? [-> ->].
    eapply consumes_mono; [apply (plain_body_sound txid (x ← rd_prefix; mret (Some x))); [done|]|].
    + eapply consumes_mono; [apply (some_sound _ w_prefix prefix_ok), _|]. by intros ? ? (y & -> & ? & ?).
    + intros x s (_ & Hx & Hs) _. rewrite !zlen_app, zlen_nil. split; [done|lia].
  - eapply consumes_bind; [apply none_sound|]. intros ? ? [-> ->].
    eapply consumes_mono; [by apply (chain_body_sound VERSION_CHAIN txid None); auto|].
    intros x s (Hr & Hrt & Hx & Hs) _. split; [auto|].
    rewrite encode_length, <- Hs, Hr, Hrt, !zlen_app, zlen_nil. unfold w_hash in *.
    destruct (chain x); cbn [from_option]; change (zlen (@nil byte)) with 0; lia.
  - eapply consumes_bind; [apply (some_sound _ w_roots roots_ok), _|]. intros ? ? (rt & -> & Hrt & Hl).
    eapply consumes_mono; [by apply (chain_body_sound VERSION_ROOTS txid (Some rt)); auto|].
    intros x s (Hr & Hrt' & Hx & Hs) Hroots. rewrite Hrt' in Hroots. split; [auto|].
    rewrite encode_length, <- Hs, Hr, Hrt', !zlen_app, Hl. unfold w_hash in *.
    destruct (chain x) eqn:E; [|by specialize (Hroots eq_refl)]. cbn [from_option]. lia.
Qed.
End Opening.

(** A body read after its version byte. *)
Lemma w_u8_byte v : w_u8 v = [byte_of_u8 v].
Proof. reflexivity. Qed.

Lemma head_w_u8 v w : is_u8 v -> u8_of_byte <$> head (w_u8 v ++ w) = Some v.
Proof. intros Hv. rewrite w_u8_byte. cbn. f_equal. by apply u8_of_byte_of_u8. Qed.

Lemma head_u8 body v : u8_of_byte <$> head body = Some v -> take 1 body = w_u8 v.
Proof.
  destruct body as [|c body]; intros [= <-]. rewrite w_u8_byte. by rewrite byte_of_u8_of_byte.
Qed.

Section Versioned.
Context {A} (m : reader A) (w : A -> list byte) (P : A -> Prop) {C : Codec m w P}.

Lemma decode_version_codec v body x : is_u8 v -> zlen body < 2 ^ 64 ->
  decode_version v m body = Some x <-> P x /\ body = w_u8 v ++ w x.
Proof.
  intros Hv Hb. unfold decode_version. split.
  - case_bool_decide as Hh; [|done]. intros Hd.
    assert (1 <= zlen body).
    { destruct body as [|c t]; [done|]. rewrite zlen_cons. pose proof (zlen_nonneg t). lia. }
    eapply decode_all_read in Hd as (s & HQ & E); [|apply codec_consumes|lia..].
    cbv beta in HQ. destruct HQ as [HP ->].
    split; [done|]. rewrite E. f_equal. by apply head_u8.
  - intros [HP ->]. rewrite bool_decide_true by (by apply head_w_u8).
    change 1 with (zlen (w_u8 v)). apply decode_all_written; [|done].
    by apply decodes_decodes_end, codec_decodes.
Qed.
End Versioned.

#[export] Instance resid_opening_codec : Codec rd_resid_opening w_resid_opening resid_opening_ok.
Proof. unfold rd_resid_opening, w_resid_opening, resid_opening_ok. codec_record. Qed.
#[export] Instance attn_opening_codec : Codec rd_attn_opening w_attn_opening attn_opening_ok.
Proof. unfold rd_attn_opening, w_attn_opening, attn_opening_ok. codec_record. Qed.
#[export] Instance recur_opening_codec : Codec rd_recur_opening w_recur_opening recur_opening_ok.
Proof. unfold rd_recur_opening, w_recur_opening, recur_opening_ok. codec_record. Qed.

(** ** Properties *)

Section Properties.
Lemma encode_version x : exists v w, is_u8 v /\ v <> VERSION_SEEDED /\ encode x = w_u8 v ++ w.
Proof.
  unfold encode. eexists _, _. split; [|split; [|reflexivity]];
    destruct (chain x), (bool_decide (is_Some (roots x))), (bool_decide (is_Some (prefix x))); done.
Qed.

Lemma inner_body_plain v w : is_u8 v -> v <> VERSION_SEEDED ->
  inner_body (w_u8 v ++ w) = Some (w_u8 v ++ w).
Proof.
  intros Hv Hne. unfold inner_body. rewrite head_w_u8 by done.
  rewrite bool_decide_false; [done|congruence].
Qed.

Lemma decode_encode x : opening_ok x -> zlen (encode x) < 2 ^ 64 -> decode (encode x) = Some x.
Proof.
  intros Hx Hl. unfold decode. destruct (encode_version x) as (v & w & Hv & Hne & E).
  assert (inner_body (encode x) = Some (encode x)) as -> by (rewrite E; by apply inner_body_plain).
  apply (decode_all_written rd_opening x []); [by apply rd_opening_decodes|done].
Qed.

Lemma inner_body_length body v : inner_body body = Some v -> zlen v <= zlen body.
Proof.
  unfold inner_body. case_bool_decide; [|intros; simplify_eq; lia].
  destruct (get_at body 65) as [c|] eqn:E; [|done]. cbn. apply get_at_Some_lt in E.
  destruct (_ =? _); [done|]. intros [= <-]. rewrite zlen_cons, zlen_app, zlen_slice by lia.
  unfold zlen in *. rewrite length_drop. lia.
Qed.


(** C40: The side codecs are exact.  The attention, recurrent and residual decoders accept a body as an
    opening if and only if their format can carry the opening and the body is its encoding, so no
    opening has two encodings and trailing bytes are never accepted. *)
Theorem side_codecs_exact (body : list byte) : zlen body < 2 ^ 64 ->
  (forall x, attn_decode body = Some x <-> attn_opening_ok x /\ body = attn_encode x)
  /\ (forall x, recur_decode body = Some x <-> recur_opening_ok x /\ body = recur_encode x)
  /\ (forall x, resid_decode body = Some x <-> resid_opening_ok x /\ body = resid_encode x).
Proof.
  intros. split_and!; intros x.
  - by refine (decode_version_codec _ w_attn_opening attn_opening_ok VERSION_ATTN _ _ _ _).
  - by refine (decode_version_codec _ w_recur_opening recur_opening_ok VERSION_RECUR _ _ _ _).
  - by refine (decode_version_codec _ w_resid_opening resid_opening_ok VERSION_RESID _ _ _ _).
Qed.

(** Positions inside the envelope: a version byte, a 32-byte response id, the rest. *)
Lemma envelope_parts c w : 33 <= zlen (c :: w) -> exists a t, is_hash a /\ w = a ++ t.
Proof.
  intros Hl. rewrite zlen_cons in Hl. exists (take 32 w), (drop 32 w). rewrite take_drop.
  split; [|done]. unfold is_hash. rewrite length_take. unfold zlen in Hl. lia.
Qed.

Lemma slice_header (c : byte) a t : is_hash a -> slice (c :: a ++ t) 1 33 = a.
Proof.
  intros Ha. unfold slice. change (Z.to_nat 1) with 1%nat. change (Z.to_nat (33 - 1)) with 32%nat.
  change (drop 1 (c :: a ++ t)) with (a ++ t). by rewrite take_app_length'.
Qed.

Lemma drop_header (c : byte) a t : is_hash a -> drop 33 (c :: a ++ t) = t.
Proof. intros Ha. change (drop 33 (c :: a ++ t)) with (drop 32 (a ++ t)). by rewrite drop_app_length'. Qed.

Lemma envelope_version c a sb d t : is_hash a -> is_hash sb ->
  get_at (c :: a ++ sb ++ d :: t) 65 = Some d.
Proof.
  unfold is_hash. intros Ha Hsb. unfold get_at. change (0 <=? 65) with true. cbv iota.
  change (Z.to_nat 65) with (S (32 + (32 + 0))). rewrite lookup_cons.
  rewrite lookup_app_r by lia. rewrite Ha. replace (32 + (32 + 0) - 32)%nat with 32%nat by lia.
  rewrite lookup_app_r by lia. by rewrite Hsb.
Qed.

(** The seeded envelope is transparent.  Whatever body [seeded] wraps, the envelope names the seed
    block it was given, its inner body is the body wrapped, and every reader of audit bodies
    gives the same answer on both. *)
Theorem seeded_transparent (body v : list byte) (sb : Hash) :
  is_hash sb -> seeded body sb = Some v ->
  seed_block v = Some sb /\ inner_body v = Some body /\ seed_block body = None
  /\ decode v = decode body /\ is_audit_body v = is_audit_body body /\ attn_path v = attn_path body.
Proof.
  intros Hsb Hs. unfold seeded in Hs. destruct body as [|c body]; [done|]. cbn [head mbind option_bind] in Hs.
  destruct (negb _) eqn:Hv; [done|]. destruct (Z.ltb_spec (zlen (c :: body)) 33) as [|Hl]; [done|].
  cbn [orb] in Hs. apply negb_false_iff in Hv. rewrite !orb_true_iff, !Z.eqb_eq in Hv.
  assert (Hne : u8_of_byte c <> VERSION_SEEDED)
    by (destruct Hv as [[[[[[-> | ->]| ->]| ->]| ->]| ->]| ->]; done).
  assert (Hplain : inner_body (c :: body) = Some (c :: body)).
  { unfold inner_body. rewrite bool_decide_false; [done|]. cbn. congruence. }
  destruct (envelope_parts c body Hl) as (a & t & Ha & Hcb). rewrite Hcb in Hs, Hplain |- *.
  rewrite slice_header, drop_header in Hs by done. injection Hs as <-.
  assert (Hin : inner_body (byte_of_u8 VERSION_SEEDED :: a ++ sb ++ c :: t) = Some (c :: a ++ t)).
  { unfold inner_body. rewrite bool_decide_true by done. rewrite envelope_version by done.
    cbn [mbind option_bind]. destruct (Z.eqb_spec (u8_of_byte c) VERSION_SEEDED); [done|].
    rewrite slice_header by done. do 3 f_equal.
    change (drop 66 ?l) with (drop (32 + (32 + 1)) (tail l)).
    rewrite <- drop_drop. cbn [tail]. rewrite drop_app_length' by done. rewrite <- drop_drop.
    by rewrite drop_app_length'. }
  split_and!; [|done|..].
  - unfold seed_block. rewrite bool_decide_true by done. apply get_range_Some.
    rewrite zlen_cons, !zlen_app, zlen_cons. unfold is_hash, zlen, slice in *. rewrite Ha, Hsb.
    split; [lia|]. split; [lia|]. change (Z.to_nat (65 - 33)) with 32%nat.
    change (drop (Z.to_nat 33) ?l) with (drop 32 (tail l)). cbn [tail]. by rewrite drop_app_length', take_app_length'.
  - unfold seed_block. rewrite bool_decide_false; [done|]. cbn. congruence.
  - unfold decode. by rewrite Hin, Hplain.
  - unfold is_audit_body, decode. by rewrite Hin, Hplain.
  - unfold attn_path. by rewrite Hin, Hplain.
Qed.

(** Splitting a signed payload.  [split] accepts exactly the payloads whose body is 34 bytes to
    112 KiB long, and cuts them into that body, the 32-byte key and the 64-byte signature. *)
Theorem split_payload_spec (payload : list byte) (p : SignedPayload) :
  split_payload payload = Some p <->
  payload = signed_body p ++ escrow_pubkey p ++ signature p
  /\ zlen (escrow_pubkey p) = 32 /\ zlen (signature p) = 64
  /\ 34 <= zlen (signed_body p) <= MAX_BODY_LEN.
Proof.
  unfold split_payload, MIN_PAYLOAD_LEN, MAX_PAYLOAD_LEN, SIGNATURE_LEN, MAX_BODY_LEN. split.
  - destruct (Z.ltb_spec (zlen payload) (1 + 32 + 1 + (32 + 64))); [done|].
    destruct (Z.ltb_spec (112 * 1024 + (32 + 64)) (zlen payload)); [done|]. intros [= <-].
    cbn [signed_body escrow_pubkey signature]. rewrite !zlen_slice by lia.
    split_and!; [|lia..]. rewrite slice_slice_app by lia. rewrite slice_slice_app by lia.
    unfold slice, zlen. change (Z.to_nat 0) with 0%nat. rewrite drop_0, take_ge by lia. done.
  - destruct p as [bd pk sg]. cbn [signed_body escrow_pubkey signature]. intros (-> & Hpk & Hsg & Hb).
    rewrite !zlen_app, Hpk, Hsg.
    destruct (Z.ltb_spec (zlen bd + (32 + 64)) (1 + 32 + 1 + (32 + 64))); [lia|].
    destruct (Z.ltb_spec (112 * 1024 + (32 + 64)) (zlen bd + (32 + 64))); [lia|]. cbn [orb].
    replace (zlen bd + (32 + 64) - (32 + 64)) with (zlen bd) by lia.
    do 2 f_equal.
    + exact (slice_app_mid [] bd (pk ++ sg)).
    + rewrite <- Hpk. apply slice_app_mid.
    + rewrite <- Hpk, <- zlen_app, app_assoc, <- (app_nil_r sg) at 1.
      replace (zlen bd + (32 + 64)) with (zlen (bd ++ pk) + zlen sg) by (rewrite zlen_app; lia).
      apply slice_app_mid.
Qed.
End Properties.

(** ** Concrete bodies *)

Section Decisions.
#[export] Instance bytes16_ok_dec x : Decision (bytes16_ok x).
Proof. unfold bytes16_ok; apply _. Defined.
#[export] Instance chunks_ok_dec x : Decision (chunks_ok x).
Proof. unfold chunks_ok; apply _. Defined.
#[export] Instance entry_ok_dec x : Decision (entry_ok x).
Proof. unfold entry_ok; apply _. Defined.
#[export] Instance range_ok_dec x : Decision (range_ok x).
Proof. unfold range_ok; apply _. Defined.
#[export] Instance weights_ok_dec x : Decision (weights_ok x).
Proof. unfold weights_ok; apply _. Defined.
#[export] Instance leaf_chunk_ok_dec x : Decision (leaf_chunk_ok x).
Proof. unfold leaf_chunk_ok; apply _. Defined.
#[export] Instance leaf_bytes_ok_dec x : Decision (leaf_bytes_ok x).
Proof. unfold leaf_bytes_ok; apply _. Defined.
#[export] Instance seq_span_ok_dec x : Decision (seq_span_ok x).
Proof. unfold seq_span_ok; apply _. Defined.
#[export] Instance expert_ids_ok_dec x : Decision (expert_ids_ok x).
Proof. unfold expert_ids_ok; apply _. Defined.
#[export] Instance link_ok_dec x : Decision (link_ok x).
Proof. destruct x; unfold link_ok; apply _. Defined.
#[export] Instance resid_src_ok_dec x : Decision (resid_src_ok x).
Proof. destruct x; unfold resid_src_ok; apply _. Defined.
#[export] Instance resid_add_ok_dec x : Decision (resid_add_ok x).
Proof. destruct x; unfold resid_add_ok; apply _. Defined.
#[export] Instance resid_ok_dec x : Decision (resid_ok x).
Proof. unfold resid_ok; apply _. Defined.
#[export] Instance roots_ok_dec x : Decision (roots_ok x).
Proof. unfold roots_ok; apply _. Defined.
#[export] Instance point_ok_dec x : Decision (point_ok x).
Proof. unfold point_ok; apply _. Defined.
#[export] Instance prefix_ok_dec x : Decision (prefix_ok x).
Proof. unfold prefix_ok; apply _. Defined.
#[export] Instance step_ok_dec x : Decision (step_ok x).
Proof. unfold step_ok; apply _. Defined.
#[export] Instance tap_ok_dec x : Decision (tap_ok x).
Proof. unfold tap_ok; apply _. Defined.
#[export] Instance feed_ok_dec x : Decision (feed_ok x).
Proof. unfold feed_ok; apply _. Defined.
#[export] Instance expert_row_ok_dec x : Decision (expert_row_ok x).
Proof. unfold expert_row_ok; apply _. Defined.
#[export] Instance resid_opening_ok_dec x : Decision (resid_opening_ok x).
Proof. unfold resid_opening_ok; apply _. Defined.
#[export] Instance attn_opening_ok_dec x : Decision (attn_opening_ok x).
Proof. unfold attn_opening_ok; apply _. Defined.
#[export] Instance recur_opening_ok_dec x : Decision (recur_opening_ok x).
Proof. unfold recur_opening_ok; apply _. Defined.
#[export] Instance opening_ok_dec x : Decision (opening_ok x).
Proof. unfold opening_ok; destruct (chain x); apply _. Defined.
End Decisions.

Module Sample.
Definition h (i : Z) : Hash := to_le 32 (i * 7 + 1).
Definition bs (n : Z) : list byte := to_le (Z.to_nat n) 12345.
Definition entry : EntryOpening := {| entry_index := 3; entry_bytes := bs 40; entry_path := [h 1; h 2] |}.
Definition range : ChunkRange := {| range_first_chunk := 9; range_chunks := bs 64; range_proof := [h 3] |}.
Definition lchunk : LeafChunk :=
  {| lc_total_len := 2000; lc_index := 1; lc_chunk := bs 5; lc_chunk_path := [h 4]; lc_leaf_path := [] |}.
Definition lbytes : LeafBytes := {| lb_bytes := bs 6; lb_leaf_path := [h 5] |}.
Definition span : SeqSpan :=
  {| span_first_chunk := 0; span_bytes := bs 8; span_chunk_proof := []; span_leaf_path := [h 6] |}.
Definition eids : ExpertIds := {| ids_chunk := bs 4; ids_chunk_path := [h 7] |}.
Definition point (partner : option EntryOpening) : Point :=
  {| p_n_ubatch := 2; p_pos_path := [h 1]; p_meta_path := []; p_entry := entry; p_partner := partner;
     p_bias := Some (entry, range); p_rows := [range; range]; p_x := bs 7; p_x_path := [h 8];
     p_y_total_len := 100; p_y_chunk_index := 0; p_y_chunk := bs 9; p_y_chunk_path := []; p_y_path := [h 9] |}.
Definition moe : MoeAdd :=
  {| scores := lbytes; moe_bias := (entry, range); ids := eids; slots := [lchunk; lchunk]; shexp := lchunk;
     router_row := (entry, range); moe_resid := lbytes; moe_norm := (entry, range) |}.
Definition resid_point : ResidPoint :=
  {| r_n_ubatch := 1; r_tok := 2; r_pos_path := []; r_meta_path := [h 2]; r_layer := entry; r_product := entry;
     r_dst := lchunk; r_src := Src_Token entry range; r_add := Add_Moe moe |}.
Definition prefix_point : PrefixPoint :=
  {| pre_n_ubatch := 1; pre_pos_path := [h 1]; pre_meta_path := []; pre_entry := entry; pre_x := bs 3;
     pre_x_path := []; pre_embd := (entry, range); pre_norm := (entry, range) |}.
Definition opening : Opening :=
  {| response_txid := h 0; points := [point (Some entry); point None]; prefix := Some prefix_point;
     links := [(7, Link_Source entry lchunk (Some eids)); (8, Link_Norm lbytes (entry, range))];
     experts := [None; Some eids]; resid := Some resid_point; roots := Some (h 10, h 11) |}.
Definition attn : AttnOpening :=
  {| at_response_txid := h 0; at_pos_root := h 1; at_seq_root := h 2; at_layer := entry; at_q_entry := entry;
     at_o_entry := entry; at_norms := [(entry, range)]; at_pos_path := [h 3]; at_q := [lchunk]; at_out := lbytes;
     at_kcache := span; at_vcache := span; at_anchor_pos_path := []; at_anchor_k := [lchunk]; at_anchor_v := [];
     at_absorb := []; at_path := [4; 0]; at_parent := bs 4; at_parent_path := [h 4]; at_partials := bs 2;
     at_lse := span |}.
Definition recur : RecurOpening :=
  {| re_response_txid := h 0; re_pos_root := h 1; re_seq_root := h 2; re_layer := entry; re_out_entry := entry;
     re_decay_entry := entry; re_weights := [(entry, range)]; re_records := span; re_start_rows := span;
     re_end_rows := span;
     re_taps := [{| tap_pos_path := []; tap_q := lchunk; tap_k := lchunk; tap_v := lchunk |}];
     re_beta := lchunk; re_decay := lchunk; re_gate := lchunk; re_out := lbytes |}.
Definition resid_opening : ResidOpening :=
  {| ro_response_txid := h 0; ro_roots := Some (h 1, h 2); ro_resid := resid_point;
     ro_feed := {| feed_x := bs 3; feed_x_path := [h 3]; feed_row := range; feed_bias := None |};
     ro_expert := Some {| expert_entry := entry; expert_x := bs 2; expert_x_path := []; expert_row := range |} |}.
Definition plain : Opening :=
  {| response_txid := h 0; points := [point None]; prefix := None; links := []; experts := [];
     resid := None; roots := None |}.
End Sample.

Section Witnesses.
Import Sample.


Lemma side_codecs_exact_witness : attn_decode (attn_encode attn) = Some attn /\ recur_decode (attn_encode attn) <> Some recur.
Proof.
  split; [apply side_codecs_exact; evaluate|].
  intros H. apply side_codecs_exact in H as [_ H]; [|evaluate]. vm_compute in H. discriminate.
Defined.

Definition envelope : list byte :=
  match seeded (attn_encode attn) (h 99) with Some v => v | None => [] end.

Lemma seeded_transparent_witness :
  seed_block envelope = Some (h 99) /\ inner_body envelope = Some (attn_encode attn)
  /\ seed_block (attn_encode attn) = None
  /\ decode envelope = decode (attn_encode attn)
  /\ is_audit_body envelope = is_audit_body (attn_encode attn)
  /\ attn_path envelope = attn_path (attn_encode attn).
Proof. apply seeded_transparent; [evaluate|vm_compute; reflexivity]. Defined.
End Witnesses.

(** [Opening::decode] reads any flag but 1 before the partner and the bias as absent, where every other
    optional field of the format rejects a flag that is neither 0 nor 1: this body is not an
    encoding, and decodes. *)
Example opening_flag_not_canonical :
  let body := <[183%nat := byte_of_u8 7]> (encode Sample.plain) in
  body <> encode Sample.plain /\ decode body = Some Sample.plain.
Proof. split; [intros E; vm_compute in E; discriminate|vm_compute; reflexivity]. Qed.
