(* ===== verification/Escrow.v ===== *)
(** * Escrow claims ([src/escrow.rs])

    The watcher tracks the escrow outputs a miner is paid, waits for their CSV
    window, batches the mature ones into claim transactions, and settles each
    claim when the node answers.  The state machine is one record; a method of
    [EscrowWatcher] is a function on it.  Outpoints are pairs (the code keys its
    sets by the injective rendering ["{txid}:{index}"]).  Logging, runtime gauges
    and the clock are not modelled: [maybe_flush] takes whether the save interval
    has elapsed.  Signing, hashing and hex are third-party code, the methods of
    the class [Crates]; the activation score of the service-bond window is a
    network parameter. *)
From S2P Require Import Prelude.
From stdpp Require Import gmap strings.
#[local] Open Scope Z_scope.

Definition CHALLENGE_WINDOW_BLOCKS : Z := 36000.
Definition SERVICE_BOND_CSV_WINDOW_BLOCKS : Z := 792000.
Definition CLAIM_FEE_SOMPI : Z := 30000000.
Definition OP_CSV : Z := 0xb1.
Definition OP_CHECKSIG : Z := 0xac.
Definition SIG_HASH_ALL : Z := 0x01.
Definition COMPACT_EVERY_BLOCKS : Z := 2000.
Definition MAX_CLAIM_BATCH : Z := 87.
Definition MIN_CLAIM_BATCH : Z := MAX_CLAIM_BATCH.
Definition CAP_EXPIRY_DAA : Z := 36000.
Definition MAX_IN_FLIGHT_CLAIMS : Z := 4.
Definition CLAIM_RESPONSE_TIMEOUT_DAA : Z := 600.
Definition UNKNOWN_RETRY_BASE_COOLDOWN_DAA : Z := 100.
Definition UNKNOWN_RETRY_MAX_COOLDOWN_DAA : Z := 50000.
Definition ORPHAN_RETRY_COOLDOWN_BLOCKS : Z := 100.
Definition SEQ_LOCK_RETRY_COOLDOWN_BLOCKS : Z := 20.
Definition MAX_ORPHAN_RETRIES : Z := 10.

Abbreviation Outpoint := (string * Z)%type.

Record EscrowEntry := {
  coinbase_txid : string;
  block_hash : string;
  confirm_daa : Z;
  amount_sompi : Z;
  output_index : Z;
  claimed : bool;
  slashed : bool;
  orphan_slashed : bool;
  orphan_retries : Z;
  orphan_retry_after_daa : option Z;
  submit_retries : Z;
  batch_cap : Z;
  cap_set_daa : Z;
  is_inference : bool;
  csv_window : Z;
}.

Definition outpoint (e : EscrowEntry) : Outpoint := (coinbase_txid e, output_index e).

(** The entries the watcher creates: nothing has happened to them yet. *)
Definition new_entry (txid hash : string) (daa amount index window : Z) (inference : bool) : EscrowEntry :=
  {| coinbase_txid := txid; block_hash := hash; confirm_daa := daa; amount_sompi := amount;
     output_index := index; claimed := false; slashed := false; orphan_slashed := false;
     orphan_retries := 0; orphan_retry_after_daa := None; submit_retries := 0; batch_cap := 0;
     cap_set_daa := 0; is_inference := inference; csv_window := window |}.

(** Field updates. *)
Definition set_claimed (e : EscrowEntry) : EscrowEntry :=
  {| coinbase_txid := coinbase_txid e; block_hash := block_hash e; confirm_daa := confirm_daa e;
     amount_sompi := amount_sompi e; output_index := output_index e; claimed := true;
     slashed := slashed e; orphan_slashed := orphan_slashed e; orphan_retries := orphan_retries e;
     orphan_retry_after_daa := orphan_retry_after_daa e; submit_retries := submit_retries e;
     batch_cap := batch_cap e; cap_set_daa := cap_set_daa e; is_inference := is_inference e;
     csv_window := csv_window e |}.
Definition set_slashed (e : EscrowEntry) : EscrowEntry :=
  {| coinbase_txid := coinbase_txid e; block_hash := block_hash e; confirm_daa := confirm_daa e;
     amount_sompi := amount_sompi e; output_index := output_index e; claimed := claimed e;
     slashed := true; orphan_slashed := orphan_slashed e; orphan_retries := orphan_retries e;
     orphan_retry_after_daa := orphan_retry_after_daa e; submit_retries := submit_retries e;
     batch_cap := batch_cap e; cap_set_daa := cap_set_daa e; is_inference := is_inference e;
     csv_window := csv_window e |}.
Definition set_orphan (dead : bool) (retries : Z) (after : option Z) (e : EscrowEntry) : EscrowEntry :=
  {| coinbase_txid := coinbase_txid e; block_hash := block_hash e; confirm_daa := confirm_daa e;
     amount_sompi := amount_sompi e; output_index := output_index e; claimed := claimed e;
     slashed := slashed e; orphan_slashed := dead; orphan_retries := retries;
     orphan_retry_after_daa := after; submit_retries := submit_retries e;
     batch_cap := batch_cap e; cap_set_daa := cap_set_daa e; is_inference := is_inference e;
     csv_window := csv_window e |}.
Definition set_cap (cap set_daa : Z) (e : EscrowEntry) : EscrowEntry :=
  {| coinbase_txid := coinbase_txid e; block_hash := block_hash e; confirm_daa := confirm_daa e;
     amount_sompi := amount_sompi e; output_index := output_index e; claimed := claimed e;
     slashed := slashed e; orphan_slashed := orphan_slashed e; orphan_retries := orphan_retries e;
     orphan_retry_after_daa := orphan_retry_after_daa e; submit_retries := submit_retries e;
     batch_cap := cap; cap_set_daa := set_daa; is_inference := is_inference e;
     csv_window := csv_window e |}.
Definition set_submit_retries (n : Z) (e : EscrowEntry) : EscrowEntry :=
  {| coinbase_txid := coinbase_txid e; block_hash := block_hash e; confirm_daa := confirm_daa e;
     amount_sompi := amount_sompi e; output_index := output_index e; claimed := claimed e;
     slashed := slashed e; orphan_slashed := orphan_slashed e; orphan_retries := orphan_retries e;
     orphan_retry_after_daa := orphan_retry_after_daa e; submit_retries := n;
     batch_cap := batch_cap e; cap_set_daa := cap_set_daa e; is_inference := is_inference e;
     csv_window := csv_window e |}.

(** Third-party code and network parameters. *)
Class Crates := {
  pom_v3_activation_daa : Z;
  (** [hex::encode], [hex::decode] *)
  hex_encode : list byte -> string;
  hex_decode : string -> option (list byte);
  (** [blake2b_simd], 32-byte output, keyed *)
  blake2b_256 : list byte -> list byte -> list byte;
  (** [sign_schnorr_no_aux_rand] *)
  schnorr_sign : list byte -> list byte -> list byte;
}.

(** ** Batch selection *)

Section Selection.
Context `{C : Crates}.

Definition csv_window_for_daa (daa : Z) : Z :=
  if pom_v3_activation_daa <=? daa then SERVICE_BOND_CSV_WINDOW_BLOCKS else CHALLENGE_WINDOW_BLOCKS.

(** [sort_unstable_by_key(|&w| (w != current, w))]: the key determines the element. *)
Definition window_before (current a b : Z) : bool :=
  if a =? current then true else if b =? current then false else a <=? b.
Fixpoint insert_window (current w : Z) (l : list Z) : list Z :=
  match l with
  | [] => [w]
  | x :: l' => if window_before current w x then w :: l else x :: insert_window current w l'
  end.
Definition sort_windows (current : Z) (l : list Z) : list Z := foldr (insert_window current) [] l.
(** [Vec::dedup] *)
Fixpoint dedup (l : list Z) : list Z :=
  match l with
  | a :: (b :: _) as t => if a =? b then dedup t else a :: dedup t
  | _ => l
  end.

Definition candidates (entries : list EscrowEntry) (current : Z) : list (Z * option Z) :=
  ((fun w => (0, Some w)) <$> dedup (sort_windows current (csv_window <$> entries)))
  ++ [(1, None); (2, None); (3, None)].

Definition in_pass (pass current : Z) (e : EscrowEntry) : bool :=
  if pass =? 0 then (batch_cap e =? 0) && negb (orphan_slashed e)
  else if pass =? 1 then negb (batch_cap e =? 0) && negb (orphan_slashed e)
  else if pass =? 2 then (batch_cap e =? 0) && negb (orphan_slashed e) && negb (csv_window e =? current)
  else orphan_slashed e.

Definition mature (daa : Z) (e : EscrowEntry) : bool := wrap 64 (confirm_daa e + csv_window e + 10) <=? daa.

Definition eligible (daa : Z) (in_flight : gset Outpoint) (e : EscrowEntry) : bool :=
  negb (claimed e) && negb (slashed e) && mature daa e
  && match orphan_retry_after_daa e with Some retry => retry <=? daa | None => true end
  && negb (bool_decide (outpoint e ∈ in_flight)).

Definition cap_of (e : EscrowEntry) : Z :=
  if batch_cap e =? 0 then MAX_CLAIM_BATCH else Z.min (batch_cap e) MAX_CLAIM_BATCH.

(** The [for &i in &indices] loop of one candidate, [batch] so far. *)
Fixpoint fill (entries : list EscrowEntry) (daa current : Z) (in_flight : gset Outpoint) (pass : Z)
  (indices : list nat) (limit : Z) (window : option Z) (batch : list nat) : list nat :=
  match indices with
  | [] => batch
  | i :: indices =>
    match entries !! i with
    | None => fill entries daa current in_flight pass indices limit window batch
    | Some e =>
      if negb (in_pass pass current e) || negb (eligible daa in_flight e)
         || match window with Some w => negb (w =? csv_window e) | None => false end
         || (Z.min (cap_of e) limit <? zlen batch + 1)
      then fill entries daa current in_flight pass indices limit window batch
      else
        let limit := Z.min limit (cap_of e) in
        let batch := batch ++ [i] in
        if limit <=? zlen batch then batch
        else fill entries daa current in_flight pass indices limit (Some (csv_window e)) batch
    end
  end.

(** Queue order; the nominal pass takes inference entries first (a stable sort on a flag). *)
Definition pass_indices (entries : list EscrowEntry) (pass : Z) : list nat :=
  let all := seq 0 (length entries) in
  let inference i := match entries !! i with Some e => is_inference e | None => false end in
  if pass =? 0 then filter (fun i => inference i = true) all ++ filter (fun i => inference i = false) all
  else all.

Definition candidate_batch (entries : list EscrowEntry) (daa : Z) (in_flight : gset Outpoint)
  (c : Z * option Z) : list nat :=
  fill entries daa (csv_window_for_daa daa) in_flight c.1 (pass_indices entries c.1) MAX_CLAIM_BATCH c.2 [].

Definition releasable (pass : Z) (batch : list nat) : bool :=
  if pass =? 0 then MIN_CLAIM_BATCH <=? zlen batch else negb (zlen batch =? 0).

Fixpoint first_releasable (entries : list EscrowEntry) (daa : Z) (in_flight : gset Outpoint)
  (cs : list (Z * option Z)) : list nat :=
  match cs with
  | [] => []
  | c :: cs =>
    let batch := candidate_batch entries daa in_flight c in
    if releasable c.1 batch then batch else first_releasable entries daa in_flight cs
  end.

Definition select_claim_batch (entries : list EscrowEntry) (daa_score : Z) (in_flight : gset Outpoint)
  : list nat :=
  first_releasable entries daa_score in_flight (candidates entries (csv_window_for_daa daa_score)).
End Selection.

(** ** Claim transactions *)

Record ClaimInput := { previous_txid : string; previous_index : Z; signature_script : string; sequence : Z }.
Record ClaimTx := {
  inputs : list ClaimInput;
  output_amount : Z;
  output_version : Z;
  output_script : string;
}.

(** The watcher's constant fields. *)
Record Keys := {
  secret_key : list byte;
  pubkey_bytes : list byte;
  escrow_script_hex : string;
  escrow_script_bonded_hex : string;
  payout_spk_version : Z;
  payout_spk_script : list byte;
  payout_spk_script_hex : string;
}.

Record SighashReused := {
  prev_out_hash : list byte;
  seqs_hash : list byte;
  sigops_hash : list byte;
  outs_hash : list byte;
}.

(** A byte string literal. *)
Definition lit (s : string) : list byte := String.list_byte_of_string s.

Section Claims.
Context `{C : Crates}.

(** Length of [le] without its trailing zero bytes. *)
Fixpoint trimmed_len (le : list byte) : nat :=
  match le with
  | [] => 0
  | b :: le => match trimmed_len le with
               | O => if u8_of_byte b =? 0 then 0 else 1
               | S n => S (S n)
               end
  end.

Definition build_escrow_script (pubkey : list byte) (csv_window : Z) : list byte :=
  let le := to_le 8 csv_window in
  let seq_bytes := take (trimmed_len le) le in
  byte_of_u8 (zlen seq_bytes) :: seq_bytes ++ [byte_of_u8 OP_CSV; byte_of_u8 0x20] ++ pubkey
    ++ [byte_of_u8 OP_CHECKSIG].

Definition build_p2pk_script (pubkey : list byte) : list byte :=
  byte_of_u8 0x20 :: pubkey ++ [byte_of_u8 OP_CHECKSIG].

(** [sighash_hasher] and [finalize32] over what was fed to it. *)
Definition sighash_hash (b : list byte) : list byte := blake2b_256 (lit "TransactionSigningHash") b.

Abbreviation InputMeta := (list byte * Z * Z)%type.

Definition sighash_reused (metas : list InputMeta) (payout_amount spk_version : Z) (spk_script : list byte)
  (csv_window : Z) : SighashReused :=
  {| prev_out_hash := sighash_hash (mjoin ((fun m => m.1.1 ++ to_le 4 m.1.2) <$> metas));
     seqs_hash := sighash_hash (mjoin ((fun _ => to_le 8 csv_window) <$> metas));
     sigops_hash := sighash_hash (mjoin ((fun _ => [byte_of_u8 1]) <$> metas));
     outs_hash := sighash_hash (to_le 8 payout_amount ++ to_le 2 spk_version
                                ++ to_le 8 (zlen spk_script) ++ spk_script) |}.

Definition compute_sighash (m : InputMeta) (escrow_script : list byte) (reused : SighashReused)
  (csv_window : Z) : list byte :=
  sighash_hash
    (to_le 2 0 ++ prev_out_hash reused ++ seqs_hash reused ++ sigops_hash reused
     ++ m.1.1 ++ to_le 4 m.1.2 ++ to_le 2 0 ++ to_le 8 (zlen escrow_script) ++ escrow_script
     ++ to_le 8 m.2 ++ to_le 8 csv_window ++ [byte_of_u8 1] ++ outs_hash reused
     ++ to_le 8 0 ++ replicate 20 (byte_of_u8 0) ++ to_le 8 0 ++ replicate 32 (byte_of_u8 0)
     ++ [byte_of_u8 SIG_HASH_ALL]).

Definition compute_claim_txid (metas : list InputMeta) (payout_amount spk_version : Z)
  (spk_script : list byte) (csv_window : Z) : string :=
  hex_encode (blake2b_256 (lit "TransactionID")
    (to_le 2 0 ++ to_le 8 (zlen metas)
     ++ mjoin ((fun m => m.1.1 ++ to_le 4 m.1.2 ++ to_le 8 0 ++ to_le 8 csv_window) <$> metas)
     ++ to_le 8 1 ++ to_le 8 payout_amount ++ to_le 2 spk_version ++ to_le 8 (zlen spk_script)
     ++ spk_script ++ to_le 8 0 ++ replicate 20 (byte_of_u8 0) ++ to_le 8 0 ++ to_le 8 0)).

(** [hex::decode(..)?.try_into()]: the 32 bytes of a source txid. *)
Definition input_meta (e : EscrowEntry) : option InputMeta :=
  b ← hex_decode (coinbase_txid e);
  if zlen b =? 32 then Some (b, output_index e, amount_sompi e) else None.

(** [iter().sum()] on [u64] wraps. *)
Definition total_sompi (entries : list EscrowEntry) : Z :=
  wrap 64 (foldr (fun e t => amount_sompi e + t) 0 entries).

(** [None] stands for the [Err] cases, whose text is only logged. *)
Definition build_claim_tx (k : Keys) (entries : list EscrowEntry) : option (string * ClaimTx) :=
  match entries with
  | [] => None
  | e0 :: _ =>
    let csv := csv_window e0 in
    if negb (forallb (fun e => csv_window e =? csv) entries) then None else
    let escrow_script := build_escrow_script (pubkey_bytes k) csv in
    amount_out ← checked_sub (total_sompi entries) CLAIM_FEE_SOMPI;
    if negb (0 <? amount_out) then None else
    metas ← mapM input_meta entries;
    let reused := sighash_reused metas amount_out (payout_spk_version k) (payout_spk_script k) csv in
    let input e m :=
      let sig := schnorr_sign (secret_key k) (compute_sighash m escrow_script reused csv) in
      {| previous_txid := coinbase_txid e; previous_index := output_index e;
         signature_script := hex_encode (byte_of_u8 0x41 :: sig ++ [byte_of_u8 SIG_HASH_ALL]);
         sequence := csv |} in
    Some (compute_claim_txid metas amount_out (payout_spk_version k) (payout_spk_script k) csv,
          {| inputs := zip_with input entries metas; output_amount := amount_out;
             output_version := payout_spk_version k; output_script := payout_spk_script_hex k |})
  end.
End Claims.

(** ** The watcher *)

Record InFlightClaim := { outpoints : list Outpoint; submit_daa : Z; gross_sompi : Z }.

Record EscrowWatcher := {
  keys : Keys;
  entries : list EscrowEntry;
  in_flight : gmap string InFlightClaim;
  in_flight_outpoints : gset Outpoint;
  claims_held : bool;
  last_daa_score : Z;
  outpoint_set : gset Outpoint;
  block_index : gmap string (list nat);
  dirty : bool;
  blocks_since_compact : Z;
  validation_pending : gset string;
  validation_purged : Z;
  validation_unknown : Z;
}.

Definition set_entries (es : list EscrowEntry) (w : EscrowWatcher) : EscrowWatcher :=
  {| keys := keys w; entries := es; in_flight := in_flight w; in_flight_outpoints := in_flight_outpoints w;
     claims_held := claims_held w; last_daa_score := last_daa_score w; outpoint_set := outpoint_set w;
     block_index := block_index w; dirty := dirty w; blocks_since_compact := blocks_since_compact w;
     validation_pending := validation_pending w; validation_purged := validation_purged w;
     validation_unknown := validation_unknown w |}.
Definition set_in_flight (m : gmap string InFlightClaim) (s : gset Outpoint) (w : EscrowWatcher) : EscrowWatcher :=
  {| keys := keys w; entries := entries w; in_flight := m; in_flight_outpoints := s;
     claims_held := claims_held w; last_daa_score := last_daa_score w; outpoint_set := outpoint_set w;
     block_index := block_index w; dirty := dirty w; blocks_since_compact := blocks_since_compact w;
     validation_pending := validation_pending w; validation_purged := validation_purged w;
     validation_unknown := validation_unknown w |}.
Definition set_held (h : bool) (w : EscrowWatcher) : EscrowWatcher :=
  {| keys := keys w; entries := entries w; in_flight := in_flight w; in_flight_outpoints := in_flight_outpoints w;
     claims_held := h; last_daa_score := last_daa_score w; outpoint_set := outpoint_set w;
     block_index := block_index w; dirty := dirty w; blocks_since_compact := blocks_since_compact w;
     validation_pending := validation_pending w; validation_purged := validation_purged w;
     validation_unknown := validation_unknown w |}.
Definition set_seen (daa count : Z) (w : EscrowWatcher) : EscrowWatcher :=
  {| keys := keys w; entries := entries w; in_flight := in_flight w; in_flight_outpoints := in_flight_outpoints w;
     claims_held := claims_held w; last_daa_score := daa; outpoint_set := outpoint_set w;
     block_index := block_index w; dirty := dirty w; blocks_since_compact := count;
     validation_pending := validation_pending w; validation_purged := validation_purged w;
     validation_unknown := validation_unknown w |}.
Definition set_indexes (s : gset Outpoint) (bi : gmap string (list nat)) (w : EscrowWatcher) : EscrowWatcher :=
  {| keys := keys w; entries := entries w; in_flight := in_flight w; in_flight_outpoints := in_flight_outpoints w;
     claims_held := claims_held w; last_daa_score := last_daa_score w; outpoint_set := s;
     block_index := bi; dirty := dirty w; blocks_since_compact := blocks_since_compact w;
     validation_pending := validation_pending w; validation_purged := validation_purged w;
     validation_unknown := validation_unknown w |}.
Definition set_dirty (d : bool) (w : EscrowWatcher) : EscrowWatcher :=
  {| keys := keys w; entries := entries w; in_flight := in_flight w; in_flight_outpoints := in_flight_outpoints w;
     claims_held := claims_held w; last_daa_score := last_daa_score w; outpoint_set := outpoint_set w;
     block_index := block_index w; dirty := d; blocks_since_compact := blocks_since_compact w;
     validation_pending := validation_pending w; validation_purged := validation_purged w;
     validation_unknown := validation_unknown w |}.
Definition set_validation (pending : gset string) (purged unknown : Z) (w : EscrowWatcher) : EscrowWatcher :=
  {| keys := keys w; entries := entries w; in_flight := in_flight w; in_flight_outpoints := in_flight_outpoints w;
     claims_held := claims_held w; last_daa_score := last_daa_score w; outpoint_set := outpoint_set w;
     block_index := block_index w; dirty := dirty w; blocks_since_compact := blocks_since_compact w;
     validation_pending := pending; validation_purged := purged; validation_unknown := unknown |}.

Definition mark_dirty : EscrowWatcher -> EscrowWatcher := set_dirty true.
(** [due]: the save interval has elapsed. *)
Definition maybe_flush (due : bool) (w : EscrowWatcher) : EscrowWatcher :=
  if dirty w && due then set_dirty false w else w.

(** [self.block_index.entry(hash).or_default().push(i)] *)
Definition push_index (hash : string) (i : nat) (m : gmap string (list nat)) : gmap string (list nat) :=
  <[hash := default [] (m !! hash) ++ [i]]> m.

(** One iteration of the loop of [rebuild_indexes]. *)
Definition index_entry (acc : gset Outpoint * gmap string (list nat)) (ie : nat * EscrowEntry)
  : gset Outpoint * gmap string (list nat) :=
  ({[outpoint ie.2]} ∪ acc.1,
   if bool_decide (block_hash ie.2 = EmptyString) then acc.2 else push_index (block_hash ie.2) ie.1 acc.2).

Definition rebuild_indexes (w : EscrowWatcher) : EscrowWatcher :=
  let idx := foldl index_entry (∅, ∅) (imap pair (entries w)) in
  set_indexes idx.1 idx.2 w.

Definition live (e : EscrowEntry) : bool := negb (claimed e) && negb (slashed e).

Definition compact (w : EscrowWatcher) : EscrowWatcher :=
  let kept := filter (fun e => live e = true) (entries w) in
  let w' := set_entries kept w in
  if (length kept =? length (entries w))%nat then w' else mark_dirty (rebuild_indexes w').

(** The fields of [EscrowWatcher::new] that start empty, over a loaded state. *)
Definition new_watcher (k : Keys) (state : list EscrowEntry) : EscrowWatcher :=
  rebuild_indexes
    {| keys := k; entries := state; in_flight := ∅; in_flight_outpoints := ∅; claims_held := false;
       last_daa_score := 0; outpoint_set := ∅; block_index := ∅; dirty := false;
       blocks_since_compact := 0; validation_pending := ∅; validation_purged := 0;
       validation_unknown := 0 |}.

Definition expired (daa : Z) (c : InFlightClaim) : bool :=
  wrap 64 (submit_daa c + CLAIM_RESPONSE_TIMEOUT_DAA) <=? daa.

(** Removes a claim's outpoints from the in-flight set, one by one. *)
Definition release (s : gset Outpoint) (os : list Outpoint) : gset Outpoint :=
  foldl (fun s o => s ∖ {[o]}) s os.

Definition expire_in_flight (daa : Z) (w : EscrowWatcher) : EscrowWatcher :=
  let gone := filter (fun tc => expired daa tc.2 = true) (map_to_list (in_flight w)) in
  foldl (fun w tc => set_in_flight (delete tc.1 (in_flight w))
                       (release (in_flight_outpoints w) (outpoints tc.2)) w) w gone.

(** The block fields the watcher reads. *)
Record RpcOutput := { amount : Z; script_public_key : option (Z * string) }.
Record RpcTx := { no_inputs : bool; outputs : list RpcOutput; transaction_id : option string }.
Record RpcVerbose := { hash : string; merge_set_reds_hashes : list string; is_chain_block : bool }.
Record RpcBlock := { daa_score : option Z; verbose_data : option RpcVerbose; transactions : list RpcTx }.

Section Watcher.
Context `{C : Crates}.

(** ** Block handling *)

(** [self.state.entries.get_mut(i)]: out of range, nothing. *)
Definition slash_red (w : EscrowWatcher) (i : nat) : EscrowWatcher :=
  match entries w !! i with
  | Some e =>
    if live e && negb (is_inference e) && negb (bool_decide (block_hash e = EmptyString))
    then mark_dirty (set_entries (<[i := set_slashed e]> (entries w)) w) else w
  | None => w
  end.
Definition slash_reds (reds : list string) (w : EscrowWatcher) : EscrowWatcher :=
  foldl (fun w red => foldl slash_red w (default [] (block_index w !! red))) w reds.

(** ASCII lower case: a script that differs from it under Unicode case folding has a character
    that is not hexadecimal either way. *)
Definition lower_char (c : Ascii.ascii) : Ascii.ascii :=
  let n := Ascii.nat_of_ascii c in
  if (65 <=? n)%nat && (n <=? 90)%nat then Ascii.ascii_of_nat (n + 32) else c.
Fixpoint to_lowercase (s : string) : string :=
  match s with EmptyString => EmptyString | String c s => String (lower_char c) (to_lowercase s) end.

(** CSV window of the escrow script an output pays, if it pays one of ours. *)
Definition script_window (k : Keys) (script : string) : option Z :=
  if bool_decide (script = escrow_script_hex k) then Some CHALLENGE_WINDOW_BLOCKS
  else if bool_decide (script = escrow_script_bonded_hex k) then Some SERVICE_BOND_CSV_WINDOW_BLOCKS
  else None.

(** Appends an entry and indexes it under [key]. *)
Definition push_entry (key : Outpoint) (e : EscrowEntry) (w : EscrowWatcher) : EscrowWatcher :=
  let idx := length (entries w) in
  let w' := set_entries (entries w ++ [e]) w in
  mark_dirty (set_indexes ({[key]} ∪ outpoint_set w)
                (if bool_decide (block_hash e = EmptyString) then block_index w
                 else push_index (block_hash e) idx (block_index w)) w').

(** One coinbase output. *)
Definition track_output (txid hash : string) (daa : Z) (w : EscrowWatcher) (io : nat * RpcOutput) : EscrowWatcher :=
  match script_public_key io.2 with
  | Some (version, script) =>
    match script_window (keys w) (to_lowercase script) with
    | Some window =>
      let key := (txid, Z.of_nat io.1) in
      if (version =? 0) && negb (bool_decide (key ∈ outpoint_set w))
      then push_entry key (new_entry txid hash daa (amount io.2) (wrap 32 (Z.of_nat io.1)) window false) w
      else w
    | None => w
    end
  | None => w
  end.

Definition track_block_escrows (b : RpcBlock) (daa : Z) (hash : string) (w : EscrowWatcher) : EscrowWatcher :=
  match list_find (fun tx => no_inputs tx = true) (transactions b) with
  | Some (_, coinbase) =>
    match transaction_id coinbase with
    | Some txid =>
      if bool_decide (txid = EmptyString) then w
      else foldl (track_output txid hash daa) w (imap pair (outputs coinbase))
    | None => w
    end
  | None => w
  end.

(** ** Claiming *)

(** The two verdicts that expire. *)
Definition heal_cap (daa : Z) (e : EscrowEntry) : EscrowEntry :=
  if negb (batch_cap e =? 0) && (wrap 64 (cap_set_daa e + CAP_EXPIRY_DAA) <=? daa)
  then set_cap 0 (cap_set_daa e) e else e.
Definition heal_orphan (daa : Z) (e : EscrowEntry) : EscrowEntry :=
  if orphan_slashed e then
    let holdoff := saturating_mul 64 CAP_EXPIRY_DAA (Z.shiftl 1 (Z.min (orphan_retries e) 10)) in
    if match orphan_retry_after_daa e with Some retry => saturating_add 64 retry holdoff <=? daa | None => true end
    then set_orphan false (orphan_retries e) (orphan_retry_after_daa e) e else e
  else e.
Definition heals (daa : Z) (e : EscrowEntry) : bool :=
  (negb (batch_cap e =? 0) && (batch_cap (heal_cap daa e) =? 0))
  || (orphan_slashed e && negb (orphan_slashed (heal_orphan daa e))).
Definition heal (daa : Z) (e : EscrowEntry) : EscrowEntry := heal_orphan daa (heal_cap daa e).

Definition heal_entries (daa : Z) (w : EscrowWatcher) : EscrowWatcher :=
  (if existsb (heals daa) (entries w) then mark_dirty else id) (set_entries (heal daa <$> entries w) w).

Definition validation_in_progress (w : EscrowWatcher) : bool := negb (bool_decide (validation_pending w = ∅)).

Definition find_claim (daa : Z) (w : EscrowWatcher) : EscrowWatcher * option ClaimTx :=
  if claims_held w || (MAX_IN_FLIGHT_CLAIMS <=? Z.of_nat (size (in_flight w))) || validation_in_progress w
  then (w, None) else
  let w := heal_entries daa w in
  let batch := omap (fun i => entries w !! i) (select_claim_batch (entries w) daa (in_flight_outpoints w)) in
  match build_claim_tx (keys w) batch with
  | None => (w, None)
  | Some (txid, tx) =>
    let os := outpoint <$> batch in
    let claim := {| outpoints := os; submit_daa := daa; gross_sompi := total_sompi batch |} in
    (set_in_flight (<[txid := claim]> (in_flight w)) (list_to_set os ∪ in_flight_outpoints w) w, Some tx)
  end.

(** The periodic compaction of [handle_block]. *)
Definition maybe_compact (w : EscrowWatcher) : EscrowWatcher :=
  let n := wrap 32 (blocks_since_compact w + 1) in
  if COMPACT_EVERY_BLOCKS <=? n then compact (set_seen (last_daa_score w) 0 w)
  else set_seen (last_daa_score w) n w.

Definition handle_block (due : bool) (b : RpcBlock) (w : EscrowWatcher) : EscrowWatcher * option ClaimTx :=
  match daa_score b with
  | None => (w, None)
  | Some daa =>
    let w := set_seen daa (blocks_since_compact w) w in
    let w := expire_in_flight daa w in
    let w := maybe_compact w in
    let w := match verbose_data b with Some v => slash_reds (merge_set_reds_hashes v) w | None => w end in
    let w := match verbose_data b with
             | Some v => if is_chain_block v then track_block_escrows b daa (hash v) w else w
             | None => w
             end in
    let '(w, claim) := find_claim daa w in
    (maybe_flush due w, claim)
  end.

(** ** The node's answers *)

Inductive SubmitResponseOutcome :=
| NotOurs
| Handled
| Accepted (n_outputs amount_sompi : Z).

(** [str::contains] *)
Fixpoint contains (msg sub : string) : bool :=
  String.prefix sub msg || match msg with EmptyString => false | String _ msg => contains msg sub end.

(** The claim a response belongs to.  The order a [HashMap] iterates in is unspecified; here it is
    that of [map_to_list]. *)
Definition matched_txid (response_txid : string) (error : option string) (w : EscrowWatcher) : option string :=
  match in_flight w !! response_txid with
  | Some _ => Some response_txid
  | None =>
    match error with
    | Some msg => fst ∘ snd <$> list_find (fun tc => contains msg tc.1 = true) (map_to_list (in_flight w))
    | None => None
    end
  end.

(** [iter_mut().find(|e| ..)]: the first entry of an outpoint. *)
Fixpoint update_entry (o : Outpoint) (f : EscrowEntry -> EscrowEntry) (es : list EscrowEntry) : list EscrowEntry :=
  match es with
  | [] => []
  | e :: es => if bool_decide (outpoint e = o) then f e :: es else e :: update_entry o f es
  end.
Definition find_entry (o : Outpoint) (es : list EscrowEntry) : option EscrowEntry :=
  snd <$> list_find (fun e => outpoint e = o) es.

Definition mark_claimed_one (acc : list EscrowEntry * Z) (o : Outpoint) : list EscrowEntry * Z :=
  match find_entry o acc.1 with
  | Some e => (update_entry o set_claimed acc.1,
               if claimed e then acc.2 else wrap 64 (acc.2 + amount_sompi e))
  | None => acc
  end.
Definition mark_entries_claimed (os : list Outpoint) (es : list EscrowEntry) : list EscrowEntry * Z :=
  foldl mark_claimed_one (es, 0) os.

(** What a rejection of a claim of [n] outputs does to one of its entries. *)
Definition halved_cap (n : Z) : Z := Z.min (Z.max (n / 2) 1) (2 ^ 8 - 1).
Definition reject_entry (orphan seq_lock : bool) (n last_daa : Z) (e : EscrowEntry) : EscrowEntry :=
  if orphan then
    if 1 <? n then set_cap (halved_cap n) last_daa e
    else
      let retries := wrap 8 (orphan_retries e + 1) in
      if MAX_ORPHAN_RETRIES <=? retries
      then set_slashed (set_orphan false retries (orphan_retry_after_daa e) e)
      else set_orphan true retries (Some (wrap 64 (last_daa + ORPHAN_RETRY_COOLDOWN_BLOCKS))) e
  else if seq_lock then
    set_orphan (orphan_slashed e) (orphan_retries e)
      (Some (wrap 64 (last_daa + SEQ_LOCK_RETRY_COOLDOWN_BLOCKS))) e
  else
    let e := if 1 <? n then set_cap (halved_cap n) last_daa e else e in
    let retries := saturating_add 8 (submit_retries e) 1 in
    let e := set_submit_retries retries e in
    let cooldown := Z.min (saturating_mul 64 UNKNOWN_RETRY_BASE_COOLDOWN_DAA (Z.shiftl 1 (Z.min retries 9)))
                          UNKNOWN_RETRY_MAX_COOLDOWN_DAA in
    set_orphan (orphan_slashed e) (orphan_retries e) (Some (wrap 64 (last_daa + cooldown))) e.

Definition accepted_error (error : option string) : bool :=
  match error with
  | None => true
  | Some msg => contains msg "already in the mempool" || contains msg "already accepted"
  end.

Definition on_submit_response (due : bool) (response_txid : string) (error : option string) (w : EscrowWatcher)
  : EscrowWatcher * SubmitResponseOutcome :=
  match matched_txid response_txid error w with
  | None => (w, NotOurs)
  | Some txid =>
    match in_flight w !! txid with
    | None => (w, NotOurs) (* [unwrap]: the key was just found *)
    | Some claim =>
      let w := set_in_flight (delete txid (in_flight w)) (release (in_flight_outpoints w) (outpoints claim)) w in
      let n := zlen (outpoints claim) in
      let '(w, outcome) :=
        if accepted_error error then
          let '(es, total) := mark_entries_claimed (outpoints claim) (entries w) in
          (set_entries es w, Accepted n total)
        else
          let msg := default EmptyString error in
          let reject := reject_entry (contains msg "orphan") (contains msg "sequence lock") n (last_daa_score w) in
          (set_entries (foldl (fun es o => update_entry o reject es) (entries w) (outpoints claim)) w, Handled) in
      (maybe_flush due (mark_dirty w), outcome)
    end
  end.

(** ** Other calls *)

Definition set_claims_held (held : bool) (w : EscrowWatcher) : EscrowWatcher := set_held held w.

Definition track_inference_escrow (due : bool) (txid : string) (daa escrow_amount : Z) (w : EscrowWatcher)
  : EscrowWatcher :=
  if (escrow_amount =? 0) || bool_decide ((txid, 1) ∈ outpoint_set w) then w
  else
    maybe_flush due
      (push_entry (txid, 1) (new_entry txid EmptyString daa escrow_amount 1 CHALLENGE_WINDOW_BLOCKS true) w).

(** Returns the distinct block hashes to check with the node. *)
Definition start_state_validation (w : EscrowWatcher) : EscrowWatcher * gset string :=
  let hashes := list_to_set (block_hash <$> filter (fun e => live e = true /\ block_hash e <> EmptyString) (entries w)) in
  (set_validation hashes 0 0 w, hashes).

Definition finish_validation_if_done (due : bool) (w : EscrowWatcher) : EscrowWatcher :=
  if validation_in_progress w then w else maybe_flush due w.

(** [self.state.entries[i]]: the indexes of [block_index] are in range. *)
Definition purge_ghost (w : EscrowWatcher) (i : nat) : EscrowWatcher :=
  match entries w !! i with
  | Some e =>
    if live e then set_validation (validation_pending w) (validation_purged w + 1) (validation_unknown w)
                     (set_entries (<[i := set_slashed e]> (entries w)) w) else w
  | None => w
  end.

Definition on_block_validated (due : bool) (h : string) (exists_ : bool) (w : EscrowWatcher) : EscrowWatcher :=
  if bool_decide (h ∈ validation_pending w) then
    let w := set_validation (validation_pending w ∖ {[h]}) (validation_purged w) (validation_unknown w) w in
    let w := if exists_ then w else mark_dirty (foldl purge_ghost w (default [] (block_index w !! h))) in
    finish_validation_if_done due w
  else w.

Definition on_block_validation_error (due : bool) (message : string) (w : EscrowWatcher) : EscrowWatcher * bool :=
  match list_find (fun h => contains message h = true) (elements (validation_pending w)) with
  | None => (w, false)
  | Some (_, h) =>
    (finish_validation_if_done due
       (set_validation (validation_pending w ∖ {[h]}) (validation_purged w) (validation_unknown w + 1) w), true)
  end.

Definition consume_validation_ok (due : bool) (h : string) (is_chain : bool) (w : EscrowWatcher) : EscrowWatcher * bool :=
  if bool_decide (h ∈ validation_pending w) then (on_block_validated due h is_chain w, true) else (w, false).

(** Outputs and sompi still awaiting a claim. *)
Definition pending_escrow (w : EscrowWatcher) : Z * Z :=
  foldl (fun acc e =>
    if live e && negb (orphan_slashed e) && (orphan_retries e =? 0)
    then (acc.1 + 1, saturating_add 64 acc.2 (amount_sompi e)) else acc) (0, 0) (entries w).
End Watcher.

(** ** Selection: what a batch contains, and when there is none *)

Section SelectionProofs.
Context `{C : Crates} (es : list EscrowEntry) (daa : Z) (infl : gset Outpoint).
Abbreviation current := (csv_window_for_daa daa).
Abbreviation run := (fill es daa current infl).

(** An entry the candidate [pass], [window] may take. *)
Definition admissible (pass : Z) (window : option Z) (e : EscrowEntry) : bool :=
  in_pass pass current e && eligible daa infl e
  && match window with Some w => w =? csv_window e | None => true end.

Lemma admissible_spec pass window e : admissible pass window e = true <->
  in_pass pass current e = true /\ eligible daa infl e = true
  /\ (forall w, window = Some w -> csv_window e = w).
Proof.
  unfold admissible. rewrite !andb_true_iff. destruct window as [w|]; [rewrite Z.eqb_eq|].
  - split; [intros [[? ?] ->]; split_and!; [done..|by intros ? [= <-]]|].
    intros (? & ? & Hw). by rewrite (Hw w eq_refl).
  - split; [by intros [[? ?] _]|by intros (? & ? & _)].
Qed.

(** One step of the loop, as a choice on admissibility and on the caps. *)
Lemma fill_cons pass i idx limit window batch :
  run pass (i :: idx) limit window batch =
  match es !! i with
  | Some e =>
    if admissible pass window e && (zlen batch + 1 <=? Z.min (cap_of e) limit)
    then if Z.min limit (cap_of e) <=? zlen batch + 1 then batch ++ [i]
         else run pass idx (Z.min limit (cap_of e)) (Some (csv_window e)) (batch ++ [i])
    else run pass idx limit window batch
  | None => run pass idx limit window batch
  end.
Proof.
  cbn [fill]. destruct (es !! i) as [e|]; [|done]. unfold admissible. rewrite zlen_app.
  rewrite (Z.leb_antisym (Z.min _ _)). change (zlen [i]) with 1.
  destruct (in_pass pass current e), (eligible daa infl e), window as [w|]; cbn [negb orb andb]; try done.
  - by destruct (w =? csv_window e), (_ <? _).
  - by destruct (_ <? _).
Qed.

Lemma fill_spec pass idx limit window batch : zlen batch <= limit ->
  exists more, run pass idx limit window batch = batch ++ more /\ sublist more idx
    /\ zlen (batch ++ more) <= limit
    /\ Forall (fun i => exists e, es !! i = Some e /\ admissible pass window e = true
                                  /\ zlen (batch ++ more) <= cap_of e) more
    /\ exists w, Forall (fun i => csv_window <$> es !! i = Some w) more.
Proof.
  revert limit window batch. induction idx as [|i idx IH]; intros limit window batch Hl.
  { exists []. rewrite app_nil_r. split_and!; try done. by exists 0. }
  rewrite fill_cons.
  assert (Hskip : exists more, run pass idx limit window batch = batch ++ more /\ sublist more (i :: idx)
    /\ zlen (batch ++ more) <= limit
    /\ Forall (fun i => exists e, es !! i = Some e /\ admissible pass window e = true
                                  /\ zlen (batch ++ more) <= cap_of e) more
    /\ exists w, Forall (fun i => csv_window <$> es !! i = Some w) more).
  { destruct (IH limit window batch Hl) as (more & ? & ? & ? & ? & ?).
    exists more. split_and!; try done. by apply sublist_cons. }
  destruct (es !! i) as [e|] eqn:Ei; [|done].
  destruct (admissible pass window e) eqn:Ea; [|done]. cbn [andb].
  destruct (Z.leb_spec (zlen batch + 1) (Z.min (cap_of e) limit)) as [Hcap|]; [|done].
  assert (Hz : zlen (batch ++ [i]) = zlen batch + 1) by (rewrite zlen_app; done).
  destruct (Z.leb_spec (Z.min limit (cap_of e)) (zlen batch + 1)).
  - exists [i]. split_and!; [done|by apply sublist_skip, sublist_nil_l|lia| |].
    + constructor; [|done]. exists e. split_and!; [done..|lia].
    + exists (csv_window e). constructor; [|done]. by rewrite Ei.
  - destruct (IH (Z.min limit (cap_of e)) (Some (csv_window e)) (batch ++ [i])) as (more & -> & Hsub & Hlen & Hall & Hw); [lia|].
    exists (i :: more). rewrite <- (app_assoc batch [i] more) in *. cbn [app] in *.
    split_and!; [done|by apply sublist_skip|lia| |].
    + constructor; [exists e; split_and!; [done..|lia]|].
      eapply Forall_impl; [exact Hall|]. intros j (e' & ? & Ha' & ?). exists e'.
      apply admissible_spec in Ha' as (? & ? & Hw'), Ea as (_ & _ & Hwe).
      split_and!; [done| |lia]. apply admissible_spec. split_and!; [done..|].
      intros w ->. rewrite (Hw' _ eq_refl). by apply Hwe.
    + exists (csv_window e). constructor; [by rewrite Ei|].
      eapply Forall_impl; [exact Hall|]. intros j (e' & -> & Ha' & _).
      apply admissible_spec in Ha' as (_ & _ & Hw'). cbn. by rewrite (Hw' _ eq_refl).
Qed.

Lemma fill_nonempty pass idx window i e : i ∈ idx -> es !! i = Some e -> admissible pass window e = true ->
  1 <= cap_of e -> run pass idx MAX_CLAIM_BATCH window [] <> [].
Proof.
  induction idx as [|j idx IH]; intros Hi He Ha Hc; [by apply not_elem_of_nil in Hi|].
  rewrite fill_cons. apply elem_of_cons in Hi.
  destruct (es !! j) as [e'|] eqn:Ej; [|destruct Hi as [->|Hi]; [congruence|by apply IH]].
  destruct (admissible pass window e' && _) eqn:E.
  - apply andb_true_iff in E as [_ E%Z.leb_le]. change (zlen [] + 1) with 1 in *. cbn [app].
    destruct (Z.leb_spec (Z.min MAX_CLAIM_BATCH (cap_of e')) 1); [done|].
    destruct (fill_spec pass idx (Z.min MAX_CLAIM_BATCH (cap_of e')) (Some (csv_window e')) [j]) as (more & -> & _);
      [change (zlen [j]) with 1; lia|done].
  - destruct Hi as [->|Hi]; [|by apply IH]. simplify_eq. rewrite Ha in E. cbn [andb] in E.
    change (zlen [] + 1) with 1 in E. apply Z.leb_gt in E. unfold MAX_CLAIM_BATCH in E. lia.
Qed.

Definition admissible_at (pass : Z) (window : option Z) (i : nat) : bool :=
  match es !! i with Some e => admissible pass window e | None => false end.

(** The nominal candidate of a window is the first 87 admissible entries, in priority order. *)
Lemma fill_nominal idx w batch : zlen batch < MAX_CLAIM_BATCH ->
  run 0 idx MAX_CLAIM_BATCH (Some w) batch
  = batch ++ take (87 - length batch) (filter (fun i => admissible_at 0 (Some w) i = true) idx).
Proof.
  revert batch. induction idx as [|i idx IH]; intros batch Hb.
  { cbn [fill]. by rewrite filter_nil, take_nil, app_nil_r. }
  rewrite fill_cons. destruct (admissible_at 0 (Some w) i) eqn:Ea.
  2: { rewrite filter_cons_False by congruence. unfold admissible_at in Ea.
       destruct (es !! i) as [e|]; [rewrite Ea|]; by apply IH. }
  rewrite filter_cons_True by done. unfold admissible_at in Ea.
  destruct (es !! i) as [e|] eqn:Ei; [|done]. rewrite Ea. apply admissible_spec in Ea as (Hp & _ & Hw).
  assert (Hc : cap_of e = MAX_CLAIM_BATCH).
  { unfold in_pass in Hp. cbn in Hp. unfold cap_of. by destruct (batch_cap e =? 0). }
  rewrite Hc, Z.min_id. unfold MAX_CLAIM_BATCH, zlen in *.
  destruct (Z.leb_spec (Z.of_nat (length batch) + 1) 87); [|lia]. cbn [andb].
  destruct (Z.leb_spec 87 (Z.of_nat (length batch) + 1)).
  - f_equal. replace (87 - length batch)%nat with 1%nat by lia. done.
  - rewrite (Hw w eq_refl), IH by (rewrite length_app; cbn; lia).
    rewrite <- app_assoc. f_equal. rewrite length_app. cbn [length app].
    replace (87 - length batch)%nat with (S (87 - (length batch + 1)))%nat by lia. done.
Qed.
End SelectionProofs.

Section SelectProperties.
Context `{C : Crates}.

Lemma pass_indices_perm es pass : pass_indices es pass ≡ₚ seq 0 (length es).
Proof.
  unfold pass_indices. destruct (pass =? 0); [|done].
  induction (seq 0 (length es)) as [|i l IH]; [done|].
  destruct (match es !! i with Some e => is_inference e | None => false end) eqn:E.
  - rewrite filter_cons_True, filter_cons_False by congruence. cbn [app]. by rewrite IH.
  - rewrite filter_cons_False, filter_cons_True by congruence. by rewrite <- Permutation_middle, IH.
Qed.

Lemma elem_of_insert_window c w x l : x ∈ insert_window c w l <-> x = w \/ x ∈ l.
Proof.
  induction l as [|y l IH]; cbn [insert_window].
  { rewrite elem_of_cons, elem_of_nil. tauto. }
  destruct (window_before c w y); [by rewrite elem_of_cons|]. rewrite !elem_of_cons, IH. tauto.
Qed.

Lemma elem_of_sort_windows c x l : x ∈ sort_windows c l <-> x ∈ l.
Proof.
  unfold sort_windows. induction l as [|y l IH]; cbn [foldr]; [done|].
  by rewrite elem_of_insert_window, elem_of_cons, IH.
Qed.

Lemma elem_of_dedup x l : x ∈ dedup l <-> x ∈ l.
Proof.
  induction l as [|a [|b l] IH]; [done|done|].
  change (dedup (a :: b :: l)) with (if a =? b then dedup (b :: l) else a :: dedup (b :: l)).
  destruct (Z.eqb_spec a b) as [->|].
  - rewrite IH, !elem_of_cons. tauto.
  - rewrite elem_of_cons, IH. by rewrite (elem_of_cons (b :: l)).
Qed.

Lemma elem_of_candidates es current c : c ∈ candidates es current <->
  (exists w, c = (0, Some w) /\ w ∈ csv_window <$> es) \/ c = (1, None) \/ c = (2, None) \/ c = (3, None).
Proof.
  unfold candidates. rewrite elem_of_app, list_elem_of_fmap, !elem_of_cons, elem_of_nil.
  split.
  - intros [(w & -> & Hw)|H]; [|tauto]. left. exists w.
    by rewrite elem_of_dedup, elem_of_sort_windows in Hw.
  - intros [(w & -> & Hw)|H]; [|tauto]. left. exists w.
    by rewrite elem_of_dedup, elem_of_sort_windows.
Qed.

Lemma first_releasable_spec es daa infl cs :
  (first_releasable es daa infl cs = [] /\ forall c, c ∈ cs -> releasable c.1 (candidate_batch es daa infl c) = false)
  \/ exists c, c ∈ cs /\ first_releasable es daa infl cs = candidate_batch es daa infl c
             /\ releasable c.1 (candidate_batch es daa infl c) = true.
Proof.
  induction cs as [|c cs IH]; cbn [first_releasable].
  { left. split; [done|]. intros c Hc. by apply not_elem_of_nil in Hc. }
  destruct (releasable _ _) eqn:E.
  - right. exists c. split; [apply list_elem_of_here|done].
  - destruct IH as [[-> H]|(c' & Hc & -> & Hr)].
    + left. split; [done|]. intros c' [->|?]%elem_of_cons; auto.
    + right. exists c'. split; [by apply list_elem_of_further|done].
Qed.
End SelectProperties.

Section SelectTheorems.
Context `{C : Crates}.

(** A live entry no repair verdict holds: the ones full batches are made of. *)
Definition nominal (e : EscrowEntry) : bool := (batch_cap e =? 0) && negb (orphan_slashed e).

Lemma candidate_sound es daa infl c : let batch := candidate_batch es daa infl c in
  NoDup batch /\ zlen batch <= MAX_CLAIM_BATCH
  /\ Forall (fun i => exists e, es !! i = Some e /\ admissible daa infl c.1 c.2 e = true
                                /\ zlen batch <= cap_of e) batch
  /\ exists w, Forall (fun i => csv_window <$> es !! i = Some w) batch.
Proof.
  intros batch. unfold batch, candidate_batch.
  destruct (fill_spec es daa infl c.1 (pass_indices es c.1) MAX_CLAIM_BATCH c.2 [])
    as (more & -> & Hsub & Hlen & Hall & Hw); [done|]. cbn [app] in *.
  split; [|done]. eapply sublist_NoDup; [|exact Hsub]. rewrite pass_indices_perm. apply NoDup_seq.
Qed.

Lemma candidate_empty es daa infl c i e : es !! i = Some e -> 0 <= batch_cap e ->
  candidate_batch es daa infl c = [] -> admissible daa infl c.1 c.2 e = false.
Proof.
  intros He Hb Hc. apply not_true_iff_false. intros Ha.
  apply (fill_nonempty es daa infl c.1 (pass_indices es c.1) c.2 i e) in Hc; try done.
  - rewrite pass_indices_perm, elem_of_seq. apply lookup_lt_Some in He. lia.
  - unfold cap_of, MAX_CLAIM_BATCH. destruct (Z.eqb_spec (batch_cap e) 0); lia.
Qed.

(** Counting positions and counting entries. *)
Lemma count_positions (es : list EscrowEntry) (f : EscrowEntry -> bool) :
  length (filter (fun i => match es !! i with Some e => f e | None => false end = true) (seq 0 (length es)))
  = length (filter (fun e => f e = true) es).
Proof.
  enough (H : forall pre, length (filter (fun i => match (pre ++ es) !! i with Some e => f e | None => false end = true)
                                   (seq (length pre) (length es)))
                          = length (filter (fun e => f e = true) es)) by exact (H []).
  induction es as [|e es IH]; intros pre; [done|]. cbn [length seq].
  specialize (IH (pre ++ [e])). rewrite <- app_assoc, length_app, Nat.add_comm in IH. cbn [app length Nat.add] in IH.
  assert (Hl : (pre ++ e :: es) !! length pre = Some e) by (by rewrite list_lookup_middle).
  destruct (f e) eqn:E.
  - rewrite filter_cons_True, (filter_cons_True _ e) by (rewrite ?Hl; done). cbn [length]. by rewrite IH.
  - rewrite filter_cons_False, (filter_cons_False _ e) by (rewrite ?Hl; congruence). apply IH.
Qed.

Lemma filter_length_le (f g : EscrowEntry -> bool) es :
  Forall (fun e => f e = true -> g e = true) es ->
  (length (filter (fun e => f e = true) es) <= length (filter (fun e => g e = true) es))%nat.
Proof.
  induction 1 as [|e es H _ IH]; [done|]. destruct (f e) eqn:Ef.
  - rewrite filter_cons_True, (filter_cons_True _ e) by auto. cbn [length]. lia.
  - rewrite filter_cons_False by congruence. destruct (g e) eqn:Eg.
    + rewrite filter_cons_True by done. cbn [length]. lia.
    + by rewrite (filter_cons_False _ e) by congruence.
Qed.

Lemma nominal_candidate_length es daa infl w :
  length (candidate_batch es daa infl (0, Some w))
  = Nat.min 87 (length (filter (fun e => admissible daa infl 0 (Some w) e = true) es)).
Proof.
  unfold candidate_batch. cbn [fst snd]. rewrite fill_nominal by done. cbn [app length Nat.sub].
  rewrite length_take. f_equal. rewrite <- count_positions. unfold admissible_at.
  by rewrite (pass_indices_perm es 0).
Qed.

(** C14: What a claim batch may contain.  Every entry [select_claim_batch] picks is unclaimed, not
    slashed, past its CSV window and cooldown and in no claim in flight; no entry is picked
    twice; the batch has one CSV window and is no larger than 87 or any member's bisection
    cap; it never mixes known-dead entries with live ones, or capped with uncapped ones; and a
    batch with a nominal entry of the current window is exactly full. *)
Theorem select_batch_sound (es : list EscrowEntry) (daa : Z) (infl : gset Outpoint) :
  let batch := select_claim_batch es daa infl in
  NoDup batch /\ zlen batch <= MAX_CLAIM_BATCH /\
  (exists w dead capped, Forall (fun i => exists e, es !! i = Some e
     /\ eligible daa infl e = true /\ zlen batch <= cap_of e
     /\ csv_window e = w /\ orphan_slashed e = dead
     /\ (dead = false -> negb (batch_cap e =? 0) = capped)) batch) /\
  (forall i e, i ∈ batch -> es !! i = Some e -> nominal e = true -> csv_window e = csv_window_for_daa daa ->
     zlen batch = MAX_CLAIM_BATCH).
Proof.
  intros batch. unfold batch, select_claim_batch.
  destruct (first_releasable_spec es daa infl (candidates es (csv_window_for_daa daa)))
    as [[-> _]|(c & Hc & -> & Hr)].
  { split_and!; [constructor|done|by exists 0, false, false|]. intros i e Hi. by apply not_elem_of_nil in Hi. }
  destruct (candidate_sound es daa infl c) as (Hnd & Hlen & Hall & w & Hw).
  split_and!; [done..| |].
  - exists w, (c.1 =? 3), (c.1 =? 1). rewrite Forall_lookup in Hall, Hw |- *. intros k i Hk.
    destruct (Hall _ _ Hk) as (e & He & Ha & Hcap). pose proof (Hw _ _ Hk) as Hwi. rewrite He in Hwi.
    cbn in Hwi. exists e. apply admissible_spec in Ha as (Hp & Hel & _).
    split_and!; [done..|congruence| |]; apply elem_of_candidates in Hc as [(v & -> & _)|[-> |[-> | ->]]];
      unfold in_pass in Hp; cbn in Hp |- *; destruct (orphan_slashed e), (batch_cap e =? 0); done.
  - intros i e Hi He Hn Hcur. rewrite Forall_forall in Hall. apply Hall in Hi as (e' & He' & Ha & _). simplify_eq.
    apply admissible_spec in Ha as (Hp & _ & _). unfold nominal in Hn. apply andb_true_iff in Hn as [Hb Hd].
    apply elem_of_candidates in Hc as [(v & -> & _)|[-> |[-> | ->]]]; unfold in_pass in Hp; cbn in Hp.
    + unfold releasable, MIN_CLAIM_BATCH in Hr. cbn [fst Z.eqb] in Hr. apply Z.leb_le in Hr. lia.
    + by rewrite Hb in Hp.
    + by rewrite Hb, Hd, Hcur, Z.eqb_refl in Hp.
    + by rewrite Hp in Hd.
Qed.

(** C15: Nothing claimable is starved.  [select_claim_batch] ships nothing exactly when every eligible
    entry is a nominal one of the current CSV window and there are fewer than 87 of them. *)
Theorem select_batch_complete (es : list EscrowEntry) (daa : Z) (infl : gset Outpoint) :
  Forall (fun e => 0 <= batch_cap e) es ->
  select_claim_batch es daa infl = [] <->
  Forall (fun e => eligible daa infl e = true -> nominal e = true /\ csv_window e = csv_window_for_daa daa) es
  /\ zlen (filter (fun e => eligible daa infl e = true) es) < MAX_CLAIM_BATCH.
Proof.
  intros Hcap. unfold select_claim_batch. set (current := csv_window_for_daa daa).
  destruct (first_releasable_spec es daa infl (candidates es current)) as [[-> Hnone]|(c & Hc & -> & Hr)].
  - split; [intros _|done].
    assert (Hnom : Forall (fun e => eligible daa infl e = true -> nominal e = true /\ csv_window e = current) es).
    { apply Forall_lookup. intros i e He Hel. rewrite Forall_lookup in Hcap.
      assert (Hpass : forall p, (p, None) ∈ candidates es current -> p <> 0 -> in_pass p current e = false).
      { intros p Hp Hne. specialize (Hnone _ Hp). unfold releasable in Hnone. cbn [fst] in Hnone.
        destruct (Z.eqb_spec p 0); [done|]. apply negb_false_iff, Z.eqb_eq in Hnone.
        destruct (candidate_batch es daa infl (p, None)) as [|x t] eqn:E; [|rewrite zlen_cons in Hnone; pose proof (zlen_nonneg t); lia].
        apply (candidate_empty _ _ _ _ i e He (Hcap _ _ He)) in E. cbn [fst snd] in E.
        apply not_true_iff_false. intros Hin. rewrite (proj2 (admissible_spec daa infl p None e)) in E; done. }
      pose proof (Hpass 1 ltac:(rewrite elem_of_candidates; auto) ltac:(done)) as H1.
      pose proof (Hpass 2 ltac:(rewrite elem_of_candidates; auto) ltac:(done)) as H2.
      pose proof (Hpass 3 ltac:(rewrite elem_of_candidates; auto) ltac:(done)) as H3.
      unfold in_pass in H1, H2, H3. cbn in H1, H2, H3. unfold nominal.
      destruct (orphan_slashed e), (batch_cap e =? 0), (Z.eqb_spec (csv_window e) current); try done. }
    split; [done|].
    destruct (filter (fun e => eligible daa infl e = true) es) as [|e l] eqn:El; [done|]. rewrite <- El.
    assert (Hin : e ∈ filter (fun e => eligible daa infl e = true) es) by (rewrite El; apply list_elem_of_here).
    apply list_elem_of_filter in Hin as [Hel Hin]. rewrite Forall_forall in Hnom.
    specialize (Hnone (0, Some current)). unfold releasable, MIN_CLAIM_BATCH, MAX_CLAIM_BATCH, zlen in *.
    cbn [fst Z.eqb] in Hnone. rewrite nominal_candidate_length in Hnone. apply Z.leb_gt in Hnone.
    + assert (Hle : (length (filter (fun e => eligible daa infl e = true) es)
        <= length (filter (fun e => admissible daa infl 0 (Some current) e = true) es))%nat); [|lia].
      apply filter_length_le, Forall_forall. intros e' Hin' Hel'.
      destruct (Hnom e' Hin' Hel'). apply admissible_spec. split_and!; [done..|]. by intros ? [= <-].
    + apply elem_of_candidates. left. exists current. split; [done|]. apply list_elem_of_fmap.
      exists e. split; [symmetry; by apply Hnom|done].
  - split; [intros Hb|intros [Hnom Hlen]; exfalso].
    { rewrite Hb in Hr. apply elem_of_candidates in Hc as [(w & -> & _)|[-> |[-> | ->]]]; done. }
    apply elem_of_candidates in Hc as [(w & -> & _)|Hc].
    + unfold releasable, MIN_CLAIM_BATCH, MAX_CLAIM_BATCH, zlen in *. cbn [fst Z.eqb] in Hr.
      rewrite nominal_candidate_length in Hr. apply Z.leb_le in Hr.
      assert (Hle : (length (filter (fun e => admissible daa infl 0 (Some w) e = true) es)
        <= length (filter (fun e => eligible daa infl e = true) es))%nat); [|lia].
      apply filter_length_le, Forall_forall. intros e _ Ha. by apply admissible_spec in Ha as (_ & ? & _).
    + destruct (candidate_sound es daa infl c) as (_ & _ & Hall & _).
      destruct (candidate_batch es daa infl c) as [|i t]; [by destruct Hc as [-> |[-> | ->]]|].
      apply Forall_inv in Hall as (e & He & Ha & _). apply admissible_spec in Ha as (Hp & Hel & _).
      rewrite Forall_lookup in Hnom. destruct (Hnom _ _ He Hel) as [Hn Hw].
      unfold nominal, in_pass in *. apply andb_true_iff in Hn as [Hb Hd]. fold current in Hp.
      rewrite Hb, Hw, Z.eqb_refl in Hp. apply negb_true_iff in Hd. rewrite Hd in Hp.
      by destruct Hc as [-> |[-> | ->]].
Qed.
End SelectTheorems.

(** ** A concrete instance: identity codecs and a truncation for the hash *)

Module Toy.
#[export] Instance crates : Crates := {|
  pom_v3_activation_daa := 0;
  hex_encode := String.string_of_list_byte;
  hex_decode s := Some (String.list_byte_of_string s);
  blake2b_256 _ b := take 32 (b ++ replicate 32 (byte_of_u8 0));
  schnorr_sign _ b := b ++ b;
|}.

Definition txid : string := "aaaaaaaaaaaaaaaaaaaaaaaaaaaaaaaa".
(** One output of the legacy window, and one of the current window. *)
Definition legacy : EscrowEntry := new_entry txid "block" 0 1000000000 1 CHALLENGE_WINDOW_BLOCKS false.
Definition bonded : EscrowEntry := new_entry txid "block" 0 1000000000 2 SERVICE_BOND_CSV_WINDOW_BLOCKS false.
Definition keys : Keys :=
  {| secret_key := []; pubkey_bytes := replicate 32 (byte_of_u8 7); escrow_script_hex := "legacy";
     escrow_script_bonded_hex := "bonded"; payout_spk_version := 0;
     payout_spk_script := build_p2pk_script (replicate 32 (byte_of_u8 9)); payout_spk_script_hex := "payout" |}.

(** Mature, a lone nominal entry waits for a full batch; a legacy one ships at once. *)
Example bonded_waits : select_claim_batch [bonded] 800000 ∅ = [].
Proof. reflexivity. Qed.
Example legacy_ships : select_claim_batch [bonded; legacy] 800000 ∅ = [1%nat].
Proof. reflexivity. Qed.

Lemma select_batch_complete_witness : select_claim_batch [bonded] 800000 ∅ = [].
Proof. apply (select_batch_complete [bonded] 800000 ∅); [|split]; evaluate. Defined.
End Toy.
