(* ===== verification/Watcher.v ===== *)
(** * The escrow watcher: its invariant and what its operations guarantee

    [run] is one call of the watcher, [reachable] the states the calls lead to
    from a freshly loaded one.  The invariant [WF] ties the derived indexes to
    the entries and keeps the claims in flight disjoint; the theorems about
    claiming, acceptance and rejection follow from it. *)
From S2P Require Import Prelude Escrow.
From stdpp Require Import gmap strings.
#[local] Open Scope Z_scope.

(** ** Calls and reachable states *)

Inductive Call :=
| HandleBlock (due : bool) (b : RpcBlock)
| SubmitResponse (due : bool) (txid : string) (error : option string)
| TrackInference (due : bool) (txid : string) (daa amount : Z)
| ClaimsHeld (held : bool)
| StartValidation
| BlockValidated (due : bool) (h : string) (exists_ : bool)
| BlockValidationError (due : bool) (message : string)
| ConsumeValidationOk (due : bool) (h : string) (is_chain : bool).

(** An output index is a [u32]. *)
Definition block_ok (b : RpcBlock) : bool := forallb (fun tx => zlen (outputs tx) <? 2 ^ 32) (transactions b).
Definition call_ok (c : Call) : bool := match c with HandleBlock _ b => block_ok b | _ => true end.

Section Run.
Context `{C : Crates}.

Definition run (w : EscrowWatcher) (c : Call) : EscrowWatcher :=
  match c with
  | HandleBlock due b => (handle_block due b w).1
  | SubmitResponse due txid error => (on_submit_response due txid error w).1
  | TrackInference due txid daa amount => track_inference_escrow due txid daa amount w
  | ClaimsHeld held => set_claims_held held w
  | StartValidation => (start_state_validation w).1
  | BlockValidated due h ex => on_block_validated due h ex w
  | BlockValidationError due m => (on_block_validation_error due m w).1
  | ConsumeValidationOk due h ch => (consume_validation_ok due h ch w).1
  end.

Inductive reachable (k : Keys) (state : list EscrowEntry) : EscrowWatcher -> Prop :=
| reachable_new : reachable k state (new_watcher k state)
| reachable_run w c : reachable k state w -> call_ok c = true -> reachable k state (run w c).
End Run.

(** ** The invariant *)

Abbreviation outs w := (outpoint <$> entries w).

(** [block_index] lists, under each block hash, the positions of that block's entries. *)
Definition indexes (bi : gmap string (list nat)) (es : list EscrowEntry) : Prop :=
  forall h i, i ∈ default [] (bi !! h) <-> h <> EmptyString /\ exists e, es !! i = Some e /\ block_hash e = h.

(** The outpoints of every claim are reserved, and no outpoint is in two claims. *)
Definition reserved (m : gmap string InFlightClaim) (s : gset Outpoint) : Prop :=
  (forall t c, m !! t = Some c -> NoDup (outpoints c) /\ list_to_set (outpoints c) ⊆ s)
  /\ (forall t1 t2 c1 c2, t1 <> t2 -> m !! t1 = Some c1 -> m !! t2 = Some c2 ->
        (list_to_set (outpoints c1) : gset Outpoint) ## list_to_set (outpoints c2)).

Record WF (w : EscrowWatcher) : Prop := {
  wf_nodup : NoDup (outs w);
  wf_set : outpoint_set w = list_to_set (outs w);
  wf_index : indexes (block_index w) (entries w);
  wf_reserved : reserved (in_flight w) (in_flight_outpoints w);
  wf_few : (size (in_flight w) <= 4)%nat;
}.

Create HintDb watcher.
#[local] Hint Resolve wf_nodup wf_set wf_index wf_reserved wf_few : watcher.

(** ** Indexes *)

Lemma in_push_index h i j h' m :
  j ∈ default [] (push_index h i m !! h') <-> j ∈ default [] (m !! h') \/ h' = h /\ j = i.
Proof.
  unfold push_index. destruct (decide (h' = h)) as [->|Hne].
  - rewrite lookup_insert_eq. cbn. rewrite elem_of_app, list_elem_of_singleton. tauto.
  - rewrite lookup_insert_ne by done. naive_solver.
Qed.

Lemma indexes_push (bi : gmap string (list nat)) (es : list EscrowEntry) e : indexes bi es ->
  indexes (if bool_decide (block_hash e = EmptyString) then bi else push_index (block_hash e) (length es) bi) (es ++ [e]).
Proof.
  intros H h i.
  assert (Hl : (exists e', (es ++ [e]) !! i = Some e' /\ block_hash e' = h)
    <-> (exists e', es !! i = Some e' /\ block_hash e' = h) \/ i = length es /\ block_hash e = h).
  { destruct (Nat.lt_trichotomy i (length es)) as [Hi|[->|Hi]].
    - rewrite lookup_app_l by done. split; [naive_solver|]. intros [?|[? ?]]; [done|lia].
    - rewrite list_lookup_middle by done. rewrite (lookup_ge_None_2 es (length es)) by lia. naive_solver.
    - rewrite !lookup_ge_None_2 by (rewrite ?length_app; cbn; lia). split; [naive_solver|].
      intros [(? & ? & ?)|[? ?]]; [done|lia]. }
  rewrite Hl. case_bool_decide as He.
  - rewrite (H h i). intuition congruence.
  - rewrite in_push_index, (H h i). intuition congruence.
Qed.

Lemma indexes_same_hashes bi (f : EscrowEntry -> EscrowEntry) es : (forall e, block_hash (f e) = block_hash e) ->
  indexes bi es -> indexes bi (f <$> es).
Proof.
  intros Hf H h i. rewrite (H h i), list_lookup_fmap.
  destruct (es !! i) as [e|]; cbn; [|naive_solver]. split; intros (? & e' & [= <-] & <-); split_and!; try done; eexists; eauto.
Qed.

Lemma index_fold (es pre : list EscrowEntry) (acc : gset Outpoint * gmap string (list nat)) :
  acc.1 = list_to_set (outpoint <$> pre) -> indexes acc.2 pre ->
  let idx := foldl index_entry acc (imap (fun i e => ((length pre + i)%nat, e)) es) in
  idx.1 = list_to_set (outpoint <$> pre ++ es) /\ indexes idx.2 (pre ++ es).
Proof.
  revert pre acc. induction es as [|e es IH]; intros pre acc H1 H2; cbn [imap foldl].
  { by rewrite app_nil_r. }
  specialize (IH (pre ++ [e]) (index_entry acc (length pre + 0, e)%nat)).
  rewrite <- app_assoc in IH. cbn [app] in IH.
  replace (imap (fun i e => ((length (pre ++ [e]) + i)%nat, e)) es)
    with (imap ((fun i e => ((length pre + i)%nat, e)) ∘ S) es) in IH.
  2: { apply imap_ext. intros i x _. cbn. f_equal. rewrite length_app. cbn. lia. }
  rewrite length_app in IH. cbn [length] in IH.
  replace (imap (fun i e => ((length pre + 1 + i)%nat, e)) es)
    with (imap ((fun i e => ((length pre + i)%nat, e)) ∘ S) es) in IH.
  2: { apply imap_ext. intros i x _. cbn. f_equal. lia. }
  apply IH; unfold index_entry; cbn [fst snd].
  - rewrite H1, fmap_app, list_to_set_app_L. cbn. rewrite (union_empty_r_L {[outpoint e]}). set_solver.
  - rewrite Nat.add_0_r. by apply indexes_push.
Qed.

Lemma rebuild_ok w : NoDup (outs w) ->
  outpoint_set (rebuild_indexes w) = list_to_set (outs w) /\ indexes (block_index (rebuild_indexes w)) (entries w).
Proof.
  intros _. unfold rebuild_indexes. cbn.
  apply (index_fold (entries w) [] (∅, ∅)); [done|].
  intros h i. cbn. rewrite lookup_empty. cbn. split; [intros Hi; by apply not_elem_of_nil in Hi|].
  intros (_ & e & He & _). by rewrite lookup_nil in He.
Qed.

(** ** Claims in flight *)

Lemma release_spec s os : release s os = s ∖ list_to_set os.
Proof. revert s. induction os as [|o os IH]; intros s; cbn; [set_solver|]. unfold release in IH. rewrite IH. set_solver. Qed.

Lemma reserved_release m s t c : reserved m s -> m !! t = Some c -> reserved (delete t m) (release s (outpoints c)).
Proof.
  intros [Hin Hdj] Ht. rewrite release_spec. split.
  - intros t' c' (Hne & Ht')%lookup_delete_Some. destruct (Hin _ _ Ht') as [? Hsub]. split; [done|].
    pose proof (Hdj t t' c c' Hne Ht Ht'). set_solver.
  - intros t1 t2 c1 c2 Hne (_ & H1)%lookup_delete_Some (_ & H2)%lookup_delete_Some. by apply (Hdj t1 t2).
Qed.

Lemma reserved_insert m s t c : reserved m s -> NoDup (outpoints c) -> (list_to_set (outpoints c) : gset Outpoint) ## s ->
  reserved (<[t := c]> m) (list_to_set (outpoints c) ∪ s).
Proof.
  intros [Hin Hdj] Hnd Hfresh. split.
  - intros t' c' [(<- & <-)|(_ & Ht)]%lookup_insert_Some; [set_solver|].
    destruct (Hin _ _ Ht). set_solver.
  - intros t1 t2 c1 c2 Hne [(<- & <-)|(H1 & Ht1)]%lookup_insert_Some [(<- & <-)|(H2 & Ht2)]%lookup_insert_Some.
    + done.
    + destruct (Hin _ _ Ht2). set_solver.
    + destruct (Hin _ _ Ht1). set_solver.
    + by apply (Hdj t1 t2).
Qed.

Lemma size_delete_le `{Countable K} {A} (m : gmap K A) k : (size (delete k m) <= size m)%nat.
Proof. destruct (m !! k) eqn:E; [rewrite map_size_delete, E; lia|by rewrite delete_id by done]. Qed.

(** [expire_in_flight] releases expired claims one at a time: only the two in-flight fields change. *)
Lemma expire_fields daa w : let w' := expire_in_flight daa w in
  entries w' = entries w /\ outpoint_set w' = outpoint_set w /\ block_index w' = block_index w
  /\ keys w' = keys w /\ claims_held w' = claims_held w /\ validation_pending w' = validation_pending w
  /\ last_daa_score w' = last_daa_score w.
Proof.
  unfold expire_in_flight. generalize (filter (fun tc : string * InFlightClaim => expired daa tc.2 = true) (map_to_list (in_flight w))).
  intros l. revert w. induction l as [|tc l IH]; intros w; [done|]. cbn [foldl].
  destruct (IH (set_in_flight (delete tc.1 (in_flight w)) (release (in_flight_outpoints w) (outpoints tc.2)) w))
    as (-> & -> & -> & -> & -> & -> & ->). done.
Qed.

Lemma expire_loop (l : list (string * InFlightClaim)) w :
  NoDup l.*1 -> Forall (fun tc => in_flight w !! tc.1 = Some tc.2) l -> reserved (in_flight w) (in_flight_outpoints w) ->
  let w' := foldl (fun w tc => set_in_flight (delete tc.1 (in_flight w))
                     (release (in_flight_outpoints w) (outpoints tc.2)) w) w l in
  reserved (in_flight w') (in_flight_outpoints w')
  /\ in_flight w' = filter (fun tc => tc.1 ∉ l.*1) (in_flight w).
Proof.
  revert w. induction l as [|[t c] l IH]; intros w Hnd Hall Hres; cbn [foldl].
  { split; [done|]. rewrite map_filter_id; [done|]. intros. set_solver. }
  apply NoDup_cons in Hnd as [Ht Hnd]. apply Forall_cons in Hall as [Hc Hall].
  destruct (IH (set_in_flight (delete t (in_flight w)) (release (in_flight_outpoints w) (outpoints c)) w)) as [Hr Hf]; [done| | |].
  - cbn. apply Forall_forall. intros [t' c'] Hin. rewrite Forall_forall in Hall. cbn.
    rewrite lookup_delete_ne; [by apply (Hall _ Hin)|]. intros ->. apply Ht, list_elem_of_fmap. by exists (t', c').
  - cbn. by apply reserved_release.
  - split; [done|]. cbn [fst snd]. rewrite Hf. cbn [in_flight set_in_flight]. apply map_eq. intros t'. apply option_eq. intros c'.
    rewrite !map_lookup_filter_Some, lookup_delete_Some. cbn. rewrite not_elem_of_cons. naive_solver.
Qed.

(** The claims that have not expired stay, their outpoints reserved. *)
Lemma expire_spec daa w : reserved (in_flight w) (in_flight_outpoints w) ->
  let w' := expire_in_flight daa w in
  reserved (in_flight w') (in_flight_outpoints w')
  /\ in_flight w' = filter (fun tc => expired daa tc.2 = false) (in_flight w).
Proof.
  intros Hres. unfold expire_in_flight.
  destruct (expire_loop (filter (fun tc => expired daa tc.2 = true) (map_to_list (in_flight w))) w) as [Hr Hf]; [| |done|].
  - eapply sublist_NoDup; [apply (NoDup_fst_map_to_list (in_flight w))|]. apply fmap_sublist, sublist_filter.
  - apply Forall_forall. intros [t c] [_ Hin]%list_elem_of_filter. by apply elem_of_map_to_list.
  - split; [done|]. rewrite Hf. apply map_eq. intros t. apply option_eq. intros c.
    rewrite !map_lookup_filter_Some. cbn. rewrite list_elem_of_fmap. split; intros [Ht H]; (split; [done|]).
    + destruct (expired daa c) eqn:E; [|done]. exfalso. apply H. exists (t, c). split; [done|].
      apply list_elem_of_filter. split; [done|]. by apply elem_of_map_to_list.
    + intros ([t' c'] & -> & [He Hin]%list_elem_of_filter). apply elem_of_map_to_list in Hin. cbn in *. congruence.
Qed.

(** ** Operations that keep the outpoints and block hashes *)

Definition frame (es : list EscrowEntry) : list (Outpoint * string) := (fun e => (outpoint e, block_hash e)) <$> es.

Lemma frame_outs es : outpoint <$> es = fst <$> frame es.
Proof. unfold frame. by rewrite <- list_fmap_compose. Qed.

Lemma indexes_frame bi es es' : frame es' = frame es -> indexes bi es -> indexes bi es'.
Proof.
  intros Hf H h i. rewrite (H h i).
  assert (Hi : (exists e, es' !! i = Some e /\ block_hash e = h) <-> exists e, es !! i = Some e /\ block_hash e = h); [|by rewrite Hi].
  assert (Heq : forall l, (exists e, l !! i = Some e /\ block_hash e = h) <-> (snd <$> frame l) !! i = Some h).
  { intros l. unfold frame. rewrite <- list_fmap_compose, list_lookup_fmap.
    destruct (l !! i) as [e|]; cbn; naive_solver. }
  by rewrite !Heq, Hf.
Qed.

Lemma frame_fmap f es : (forall e, outpoint (f e) = outpoint e /\ block_hash (f e) = block_hash e) -> frame (f <$> es) = frame es.
Proof.
  intros Hf. unfold frame. rewrite <- list_fmap_compose. apply list_fmap_ext. intros _ e _. cbn.
  by destruct (Hf e) as [-> ->].
Qed.

Lemma frame_insert i e e' es : es !! i = Some e -> outpoint e' = outpoint e -> block_hash e' = block_hash e ->
  frame (<[i := e']> es) = frame es.
Proof.
  intros Hi Ho Hh. unfold frame. rewrite list_fmap_insert, Ho, Hh. apply list_insert_id.
  by rewrite list_lookup_fmap, Hi.
Qed.

Lemma frame_update o f es : (forall e, outpoint (f e) = outpoint e /\ block_hash (f e) = block_hash e) ->
  frame (update_entry o f es) = frame es.
Proof.
  intros Hf. induction es as [|e es IH]; [done|]. cbn [update_entry]. case_bool_decide.
  - unfold frame. cbn. by destruct (Hf e) as [-> ->].
  - unfold frame in *. cbn. by rewrite IH.
Qed.

Lemma wf_frame w es : WF w -> frame es = frame (entries w) -> WF (set_entries es w).
Proof.
  intros [H1 H2 H3 H4 H5] Hf. rewrite frame_outs in H1, H2.
  split; cbn; [by rewrite frame_outs, Hf|by rewrite frame_outs, Hf|by eapply indexes_frame|done..].
Qed.

Lemma wf_dirty d w : WF w -> WF (set_dirty d w).
Proof. by intros []; split. Qed.
Lemma wf_seen daa n w : WF w -> WF (set_seen daa n w).
Proof. by intros []; split. Qed.
Lemma wf_held h w : WF w -> WF (set_held h w).
Proof. by intros []; split. Qed.
Lemma wf_validation p a b w : WF w -> WF (set_validation p a b w).
Proof. by intros []; split. Qed.
Lemma wf_flush due w : WF w -> WF (maybe_flush due w).
Proof. intros H. unfold maybe_flush. destruct (_ && _); [by apply wf_dirty|done]. Qed.
#[local] Hint Resolve wf_dirty wf_seen wf_held wf_validation wf_flush : watcher.

Lemma wf_foldl {X} (f : EscrowWatcher -> X -> EscrowWatcher) (l : list X) w :
  (forall w x, x ∈ l -> WF w -> WF (f w x)) -> WF w -> WF (foldl f w l).
Proof.
  revert w. induction l as [|x l IH]; intros w Hf Hw; [done|]. cbn. apply IH.
  - intros w' y Hy. apply Hf. by apply list_elem_of_further.
  - apply Hf; [apply list_elem_of_here|done].
Qed.

Lemma wf_push key e w : WF w -> outpoint e = key -> key ∉ outpoint_set w -> WF (push_entry key e w).
Proof.
  intros [H1 H2 H3 H4 H5] <- Hk. apply wf_dirty. split; cbn.
  - rewrite fmap_app. apply NoDup_app. split_and!; [done| |apply NoDup_singleton].
    intros o Ho ->%list_elem_of_singleton. apply Hk. rewrite H2. by apply elem_of_list_to_set.
  - rewrite fmap_app, list_to_set_app_L, H2. cbn. set_solver.
  - by apply indexes_push.
  - done.
  - done.
Qed.

Lemma filter_full {A} (P : A -> bool) (l : list A) :
  length (filter (fun x => P x = true) l) = length l -> filter (fun x => P x = true) l = l.
Proof.
  induction l as [|x l IH]; [done|]. pose proof (length_filter (fun x => P x = true) l).
  destruct (P x) eqn:E; [rewrite filter_cons_True by done|rewrite filter_cons_False by congruence]; cbn [length]; intros.
  - f_equal. apply IH. lia.
  - lia.
Qed.

Lemma wf_compact w : WF w -> WF (compact w).
Proof.
  intros Hw. pose proof Hw as [H1 _ _ H4 H5]. unfold compact. destruct (Nat.eqb_spec (length (filter (fun e => live e = true) (entries w))) (length (entries w))) as [E|].
  - apply wf_frame; [done|]. f_equal. by apply filter_full.
  - apply wf_dirty.
    assert (Hnd : NoDup (outpoint <$> filter (fun e => live e = true) (entries w))).
    { eapply sublist_NoDup; [exact H1|]. apply fmap_sublist, sublist_filter. }
    destruct (rebuild_ok (set_entries (filter (fun e => live e = true) (entries w)) w)) as [Hs Hi]; [done|].
    split; cbn in *; done.
Qed.

Section Preservation.
Context `{C : Crates}.

Lemma wf_expire daa w : WF w -> WF (expire_in_flight daa w).
Proof.
  intros [H1 H2 H3 H4 H5]. destruct (expire_spec daa w H4) as [Hr Hf].
  destruct (expire_fields daa w) as (He & Ho & Hb & _).
  split; rewrite ?He, ?Ho, ?Hb; try done. rewrite Hf.
  etransitivity; [|exact H5]. apply map_subseteq_size, map_filter_subseteq.
Qed.

Lemma wf_slash_reds reds w : WF w -> WF (slash_reds reds w).
Proof.
  intros Hw. unfold slash_reds. apply wf_foldl; [|done]. intros w1 red _ H1. apply wf_foldl; [|done].
  intros w2 i _ H2. unfold slash_red. destruct (entries w2 !! i) as [e|] eqn:Ei; [|done].
  destruct (_ && _); [|done]. apply wf_dirty, wf_frame; [done|]. by apply (frame_insert i e).
Qed.

Lemma wf_track_block b daa hash w : block_ok b = true -> WF w -> WF (track_block_escrows b daa hash w).
Proof.
  intros Hb Hw. unfold track_block_escrows.
  destruct (list_find _ _) as [[i tx]|] eqn:Ef; [|done].
  apply list_find_Some in Ef as (Hi & _). unfold block_ok in Hb. rewrite forallb_forall in Hb.
  pose proof (Hb tx ltac:(by apply list_elem_of_In, list_elem_of_lookup_2 with i)) as Hlen%Z.ltb_lt.
  destruct (transaction_id tx) as [txid|]; [|done]. destruct (bool_decide (txid = EmptyString)); [done|].
  apply wf_foldl; [|done]. intros w' [j out] Hj Hw'. unfold track_output. cbn [fst snd].
  destruct (script_public_key out) as [[v s]|]; [|done]. destruct (script_window _ _) as [window|]; [|done].
  destruct (v =? 0); [|done]. case_bool_decide as Hk; [done|]. cbn [andb negb].
  apply wf_push; [done| |done]. unfold outpoint. cbn. f_equal. apply wrap_id.
  apply list_elem_of_lookup in Hj as (k & Hk'). rewrite list_lookup_imap in Hk'.
  destruct (outputs tx !! k) eqn:Eo; [|done]. injection Hk' as <- _. apply lookup_lt_Some in Eo.
  unfold fits, zlen in *. lia.
Qed.

Lemma heal_frame daa e : outpoint (heal daa e) = outpoint e /\ block_hash (heal daa e) = block_hash e.
Proof.
  unfold heal, heal_orphan, heal_cap. destruct (negb _ && _).
  all: match goal with |- context [orphan_slashed ?x] => destruct (orphan_slashed x) end; [|done].
  all: match goal with |- context [match ?x with Some _ => _ | None => _ end] => destruct (match x with Some _ => _ | None => _ end) end; done.
Qed.

Lemma heal_entries_fields daa w : let w' := heal_entries daa w in
  entries w' = heal daa <$> entries w /\ in_flight w' = in_flight w
  /\ in_flight_outpoints w' = in_flight_outpoints w /\ keys w' = keys w.
Proof. unfold heal_entries. by destruct (existsb _ _). Qed.

Lemma wf_heal daa w : WF w -> WF (heal_entries daa w).
Proof.
  intros Hw. unfold heal_entries.
  assert (H : WF (set_entries (heal daa <$> entries w) w)) by (apply wf_frame; [done|]; apply frame_fmap, heal_frame).
  destruct (existsb _ _); [by apply wf_dirty|done].
Qed.

(** ** The batch that [find_claim] ships *)

Lemma omap_cons {A B} (f : A -> option B) x l :
  omap f (x :: l) = match f x with Some y => y :: omap f l | None => omap f l end.
Proof. done. Qed.

Lemma nodup_selected (l : list nat) es : NoDup l -> NoDup (outpoint <$> es) ->
  NoDup (outpoint <$> omap (fun i => es !! i) l).
Proof.
  intros Hl He. induction l as [|i l IH]; [constructor|]. apply NoDup_cons in Hl as [Hi Hl].
  rewrite omap_cons. destruct (es !! i) as [e|] eqn:Ei; [|by apply IH]. cbn. constructor; [|by apply IH].
  intros (e' & Ho & Hin)%list_elem_of_fmap. apply list_elem_of_omap in Hin as (j & Hj & Ej).
  assert (i = j); [|by subst]. apply (NoDup_lookup (outpoint <$> es) i j (outpoint e)); [done| |];
    rewrite list_lookup_fmap, ?Ei, ?Ej; cbn; by f_equal.
Qed.

Definition batch_of (daa : Z) (w : EscrowWatcher) : list EscrowEntry :=
  omap (fun i => entries w !! i) (select_claim_batch (entries w) daa (in_flight_outpoints w)).

Lemma batch_of_spec daa w : NoDup (outs w) ->
  NoDup (outpoint <$> batch_of daa w)
  /\ zlen (batch_of daa w) <= MAX_CLAIM_BATCH
  /\ Forall (fun e => e ∈ entries w /\ eligible daa (in_flight_outpoints w) e = true /\ zlen (batch_of daa w) <= cap_of e)
       (batch_of daa w).
Proof.
  intros Hnd. unfold batch_of, select_claim_batch.
  destruct (first_releasable_spec (entries w) daa (in_flight_outpoints w) (candidates (entries w) (csv_window_for_daa daa)))
    as [[-> _]|(c & _ & -> & _)]; [split_and!; [constructor|done|constructor]|].
  destruct (candidate_sound (entries w) daa (in_flight_outpoints w) c) as (Hndi & Hlen & Hall & _).
  generalize dependent (candidate_batch (entries w) daa (in_flight_outpoints w) c). intros l Hl Hlen Hall.
  assert (Hz : zlen (omap (fun i => entries w !! i) l) <= zlen l).
  { clear. induction l as [|i l IH]; [done|]. rewrite omap_cons, zlen_cons. destruct (_ !! _); rewrite ?zlen_cons; lia. }
  split_and!; [by apply nodup_selected|lia|].
  apply Forall_forall. intros e (i & Hi & He)%list_elem_of_omap. rewrite Forall_forall in Hall.
  destruct (Hall i Hi) as (e' & He' & Ha & Hcap). simplify_eq. apply admissible_spec in Ha as (_ & ? & _).
  split_and!; [by apply list_elem_of_lookup_2 with i|done|lia].
Qed.

(** The two ways a call of [find_claim] can go. *)
Lemma find_claim_inv daa w :
  ((find_claim daa w).2 = None /\ ((find_claim daa w).1 = w \/ (find_claim daa w).1 = heal_entries daa w))
  \/ exists txid tx, let w' := heal_entries daa w in let batch := batch_of daa w' in
     claims_held w = false /\ (size (in_flight w) < 4)%nat /\ validation_pending w = ∅
     /\ build_claim_tx (keys w') batch = Some (txid, tx)
     /\ find_claim daa w
        = (set_in_flight (<[txid := {| outpoints := outpoint <$> batch; submit_daa := daa; gross_sompi := total_sompi batch |}]> (in_flight w'))
             (list_to_set (outpoint <$> batch) ∪ in_flight_outpoints w') w', Some tx).
Proof.
  unfold find_claim. destruct (claims_held w || _ || _) eqn:Eg; [auto|].
  rewrite !orb_false_iff, Z.leb_gt in Eg. destruct Eg as [[Hh Hs] Hv].
  fold (batch_of daa (heal_entries daa w)).
  destruct (build_claim_tx _ _) as [[txid tx]|] eqn:Eb; [|auto]. right. exists txid, tx.
  unfold validation_in_progress, MAX_IN_FLIGHT_CLAIMS in *. case_bool_decide; [|done]. split_and!; try done. lia.
Qed.

Lemma wf_find_claim daa w : WF w -> WF (find_claim daa w).1.
Proof.
  intros Hw. pose proof (wf_heal daa w Hw) as Hh.
  destruct (find_claim_inv daa w) as [[_ [-> | ->]]|(txid & tx & _ & Hs & _ & _ & ->)]; [done..|].
  destruct (heal_entries_fields daa w) as (_ & Hf & _). cbn [fst].
  destruct Hh as [H1 H2 H3 H4 H5]. destruct (batch_of_spec daa (heal_entries daa w) H1) as (Hnd & _ & Hall).
  split; cbn; [done..| |].
  - apply (reserved_insert _ _ _ {| outpoints := _ |}); [done..|]. cbn. apply elem_of_disjoint.
    intros o (e & -> & He)%elem_of_list_to_set%list_elem_of_fmap Hin. rewrite Forall_forall in Hall.
    destruct (Hall e He) as (_ & Hel & _). unfold eligible in Hel. rewrite !andb_true_iff in Hel.
    destruct Hel as [_ Hel]. by case_bool_decide.
  - rewrite map_size_insert, Hf. destruct (_ !! _); unfold id; lia.
Qed.
End Preservation.

(** ** Settling a claim *)

Section Settlement.
Context `{C : Crates}.

(** Each outpoint has one entry, so the loop over outpoints is a map over the entries. *)
Definition on_outpoints (os : list Outpoint) (f : EscrowEntry -> EscrowEntry) (e : EscrowEntry) : EscrowEntry :=
  if bool_decide (outpoint e ∈ os) then f e else e.

Lemma update_entry_fmap o f es : NoDup (outpoint <$> es) -> update_entry o f es = on_outpoints [o] f <$> es.
Proof.
  unfold on_outpoints. induction es as [|e es IH]; intros H; [done|]. cbn in H |- *.
  apply NoDup_cons in H as [Hni Hnd]. case_bool_decide as He.
  - rewrite bool_decide_eq_true_2 by (rewrite He; apply list_elem_of_here). f_equal.
    symmetry. etransitivity; [|apply list_fmap_id]. apply list_fmap_ext. intros i x Hx.
    rewrite bool_decide_eq_false_2; [done|]. intros Hin%list_elem_of_singleton. apply Hni.
    apply list_elem_of_fmap. exists x. split; [by rewrite He|by apply list_elem_of_lookup_2 with i].
  - rewrite bool_decide_eq_false_2; [by rewrite IH|]. by intros Hin%list_elem_of_singleton.
Qed.

Lemma update_all os f es : NoDup (outpoint <$> es) -> NoDup os ->
  (forall e, outpoint (f e) = outpoint e) ->
  foldl (fun es o => update_entry o f es) es os = on_outpoints os f <$> es.
Proof.
  intros Hes Hos Hf. revert es Hes. induction os as [|o os IH]; intros es Hes; cbn [foldl].
  { symmetry. etransitivity; [|apply list_fmap_id]. apply list_fmap_ext. intros i x _. unfold on_outpoints.
    rewrite bool_decide_eq_false_2; [done|]. apply not_elem_of_nil. }
  apply NoDup_cons in Hos as [Ho Hos].
  assert (Houts : outpoint <$> update_entry o f es = outpoint <$> es).
  { rewrite update_entry_fmap by done. rewrite <- list_fmap_compose. apply list_fmap_ext. intros i x _.
    cbn. unfold on_outpoints. case_bool_decide; auto. }
  rewrite IH; [|done|by rewrite Houts]. rewrite update_entry_fmap by done. rewrite <- list_fmap_compose.
  apply list_fmap_ext. intros i x _. cbn. unfold on_outpoints.
  repeat case_bool_decide; rewrite ?Hf in *; rewrite ?elem_of_cons, ?elem_of_nil in *; naive_solver.
Qed.

Lemma outpoint_set_claimed e : outpoint (set_claimed e) = outpoint e.
Proof. done. Qed.

(** Sompi of the entries at [os] not yet claimed. *)
Definition newly_claimed (os : list Outpoint) (es : list EscrowEntry) : Z :=
  foldr (fun e t => (if bool_decide (outpoint e ∈ os) && negb (claimed e) then amount_sompi e else 0) + t) 0 es.

Lemma newly_claimed_cons o os es : o ∉ os -> newly_claimed (o :: os) es = newly_claimed [o] es + newly_claimed os es.
Proof.
  intros Ho. induction es as [|e es IH]; [done|]. cbn [newly_claimed foldr] in *. unfold newly_claimed in *. rewrite IH.
  repeat case_bool_decide; rewrite ?elem_of_cons, ?elem_of_nil in *; destruct (claimed e); cbn [andb negb]; try lia; naive_solver.
Qed.

Lemma newly_claimed_update o os es : o ∉ os -> newly_claimed os (update_entry o set_claimed es) = newly_claimed os es.
Proof.
  intros Ho. induction es as [|e es IH]; [done|]. cbn [update_entry]. case_bool_decide as He.
  - unfold newly_claimed. cbn [foldr]. rewrite outpoint_set_claimed, He.
    by rewrite (bool_decide_eq_false_2 (o ∈ os)).
  - unfold newly_claimed in *. cbn [foldr]. by rewrite IH.
Qed.

Lemma find_entry_cons o e es : find_entry o (e :: es) = if bool_decide (outpoint e = o) then Some e else find_entry o es.
Proof.
  unfold find_entry. cbn [list_find]. case_decide; case_bool_decide; try done. by destruct (list_find _ es) as [[]|].
Qed.

Lemma newly_claimed_one o es : NoDup (outpoint <$> es) ->
  newly_claimed [o] es = match find_entry o es with Some e => if claimed e then 0 else amount_sompi e | None => 0 end.
Proof.
  intros Hnd. induction es as [|e es IH]; [done|]. cbn in Hnd. apply NoDup_cons in Hnd as [Hni Hnd].
  rewrite find_entry_cons. unfold newly_claimed in *. cbn [foldr]. rewrite IH by done. clear IH.
  case_bool_decide as Hin; case_bool_decide as He; rewrite ?list_elem_of_singleton in Hin; try done.
  cbn [andb]. replace (find_entry o es) with (@None EscrowEntry); [destruct (claimed e); cbn [negb]; lia|].
  symmetry. unfold find_entry. destruct (list_find _ es) as [[j x]|] eqn:Ef; [|done].
  apply list_find_Some in Ef as (Hx & Ho & _). exfalso. apply Hni, list_elem_of_fmap. exists x.
  split; [congruence|by apply list_elem_of_lookup_2 with j].
Qed.

Lemma mark_claimed_step o acc : mark_claimed_one acc o
  = (update_entry o set_claimed acc.1,
     match find_entry o acc.1 with
     | Some e => if claimed e then acc.2 else wrap 64 (acc.2 + amount_sompi e)
     | None => acc.2
     end).
Proof.
  unfold mark_claimed_one. destruct (find_entry o acc.1) as [e|] eqn:E; [done|].
  destruct acc as [es t]. cbn [fst snd] in *. f_equal. symmetry. clear -E. induction es as [|e es IH]; [done|].
  rewrite find_entry_cons in E. cbn [update_entry]. case_bool_decide; [done|]. by rewrite IH.
Qed.

Lemma mark_entries_claimed_spec os es : NoDup (outpoint <$> es) -> NoDup os ->
  mark_entries_claimed os es = (on_outpoints os set_claimed <$> es, wrap 64 (newly_claimed os es)).
Proof.
  intros Hes Hos. rewrite <- update_all by done. unfold mark_entries_claimed.
  enough (H : forall t, foldl mark_claimed_one (es, wrap 64 t) os
    = (foldl (fun es o => update_entry o set_claimed es) es os, wrap 64 (t + newly_claimed os es))) by apply (H 0).
  revert es Hes. induction os as [|o os IH]; intros es Hes t; cbn [foldl].
  { f_equal. f_equal. unfold newly_claimed. enough (foldr (fun e t => (if bool_decide (outpoint e ∈ @nil Outpoint) && negb (claimed e) then amount_sompi e else 0) + t) 0 es = 0) by lia.
    induction es as [|e es IHes]; [done|]. cbn in Hes. apply NoDup_cons in Hes as [_ Hes]. cbn [foldr]. by rewrite IHes. }
  apply NoDup_cons in Hos as [Ho Hos]. rewrite mark_claimed_step. cbn [fst snd].
  assert (Hes' : NoDup (outpoint <$> update_entry o set_claimed es)) by (rewrite frame_outs, frame_update, <- frame_outs by done; done).
  replace (match find_entry o es with Some e => if claimed e then wrap 64 t else wrap 64 (wrap 64 t + amount_sompi e) | None => wrap 64 t end)
    with (wrap 64 (t + newly_claimed [o] es)).
  - rewrite IH by done. f_equal. rewrite newly_claimed_update, (newly_claimed_cons o os) by done. f_equal. lia.
  - rewrite newly_claimed_one by done. destruct (find_entry o es) as [e|]; [destruct (claimed e)|]; rewrite ?Z.add_0_r; try done.
    unfold wrap. by rewrite Zplus_mod_idemp_l.
Qed.

Lemma reject_frame orphan seq n daa e : let e' := reject_entry orphan seq n daa e in
  outpoint e' = outpoint e /\ block_hash e' = block_hash e /\ claimed e' = claimed e /\ amount_sompi e' = amount_sompi e.
Proof.
  unfold reject_entry. destruct orphan; [destruct (1 <? n); [|destruct (_ <=? _)]|destruct seq; [|destruct (1 <? n)]]; done.
Qed.
End Settlement.

Section Responses.
Context `{C : Crates}.

Lemma matched_in_flight rtxid err w t : matched_txid rtxid err w = Some t -> exists c, in_flight w !! t = Some c.
Proof.
  unfold matched_txid. destruct (in_flight w !! rtxid) as [c|] eqn:E; [intros [= <-]; eauto|].
  destruct err as [msg|]; [|done]. destruct (list_find _ _) as [[i [t' c]]|] eqn:Ef; [|done].
  intros [= <-]. apply list_find_Some in Ef as (Hi & _). exists c.
  apply elem_of_map_to_list. by apply list_elem_of_lookup_2 with i.
Qed.

(** What a response to one of the claims does to the entries, and reports. *)
Definition settled (error : option string) (c : InFlightClaim) (w : EscrowWatcher) : list EscrowEntry * SubmitResponseOutcome :=
  if accepted_error error
  then (on_outpoints (outpoints c) set_claimed <$> entries w,
        Accepted (zlen (outpoints c)) (wrap 64 (newly_claimed (outpoints c) (entries w))))
  else (on_outpoints (outpoints c)
          (reject_entry (contains (default EmptyString error) "orphan")
             (contains (default EmptyString error) "sequence lock") (zlen (outpoints c)) (last_daa_score w))
        <$> entries w, Handled).

Lemma on_submit_response_spec due rtxid err w t c : WF w -> matched_txid rtxid err w = Some t ->
  in_flight w !! t = Some c ->
  on_submit_response due rtxid err w
  = (maybe_flush due (mark_dirty (set_entries (settled err c w).1
       (set_in_flight (delete t (in_flight w)) (release (in_flight_outpoints w) (outpoints c)) w))),
     (settled err c w).2).
Proof.
  intros [H1 _ _ [H4 _] _] Hm Hc. destruct (H4 _ _ Hc) as [Hnd _].
  unfold on_submit_response, settled. rewrite Hm, Hc. destruct (accepted_error err).
  - cbn [entries set_in_flight]. by rewrite mark_entries_claimed_spec.
  - cbn [entries set_in_flight last_daa_score]. rewrite update_all; [done..|]. intros e. apply reject_frame.
Qed.

Lemma maybe_flush_fields due w : let w' := maybe_flush due w in
  entries w' = entries w /\ in_flight w' = in_flight w /\ in_flight_outpoints w' = in_flight_outpoints w.
Proof. unfold maybe_flush. by destruct (_ && _). Qed.

Lemma frame_on_outpoints os f es : (forall e, outpoint (f e) = outpoint e /\ block_hash (f e) = block_hash e) ->
  frame (on_outpoints os f <$> es) = frame es.
Proof. intros Hf. apply frame_fmap. intros e. unfold on_outpoints. case_bool_decide; auto. Qed.

Lemma settled_frame err c w : frame (settled err c w).1 = frame (entries w).
Proof.
  unfold settled. destruct (accepted_error err); apply frame_on_outpoints; [done|].
  intros e. split; apply reject_frame.
Qed.

Lemma wf_submit due rtxid err w : WF w -> WF (on_submit_response due rtxid err w).1.
Proof.
  intros Hw. destruct (matched_txid rtxid err w) as [t|] eqn:Hm; [|unfold on_submit_response; by rewrite Hm].
  destruct (matched_in_flight _ _ _ _ Hm) as [c Hc]. rewrite (on_submit_response_spec due _ _ _ _ _ Hw Hm Hc).
  apply wf_flush, wf_dirty, wf_frame; [|exact (settled_frame err c w)].
  destruct Hw as [H1 H2 H3 H4 H5]. split; [done..| |]; cbn; [by apply reserved_release|].
  pose proof (size_delete_le (in_flight w) t). lia.
Qed.

Lemma wf_purge_ghost w i : WF w -> WF (purge_ghost w i).
Proof.
  intros Hw. unfold purge_ghost. destruct (entries w !! i) as [e|] eqn:Ei; [|done]. destruct (live e); [|done].
  apply wf_validation, wf_frame; [done|]. by apply (frame_insert i e).
Qed.

Lemma wf_finish due w : WF w -> WF (finish_validation_if_done due w).
Proof. intros Hw. unfold finish_validation_if_done. destruct (validation_in_progress w); auto with watcher. Qed.

Lemma wf_block_validated due h ex w : WF w -> WF (on_block_validated due h ex w).
Proof.
  intros Hw. unfold on_block_validated. case_bool_decide; [|done]. apply wf_finish.
  destruct ex; [by apply wf_validation|]. apply wf_dirty, wf_foldl; [|by apply wf_validation].
  intros w' i _. apply wf_purge_ghost.
Qed.

(** [handle_block] up to the claim: what the block changes. *)
Definition observe (daa : Z) (b : RpcBlock) (w : EscrowWatcher) : EscrowWatcher :=
  let w := maybe_compact (expire_in_flight daa (set_seen daa (blocks_since_compact w) w)) in
  let w := match verbose_data b with Some v => slash_reds (merge_set_reds_hashes v) w | None => w end in
  match verbose_data b with
  | Some v => if is_chain_block v then track_block_escrows b daa (hash v) w else w
  | None => w
  end.

Lemma handle_block_eq due b w : handle_block due b w =
  match daa_score b with
  | None => (w, None)
  | Some daa => (maybe_flush due (find_claim daa (observe daa b w)).1, (find_claim daa (observe daa b w)).2)
  end.
Proof.
  unfold handle_block, observe. destruct (daa_score b); [|done]. cbn zeta. by destruct (find_claim _ _).
Qed.

Lemma wf_maybe_compact w : WF w -> WF (maybe_compact w).
Proof. intros Hw. unfold maybe_compact. destruct (_ <=? _); [apply wf_compact|]; by apply wf_seen. Qed.

Lemma wf_observe daa b w : block_ok b = true -> WF w -> WF (observe daa b w).
Proof.
  intros Hb Hw. unfold observe.
  assert (H : WF (maybe_compact (expire_in_flight daa (set_seen daa (blocks_since_compact w) w))))
    by (by apply wf_maybe_compact, wf_expire, wf_seen).
  destruct (verbose_data b) as [v|]; [|done].
  destruct (is_chain_block v); [apply wf_track_block; [done|]|]; by apply wf_slash_reds.
Qed.

Lemma wf_handle_block due b w : block_ok b = true -> WF w -> WF (handle_block due b w).1.
Proof.
  intros Hb Hw. rewrite handle_block_eq. destruct (daa_score b) as [daa|]; [|done].
  by apply wf_flush, wf_find_claim, wf_observe.
Qed.

Lemma wf_run w c : call_ok c = true -> WF w -> WF (run w c).
Proof.
  intros Hc Hw. destruct c; cbn in Hc |- *.
  - by apply wf_handle_block.
  - by apply wf_submit.
  - unfold track_inference_escrow. destruct (_ || _) eqn:E; [done|]. apply orb_false_iff in E as [_ E].
    apply bool_decide_eq_false in E. by apply wf_flush, wf_push.
  - by apply wf_held.
  - by apply wf_validation.
  - by apply wf_block_validated.
  - unfold on_block_validation_error. destruct (list_find _ _) as [[i h]|]; [|done].
    by apply wf_finish, wf_validation.
  - unfold consume_validation_ok. case_bool_decide; [by apply wf_block_validated|done].
Qed.

Lemma wf_new k state : NoDup (outpoint <$> state) -> WF (new_watcher k state).
Proof.
  intros Hnd. unfold new_watcher.
  match goal with |- WF (rebuild_indexes ?w) => destruct (rebuild_ok w Hnd) as [Hs Hi] end.
  split; [done|done|done| |]; cbn.
  - split; intros; by rewrite lookup_empty in *.
  - rewrite map_size_empty. lia.
Qed.
End Responses.

(** ** What a call may do to the entries *)

(** The same output with the same verdict on being claimed. *)
Definition same_coin (e e' : EscrowEntry) : Prop :=
  outpoint e' = outpoint e /\ amount_sompi e' = amount_sompi e /\ csv_window e' = csv_window e
  /\ confirm_daa e' = confirm_daa e /\ claimed e' = claimed e.

(** Entries are updated in place, and new ones appended unclaimed. *)
Definition evolves (w w' : EscrowWatcher) : Prop :=
  exists es extra, entries w' = es ++ extra /\ Forall2 same_coin (entries w) es
                   /\ Forall (fun e => claimed e = false) extra.

#[export] Instance same_coin_preorder : PreOrder same_coin.
Proof. split; unfold same_coin; [by intros e|]. intros e e' e'' (?&?&?&?&?) (?&?&?&?&?). split_and!; congruence. Qed.

#[export] Instance evolves_preorder : PreOrder evolves.
Proof.
  split.
  - intros w. exists (entries w), []. rewrite app_nil_r. split_and!; [done| |done]. by apply Forall_Forall2_diag, Forall_true.
  - intros w1 w2 w3 (es & ex & H2 & Hf & Hx) (es' & ex' & H3 & Hf' & Hx').
    rewrite H2 in Hf'. apply Forall2_app_inv_l in Hf' as (a & b & Ha & Hb & ->).
    exists a, (b ++ ex'). rewrite H3, app_assoc. split_and!; [done|by etransitivity|].
    apply Forall_app. split; [|done]. clear -Hx Hb.
    induction Hb as [|x y l k (_&_&_&_&Hc) _ IH]; [constructor|]. apply Forall_cons in Hx as [? ?].
    constructor; [congruence|by apply IH].
Qed.

Section Evolution.
Context `{C : Crates}.

Lemma evolves_entries w w' : entries w' = entries w -> evolves w w'.
Proof.
  intros H. exists (entries w), []. rewrite app_nil_r, H. split_and!; [done| |done].
  by apply Forall_Forall2_diag, Forall_true.
Qed.

Lemma evolves_fmap f w w' : entries w' = f <$> entries w -> (forall e, same_coin e (f e)) -> evolves w w'.
Proof.
  intros H Hf. exists (f <$> entries w), []. rewrite app_nil_r, H. split_and!; [done| |done].
  apply Forall2_fmap_r. by apply Forall_Forall2_diag, Forall_true.
Qed.

Lemma evolves_insert i e e' w w' : entries w' = <[i := e']> (entries w) -> entries w !! i = Some e -> same_coin e e' ->
  evolves w w'.
Proof.
  intros H Hi Hs. exists (<[i := e']> (entries w)), []. rewrite app_nil_r, H. split_and!; [done| |done].
  rewrite <- (list_insert_id (entries w) i e Hi) at 1. apply Forall2_insert; [|done].
  by apply Forall_Forall2_diag, Forall_true.
Qed.

Lemma evolves_foldl {X} (f : EscrowWatcher -> X -> EscrowWatcher) l w :
  (forall w x, evolves w (f w x)) -> evolves w (foldl f w l).
Proof. intros Hf. revert w. induction l as [|x l IH]; intros w; [done|]. cbn. etransitivity; [apply Hf|apply IH]. Qed.

Lemma evolves_push key e w : claimed e = false -> evolves w (push_entry key e w).
Proof.
  intros He. exists (entries w), [e]. split_and!; [done|by apply Forall_Forall2_diag, Forall_true|by constructor].
Qed.

Lemma evolves_flush due w : evolves w (maybe_flush due w).
Proof. by apply evolves_entries, maybe_flush_fields. Qed.

Lemma evolves_slash_reds reds w : evolves w (slash_reds reds w).
Proof.
  apply evolves_foldl. intros w1 red. apply evolves_foldl. intros w2 i. unfold slash_red.
  destruct (entries w2 !! i) as [e|] eqn:Ei; [|done]. destruct (_ && _); [|done].
  by apply (evolves_insert i e (set_slashed e)).
Qed.

Lemma evolves_track b daa h w : evolves w (track_block_escrows b daa h w).
Proof.
  unfold track_block_escrows. destruct (list_find _ _) as [[]|]; [|done]. destruct (transaction_id _); [|done].
  destruct (bool_decide _); [done|]. apply evolves_foldl. intros w' io. unfold track_output.
  destruct (script_public_key _) as [[v s']|]; [|done]. destruct (script_window _ _); [|done].
  destruct (_ && _); [by apply evolves_push|done].
Qed.

Lemma heal_same_coin daa e : same_coin e (heal daa e).
Proof.
  unfold heal, heal_orphan, heal_cap. destruct (negb _ && _).
  all: match goal with |- context [orphan_slashed ?x] => destruct (orphan_slashed x) end; [|done].
  all: match goal with |- context [match ?x with Some _ => _ | None => _ end] => destruct (match x with Some _ => _ | None => _ end) end; done.
Qed.

Lemma reject_same_coin orphan lock n daa e : same_coin e (reject_entry orphan lock n daa e).
Proof.
  unfold reject_entry. destruct orphan; [destruct (1 <? n); [|destruct (_ <=? _)]|destruct lock; [|destruct (1 <? n)]]; done.
Qed.

Lemma settled_same_coin err c w e' : e' ∈ (settled err c w).1 -> accepted_error err = false ->
  exists e, e ∈ entries w /\ same_coin e e'.
Proof.
  unfold settled. intros Hin Ha. rewrite Ha in Hin. apply list_elem_of_fmap in Hin as (e & -> & Hin). exists e.
  split; [done|]. unfold on_outpoints. case_bool_decide; [apply reject_same_coin|done].
Qed.

Lemma settled_keeps err c w e : e ∈ entries w -> exists e', e' ∈ (settled err c w).1
  /\ outpoint e' = outpoint e /\ amount_sompi e' = amount_sompi e /\ csv_window e' = csv_window e /\ confirm_daa e' = confirm_daa e.
Proof.
  intros Hin. unfold settled. destruct (accepted_error err); (eexists; split; [by apply list_elem_of_fmap_2|]);
    unfold on_outpoints; case_bool_decide; try done.
  destruct (reject_same_coin (contains (default EmptyString err) "orphan") (contains (default EmptyString err) "sequence lock")
    (zlen (outpoints c)) (last_daa_score w) e) as (? & ? & ? & ? & _). done.
Qed.

Lemma evolves_find_claim daa w : evolves w (find_claim daa w).1.
Proof.
  destruct (heal_entries_fields daa w) as (He & _).
  destruct (find_claim_inv daa w) as [[_ [-> | ->]]|(txid & tx & _ & _ & _ & _ & ->)]; [done| |];
    (eapply evolves_fmap; [exact He|apply heal_same_coin]).
Qed.

Lemma evolves_validated due h ex w : evolves w (on_block_validated due h ex w).
Proof.
  unfold on_block_validated, finish_validation_if_done. case_bool_decide; [|done].
  match goal with |- evolves w (if _ then ?x else maybe_flush due ?x) => assert (Hx : evolves w x) end.
  { destruct ex; [by apply evolves_entries|]. etransitivity; [|by apply evolves_entries].
    etransitivity; [by apply (evolves_entries w (set_validation (validation_pending w ∖ {[h]}) (validation_purged w) (validation_unknown w) w))|].
    apply evolves_foldl. intros w2 i. unfold purge_ghost. destruct (entries w2 !! i) as [e|] eqn:Ei; [|done].
    destruct (live e); [|done]. by apply (evolves_insert i e (set_slashed e)). }
  destruct (validation_in_progress _); [done|]. etransitivity; [exact Hx|apply evolves_flush].
Qed.

(** A block first may forget settled entries, and then only evolves. *)
Definition keeps_live (w w' : EscrowWatcher) : Prop :=
  entries w' = entries w \/ entries w' = filter (fun e => live e = true) (entries w).

Lemma compact_keeps w : keeps_live w (compact w).
Proof. unfold compact, keeps_live. destruct (_ =? _)%nat; auto. Qed.

Lemma observe_keeps daa b w : exists w1, keeps_live w w1 /\ evolves w1 (observe daa b w).
Proof.
  exists (maybe_compact (expire_in_flight daa (set_seen daa (blocks_since_compact w) w))). split.
  - destruct (expire_fields daa (set_seen daa (blocks_since_compact w) w)) as [He _]. unfold maybe_compact.
    destruct (_ <=? _); [|by left]. unfold keeps_live. cbn in He. rewrite <- He. apply (compact_keeps (set_seen _ _ _)).
  - unfold observe. destruct (verbose_data b) as [v|]; [|done].
    destruct (is_chain_block v); [etransitivity; [|apply evolves_track]|]; apply evolves_slash_reds.
Qed.

(** Every call, answers to claims apart. *)
Lemma run_keeps w c : (exists due t err, c = SubmitResponse due t err) \/ exists w1, keeps_live w w1 /\ evolves w1 (run w c).
Proof.
  destruct c; cbn [run]; [right|by left; eauto|right..].
  - rewrite handle_block_eq. destruct (daa_score b) as [daa|]; [|by exists w; split; [left|]].
    destruct (observe_keeps daa b w) as (w1 & Hk & He). exists w1. split; [done|].
    etransitivity; [exact He|]. cbn. etransitivity; [apply evolves_find_claim|apply evolves_flush].
  - exists w. split; [by left|]. unfold track_inference_escrow. destruct (_ || _); [done|].
    etransitivity; [|apply evolves_flush]. by apply evolves_push.
  - exists w. split; [by left|]. by apply evolves_entries.
  - exists w. split; [by left|]. by apply evolves_entries.
  - exists w. split; [by left|]. apply evolves_validated.
  - exists w. split; [by left|]. unfold on_block_validation_error, finish_validation_if_done.
    destruct (list_find _ _) as [[i h]|]; [|done]. cbn [fst].
    destruct (validation_in_progress _); [by apply evolves_entries|]. etransitivity; [|apply evolves_flush]. by apply evolves_entries.
  - exists w. split; [by left|]. unfold consume_validation_ok. case_bool_decide; [apply evolves_validated|done].
Qed.

Lemma evolves_forward w w' e : evolves w w' -> e ∈ entries w -> exists e', e' ∈ entries w' /\ same_coin e e'.
Proof.
  intros (es & ex & -> & Hf & _) [i Hi]%list_elem_of_lookup.
  destruct (Forall2_lookup_l _ _ _ _ _ Hf Hi) as (e' & He' & Hs). exists e'. split; [|done].
  apply elem_of_app. left. by apply list_elem_of_lookup_2 with i.
Qed.

Lemma evolves_backward w w' e' : evolves w w' -> e' ∈ entries w' -> claimed e' = true ->
  exists e, e ∈ entries w /\ same_coin e e'.
Proof.
  intros (es & ex & -> & Hf & Hx) [Hin|Hin]%elem_of_app Hc.
  - apply list_elem_of_lookup in Hin as [i Hi]. destruct (Forall2_lookup_r _ _ _ _ _ Hf Hi) as (e & He & Hs).
    exists e. split; [by apply list_elem_of_lookup_2 with i|done].
  - rewrite Forall_forall in Hx. specialize (Hx _ Hin). congruence.
Qed.
End Evolution.

(** ** Claim transactions *)

Section ClaimTx.
Context `{C : Crates}.

Lemma mapM_length {A B} (f : A -> option B) l k : mapM f l = Some k -> length k = length l.
Proof. intros H%mapM_Some. symmetry. by eapply Forall2_length. Qed.

Lemma fmap_zip_with {A B D E} (f : A -> B -> D) (g : D -> E) (h : A -> E) l k :
  length k = length l -> (forall x y, g (f x y) = h x) -> g <$> zip_with f l k = h <$> l.
Proof.
  intros Hl Hf. revert k Hl. induction l as [|x l IH]; intros [|y k] Hl; try done. cbn in *.
  rewrite Hf. f_equal. apply IH. lia.
Qed.

(** What a built transaction spends and pays. *)
Record spends (k : Keys) (es : list EscrowEntry) (tx : ClaimTx) : Prop := {
  spends_inputs : (fun i => (previous_txid i, previous_index i)) <$> inputs tx = outpoint <$> es;
  spends_sequence : exists csv, Forall (fun i => sequence i = csv) (inputs tx) /\ Forall (fun e => csv_window e = csv) es;
  spends_amount : output_amount tx = total_sompi es - CLAIM_FEE_SOMPI;
  spends_positive : 0 < output_amount tx;
  spends_payee : output_version tx = payout_spk_version k /\ output_script tx = payout_spk_script_hex k;
}.

Lemma build_claim_tx_spends k es txid tx : build_claim_tx k es = Some (txid, tx) -> es <> [] /\ spends k es tx.
Proof.
  unfold build_claim_tx. destruct es as [|e0 es0] eqn:Ees; [done|]. rewrite <- Ees.
  assert (Hne : es <> []) by (by rewrite Ees). clear Ees.
  destruct (forallb _ es) eqn:Ef; [|done]. cbn [negb]. rewrite bind_Some. intros (a & Ha & H).
  unfold checked_sub in Ha. destruct (_ <=? _); [|done]. injection Ha as Ha.
  destruct (Z.ltb_spec 0 a); [|done]. cbn [negb] in H. apply bind_Some in H as (metas & Hm & [= <- <-]).
  apply mapM_length in Hm. split; [done|].
  assert (Hw : Forall (fun e => csv_window e = csv_window e0) es).
  { apply Forall_forall. intros e He. rewrite forallb_forall in Ef. apply Z.eqb_eq, Ef. by apply list_elem_of_In. }
  split; cbn [inputs output_amount output_version output_script]; [| |lia|done|done].
  - by apply fmap_zip_with.
  - exists (csv_window e0). split; [|done]. apply Forall_forall. intros i Hi.
    apply list_elem_of_lookup in Hi as [j Hj]. rewrite lookup_zip_with in Hj.
    apply bind_Some in Hj as (? & _ & Hj). by apply bind_Some in Hj as (? & _ & [= <-]).
Qed.
End ClaimTx.

Section Reachable.
Context `{C : Crates}.

Lemma wf_reachable k state w : NoDup (outpoint <$> state) -> reachable k state w -> WF w.
Proof. intros Hnd. induction 1; [by apply wf_new|by apply wf_run]. Qed.
End Reachable.

Section Theorems.
Context `{C : Crates} (k : Keys) (state : list EscrowEntry).

(** C1: The watcher's invariant.  Whatever blocks, responses and validation answers arrive, in any
    order, from a loaded state without duplicates: every outpoint has one entry, the derived
    outpoint set and block index describe exactly the entries, at most four claims are in
    flight, each claim's outpoints are distinct and reserved, and no outpoint is in two. *)
Theorem watcher_invariant (w : EscrowWatcher) : NoDup (outpoint <$> state) -> reachable k state w ->
  NoDup (outs w) /\ outpoint_set w = list_to_set (outs w)
  /\ (forall h i, i ∈ default [] (block_index w !! h) <-> h <> EmptyString /\ exists e, entries w !! i = Some e /\ block_hash e = h)
  /\ (size (in_flight w) <= 4)%nat
  /\ (forall t c, in_flight w !! t = Some c -> NoDup (outpoints c) /\ list_to_set (outpoints c) ⊆ in_flight_outpoints w)
  /\ (forall t1 t2 c1 c2 o, in_flight w !! t1 = Some c1 -> in_flight w !! t2 = Some c2 ->
        o ∈ outpoints c1 -> o ∈ outpoints c2 -> t1 = t2).
Proof.
  intros Hnd Hr. destruct (wf_reachable k state w Hnd Hr) as [H1 H2 H3 [H4 H5] H6]. split_and!; try done.
  intros t1 t2 c1 c2 o Ht1 Ht2 Ho1 Ho2. destruct (decide (t1 = t2)) as [|Hne]; [done|].
  specialize (H5 t1 t2 c1 c2 Hne Ht1 Ht2). exfalso. set_solver.
Qed.

(** C6: When and what [find_claim] ships.  A claim goes out only when claims are not held, fewer
    than four are in flight and no validation is pending.  Its inputs are exactly the outpoints
    of distinct tracked entries, at most 87, each unclaimed, not slashed, mature, off cooldown
    and in no other claim; every input's sequence is the CSV window of the entry it spends;
    the single output pays the payout script the sum less the fee; the claim is recorded in
    flight and the rest of the in-flight claims is unchanged. *)
Theorem claim_ships (w : EscrowWatcher) (daa : Z) (tx : ClaimTx) : NoDup (outpoint <$> state) -> reachable k state w ->
  let w' := (find_claim daa w).1 in
  (find_claim daa w).2 = Some tx ->
  claims_held w = false /\ (size (in_flight w) < 4)%nat /\ validation_pending w = ∅ /\
  exists batch txid,
    batch <> [] /\ NoDup (outpoint <$> batch) /\ zlen batch <= MAX_CLAIM_BATCH
    /\ Forall (fun e => e ∈ entries w' /\ eligible daa (in_flight_outpoints w) e = true) batch
    /\ spends (keys w') batch tx
    /\ (0 <= foldr (fun e t => amount_sompi e + t) 0 batch < 2 ^ 64 ->
        output_amount tx = foldr (fun e t => amount_sompi e + t) 0 batch - 30000000)
    /\ in_flight w' = <[txid := {| outpoints := outpoint <$> batch; submit_daa := daa; gross_sompi := total_sompi batch |}]> (in_flight w).
Proof.
  intros Hnd Hr w' Hc. pose proof (wf_reachable k state w Hnd Hr) as Hw. unfold w'.
  destruct (find_claim_inv daa w) as [[Hn _]|(txid & tx' & Hh & Hs & Hv & Hb & Heq)]; [congruence|].
  rewrite Heq in Hc |- *. injection Hc as ->. cbn [fst]. split_and!; [done..|].
  destruct (heal_entries_fields daa w) as (_ & Hf & Ho & _).
  destruct (batch_of_spec daa (heal_entries daa w) (wf_nodup _ (wf_heal daa w Hw))) as (Hbn & Hbl & Hall).
  destruct (build_claim_tx_spends _ _ _ _ Hb) as [Hne Hsp]. rewrite <- Hf, <- Ho.
  exists (batch_of daa (heal_entries daa w)), txid. split_and!; try done.
  - eapply Forall_impl; [exact Hall|]. by intros e (? & ? & _).
  - intros Hfit. rewrite (spends_amount _ _ _ Hsp). unfold total_sompi. by rewrite wrap_id.
Qed.

(** C11: Acceptance.  A response that accepts a claim of ours (by txid, or a duplicate rejection
    naming it) marks exactly that claim's entries claimed, changes nothing else in the entries,
    releases its outpoints, leaves every other claim's outpoints reserved, and reports the
    claim's size and the sum of the amounts newly claimed. *)
Theorem claim_accepted (w : EscrowWatcher) due response error t : NoDup (outpoint <$> state) -> reachable k state w ->
  matched_txid response error w = Some t -> accepted_error error = true ->
  exists c, in_flight w !! t = Some c /\
  let r := on_submit_response due response error w in
  r.2 = Accepted (zlen (outpoints c))
          (wrap 64 (foldr (fun e s => (if bool_decide (outpoint e ∈ outpoints c) && negb (claimed e) then amount_sompi e else 0) + s) 0 (entries w)))
  /\ entries r.1 = (fun e => if bool_decide (outpoint e ∈ outpoints c) then set_claimed e else e) <$> entries w
  /\ (forall e, e ∈ entries r.1 -> outpoint e ∈ outpoints c -> claimed e = true)
  /\ in_flight r.1 = delete t (in_flight w)
  /\ (forall o, o ∈ outpoints c -> o ∉ in_flight_outpoints r.1)
  /\ (forall t' c', t' <> t -> in_flight w !! t' = Some c' -> list_to_set (outpoints c') ⊆ in_flight_outpoints r.1).
Proof.
  intros Hnd Hr Hm Ha. pose proof (wf_reachable k state w Hnd Hr) as Hw.
  destruct (matched_in_flight _ _ _ _ Hm) as [c Hc]. exists c. split; [done|].
  rewrite (on_submit_response_spec due _ _ _ _ _ Hw Hm Hc). unfold settled. rewrite Ha. cbn [fst snd].
  match goal with |- context [maybe_flush due ?x] => destruct (maybe_flush_fields due x) as (-> & -> & ->) end.
  cbn. destruct (wf_reserved _ Hw) as [Hin Hdj]. rewrite release_spec. split_and!; try done.
  - intros e (e0 & -> & _)%list_elem_of_fmap. unfold on_outpoints. case_bool_decide as Hb; [done|]. intros Ho. by destruct (Hb Ho).
  - intros o Ho. set_solver.
  - intros t' c' Hne Hc'. destruct (Hin _ _ Hc'). specialize (Hdj t' t c' c Hne Hc' Hc). set_solver.
Qed.


(** C13: Funds are not lost sight of.  A live entry is tracked after any call, with the same outpoint,
    amount, window and confirmation score; and an entry is claimed after a call only if it was
    before, or the call was the acceptance of the claim it is in. *)
Theorem live_entry_kept (w : EscrowWatcher) (c : Call) : NoDup (outpoint <$> state) -> reachable k state w ->
  (forall e, e ∈ entries w -> live e = true -> exists e', e' ∈ entries (run w c)
     /\ outpoint e' = outpoint e /\ amount_sompi e' = amount_sompi e /\ csv_window e' = csv_window e /\ confirm_daa e' = confirm_daa e)
  /\ (forall e', e' ∈ entries (run w c) -> claimed e' = true ->
       (exists e, e ∈ entries w /\ outpoint e = outpoint e' /\ claimed e = true)
       \/ exists due response error t claim, c = SubmitResponse due response error /\ accepted_error error = true
          /\ matched_txid response error w = Some t /\ in_flight w !! t = Some claim /\ outpoint e' ∈ outpoints claim).
Proof.
  intros Hnd Hr. pose proof (wf_reachable k state w Hnd Hr) as Hw.
  destruct (run_keeps w c) as [(due & rt & err & ->)|(w1 & Hk & He)].
  - cbn [run]. destruct (matched_txid rt err w) as [t|] eqn:Hm.
    2: { unfold on_submit_response. rewrite Hm. cbn [fst]. split; [intros e H _; by exists e|intros e' H ?; left; by exists e']. }
    destruct (matched_in_flight _ _ _ _ Hm) as [cl Hc]. rewrite (on_submit_response_spec due _ _ _ _ _ Hw Hm Hc).
    match goal with |- context [maybe_flush due ?x] => destruct (maybe_flush_fields due x) as (Hes & _ & _) end.
    cbn [fst]. rewrite Hes. cbn [entries set_entries mark_dirty set_dirty]. split; [intros e Hin _; by apply settled_keeps|].
    intros e' Hin Hcl. destruct (accepted_error err) eqn:Ha.
    + unfold settled in Hin. rewrite Ha in Hin. apply list_elem_of_fmap in Hin as (e & -> & Hin).
      unfold on_outpoints in *. case_bool_decide; [right|left; by exists e]. exists due, rt, err, t, cl. split_and!; done.
    + destruct (settled_same_coin _ _ _ _ Hin Ha) as (e & He & ? & _ & _ & _ & ?). left. exists e. split_and!; congruence.
  - split.
    + intros e Hin Hl. assert (Hin1 : e ∈ entries w1).
      { destruct Hk as [->| ->]; [done|]. by apply list_elem_of_filter. }
      destruct (evolves_forward _ _ _ He Hin1) as (e' & Hin' & ? & ? & ? & ? & _). by exists e'.
    + intros e' Hin Hcl. left. destruct (evolves_backward _ _ _ He Hin Hcl) as (e & Hin1 & Ho & _ & _ & _ & Hce).
      exists e. split_and!; [|done|congruence]. destruct Hk as [Hk|Hk]; rewrite Hk in Hin1; [done|].
      by apply list_elem_of_filter in Hin1 as [_ ?].
Qed.
End Theorems.

(** ** A run: a legacy output matures and is claimed *)

Module Toy.
Import Escrow.Toy.
Definition state : list EscrowEntry := [bonded; legacy].
Definition block (daa : Z) : RpcBlock := {| daa_score := Some daa; verbose_data := None; transactions := [] |}.
Definition w0 : EscrowWatcher := new_watcher keys state.
Definition w1 : EscrowWatcher := run w0 (HandleBlock true (block 40000)).
Definition claim_txid : string := match map_to_list (in_flight w1) with (t, _) :: _ => t | [] => EmptyString end.
Definition tx : option ClaimTx := (find_claim 40000 w0).2.

Lemma nodup : NoDup (outpoint <$> state).
Proof. evaluate. Qed.
Lemma reachable_w0 : reachable keys state w0.
Proof. constructor. Qed.
Lemma reachable_w1 : reachable keys state w1.
Proof. apply reachable_run; [constructor|reflexivity]. Qed.
Example one_in_flight : size (in_flight w1) = 1%nat.
Proof. vm_compute. reflexivity. Qed.

Lemma watcher_invariant_witness : outpoint_set w1 = list_to_set (outs w1).
Proof. apply (watcher_invariant keys state w1 nodup reachable_w1). Defined.

Lemma claim_ships_witness : exists t, (find_claim 40000 w0).2 = Some t /\ 0 < output_amount t.
Proof.
  destruct (find_claim 40000 w0).2 as [t|] eqn:E; [|exfalso; revert E; vm_compute; discriminate].
  exists t. split; [done|].
  destruct (claim_ships keys state w0 40000 t nodup reachable_w0 E) as (_ & _ & _ & b & x & _ & _ & _ & _ & Hs & _).
  apply (spends_positive _ _ _ Hs).
Defined.

Lemma claim_accepted_witness : exists n total, (on_submit_response true claim_txid None w1).2 = Accepted n total.
Proof.
  destruct (claim_accepted keys state w1 true claim_txid None claim_txid nodup reachable_w1) as (c & _ & Hr & _);
    [vm_compute; reflexivity|reflexivity|]. eexists _, _. exact Hr.
Defined.


Lemma live_entry_kept_witness : exists e, e ∈ entries (run w1 (ClaimsHeld true)) /\ outpoint e = outpoint bonded.
Proof.
  destruct (live_entry_kept keys state w1 (ClaimsHeld true) nodup reachable_w1) as [H _].
  destruct (H bonded) as (e & Hin & Ho & _); [by apply (list_elem_of_lookup_2 _ 0)|reflexivity|]. by exists e.
Defined.
End Toy.
