(* ===== verification/Pom.v ===== *)
(** * Proof-of-model primitives ([src/pom.rs])

    The byte-exact folds of the possession proof (mixer, seeds, pow value, target
    comparison), the activation gates that select them, and the cursor that
    enumerates a pool-assigned nonce domain.  A [u64] or [u128] is its value in
    [Z].  Keccak-f is third-party code, a method of the class [Keccak]; the gates
    read the process environment once, the class [Network] holds what they read. *)
From S2P Require Import Prelude.
From stdpp Require Import strings.
#[local] Open Scope Z_scope.

(** ** Gates *)

(** The environment: [KERYX_TESTNET] and the values of the override variables that parse. *)
Class Network := {
  testnet_gates : bool;
  h10_override : option Z;
  h14_override : option Z;
  v5_override : option Z;
  pad_margin_override : option Z;
  level_override : option Z;
  v3_override : option Z;
}.

Definition TESTNET_POM_LEVEL_ACTIVATION_DAA : Z := 1.
Definition TESTNET_POM_V3_ACTIVATION_DAA : Z := 1.
Definition TESTNET_H10_ACTIVATION_DAA : Z := 1.
Definition TESTNET_H14_ACTIVATION_DAA : Z := 1.
Definition TESTNET_H15_ACTIVATION_DAA : Z := 3500.
Definition TESTNET_H16_ACTIVATION_DAA : Z := 180000.
Definition POM_H10_SEED_ACTIVATION_DAA : Z := 87360000.
Definition POM_H14_ACTIVATION_DAA : Z := 121985000.
Definition POM_V5_ACTIVATION_DAA : Z := 140115000.
Definition POM_H16_ACTIVATION_DAA : Z := 147000000.
Definition POM_LEVEL_ACTIVATION_DAA : Z := 43450000.
Definition POM_V3_ACTIVATION_DAA : Z := 0.

Section Gates.
Context `{N : Network}.

Definition gate (env : option Z) (mainnet testnet : Z) : Z :=
  default (if testnet_gates then testnet else mainnet) env.
Definition h10_activation_daa : Z := gate h10_override POM_H10_SEED_ACTIVATION_DAA TESTNET_H10_ACTIVATION_DAA.
Definition h14_activation_daa : Z := gate h14_override POM_H14_ACTIVATION_DAA TESTNET_H14_ACTIVATION_DAA.
Definition pom_v5_activation_daa : Z := gate v5_override POM_V5_ACTIVATION_DAA TESTNET_H15_ACTIVATION_DAA.
Definition pad_margin_activation_daa : Z := gate pad_margin_override POM_H16_ACTIVATION_DAA TESTNET_H16_ACTIVATION_DAA.
Definition level_activation_daa : Z := gate level_override POM_LEVEL_ACTIVATION_DAA TESTNET_POM_LEVEL_ACTIVATION_DAA.
Definition pom_v3_activation_daa : Z := gate v3_override POM_V3_ACTIVATION_DAA TESTNET_POM_V3_ACTIVATION_DAA.
Definition block_task_activation_daa : Z := 2 ^ 64 - 1.

Definition is_h14_seed_era (daa : Z) : bool := h14_activation_daa <=? daa.
Definition is_h10_seed_era (daa : Z) : bool := h10_activation_daa <=? daa.
Definition is_pom_v5_era (daa : Z) : bool := pom_v5_activation_daa <=? daa.
End Gates.

(** ** The mixer *)

Definition mix64 (x : Z) : Z :=
  let x := Z.lxor x (Z.shiftr x 30) in
  let x := wrap 64 (x * 0xbf58476d1ce4e5b9) in
  let x := Z.lxor x (Z.shiftr x 27) in
  let x := wrap 64 (x * 0x94d049bb133111eb) in
  Z.lxor x (Z.shiftr x 31).

(** [u64::from_le_bytes] of the [i]-th eight bytes. *)
Definition word_at (b : list byte) (i : nat) : Z := from_le (take 8 (drop (8 * i) b)).
Definition pph_words (h : list byte) : list Z := word_at h <$> seq 0 4.
(** [w.iter_mut().zip(salt).for_each(|(w, s)| *w ^= s)] *)
Definition xor_words (w salt : list Z) : list Z := zip_with Z.lxor w salt.

Definition POM_H3_PPH_SALT : list Z := [0x7C99D381176D4EC4; 0xC2E28E3E28118C36; 0xD496CE1B129B76CA; 0x47CF0979FA580BCE].
Definition POM_V4_PPH_SALT : list Z := [0x7D7BC84C8D18DE80; 0xDE48EE16AE3F1541; 0x3305F1952B30384A; 0xF78C133968D388B7].

Definition pph_words_for_era (h : list byte) (h3 : bool) : list Z :=
  if h3 then xor_words (pph_words h) POM_H3_PPH_SALT else pph_words h.
Definition pph_words_v4 (h : list byte) : list Z := xor_words (pph_words h) POM_V4_PPH_SALT.

(** [s = mix64(s ^ w)] over the words. *)
Definition fold_words (s : Z) (words : list Z) : Z := foldl (fun s w => mix64 (Z.lxor s w)) s words.

Definition pom_block_seed_from_words (p : list Z) (timestamp nonce : Z) : Z :=
  fold_words (mix64 (Z.lxor nonce 0x4B65727978531)) (timestamp :: p).
Definition pom_block_seed_v4 (pre_pow_hash : list byte) (timestamp nonce : Z) : Z :=
  pom_block_seed_from_words (pph_words_v4 pre_pow_hash) timestamp nonce.

Definition POW_KEYS : list Z := [0x9E3779B97F4A7C15; 0xC2B2AE3D27D4EB4F; 0x165667B19E3779F9; 0xD6E8FEB86659FD93].
(** The four chained words of [pom_pow_value]. *)
Fixpoint pow_chain (o : Z) (p keys : list Z) : list Z :=
  match p, keys with
  | w :: p, k :: keys => let o := mix64 (Z.lxor (Z.lxor o w) k) in o :: pow_chain o p keys
  | _, _ => []
  end.
Definition pom_pow_value (final_state : Z) (pre_pow_hash : list byte) (h3 : bool) : list byte :=
  mjoin (to_le 8 <$> pow_chain final_state (pph_words_for_era pre_pow_hash h3) POW_KEYS).

(** [for i in (0..32).rev()]: [n] bytes left to compare. *)
Fixpoint le_leq_loop (n : nat) (a b : list byte) : res bool :=
  match n with
  | O => mret true
  | S n =>
    x ← index a (Z.of_nat n); y ← index b (Z.of_nat n);
    if u8_of_byte x <? u8_of_byte y then mret true
    else if u8_of_byte y <? u8_of_byte x then mret false
    else le_leq_loop n a b
  end.
Definition le_leq (a b : list byte) : res bool := le_leq_loop 32 a b.

(** ** One-way seeds *)

Class Keccak := { f1600 : list Z -> list Z }.

Definition POW_HASH_INITIAL_STATE : list Z :=
  [1242148031264380989; 3008272977830772284; 2188519011337848018; 1992179434288343456; 8876506674959887717;
   5399642050693751366; 1745875063082670864; 8605242046444978844; 17936695144567157056; 3343109343542796272;
   1123092876221303306; 4963925045340115282; 17037383077651887893; 16629644495023626889; 12833675776649114147;
   3784524041015224902; 1082795874807940378; 13952716920571277634; 13411128033953605860; 15060696040649351053;
   9928834659948351306; 5237849264682708699; 12825353012139217522; 6706187291358897596; 196324915476054915].

(** [st[i] ^= w] *)
Definition xor_at (i : nat) (w : Z) (st : list Z) : list Z := alter (Z.lxor w) i st.

Definition SEED_H14_TAG : list byte := String.list_byte_of_string "KERYX-H14-PRIVATE-INFERENCE-SEED".
Definition xor_byte (a b : byte) : byte := byte_of_u8 (Z.lxor (u8_of_byte a) (u8_of_byte b)).
Definition seed_h14_pph (h : list byte) : list byte := zip_with xor_byte h SEED_H14_TAG.

Section Seeds.
Context `{N : Network, K : Keccak}.

Definition pom_seed_h10_state (pre_pow_hash : list byte) (timestamp : Z) : list Z :=
  xor_at 4 timestamp (foldl (fun st iw => xor_at iw.1 iw.2 st) POW_HASH_INITIAL_STATE (imap pair (pph_words pre_pow_hash))).
Definition pom_block_seed_h10 (pre_pow_hash : list byte) (timestamp nonce : Z) : res Z :=
  index (f1600 (xor_at 9 nonce (pom_seed_h10_state pre_pow_hash timestamp))) 0.
Definition pom_block_seed_h14 (pre_pow_hash : list byte) (timestamp nonce : Z) : res Z :=
  pom_block_seed_h10 (seed_h14_pph pre_pow_hash) timestamp nonce.
Definition pom_block_seed_rewalk_era (pre_pow_hash : list byte) (timestamp nonce daa : Z) : res Z :=
  if is_h14_seed_era daa then pom_block_seed_h14 pre_pow_hash timestamp nonce
  else if is_h10_seed_era daa then pom_block_seed_h10 pre_pow_hash timestamp nonce
  else mret (pom_block_seed_v4 pre_pow_hash timestamp nonce).
(** The words handed to the accelerator's seed kernel. *)
Definition pph_seed_words_for_era (pre_pow_hash : list byte) (daa : Z) : list Z :=
  if is_h14_seed_era daa then pph_words (seed_h14_pph pre_pow_hash)
  else if is_h10_seed_era daa then pph_words pre_pow_hash
  else pph_words_v4 pre_pow_hash.
End Seeds.

(** ** The nonce cursor *)

Fixpoint count_ones (w : nat) (z : Z) : Z :=
  match w with O => 0 | S w => (if Z.odd z then 1 else 0) + count_ones w (Z.shiftr z 1) end.
Fixpoint trailing_ones (w : nat) (z : Z) : Z :=
  match w with O => 0 | S w => if Z.odd z then 1 + trailing_ones w (Z.shiftr z 1) else 0 end.

Record NonceRange := { range_start : Z; range_len : Z }.
Record MaskedNonceCursor := { fixed : Z; variable : Z; rank : Z; remaining : Z; domain : Z }.

Definition cursor_new (mask fixed seed : Z) : MaskedNonceCursor :=
  let variable := Z.ldiff mask fixed in
  let domain := Z.shiftl 1 (count_ones 64 variable) in
  {| fixed := fixed; variable := variable; rank := Z.land seed (domain - 1); remaining := domain; domain := domain |}.

(** The loop clears one bit of [mask] per iteration: 64 at most. *)
Fixpoint deposit_loop (fuel : nat) (rank mask out : Z) : Z :=
  match fuel with
  | O => out
  | S fuel =>
    if mask =? 0 then out else
    let bit := Z.land mask (wrap 64 (- mask)) in
    deposit_loop fuel (Z.shiftr rank 1) (Z.land mask (mask - 1)) (if Z.odd rank then Z.lor out bit else out)
  end.
Definition deposit (rank mask : Z) : Z := deposit_loop 64 rank mask 0.

Definition peek (c : MaskedNonceCursor) (requested : Z) : option NonceRange :=
  if (requested =? 0) || (remaining c =? 0) then None else
  let period := Z.shiftl 1 (trailing_ones 64 (variable c)) in
  let to_low_wrap := period - Z.land (rank c) (period - 1) in
  let to_domain_wrap := domain c - rank c in
  let len := Z.min (Z.min (Z.min requested (remaining c)) to_low_wrap) to_domain_wrap in
  Some {| range_start := Z.lor (fixed c) (deposit (wrap 64 (rank c)) (variable c)); range_len := wrap 64 len |}.

Definition commit (c : MaskedNonceCursor) (len : Z) : res MaskedNonceCursor :=
  if (len <=? remaining c) && (rank c + len <=? domain c) then
    let rank := rank c + len in
    mret {| fixed := fixed c; variable := variable c; rank := if rank =? domain c then 0 else rank;
            remaining := remaining c - len; domain := domain c |}
  else Panic.

Definition exhausted (c : MaskedNonceCursor) : bool := remaining c =? 0.

(** ** The mixer is a bijection *)

Definition unxorshift (k y : Z) : Z := Z.lxor (Z.lxor y (Z.shiftr y k)) (Z.shiftr y (2 * k)).
(** The multipliers' inverses modulo [2^64]. *)
Definition unmix64 (y : Z) : Z :=
  let y := unxorshift 31 y in
  let y := wrap 64 (y * 0x319642b2d24d8ec3) in
  let y := unxorshift 27 y in
  let y := wrap 64 (y * 0x96de1b173f119089) in
  unxorshift 30 y.

Section Bits.
(** The xor-shift by [k] and its inverse, when three shifts clear the word. *)
Lemma xorshift_inverse k x y : 0 < k -> 64 <= 3 * k -> fits 64 x -> fits 64 y ->
  Z.lxor x (Z.shiftr x k) = y <-> x = unxorshift k y.
Proof.
  intros Hk H3 Hx Hy. unfold unxorshift. split.
  - intros <-. rewrite !Z.shiftr_lxor, !Z.shiftr_shiftr by lia.
    replace (k + k) with (2 * k) by lia. replace (k + 2 * k) with (3 * k) by lia.
    rewrite (shiftr_zero 64 (3 * k)) by (done || lia). apply Z.bits_inj. intros i. rewrite !Z.lxor_spec, Z.bits_0.
    by destruct (Z.testbit x i), (Z.testbit _ i), (Z.testbit (Z.shiftr x (2 * k)) i).
  - intros ->. rewrite !Z.shiftr_lxor, !Z.shiftr_shiftr by lia.
    replace (k + k) with (2 * k) by lia. replace (2 * k + k) with (3 * k) by lia.
    rewrite (shiftr_zero 64 (3 * k)) by (done || lia). apply Z.bits_inj. intros i. rewrite !Z.lxor_spec, Z.bits_0.
    by destruct (Z.testbit y i), (Z.testbit _ i), (Z.testbit (Z.shiftr y (2 * k)) i).
Qed.

Lemma unxorshift_fits k y : 0 <= k -> fits 64 y -> fits 64 (unxorshift k y).
Proof. intros Hk Hy. unfold unxorshift. repeat apply lxor_fits; try lia; try done; apply shiftr_fits; done || lia. Qed.

Lemma xorshift_fits k x : 0 <= k -> fits 64 x -> fits 64 (Z.lxor x (Z.shiftr x k)).
Proof. intros Hk Hx. apply lxor_fits; [lia|done|]. by apply shiftr_fits. Qed.

(** Multiplication by a unit modulo [2^64]. *)
Lemma mul_inverse a b x y : wrap 64 (a * b) = 1 -> fits 64 x -> fits 64 y ->
  wrap 64 (x * a) = y <-> x = wrap 64 (y * b).
Proof.
  unfold wrap. intros Hab Hx Hy.
  assert (Hone : forall z c d, (c * d) mod 2 ^ 64 = 1 -> fits 64 z -> ((z * c) mod 2 ^ 64 * d) mod 2 ^ 64 = z).
  { intros z c d Hcd Hz. rewrite Z.mul_mod_idemp_l by lia. rewrite <- Z.mul_assoc, <- Z.mul_mod_idemp_r, Hcd by lia.
    rewrite Z.mul_1_r. by apply Z.mod_small. }
  split; intros <- || intros ->; [symmetry; by apply Hone|]. apply Hone; [by rewrite Z.mul_comm|done].
Qed.

#[local] Ltac fit := repeat first [assumption | lia | reflexivity | apply wrap_fits | apply unxorshift_fits | apply xorshift_fits].

Lemma mix64_inverse x y : fits 64 x -> fits 64 y -> mix64 x = y <-> x = unmix64 y.
Proof.
  intros Hx Hy. unfold mix64, unmix64. cbv zeta.
  rewrite (xorshift_inverse 31) by fit. rewrite (mul_inverse _ 0x319642b2d24d8ec3) by fit.
  rewrite (xorshift_inverse 27) by fit. rewrite (mul_inverse _ 0x96de1b173f119089) by fit.
  rewrite (xorshift_inverse 30) by fit. done.
Qed.

Lemma mix64_fits x : fits 64 x -> fits 64 (mix64 x).
Proof. intros. unfold mix64. apply xorshift_fits; [lia|]. by apply wrap_fits. Qed.
Lemma unmix64_fits x : fits 64 x -> fits 64 (unmix64 x).
Proof. intros. unfold unmix64. apply unxorshift_fits; [lia|]. by apply wrap_fits. Qed.

Lemma lxor_move a b c : Z.lxor a b = c <-> a = Z.lxor c b.
Proof.
  split; [intros <-|intros ->]; by rewrite Z.lxor_assoc, Z.lxor_nilpotent, Z.lxor_0_r.
Qed.
End Bits.

Lemma word_fits b i : fits 64 (word_at b i).
Proof.
  unfold word_at. pose proof (from_le_fits (take 8 (drop (8 * i) b))) as [H1 H2]. split; [done|].
  eapply Z.lt_le_trans; [exact H2|]. apply Z.pow_le_mono_r; [lia|]. unfold zlen. rewrite length_take. lia.
Qed.

Lemma Forall_lxor l k : Forall (fits 64) l -> Forall (fits 64) k -> Forall (fits 64) (zip_with Z.lxor l k).
Proof.
  intros Hl. revert k. induction Hl as [|x l Hx _ IH]; intros k Hk; [done|].
  destruct Hk as [|y k Hy Hk]; [done|]. cbn. constructor; [by apply lxor_fits|by apply IH].
Qed.

Lemma pph_words_fits h : Forall (fits 64) (pph_words h).
Proof. unfold pph_words. apply Forall_fmap, Forall_true. intros i. apply word_fits. Qed.

Lemma fold_words_inverse words s t : Forall (fits 64) words -> fits 64 s -> fits 64 t ->
  fold_words s words = t <-> s = foldr (fun w t => Z.lxor (unmix64 t) w) t words.
Proof.
  intros Hw. revert s. induction Hw as [|w words Hw Hws IH]; intros s Hs Ht; [done|]. unfold fold_words in *. cbn [foldl foldr].
  assert (Hu : fits 64 (foldr (fun w t => Z.lxor (unmix64 t) w) t words)).
  { clear IH Hs. induction Hws; [done|]. cbn. apply lxor_fits; [lia| |done]. by apply unmix64_fits. }
  rewrite IH; [|apply mix64_fits, lxor_fits; done || lia|done]. rewrite mix64_inverse; [|by apply lxor_fits|done].
  apply lxor_move.
Qed.

(** The seed before H10 can be steered.  [mix64] permutes the 64-bit words, so for every header and
      timestamp each walk seed is reached by exactly one nonce, computed by undoing the fold. *)
Theorem seed_v4_steerable (h : list byte) (timestamp seed : Z) : fits 64 timestamp -> fits 64 seed ->
  exists nonce, fits 64 nonce /\ (forall n, fits 64 n -> pom_block_seed_v4 h timestamp n = seed <-> n = nonce).
Proof.
  intros Ht Hs. set (words := timestamp :: pph_words_v4 h).
  assert (Hw : Forall (fits 64) words).
  { constructor; [done|]. apply Forall_lxor; [apply pph_words_fits|]. repeat constructor; evaluate. }
  set (s0 := foldr (fun w t => Z.lxor (unmix64 t) w) seed words).
  assert (Hs0 : fits 64 s0).
  { unfold s0. clear s0. induction Hw; [done|]. cbn. apply lxor_fits; [lia| |done]. by apply unmix64_fits. }
  exists (Z.lxor (unmix64 s0) 0x4B65727978531). split; [apply lxor_fits; [lia|by apply unmix64_fits|evaluate]|].
  intros n Hn. unfold pom_block_seed_v4, pom_block_seed_from_words. change (timestamp :: pph_words_v4 h) with words.
  assert (Hx : fits 64 (Z.lxor n 0x4B65727978531)) by (apply lxor_fits; [lia|done|evaluate]).
  rewrite (fold_words_inverse words _ seed Hw (mix64_fits _ Hx) Hs). fold s0.
  rewrite (mix64_inverse _ s0) by done. apply lxor_move.
Qed.

(** ** The cursor: ranks, and the nonces they stand for *)

(** [deposit] by recursion on the mask: the bits of [r] go to the ones of [m]. *)
Fixpoint spread (m : positive) (r : Z) : Z :=
  match m with
  | xH => r mod 2
  | xO m => 2 * spread m r
  | xI m => r mod 2 + 2 * spread m (r / 2)
  end.
Fixpoint gather (m : positive) (x : Z) : Z :=
  match m with
  | xH => x mod 2
  | xO m => gather m (x / 2)
  | xI m => x mod 2 + 2 * gather m (x / 2)
  end.
Fixpoint popcount (m : positive) : nat :=
  match m with xH => 1 | xO m => popcount m | xI m => S (popcount m) end.
Fixpoint low_ones (m : positive) : nat :=
  match m with xH => 1 | xO _ => 0 | xI m => S (low_ones m) end.

Section Deposit.
Lemma bit_split b : Z.b2z b = if b then 1 else 0.
Proof. by destruct b. Qed.

Lemma land_halves a b c d : Z.land (2 * a + Z.b2z c) (2 * b + Z.b2z d) = 2 * Z.land a b + Z.b2z (c && d).
Proof.
  apply Z.bits_inj'. intros i Hi. rewrite Z.land_spec. destruct (decide (i = 0)) as [->|].
  - by rewrite !Z.testbit_0_r.
  - replace i with (Z.succ (i - 1)) by lia. rewrite !Z.testbit_succ_r by lia. by rewrite Z.land_spec.
Qed.

Lemma lor_halves a b c d : Z.lor (2 * a + Z.b2z c) (2 * b + Z.b2z d) = 2 * Z.lor a b + Z.b2z (c || d).
Proof.
  apply Z.bits_inj'. intros i Hi. rewrite Z.lor_spec. destruct (decide (i = 0)) as [->|].
  - by rewrite !Z.testbit_0_r.
  - replace i with (Z.succ (i - 1)) by lia. rewrite !Z.testbit_succ_r by lia. by rewrite Z.lor_spec.
Qed.

Lemma odd_mod2 r : (if Z.odd r then 1 else 0) = r mod 2.
Proof. by rewrite Zmod_odd. Qed.

Lemma lowbit_wrap m : fits 64 m -> Z.land m (wrap 64 (- m)) = Z.land m (- m).
Proof.
  intros Hm. unfold wrap. rewrite <- Z.land_ones by lia. rewrite (Z.land_comm (- m)), Z.land_assoc, Z.land_ones by lia.
  by rewrite Z.mod_small.
Qed.

Lemma lowbit_even m : Z.land (2 * m) (- (2 * m)) = 2 * Z.land m (- m).
Proof.
  pose proof (land_halves m (- m) false false) as H. cbn [Z.b2z andb] in H. rewrite !Z.add_0_r in H.
  by rewrite Z.mul_opp_r in H.
Qed.
Lemma clear_even m : Z.land (2 * m) (2 * m - 1) = 2 * Z.land m (m - 1).
Proof.
  pose proof (land_halves m (m - 1) false true) as H. cbn [Z.b2z andb] in H.
  replace (2 * (m - 1) + 1) with (2 * m - 1) in H by lia. by rewrite !Z.add_0_r in H.
Qed.
Lemma lowbit_odd m : Z.land (2 * m + 1) (- (2 * m + 1)) = 1.
Proof.
  pose proof (land_halves m (Z.lnot m) true true) as H. cbn [Z.b2z andb] in H. rewrite Z.land_lnot_diag in H.
  replace (2 * Z.lnot m + 1) with (- (2 * m + 1)) in H by (unfold Z.lnot; lia). lia.
Qed.
Lemma clear_odd m : Z.land (2 * m + 1) (2 * m + 1 - 1) = 2 * m.
Proof.
  pose proof (land_halves m m true false) as H. cbn [Z.b2z andb] in H. rewrite Z.land_diag in H.
  replace (2 * m + 1 - 1) with (2 * m + 0) by lia. lia.
Qed.

Lemma clear_fits m : fits 64 m -> m <> 0 -> fits 64 (Z.land m (m - 1)).
Proof.
  intros [H1 H2] Hne. assert (0 <= Z.land m (m - 1)) by (apply Z.land_nonneg; lia). split; [done|].
  assert (Z.land m (m - 1) <= m); [|lia]. apply Z.ldiff_le; [lia|]. apply Z.bits_inj'. intros i Hi.
  rewrite Z.ldiff_spec, Z.land_spec, Z.bits_0. by destruct (Z.testbit m i), (Z.testbit (m - 1) i).
Qed.

(** The accumulator, and doubling the mask. *)
Lemma deposit_loop_out fuel r m out : deposit_loop fuel r m out = Z.lor out (deposit_loop fuel r m 0).
Proof.
  revert r m out. induction fuel as [|fuel IH]; intros r m out; cbn [deposit_loop]; [by rewrite Z.lor_0_r|].
  destruct (m =? 0); [by rewrite Z.lor_0_r|]. rewrite IH, (IH _ _ (if Z.odd r then _ else 0)).
  destruct (Z.odd r); [by rewrite Z.lor_0_l, Z.lor_assoc|by rewrite Z.lor_0_l].
Qed.

Lemma deposit_loop_even fuel r m : fits 63 m -> deposit_loop fuel r (2 * m) 0 = 2 * deposit_loop fuel r m 0.
Proof.
  revert r m. induction fuel as [|fuel IH]; intros r m Hm; cbn [deposit_loop]; [done|].
  replace (2 * m =? 0) with (m =? 0) by (destruct (Z.eqb_spec m 0), (Z.eqb_spec (2 * m) 0); lia).
  destruct (Z.eqb_spec m 0) as [|Hne]; [done|]. rewrite !lowbit_wrap by (unfold fits in *; lia).
  rewrite lowbit_even, clear_even, deposit_loop_out, IH, (deposit_loop_out _ _ (Z.land m (m - 1)) (if Z.odd r then _ else 0)).
  2: { destruct Hm. assert (0 <= Z.land m (m - 1)) by (apply Z.land_nonneg; lia). split; [done|].
       assert (Z.land m (m - 1) <= m); [|lia]. apply Z.ldiff_le; [lia|]. apply Z.bits_inj'. intros i Hi.
       rewrite Z.ldiff_spec, Z.land_spec, Z.bits_0. by destruct (Z.testbit m i), (Z.testbit (m - 1) i). }
  generalize (deposit_loop fuel (Z.shiftr r 1) (Z.land m (m - 1)) 0). intros z.
  destruct (Z.odd r); rewrite ?Z.lor_0_l; [|lia].
  pose proof (lor_halves (Z.land m (- m)) z false false) as H. cbn [Z.b2z orb] in H. rewrite !Z.add_0_r in H. exact H.
Qed.

Lemma shiftr_1 r : Z.shiftr r 1 = r / 2.
Proof. by rewrite Z.shiftr_div_pow2. Qed.

Lemma deposit_loop_spread fuel m r : (popcount m <= fuel)%nat -> fits 64 (Zpos m) -> deposit_loop fuel r (Zpos m) 0 = spread m r.
Proof.
  revert fuel r. induction m as [m IH|m IH|]; intros fuel r Hp Hm.
  - destruct fuel as [|fuel]; [cbn in Hp; lia|]. change (Zpos m~1) with (2 * Zpos m + 1) in *. cbn [deposit_loop].
    destruct (Z.eqb_spec (2 * Zpos m + 1) 0); [lia|]. rewrite lowbit_wrap, lowbit_odd, clear_odd by done.
    rewrite deposit_loop_out, deposit_loop_even by (unfold fits in *; lia). rewrite shiftr_1, IH by (cbn in Hp; unfold fits in *; lia).
    cbn [spread]. rewrite Z.lor_0_l, odd_mod2.
    pose proof (lor_halves 0 (spread m (r / 2)) (Z.odd r) false) as H. rewrite orb_false_r, Z.lor_0_l, bit_split, odd_mod2 in H.
    cbn [Z.b2z] in H. rewrite Z.add_0_r, Z.mul_0_r, Z.add_0_l in H. rewrite H. lia.
  - change (Zpos m~0) with (2 * Zpos m) in *. rewrite deposit_loop_even, IH by (cbn in Hp; unfold fits in *; lia). done.
  - destruct fuel as [|fuel]; [cbn in Hp; lia|]. cbn [deposit_loop]. change (1 =? 0) with false. cbv iota.
    change (Z.land 1 (wrap 64 (- (1)))) with 1. change (Z.land 1 (1 - 1)) with 0. rewrite Z.lor_0_l, odd_mod2.
    destruct fuel; cbn [deposit_loop]; done.
Qed.

Lemma popcount_le w m : fits (Z.of_nat w) (Zpos m) -> (popcount m <= w)%nat.
Proof.
  revert w. induction m as [m IH|m IH|]; intros [|w] [_ H]; try (cbn in H; lia); cbn [popcount]; try lia.
  - specialize (IH w). rewrite Nat2Z.inj_succ, Z.pow_succ_r in H by lia. unfold fits in IH. lia.
  - specialize (IH w). rewrite Nat2Z.inj_succ, Z.pow_succ_r in H by lia. unfold fits in IH. lia.
Qed.

Lemma count_ones_0 w : count_ones w 0 = 0.
Proof. by induction w. Qed.
Lemma trailing_ones_0 w : trailing_ones w 0 = 0.
Proof. by destruct w. Qed.

Lemma count_ones_spec w m : fits (Z.of_nat w) (Zpos m) -> count_ones w (Zpos m) = Z.of_nat (popcount m).
Proof.
  revert w. induction m as [m IH|m IH|]; intros [|w] [_ H]; try (cbn in H; lia); cbn [count_ones popcount Z.odd];
    rewrite Nat2Z.inj_succ, Z.pow_succ_r in H by lia.
  - rewrite shiftr_1. replace (Zpos m~1 / 2) with (Zpos m) by (change (Zpos m~1) with (2 * Zpos m + 1); dlia).
    rewrite IH by (unfold fits; lia). lia.
  - rewrite shiftr_1. replace (Zpos m~0 / 2) with (Zpos m) by (change (Zpos m~0) with (2 * Zpos m); dlia).
    rewrite IH by (unfold fits; lia). lia.
  - change (Z.shiftr 1 1) with 0. rewrite count_ones_0. lia.
Qed.

Lemma trailing_ones_spec w m : fits (Z.of_nat w) (Zpos m) -> trailing_ones w (Zpos m) = Z.of_nat (low_ones m).
Proof.
  revert w. induction m as [m IH|m IH|]; intros [|w] [_ H]; try (cbn in H; lia); cbn [trailing_ones low_ones Z.odd];
    rewrite Nat2Z.inj_succ, Z.pow_succ_r in H by lia.
  - rewrite shiftr_1. replace (Zpos m~1 / 2) with (Zpos m) by (change (Zpos m~1) with (2 * Zpos m + 1); dlia).
    rewrite IH by (unfold fits; lia). lia.
  - done.
  - change (Z.shiftr 1 1) with 0. rewrite trailing_ones_0. lia.
Qed.

(** [spread] is a bijection from the ranks to the words inside the mask. *)
Lemma gather_spread m r : 0 <= r < 2 ^ Z.of_nat (popcount m) -> gather m (spread m r) = r.
Proof.
  revert r. induction m as [m IH|m IH|]; intros r Hr; cbn [gather spread popcount] in *.
  - rewrite Nat2Z.inj_succ, Z.pow_succ_r in Hr by lia. pose proof (Z.mod_pos_bound r 2 ltac:(lia)).
    replace ((r mod 2 + 2 * spread m (r / 2)) mod 2) with (r mod 2) by dlia.
    replace ((r mod 2 + 2 * spread m (r / 2)) / 2) with (spread m (r / 2)) by dlia.
    rewrite IH by dlia. dlia.
  - replace (2 * spread m r / 2) with (spread m r) by dlia. by apply IH.
  - rewrite Z.mod_mod by lia. change (2 ^ Z.of_nat 1) with 2 in Hr. by apply Z.mod_small.
Qed.

Lemma spread_gather m x : 0 <= x -> Z.ldiff x (Zpos m) = 0 -> spread m (gather m x) = x.
Proof.
  revert x. induction m as [m IH|m IH|]; intros x Hx Hd; cbn [gather spread].
  - pose proof (Z.mod_pos_bound x 2 ltac:(lia)).
    replace ((x mod 2 + 2 * gather m (x / 2)) mod 2) with (x mod 2) by dlia.
    replace ((x mod 2 + 2 * gather m (x / 2)) / 2) with (gather m (x / 2)) by dlia.
    rewrite IH; [dlia|dlia|]. rewrite <- shiftr_1. replace (Zpos m) with (Z.shiftr (Zpos m~1) 1) by done.
    rewrite <- Z.shiftr_ldiff, Hd. done.
  - rewrite IH; [|dlia|rewrite <- shiftr_1; replace (Zpos m) with (Z.shiftr (Zpos m~0) 1) by done; by rewrite <- Z.shiftr_ldiff, Hd].
    assert (x mod 2 = 0); [|dlia]. rewrite <- odd_mod2.
    assert (Hb : Z.testbit (Z.ldiff x (Zpos m~0)) 0 = false) by (by rewrite Hd).
    rewrite Z.ldiff_spec, Z.bit0_odd in Hb. cbn in Hb. rewrite andb_true_r in Hb. by rewrite Hb.
  - rewrite Z.mod_mod by lia. apply Z.mod_small. split; [done|].
    assert (Hb : Z.shiftr x 1 = 0); [|rewrite shiftr_1 in Hb; dlia].
    assert (Z.shiftr (Z.ldiff x 1) 1 = 0) as H by (by rewrite Hd). rewrite Z.shiftr_ldiff in H.
    change (Z.shiftr 1 1) with 0 in H. by rewrite Z.ldiff_0_r in H.
Qed.

Lemma gather_range m x : 0 <= gather m x < 2 ^ Z.of_nat (popcount m).
Proof.
  revert x. induction m as [m IH|m IH|]; intros x; cbn [gather popcount].
  - specialize (IH (x / 2)). rewrite Nat2Z.inj_succ, Z.pow_succ_r by lia. pose proof (Z.mod_pos_bound x 2 ltac:(lia)). lia.
  - apply IH.
  - change (2 ^ Z.of_nat 1) with 2. apply Z.mod_pos_bound. lia.
Qed.

Lemma spread_inside m r : 0 <= spread m r /\ Z.ldiff (spread m r) (Zpos m) = 0.
Proof.
  revert r. induction m as [m IH|m IH|]; intros r; cbn [spread].
  - destruct (IH (r / 2)) as [H1 H2]. pose proof (Z.mod_pos_bound r 2 ltac:(lia)). split; [lia|].
    apply Z.bits_inj'. intros i Hi. rewrite Z.ldiff_spec, Z.bits_0. destruct (decide (i = 0)) as [->|].
    + rewrite (Z.bit0_odd (Zpos m~1)). cbn. by rewrite andb_false_r.
    + replace i with (Z.succ (i - 1)) by lia. rewrite <- odd_mod2, <- bit_split, Z.add_comm, Z.testbit_succ_r by lia.
      change (Zpos m~1) with (2 * Zpos m + Z.b2z true). rewrite Z.testbit_succ_r by lia.
      by rewrite <- Z.ldiff_spec, H2, Z.bits_0.
  - destruct (IH r) as [H1 H2]. split; [lia|]. apply Z.bits_inj'. intros i Hi. rewrite Z.ldiff_spec, Z.bits_0.
    destruct (decide (i = 0)) as [->|]; [by rewrite Z.testbit_even_0|].
    replace i with (Z.succ (i - 1)) by lia. change (Zpos m~0) with (2 * Zpos m).
    rewrite !Z.testbit_even_succ by lia. by rewrite <- Z.ldiff_spec, H2, Z.bits_0.
  - pose proof (Z.mod_pos_bound r 2 ltac:(lia)). split; [lia|]. assert (r mod 2 = 0 \/ r mod 2 = 1) as [-> | ->] by lia; done.
Qed.

(** Inside a run of the low ones, the next rank is the next word. *)
Lemma spread_run m r i : 0 <= i -> r mod 2 ^ Z.of_nat (low_ones m) + i < 2 ^ Z.of_nat (low_ones m) ->
  spread m (r + i) = spread m r + i.
Proof.
  revert r i. induction m as [m IH|m IH|]; intros r i Hi Hlt; cbn [spread low_ones] in *.
  - rewrite Nat2Z.inj_succ, Z.pow_succ_r in Hlt by lia. set (p := 2 ^ Z.of_nat (low_ones m)) in *.
    assert (Hp : 0 < p) by (unfold p; lia). pose proof (Z.mod_pos_bound r 2 ltac:(lia)).
    set (j := (r mod 2 + i) / 2). assert (Hj : (r + i) / 2 = r / 2 + j) by (unfold j; dlia).
    rewrite Hj, IH; [unfold j; dlia|unfold j; dlia|].
    assert (Hm : r mod (2 * p) = r mod 2 + 2 * ((r / 2) mod p)).
    { rewrite Z.rem_mul_r by lia. done. }
    unfold j. dlia.
  - change (2 ^ Z.of_nat 0) with 1 in Hlt. rewrite Z.mod_1_r in Hlt. replace i with 0 by lia. rewrite Z.add_0_r. lia.
  - change (2 ^ Z.of_nat 1) with 2 in Hlt. dlia.
Qed.
End Deposit.

(** ** What the cursor enumerates *)

(** The nonce of rank [r] in the domain of [variable] over [fixed]. *)
Definition spread_z (v r : Z) : Z := match v with Zpos m => spread m r | _ => 0 end.
Definition nonce_at (f v r : Z) : Z := Z.lor f (spread_z v r).

Section Domain.
Context (f mask : Z) (Hf : fits 64 f) (Hmask : fits 64 mask).
Abbreviation v := (Z.ldiff mask f).
Abbreviation size := (Z.shiftl 1 (count_ones 64 v)).

Lemma v_fits : fits 64 v.
Proof.
  destruct Hf, Hmask. assert (0 <= v) by (apply Z.ldiff_nonneg; lia). split; [done|].
  assert (v <= mask); [|lia]. apply Z.ldiff_le; [lia|]. apply Z.bits_inj'. intros i Hi.
  rewrite !Z.ldiff_spec, Z.bits_0. by destruct (Z.testbit mask i), (Z.testbit f i).
Qed.

Lemma v_disjoint : Z.land f v = 0.
Proof. apply Z.bits_inj'. intros i Hi. rewrite Z.land_spec, Z.ldiff_spec, Z.bits_0. by destruct (Z.testbit f i), (Z.testbit mask i). Qed.

Lemma v_cases : v = 0 \/ exists m, v = Zpos m /\ fits 64 (Zpos m).
Proof. pose proof v_fits as [H1 H2]. destruct v as [|m|m]; [by left|right; by exists m|lia]. Qed.

Lemma size_range : 1 <= size <= 2 ^ 64.
Proof.
  rewrite Z.shiftl_1_l. destruct v_cases as [->|(m & -> & Hm)]; [by rewrite count_ones_0|].
  rewrite count_ones_spec by done. pose proof (popcount_le 64 m Hm). split; [lia|]. apply Z.pow_le_mono_r; lia.
Qed.

Lemma deposit_spread r : deposit r v = spread_z v r.
Proof.
  unfold deposit. destruct v_cases as [->|(m & -> & Hm)]; [done|]. cbn [spread_z].
  apply deposit_loop_spread; [by apply popcount_le|done].
Qed.

Lemma spread_z_inside r : 0 <= spread_z v r /\ Z.ldiff (spread_z v r) v = 0.
Proof. destruct v_cases as [->|(m & -> & Hm)]; [done|]. apply spread_inside. Qed.

Lemma spread_z_disjoint r : Z.land f (spread_z v r) = 0.
Proof.
  destruct (spread_z_inside r) as [_ Hs]. apply Z.bits_inj'. intros i Hi. rewrite Z.land_spec, Z.bits_0.
  pose proof (f_equal (fun z => Z.testbit z i) v_disjoint) as H1. pose proof (f_equal (fun z => Z.testbit z i) Hs) as H2.
  cbn beta in *. rewrite Z.land_spec, Z.bits_0 in H1. rewrite (Z.ldiff_spec (spread_z v r) v), Z.bits_0 in H2.
  destruct (Z.testbit f i), (Z.testbit (spread_z v r) i), (Z.testbit v i); done.
Qed.

Lemma nonce_at_add r : nonce_at f v r = f + spread_z v r.
Proof. apply land_zero_lor_add, spread_z_disjoint. Qed.

Lemma nonce_at_inj r s : 0 <= r < size -> 0 <= s < size -> nonce_at f v r = nonce_at f v s -> r = s.
Proof.
  rewrite !nonce_at_add, Z.shiftl_1_l. destruct v_cases as [->|(m & -> & Hm)]; cbn [spread_z].
  { rewrite count_ones_0. cbn. lia. }
  rewrite count_ones_spec by done. intros Hr Hs H. rewrite <- (gather_spread m r), <- (gather_spread m s) by done. f_equal. lia.
Qed.

(** The transform [(raw & mask) | fixed] and the ranks have the same image. *)
Lemma transform_rank raw : exists r, 0 <= r < size /\ nonce_at f v r = Z.lor (Z.land raw mask) f.
Proof.
  assert (Hlor : Z.lor f (Z.land raw v) = Z.lor (Z.land raw mask) f).
  { apply Z.bits_inj'. intros i Hi. rewrite !Z.lor_spec, !Z.land_spec, Z.ldiff_spec.
    by destruct (Z.testbit f i), (Z.testbit raw i), (Z.testbit mask i). }
  rewrite <- Hlor, Z.shiftl_1_l. unfold nonce_at. destruct v_cases as [->|(m & Hv & Hm)].
  { exists 0. rewrite Z.land_0_r, count_ones_0. done. }
  rewrite Hv, count_ones_spec by done. exists (gather m (Z.land raw (Zpos m))). split; [apply gather_range|].
  cbn [spread_z]. rewrite spread_gather; [done|apply Z.land_nonneg; lia|].
  apply Z.bits_inj'. intros i Hi. rewrite Z.ldiff_spec, Z.land_spec, Z.bits_0. by destruct (Z.testbit raw i), (Z.testbit (Zpos m) i).
Qed.

Lemma rank_transform r : exists raw, fits 64 raw /\ nonce_at f v r = Z.lor (Z.land raw mask) f.
Proof.
  destruct (spread_z_inside r) as [H0 Hd]. exists (spread_z v r). split.
  - split; [done|]. pose proof v_fits as [_ H]. eapply Z.le_lt_trans; [|exact H]. by apply Z.ldiff_le; [apply v_fits|].
  - unfold nonce_at. apply Z.bits_inj'. intros i Hi. pose proof (f_equal (fun z => Z.testbit z i) Hd) as H2. cbn beta in H2.
    rewrite !Z.lor_spec, Z.land_spec. rewrite (Z.ldiff_spec (spread_z v r) v), Z.ldiff_spec, Z.bits_0 in H2.
    destruct (Z.testbit f i), (Z.testbit (spread_z v r) i), (Z.testbit mask i); done.
Qed.

(** A launch is a run of consecutive nonces, one per rank. *)
Lemma nonce_run r n : 0 <= r -> n <= Z.shiftl 1 (trailing_ones 64 v) - Z.land r (Z.shiftl 1 (trailing_ones 64 v) - 1) ->
  seqZ (nonce_at f v r) n = (fun i => nonce_at f v (r + i)) <$> seqZ 0 n.
Proof.
  intros Hr Hn. rewrite <- (Z.add_0_r (nonce_at f v r)) at 1. rewrite <- (fmap_add_seqZ (nonce_at f v r) 0 n).
  apply list_fmap_ext. intros k i Hi. apply lookup_seqZ in Hi as [-> Hi].
  rewrite !nonce_at_add. rewrite Z.shiftl_1_l in Hn. destruct v_cases as [Hv|(m & Hv & Hm)].
  { rewrite Hv, trailing_ones_0 in Hn. change (2 ^ 0) with 1 in Hn. rewrite Z.land_0_r in Hn. rewrite Hv. cbn [spread_z]. lia. }
  rewrite Hv, trailing_ones_spec in * by done. cbn [spread_z].
  replace (2 ^ Z.of_nat (low_ones m) - 1) with (Z.ones (Z.of_nat (low_ones m))) in Hn by (rewrite Z.ones_equiv; lia).
  rewrite Z.land_ones in Hn by lia. rewrite (spread_run m r (0 + Z.of_nat k)); lia.
Qed.
End Domain.

(** One launch: the caller asks for [requested] nonces and confirms [done] of the range it is given. *)
Definition launch (c : MaskedNonceCursor) (l : Z * Z) : res (list Z * MaskedNonceCursor) :=
  match peek c l.1 with
  | None => mret ([], c)
  | Some r => let d := Z.min l.2 (range_len r) in c ← commit c d; mret (seqZ (range_start r) d, c)
  end.
Fixpoint run_cursor (c : MaskedNonceCursor) (ls : list (Z * Z)) : res (list Z * MaskedNonceCursor) :=
  match ls with
  | [] => mret ([], c)
  | l :: ls => '(a, c) ← launch c l; '(b, c) ← run_cursor c ls; mret (a ++ b, c)
  end.

Section Cursor.
Context (mask f seed : Z) (Hmask : fits 64 mask) (Hf : fits 64 f).
Abbreviation v := (Z.ldiff mask f).
Abbreviation size := (Z.shiftl 1 (count_ones 64 v)).
Abbreviation r0 := (Z.land seed (size - 1)).

(** [k] nonces have been confirmed. *)
Definition cursor_at (k : Z) (c : MaskedNonceCursor) : Prop :=
  0 <= k <= size /\ fixed c = f /\ variable c = v /\ domain c = size /\ remaining c = size - k
  /\ rank c = (r0 + k) mod size.

Lemma r0_range : 0 <= r0 < size.
Proof.
  pose proof (size_range f mask Hf Hmask). rewrite Z.shiftl_1_l in *.
  assert (0 <= count_ones 64 v) by (destruct (v_cases f mask Hf Hmask) as [->|(m & -> & Hm)]; [done|rewrite count_ones_spec by done; lia]).
  replace (2 ^ count_ones 64 v - 1) with (Z.ones (count_ones 64 v)) by (rewrite Z.ones_equiv; lia).
  rewrite Z.land_ones by done. apply Z.mod_pos_bound. lia.
Qed.

Lemma cursor_new_at : cursor_at 0 (cursor_new mask f seed).
Proof.
  pose proof (size_range f mask Hf Hmask). unfold cursor_at, cursor_new. cbv zeta.
  cbn [fixed variable rank remaining domain]. split_and!; try done; try lia.
  rewrite Z.add_0_r. symmetry. apply Z.mod_small, r0_range.
Qed.

Definition nonces (k n : Z) : list Z := (fun i => nonce_at f v ((r0 + i) mod size)) <$> seqZ k n.

Lemma launch_spec k c l : cursor_at k c -> fits 64 l.1 -> 0 <= l.2 ->
  exists d c', launch c l = Ret (nonces k d, c') /\ cursor_at (k + d) c' /\ 0 <= d
               /\ (0 < l.1 -> 0 < l.2 -> k < size -> 0 < d).
Proof.
  intros Hc [Hl1 Hl1'] Hl2. pose proof Hc as (Hk & Hcf & Hv & Hd & Hrem & Hr). pose proof (size_range f mask Hf Hmask) as Hs. pose proof r0_range as H0.
  unfold launch, peek. destruct ((l.1 =? 0) || (remaining c =? 0)) eqn:E.
  { apply orb_true_iff in E. rewrite !Z.eqb_eq in E. exists 0, c. split; [done|].
    rewrite Z.add_0_r. split; [done|]. split; [done|lia]. }
  apply orb_false_iff in E as [E1%Z.eqb_neq E2%Z.eqb_neq]. cbv zeta. cbn [range_len range_start].
  rewrite Hcf, Hv, Hd, Hr, Hrem in *.
  pose proof (Z.mod_pos_bound (r0 + k) size ltac:(lia)) as Hrk. set (r := (r0 + k) mod size) in *.
  set (t := Z.shiftl 1 (trailing_ones 64 v)).
  assert (Ht : 0 < t - Z.land r (t - 1)).
  { unfold t. rewrite Z.shiftl_1_l. assert (0 <= trailing_ones 64 v).
    { destruct (v_cases f mask Hf Hmask) as [->|(m & -> & Hm)]; [done|rewrite trailing_ones_spec by done; lia]. }
    replace (2 ^ trailing_ones 64 v - 1) with (Z.ones (trailing_ones 64 v)) by (rewrite Z.ones_equiv; lia).
    rewrite Z.land_ones by done. pose proof (Z.mod_pos_bound r (2 ^ trailing_ones 64 v) ltac:(lia)). lia. }
  set (n := Z.min (Z.min (Z.min l.1 (size - k)) (t - Z.land r (t - 1))) (size - r)).
  rewrite (wrap_id 64 n) by (unfold n, fits; lia). rewrite (wrap_id 64 r) by (unfold fits; lia).
  rewrite (deposit_spread f mask) by done. fold (nonce_at f v r). set (d := Z.min l.2 n).
  assert (Hd' : 0 <= d <= n /\ n <= l.1 /\ n <= size - k /\ n <= t - Z.land r (t - 1) /\ n <= size - r /\ (0 < l.2 -> 0 < d)) by lia.
  unfold commit. rewrite Hcf, Hv, Hd, Hr, Hrem. fold r.
  rewrite (proj2 (Z.leb_le d (size - k))), (proj2 (Z.leb_le (r + d) size)) by lia. cbn [andb].
  assert (Hrun : seqZ (nonce_at f v r) d = nonces k d).
  { rewrite (nonce_run f mask) by (done || (fold t; lia)). unfold nonces. rewrite <- (Z.add_0_r k), <- (fmap_add_seqZ k 0 d), <- list_fmap_compose.
    apply list_fmap_ext. intros j i Hi. apply lookup_seqZ in Hi as [-> Hi]. cbn [compose]. f_equal.
    rewrite (Z.add_assoc r0 k), <- (Zplus_mod_idemp_l (r0 + k)). fold r. symmetry. apply Z.mod_small. lia. }
  eexists d, _. split; [|split]; [cbn [mbind res_bind mret res_ret]; by rewrite Hrun| |lia].
  unfold cursor_at. cbn [fixed variable rank remaining domain]. split_and!; try done; try lia.
  rewrite (Z.add_assoc r0 k), <- (Zplus_mod_idemp_l (r0 + k)). fold r. destruct (Z.eqb_spec (r + d) size) as [->|]; [by rewrite Z.mod_same by lia|].
  symmetry. apply Z.mod_small. lia.
Qed.

Lemma nonces_app k a b : 0 <= a -> 0 <= b -> nonces k a ++ nonces (k + a) b = nonces k (a + b).
Proof. intros. unfold nonces. rewrite <- fmap_app. f_equal. by rewrite seqZ_app. Qed.

Lemma run_cursor_spec ls k c : cursor_at k c -> Forall (fun l => fits 64 l.1 /\ 0 <= l.2) ls ->
  exists d c', run_cursor c ls = Ret (nonces k d, c') /\ cursor_at (k + d) c' /\ 0 <= d
    /\ (Forall (fun l => 0 < l.1 /\ 0 < l.2) ls -> Z.min (zlen ls) (size - k) <= d).
Proof.
  revert k c. induction ls as [|l ls IH]; intros k c Hc Hls; cbn [run_cursor].
  { exists 0, c. rewrite Z.add_0_r. refine (conj eq_refl (conj Hc (conj _ _))); [lia|]. unfold zlen. cbn [length]. destruct Hc. lia. }
  apply Forall_cons in Hls as [[Hl1 Hl2] Hls]. destruct (launch_spec k c l Hc Hl1 Hl2) as (d & c1 & -> & Hc1 & Hd & Hp).
  destruct (IH (k + d) c1 Hc1 Hls) as (e & c2 & He & Hc2 & He0 & Hp2). cbn [mbind res_bind]. rewrite He. cbn [mbind res_bind].
  exists (d + e), c2. rewrite nonces_app by done. split; [done|]. split; [by rewrite Z.add_assoc|]. split; [lia|].
  intros [[Hl1p Hl2p] Hlsp]%Forall_cons. rewrite zlen_cons. specialize (Hp Hl1p Hl2p). specialize (Hp2 Hlsp).
  destruct Hc as [Hk _]. lia.
Qed.
End Cursor.

(** C33: The cursor enumerates its domain exactly once.  However a driver sizes its launches and
      however many nonces of each it confirms, no commit panics, the confirmed nonces are distinct
      images of the pool transform [(raw & mask) | fixed], and once the cursor is exhausted every
      image has been produced.  A driver that asks for and confirms at least one nonce per launch
      exhausts it in as many launches as the domain has nonces. *)
Theorem cursor_enumerates (mask f seed : Z) (ls : list (Z * Z)) : fits 64 mask -> fits 64 f ->
  Forall (fun l => fits 64 l.1 /\ 0 <= l.2) ls ->
  exists out c, run_cursor (cursor_new mask f seed) ls = Ret (out, c)
    /\ NoDup out
    /\ (forall x, x ∈ out -> exists raw, fits 64 raw /\ x = Z.lor (Z.land raw mask) f)
    /\ (exhausted c = true -> forall raw, Z.lor (Z.land raw mask) f ∈ out)
    /\ (Forall (fun l => 0 < l.1 /\ 0 < l.2) ls -> domain c <= zlen ls -> exhausted c = true).
Proof.
  intros Hm Hf Hls.
  destruct (run_cursor_spec mask f seed Hm Hf ls 0 _ (cursor_new_at mask f seed Hm Hf) Hls) as (d & c & Hrun & Hc & Hd & Hp).
  exists (nonces mask f seed 0 d), c. destruct Hc as (Hk & Hcf & Hv & Hdom & Hrem & Hr). rewrite Z.add_0_l in *.
  pose proof (size_range f mask Hf Hm) as Hsz. pose proof (r0_range mask f seed Hm Hf) as H0.
  set (size := Z.shiftl 1 (count_ones 64 (Z.ldiff mask f))) in *. set (r0 := Z.land seed (size - 1)) in *.
  assert (Hmod : forall i, 0 <= (r0 + i) mod size < size) by (intros; apply Z.mod_pos_bound; lia).
  split_and!; [done| | | |].
  - unfold nonces. apply NoDup_fmap_2_strong; [|apply NoDup_seqZ]. intros i j [Hi1 Hi2]%elem_of_seqZ [Hj1 Hj2]%elem_of_seqZ H.
    apply (nonce_at_inj f mask Hf Hm) in H; try apply Hmod. fold size r0 in H.
    assert (Hdiff : (i - j) mod size = 0).
    { replace (i - j) with ((r0 + i) - (r0 + j)) by lia. rewrite Zminus_mod, H, Z.sub_diag. apply Z.mod_0_l. lia. }
    apply Z.mod_divide in Hdiff as [q Hq]; [|lia]. clear - Hq Hi1 Hi2 Hj1 Hj2 Hk. clearbody size.
    assert (-1 < q < 1) by nia. assert (q = 0) as -> by lia. lia.
  - intros x (i & -> & _)%list_elem_of_fmap. apply rank_transform; done.
  - unfold exhausted. rewrite Hrem. intros He%Z.eqb_eq raw. destruct (transform_rank f mask Hf Hm raw) as (r & Hrr & Hnr).
    rewrite <- Hnr. apply list_elem_of_fmap. exists ((r - r0) mod size). fold size in Hrr. split.
    + f_equal. fold size r0. rewrite Zplus_mod_idemp_r. replace (r0 + (r - r0)) with r by lia. symmetry. by apply Z.mod_small.
    + apply elem_of_seqZ. pose proof (Z.mod_pos_bound (r - r0) size ltac:(lia)). lia.
  - intros Hpos Hlen. specialize (Hp Hpos). unfold exhausted. rewrite Hrem. apply Z.eqb_eq. lia.
Qed.

(** ** The 256-bit comparison *)

Lemma from_le_cons (y : byte) (a : list byte) : from_le (y :: a) = u8_of_byte y + 256 * from_le a.
Proof.
  change (Z.lor (u8_of_byte y) (Z.shiftl (from_le a) 8) = u8_of_byte y + 256 * from_le a). pose proof (u8_of_byte_range y).
  rewrite land_zero_lor_add; [rewrite Z.shiftl_mul_pow2 by lia; lia|]. apply Z.bits_inj'. intros i Hi.
  rewrite Z.land_spec, Z.bits_0, Z.shiftl_spec by done. destruct (decide (i < 8)).
  - rewrite (Z.testbit_neg_r (from_le a)) by lia. apply andb_false_r.
  - assert (Hb : Z.testbit (u8_of_byte y) i = false); [|by rewrite Hb].
    destruct (decide (u8_of_byte y = 0)) as [->|]; [apply Z.bits_0|]. apply Z.bits_above_log2; [lia|].
    apply Z.log2_lt_pow2; [lia|]. apply Z.lt_le_trans with (2 ^ 8); [apply u8_of_byte_range|]. apply Z.pow_le_mono_r; lia.
Qed.

Lemma from_le_snoc (a : list byte) x : from_le (a ++ [x]) = from_le a + 2 ^ (8 * zlen a) * u8_of_byte x.
Proof.
  unfold zlen. induction a as [|y a IH].
  - cbn [app length]. rewrite from_le_cons. change (from_le []) with 0. change (8 * Z.of_nat 0) with 0. rewrite Z.pow_0_r. lia.
  - cbn [app length]. rewrite !from_le_cons, IH, Nat2Z.inj_succ.
    replace (8 * Z.succ (Z.of_nat (length a))) with (8 + 8 * Z.of_nat (length a)) by lia. rewrite Z.pow_add_r by lia. lia.
Qed.

Lemma le_leq_loop_spec n a b : (n <= length a)%nat -> (n <= length b)%nat ->
  le_leq_loop n a b = Ret (from_le (take n a) <=? from_le (take n b)).
Proof.
  induction n as [|n IH]; intros Ha Hb; cbn [le_leq_loop]; [done|].
  destruct (lookup_lt_is_Some_2 a n ltac:(lia)) as [x Hx]. destruct (lookup_lt_is_Some_2 b n ltac:(lia)) as [y Hy].
  rewrite (index_of_nat a n x Hx), (index_of_nat b n y Hy). cbn [mbind res_bind].
  rewrite (take_S_r a n x Hx), (take_S_r b n y Hy), !from_le_snoc.
  assert (Hz : forall l : list byte, (n <= length l)%nat -> zlen (take n l) = Z.of_nat n) by (intros; unfold zlen; rewrite length_take; lia).
  rewrite !Hz by lia. pose proof (from_le_fits (take n a)) as Fa. pose proof (from_le_fits (take n b)) as Fb.
  rewrite !Hz in Fa, Fb by lia. unfold fits in *. rewrite IH by lia.
  pose proof (Z.pow_pos_nonneg 2 (8 * Z.of_nat n) ltac:(lia) ltac:(lia)) as Hp. set (p := 2 ^ (8 * Z.of_nat n)) in *.
  destruct (Z.ltb_spec (u8_of_byte x) (u8_of_byte y)); [unfold mret, res_ret; f_equal; symmetry; apply Z.leb_le; nia|].
  destruct (Z.ltb_spec (u8_of_byte y) (u8_of_byte x)); [unfold mret, res_ret; f_equal; symmetry; apply Z.leb_gt; nia|].
  replace (u8_of_byte y) with (u8_of_byte x) by lia. f_equal.
  destruct (Z.leb_spec (from_le (take n a)) (from_le (take n b))); symmetry; [apply Z.leb_le|apply Z.leb_gt]; lia.
Qed.

(** The target check compares numbers.  On 32-byte values [le_leq] never panics and is the order of
      the little-endian integers. *)
Theorem le_leq_is_order (a b : list byte) : length a = 32%nat -> length b = 32%nat ->
  le_leq a b = Ret (from_le a <=? from_le b).
Proof. intros Ha Hb. unfold le_leq. rewrite le_leq_loop_spec, !take_ge by lia. done. Qed.

(** A share value pins the walk.  [pom_pow_value] is 32 bytes, and under one header two final states
      have the same value only if they are equal. *)
Theorem pom_pow_value_injective (h : list byte) (h3 : bool) (s t : Z) : fits 64 s -> fits 64 t ->
  length (pom_pow_value s h h3) = 32%nat /\ (pom_pow_value s h h3 = pom_pow_value t h h3 -> s = t).
Proof.
  intros Hs Ht. unfold pom_pow_value.
  assert (Hw : exists a b c d, pph_words_for_era h h3 = [a; b; c; d] /\ fits 64 a).
  { unfold pph_words_for_era, xor_words, pph_words. destruct h3; cbn; do 4 eexists; (split; [reflexivity|]).
    - apply lxor_fits; [lia|apply word_fits|evaluate].
    - apply word_fits. }
  destruct Hw as (a & b & c & d & -> & Ha). unfold POW_KEYS. cbn [pow_chain fmap list_fmap]. split.
  { cbn. by rewrite !length_app, !length_to_le. }
  cbn [mjoin list_join]. intros H. apply app_inj_1 in H as [H _]; [|by rewrite !length_to_le].
  assert (Hf : forall x, fits 64 x -> fits 64 (Z.lxor (Z.lxor x a) 0x9E3779B97F4A7C15)).
  { intros x Hx. apply lxor_fits; [lia|by apply lxor_fits|evaluate]. }
  apply (f_equal from_le) in H. rewrite !from_to_le in H by (by apply mix64_fits, Hf).
  apply (mix64_inverse _ _ (Hf s Hs)) in H; [|by apply mix64_fits, Hf].
  rewrite <- (proj1 (mix64_inverse _ _ (Hf t Ht) (mix64_fits _ (Hf t Ht))) eq_refl) in H.
  apply lxor_move in H. rewrite Z.lxor_assoc, Z.lxor_nilpotent, Z.lxor_0_r in H.
  apply lxor_move in H. by rewrite Z.lxor_assoc, Z.lxor_nilpotent, Z.lxor_0_r in H.
Qed.

(** ** Concrete instances *)

Section Witnesses.
Lemma seed_v4_steerable_witness : exists nonce, fits 64 nonce
  /\ (forall n, fits 64 n -> pom_block_seed_v4 (replicate 32 (byte_of_u8 1)) 7 n = 42 <-> n = nonce).
Proof. apply seed_v4_steerable; evaluate. Defined.

Lemma cursor_enumerates_witness : exists out c, run_cursor (cursor_new 5 8 3) (replicate 4 (9, 9)) = Ret (out, c)
  /\ NoDup out /\ exhausted c = true.
Proof.
  destruct (cursor_enumerates 5 8 3 (replicate 4 (9, 9))) as (out & c & Hr & Hn & _); [evaluate|evaluate| |].
  - repeat constructor; evaluate.
  - exists out, c. split; [done|]. split; [done|]. revert Hr. vm_compute. by intros [= _ <-].
Defined.

(** The masked-out bit splits the domain [{8, 9, 12, 13}] into runs of two. *)
Example cursor_runs : run_cursor (cursor_new 5 8 3) (replicate 4 (9, 9))
  = Ret ([13; 8; 9; 12], {| fixed := 8; variable := 5; rank := 3; remaining := 0; domain := 4 |}).
Proof. vm_compute. reflexivity. Qed.

Lemma le_leq_is_order_witness : le_leq (to_le 32 5) (to_le 32 1000) = Ret true.
Proof. rewrite (le_leq_is_order (to_le 32 5) (to_le 32 1000)); reflexivity. Defined.

Lemma pom_pow_value_injective_witness : length (pom_pow_value 3 (replicate 32 (byte_of_u8 1)) true) = 32%nat.
Proof. apply (pom_pow_value_injective (replicate 32 (byte_of_u8 1)) true 3 3); evaluate. Defined.
End Witnesses.
