(* ===== verification/WeightTree.v ===== *)
(** * The weight index ([src/pom.rs])

    The Merkle tree over a model's 32-byte chunks: the reference functions, and
    [WeightIndex], which stores only every fifth level of it in a file and
    recomputes the others.  The GGUF reader behind [ChunkSource] is the list of
    chunks it yields; the tree file is its bytes; levels are counters kept in
    [nat], node indexes and offsets are [Z].  Locks, progress logs, the on-disk
    cache and its sidecar are not modelled: the index is the value a build returns. *)
From S2P Require Import Prelude Merkle.
From stdpp Require Import gmap.
#[local] Open Scope Z_scope.

Definition CHECKPOINT_INTERVAL : nat := 5.

(** The environment: the two memo switches. *)
Class MemoConfig := { memo_enabled : bool; sibling_memo_max_nodes : Z }.

Record StoredLevel := { level : nat; offset : Z; count : Z }.

Record WeightIndex := {
  n_chunks : Z;
  r_t : Hash;
  chunk_source : list (list byte);
  tree_file : list byte;
  checkpoints : list StoredLevel;
  total_levels : nat;
  dense : option (list (list Hash));
  sibling_memo : gmap (nat * Z) Hash;
}.

Definition set_memo (m : gmap (nat * Z) Hash) (w : WeightIndex) : WeightIndex :=
  {| n_chunks := n_chunks w; r_t := r_t w; chunk_source := chunk_source w; tree_file := tree_file w;
     checkpoints := checkpoints w; total_levels := total_levels w; dense := dense w; sibling_memo := m |}.

Section Definitions.
Context `{B3 : Blake3}.

(** One level up: an odd last node is paired with itself. *)
Definition level_up (l : list Hash) : list Hash := pair_up hash_pair (fun c => hash_pair c c) l.

Fixpoint merkle_root_loop (fuel : nat) (l : list Hash) : res Hash :=
  if zlen l <=? 1 then index l 0 else
  match fuel with O => Panic | S fuel => merkle_root_loop fuel (level_up l) end.
Definition merkle_root (leaves : list Hash) : res Hash :=
  if zlen leaves =? 0 then Panic else merkle_root_loop (levels (zlen leaves)) leaves.

(** The sibling a proof lists at one level: past the end, the node itself. *)
Definition sibling_of (l : list Hash) (idx : Z) : res Hash :=
  let sib_idx := if Z.even idx then idx + 1 else idx - 1 in
  if sib_idx <? zlen l then index l sib_idx else index l idx.
Fixpoint merkle_proof_loop (fuel : nat) (l : list Hash) (idx : Z) (path : list Hash) : res (list Hash) :=
  if zlen l <=? 1 then mret path else
  match fuel with
  | O => Panic
  | S fuel => sib ← sibling_of l idx; merkle_proof_loop fuel (level_up l) (Z.shiftr idx 1) (path ++ [sib])
  end.
Definition merkle_proof (leaves : list Hash) (idx : Z) : res (list Hash) :=
  merkle_proof_loop (levels (zlen leaves)) leaves idx [].

Fixpoint fold_path (acc : Hash) (idx : Z) (path : list Hash) : Hash :=
  match path with
  | [] => acc
  | sib :: path => fold_path (if Z.even idx then hash_pair acc sib else hash_pair sib acc) (Z.shiftr idx 1) path
  end.
Definition verify_merkle (leaf : Hash) (idx : Z) (path : list Hash) (root : Hash) : bool :=
  bool_decide (fold_path leaf idx path = root).

(** ** Building the sparse tree *)

(** Exactly [rounds] levels up. *)
Fixpoint fold_levels (batch : list Hash) (rounds : nat) : res Hash :=
  match rounds with O => index batch 0 | S rounds => fold_levels (level_up batch) rounds end.

(** [n] rounds of [div_ceil(2)]. *)
Fixpoint count_at_level (n_chunks : Z) (level : nat) : Z :=
  match level with O => n_chunks | S level => count_at_level (div_ceil n_chunks 2) level end.

Definition is_checkpoint (level : nat) (count : Z) : bool :=
  ((0 <? level)%nat && (level mod CHECKPOINT_INTERVAL =? 0)%nat) || (count =? 1).
Fixpoint checkpoint_loop (fuel : nat) (level : nat) (count off : Z) (acc : list StoredLevel)
  : res (list StoredLevel * nat) :=
  let here := is_checkpoint level count in
  let acc := if here then acc ++ [{| level := level; offset := off; count := count |}] else acc in
  if count =? 1 then mret (acc, S level) else
  match fuel with
  | O => Panic
  | S fuel => checkpoint_loop fuel (S level) (div_ceil count 2) (if here then off + count * 32 else off) acc
  end.
Definition compute_checkpoint_offsets (n_chunks : Z) : res (list StoredLevel * nat) :=
  if 0 <? n_chunks then checkpoint_loop (levels n_chunks) 0 n_chunks 0 [] else Panic.

(** [read_exact_at]: past the end, the [expect] panics. *)
Definition read_nodes (file : list byte) (off n : Z) : res (list Hash) :=
  b ← index_range file off (off + n * 32); mret (chunks 32 b).

Fixpoint fold_batches (batches : list (list Hash)) (rounds : nat) : res (list Hash) :=
  match batches with
  | [] => mret []
  | b :: bs => h ← fold_levels b rounds; t ← fold_batches bs rounds; mret (h :: t)
  end.

(** The loop over [checkpoints[1..]]: each level is folded from the one before and appended. *)
Fixpoint upper_levels (file : list byte) (prev : StoredLevel) (cps : list StoredLevel) : res (list byte) :=
  match cps with
  | [] => mret file
  | cp :: cps =>
    let rounds := (level cp - level prev)%nat in
    nodes ← read_nodes file (offset prev) (count prev);
    parents ← fold_batches (chunks (2 ^ rounds) nodes) rounds;
    upper_levels (file ++ concat parents) cp cps
  end.
Definition finalize_checkpoint_upper (file : list byte) (n_chunks : Z) : res (list byte * list StoredLevel * nat * Hash) :=
  '(cps, total) ← compute_checkpoint_offsets n_chunks;
  first ← index cps 0;
  file ← upper_levels file first (tail cps);
  root_cp ← index cps (zlen cps - 1);
  r ← index_range file (offset root_cp) (offset root_cp + 32);
  mret (file, cps, total, r).

(** [build_tree_to], from the chunks of the sorted tensors; a model without chunks is an error. *)
Definition build_tree (source : list (list byte)) : res (option WeightIndex) :=
  if zlen source =? 0 then mret None else
  nodes ← fold_batches (chunks (2 ^ CHECKPOINT_INTERVAL) (blake3_hash <$> source)) CHECKPOINT_INTERVAL;
  '(file, cps, total, r) ← finalize_checkpoint_upper (concat nodes) (zlen source);
  mret (Some {| n_chunks := zlen source; r_t := r; chunk_source := source; tree_file := file; checkpoints := cps;
                total_levels := total; dense := None; sibling_memo := ∅ |}).

(** ** Reading *)

Definition read_chunks (w : WeightIndex) (first n : Z) : res (list byte) :=
  cs ← index_range (chunk_source w) first (first + n); Ret (concat cs).

Definition find_checkpoint (w : WeightIndex) (l : nat) : res StoredLevel :=
  match list_find (fun cp => level cp = l) (checkpoints w) with Some (_, cp) => Ret cp | None => Panic end.

Definition compute_subtree_hash (w : WeightIndex) (start : Z) (rounds src_level : nat) : res Hash :=
  let span := Z.shiftl 1 (Z.of_nat rounds) in
  source_count ← (if (src_level =? 0)%nat then mret (n_chunks w) else cp ← find_checkpoint w src_level; mret (count cp));
  if source_count <=? start then mret (replicate 32 (byte_of_u8 0)) else
  let end_ := Z.min (start + span) source_count in
  nodes ← (if (src_level =? 0)%nat
           then b ← read_chunks w start (end_ - start); mret (blake3_hash <$> chunks 32 b)
           else cp ← find_checkpoint w src_level; read_nodes (tree_file w) (offset cp + start * 32) (end_ - start));
  fold_levels nodes rounds.

Context `{MC : MemoConfig}.

(** The sibling of [idx] at [level], without the memo. *)
Definition path_node (w : WeightIndex) (l : nat) (idx : Z) : res Hash :=
  let sib_idx := Z.lxor idx 1 in
  if (0 <? l)%nat && ((l mod CHECKPOINT_INTERVAL =? 0)%nat || (S l =? total_levels w)%nat) then
    cp ← find_checkpoint w l;
    let real_idx := if sib_idx <? count cp then sib_idx else idx in
    index_range (tree_file w) (offset cp + real_idx * 32) (offset cp + real_idx * 32 + 32)
  else
    let real_sib_idx := if sib_idx <? count_at_level (n_chunks w) l then sib_idx else idx in
    let src_level := ((l / CHECKPOINT_INTERVAL) * CHECKPOINT_INTERVAL)%nat in
    let rounds := (l - src_level)%nat in
    compute_subtree_hash w (real_sib_idx * Z.shiftl 1 (Z.of_nat rounds)) rounds src_level.

(** [n] levels from [l] on; the memo is threaded through. *)
Fixpoint sparse_path (n l : nat) (w : WeightIndex) (idx : Z) : res (list Hash * WeightIndex) :=
  match n with
  | O => mret ([], w)
  | S n =>
    let sib_idx := Z.lxor idx 1 in
    let memoize := memo_enabled && (count_at_level (n_chunks w) l <=? sibling_memo_max_nodes) in
    match (if memoize then sibling_memo w !! (l, sib_idx) else None) with
    | Some hit => '(path, w) ← sparse_path n (S l) w (Z.shiftr idx 1); mret (hit :: path, w)
    | None =>
      node ← path_node w l idx;
      let w := if memoize then set_memo (<[(l, sib_idx) := node]> (sibling_memo w)) w else w in
      '(path, w) ← sparse_path n (S l) w (Z.shiftr idx 1); mret (node :: path, w)
    end
  end.

Fixpoint dense_path (ls : list (list Hash)) (idx : Z) : res (list Hash) :=
  match ls with
  | [] => mret []
  | l :: ls =>
    let sib := Z.lxor idx 1 in
    h ← (if sib <? zlen l then index l sib else index l idx);
    path ← dense_path ls (Z.shiftr idx 1); mret (h :: path)
  end.

Definition merkle_path_from_level (w : WeightIndex) (off : Z) (first_level : nat) : res (list Hash * WeightIndex) :=
  if negb (off <? n_chunks w) || negb (first_level <? total_levels w)%nat then Panic else
  let idx := Z.shiftr off (Z.of_nat first_level) in
  match dense w with
  | Some ls =>
    path ← dense_path (take (length ls - 1 - first_level) (drop first_level ls)) idx; mret (path, w)
  | None => sparse_path (total_levels w - 1 - first_level) first_level w idx
  end.
Definition merkle_path (w : WeightIndex) (off : Z) : res (list Hash * WeightIndex) := merkle_path_from_level w off 0.

(** [build_dense]: all the levels. *)
Fixpoint dense_levels (fuel : nat) (l : list Hash) : res (list (list Hash)) :=
  if zlen l <=? 1 then mret [l] else
  match fuel with O => Panic | S fuel => t ← dense_levels fuel (level_up l); mret (l :: t) end.
Definition build_dense (w : WeightIndex) : res WeightIndex :=
  match dense w with
  | Some _ => mret w
  | None =>
    b ← read_chunks w 0 (n_chunks w);
    ls ← dense_levels (levels (n_chunks w)) (blake3_hash <$> chunks 32 b);
    mret {| n_chunks := n_chunks w; r_t := r_t w; chunk_source := chunk_source w; tree_file := tree_file w;
            checkpoints := checkpoints w; total_levels := total_levels w; dense := Some ls; sibling_memo := sibling_memo w |}
  end.
End Definitions.

(** ** Levels of the reference tree *)

Section Levels.
Context `{B3 : Blake3}.

(** [k] levels up. *)
Fixpoint ups (k : nat) (l : list Hash) : list Hash :=
  match k with O => l | S k => ups k (level_up l) end.

Lemma ups_add j k l : ups (j + k) l = ups k (ups j l).
Proof. revert l. induction j as [|j IH]; intros l; [done|]. apply IH. Qed.
Lemma ups_S k l : ups (S k) l = level_up (ups k l).
Proof. replace (S k) with (k + 1)%nat by lia. by rewrite ups_add. Qed.

Lemma fold_levels_ups b r : fold_levels b r = index (ups r b) 0.
Proof. revert b. induction r as [|r IH]; intros b; [done|]. apply IH. Qed.

Lemma zlen_level_up l : zlen (level_up l) = div_ceil (zlen l) 2.
Proof. unfold zlen, level_up. by rewrite length_pair_up, div_ceil2_of_nat. Qed.

Lemma zlen_ups k l : zlen (ups k l) = count_at_level (zlen l) k.
Proof. revert l. induction k as [|k IH]; intros l; [done|]. cbn [ups count_at_level]. by rewrite IH, zlen_level_up. Qed.

Lemma div_ceil_unique a b q : 0 < b -> b * (q - 1) < a <= b * q -> div_ceil a b = q.
Proof. intros Hb H. pose proof (div_ceil_spec a b Hb). nia. Qed.

Lemma count_div_ceil n k : count_at_level n k = div_ceil n (2 ^ Z.of_nat k).
Proof.
  revert n. induction k as [|k IH]; intros n; cbn [count_at_level].
  - change (2 ^ Z.of_nat 0) with 1. symmetry. apply div_ceil_unique; lia.
  - rewrite IH, Nat2Z.inj_succ, Z.pow_succ_r by lia. symmetry.
    assert (Hp : 0 < 2 ^ Z.of_nat k) by lia. apply div_ceil_unique; [lia|].
    pose proof (div_ceil_spec n 2 ltac:(lia)). pose proof (div_ceil_spec (div_ceil n 2) _ Hp). nia.
Qed.

Lemma levels_S n : 1 < n -> levels n = S (levels (div_ceil n 2)).
Proof.
  intros Hn. unfold levels, div_ceil.
  assert (Z.log2_up n = Z.succ (Z.log2_up ((n + 2 - 1) / 2))) as ->.
  2: { pose proof (Z.log2_up_nonneg ((n + 2 - 1) / 2)). lia. }
  destruct (decide (n = 2)) as [->|]; [done|].
  assert (H2 : 1 < (n + 2 - 1) / 2) by dlia.
  pose proof (Z.log2_up_spec ((n + 2 - 1) / 2) H2) as [Ha Hb]. set (q := Z.log2_up ((n + 2 - 1) / 2)) in *.
  assert (0 < q) by (apply Z.log2_up_pos; lia). apply Z.log2_up_unique; [lia|].
  rewrite Z.pow_succ_r by lia. replace (Z.pred (Z.succ q)) with (Z.succ (Z.pred q)) by lia.
  rewrite Z.pow_succ_r by lia. dlia.
Qed.

Lemma levels_1 : levels 1 = 0%nat.
Proof. done. Qed.

(** The depth: below it a level has several nodes, at it one. *)
Lemma count_depth n : 0 < n -> count_at_level n (levels n) = 1.
Proof.
  intros Hn. remember (levels n) as d eqn:Hd. revert n Hn Hd. induction d as [|d IH]; intros n Hn Hd; cbn [count_at_level].
  - destruct (decide (1 < n)) as [H|]; [rewrite levels_S in Hd by done; lia|lia].
  - destruct (decide (1 < n)) as [H|]; [|replace n with 1 in Hd by lia; done].
    apply IH; [apply div_ceil_pos; lia|]. rewrite levels_S in Hd by done. lia.
Qed.

Lemma count_below n k : 0 < n -> (k < levels n)%nat -> 1 < count_at_level n k.
Proof.
  intros Hn. revert n Hn. induction k as [|k IH]; intros n Hn Hk; cbn [count_at_level].
  - destruct (decide (1 < n)); [done|]. replace n with 1 in Hk by lia. rewrite levels_1 in Hk. lia.
  - destruct (decide (1 < n)) as [H|]; [|replace n with 1 in Hk by lia; rewrite levels_1 in Hk; lia].
    rewrite levels_S in Hk by done. apply IH; [apply div_ceil_pos; lia|lia].
Qed.

Lemma count_pos n k : 0 < n -> 0 < count_at_level n k.
Proof. intros. rewrite count_div_ceil. apply div_ceil_pos; lia. Qed.

Lemma merkle_root_loop_ups l : 0 < zlen l -> merkle_root_loop (levels (zlen l)) l = index (ups (levels (zlen l)) l) 0.
Proof.
  intros Hl. remember (levels (zlen l)) as d eqn:Hd. revert l Hl Hd. induction d as [|d IH]; intros l Hl Hd; cbn [merkle_root_loop ups].
  - by destruct (zlen l <=? 1) eqn:E; [|apply Z.leb_gt in E; rewrite levels_S in Hd by done].
  - destruct (Z.leb_spec (zlen l) 1) as [H|H]; [replace (zlen l) with 1 in Hd by lia; done|].
    rewrite levels_S in Hd by done. apply IH; rewrite zlen_level_up; [apply div_ceil_pos; lia|lia].
Qed.

Lemma merkle_root_ups l : 0 < zlen l -> merkle_root l = index (ups (levels (zlen l)) l) 0.
Proof.
  intros Hl. unfold merkle_root. destruct (Z.eqb_spec (zlen l) 0); [lia|]. by apply merkle_root_loop_ups.
Qed.

(** ** Folding in batches *)

Lemma ups_nil k : ups k [] = [].
Proof. by induction k. Qed.

Lemma ups_take r i l : ups r (take (i * 2 ^ r) l) = take i (ups r l).
Proof.
  revert l. induction r as [|r IH]; intros l; [cbn; by rewrite Nat.mul_1_r|]. cbn [ups]. rewrite <- IH. f_equal.
  unfold level_up. rewrite <- pair_up_take. do 2 f_equal. rewrite Nat.pow_succ_r'. lia.
Qed.
Lemma ups_drop r i l : ups r (drop (i * 2 ^ r) l) = drop i (ups r l).
Proof.
  revert l. induction r as [|r IH]; intros l; [cbn; by rewrite Nat.mul_1_r|]. cbn [ups]. rewrite <- IH. f_equal.
  unfold level_up. rewrite <- pair_up_drop. do 2 f_equal. rewrite Nat.pow_succ_r'. lia.
Qed.

Lemma zlen_pos {A} (l : list A) : l <> [] -> 0 < zlen l.
Proof. intros Hl. unfold zlen. destruct l; [done|cbn; lia]. Qed.

Lemma ups_head r l : l <> [] -> exists h t, ups r l = h :: t.
Proof.
  intros Hl. destruct (ups r l) as [|h t] eqn:E; [|eauto]. exfalso.
  assert (H : zlen (ups r l) = 0) by (by rewrite E). rewrite zlen_ups in H.
  pose proof (count_pos (zlen l) r (zlen_pos l Hl)). lia.
Qed.

Lemma fold_levels_head r l : l <> [] -> exists h, fold_levels (take (2 ^ r) l) r = Ret h /\ ups r l = h :: ups r (drop (2 ^ r) l).
Proof.
  intros Hl. destruct (ups_head r l Hl) as (h & t & E). exists h.
  pose proof (ups_take r 1 l) as Ht. pose proof (ups_drop r 1 l) as Hd. rewrite Nat.mul_1_l in *.
  rewrite fold_levels_ups, Ht, Hd, E. done.
Qed.

Lemma fold_batches_ups r l : fold_batches (chunks (2 ^ r) l) r = Ret (ups r l).
Proof.
  assert (Hp : (0 < 2 ^ r)%nat) by (pose proof (Nat.pow_nonzero 2 r); lia).
  remember (length l) as n eqn:Hn. revert l Hn. induction n as [n IH] using lt_wf_ind. intros l ->.
  destruct (decide (l = [])) as [->|Hl]; [by rewrite ups_nil|].
  rewrite chunks_cons by done. cbn [fold_batches]. destruct (fold_levels_head r l Hl) as (h & -> & ->).
  cbn [mbind res_bind]. rewrite (IH (length (drop (2 ^ r) l))); [done| |done].
  rewrite length_drop. destruct l; [done|]. cbn [length]. lia.
Qed.

(** The node above a window of [2^r] nodes, the last one possibly short. *)
Lemma fold_window r l i h : ups r l !! i = Some h ->
  fold_levels (take (2 ^ r) (drop (i * 2 ^ r) l)) r = Ret h.
Proof.
  intros Hi. assert (Hd : drop (i * 2 ^ r) l <> []).
  { intros E. pose proof (ups_drop r i l) as H. rewrite E, ups_nil in H. apply lookup_lt_Some in Hi.
    apply (f_equal length) in H. rewrite length_drop in H. cbn in H. lia. }
  destruct (fold_levels_head r _ Hd) as (h' & -> & E). rewrite ups_drop in E.
  rewrite (drop_S _ _ _ Hi) in E. by injection E as ->.
Qed.
End Levels.

(** ** Nodes stored in a file *)

Section Stored.
Definition stored (file : list byte) (off : Z) (nodes : list Hash) : Prop :=
  exists pre post, file = pre ++ concat nodes ++ post /\ zlen pre = off.

Lemma stored_app file off nodes more : stored file off nodes -> stored (file ++ more) off nodes.
Proof. intros (pre & post & -> & Hp). exists pre, (post ++ more). split; [|done]. by rewrite <- !app_assoc. Qed.

Lemma zlen_concat (nodes : list Hash) : Forall is_hash nodes -> zlen (concat nodes) = 32 * zlen nodes.
Proof.
  induction 1 as [|h nodes Hh _ IH]; [done|]. cbn [concat]. rewrite zlen_app, zlen_cons, IH.
  unfold is_hash, zlen in *. lia.
Qed.

Lemma chunks_concat (nodes : list (list byte)) : Forall is_hash nodes -> chunks 32 (concat nodes) = nodes.
Proof. intros H. apply chunks_of_concat; [lia|exact H]. Qed.

Lemma stored_range file off nodes a n : stored file off nodes -> Forall is_hash nodes -> 0 <= a -> 0 <= n -> a + n <= zlen nodes ->
  index_range file (off + a * 32) (off + a * 32 + n * 32) = Ret (concat (slice nodes a (a + n))).
Proof.
  intros (pre & post & -> & Hp) Hh Ha Hn Hb. unfold index_range.
  set (x := take (Z.to_nat a) nodes). set (y := slice nodes a (a + n)). set (z := drop (Z.to_nat (a + n)) nodes).
  assert (Hs : nodes = x ++ y ++ z).
  { unfold x, y, z, slice. replace (Z.to_nat (a + n)) with (Z.to_nat a + Z.to_nat n)%nat by lia.
    replace (Z.to_nat (a + n - a)) with (Z.to_nat n) by lia. rewrite <- drop_drop, !take_drop. done. }
  assert (Hx : zlen x = a) by (apply zlen_take; lia). assert (Hy : zlen y = n) by (unfold y; rewrite zlen_slice; lia).
  assert (Hc : Forall is_hash x /\ Forall is_hash y) by (rewrite Hs, !Forall_app in Hh; tauto). destruct Hc as [Hhx Hhy].
  assert (Hg : get_range (pre ++ concat nodes ++ post) (off + a * 32) (off + a * 32 + n * 32) = Some (concat y)).
  { apply get_range_Some. rewrite Hs, !concat_app, !zlen_app, (zlen_concat x), (zlen_concat y) by done.
    pose proof (zlen_nonneg (concat z)). pose proof (zlen_nonneg post). pose proof (zlen_nonneg pre).
    split_and!; try lia. rewrite <- !app_assoc, app_assoc.
    replace (off + a * 32) with (zlen (pre ++ concat x)) by (rewrite zlen_app, zlen_concat by done; lia).
    replace (zlen (pre ++ concat x) + n * 32) with (zlen (pre ++ concat x) + zlen (concat y)) by (rewrite (zlen_concat y) by done; lia).
    symmetry. apply slice_app_mid. }
  by rewrite Hg.
Qed.

Lemma stored_read file off nodes a n : stored file off nodes -> Forall is_hash nodes -> 0 <= a -> 0 <= n -> a + n <= zlen nodes ->
  read_nodes file (off + a * 32) n = Ret (slice nodes a (a + n)).
Proof.
  intros Hst Hh Ha Hn Hb. unfold read_nodes. rewrite (stored_range file off nodes) by done. cbn [mbind res_bind mret res_ret].
  rewrite chunks_concat; [done|]. unfold slice. apply Forall_take. by apply Forall_drop.
Qed.

Lemma stored_one file off nodes i h : stored file off nodes -> Forall is_hash nodes -> 0 <= i -> nodes !! Z.to_nat i = Some h ->
  index_range file (off + i * 32) (off + i * 32 + 32) = Ret h.
Proof.
  intros Hst Hh Hi Hl. pose proof (lookup_lt_Some _ _ _ Hl) as Hlt.
  pose proof (stored_range file off nodes i 1 Hst Hh Hi ltac:(lia) ltac:(unfold zlen; lia)) as H.
  rewrite Z.mul_1_l in H. rewrite H. f_equal. unfold slice.
  replace (Z.to_nat (i + 1 - i)) with 1%nat by lia. rewrite (take_1_drop _ _ _ Hl). cbn. apply app_nil_r.
Qed.
End Stored.

(** ** Checkpoints *)

Section Checkpoints.
Context `{B3 : Blake3} {BL : Blake3Lengths}.

Lemma level_up_hashes l : Forall is_hash l -> Forall is_hash (level_up l).
Proof.
  intros _. unfold level_up. induction l as [|a|a b l IH] using list_pair_ind; [done| |]; cbn; constructor; try done;
    apply blake3_hash_len.
Qed.
Lemma ups_hashes k l : Forall is_hash l -> Forall is_hash (ups k l).
Proof. revert l. induction k as [|k IH]; intros l Hl; [done|]. by apply IH, level_up_hashes. Qed.

(** The checkpoints of [d] levels above one of [count] nodes at [level], laid out from [off]. *)
Fixpoint cps_from (d level : nat) (count off : Z) : list StoredLevel :=
  match d with
  | O => [{| level := level; offset := off; count := count |}]
  | S d =>
    if (0 <? level)%nat && (level mod CHECKPOINT_INTERVAL =? 0)%nat
    then {| level := level; offset := off; count := count |} :: cps_from d (S level) (div_ceil count 2) (off + count * 32)
    else cps_from d (S level) (div_ceil count 2) off
  end.

Lemma checkpoint_loop_cps d l count off acc : 0 < count -> d = levels count ->
  checkpoint_loop d l count off acc = Ret (acc ++ cps_from d l count off, S (l + d)).
Proof.
  revert l count off acc. induction d as [|d IH]; intros l count off acc Hc Hd; cbn [checkpoint_loop cps_from].
  - assert (count = 1) as ->; [|unfold is_checkpoint; rewrite orb_true_r, Nat.add_0_r; done].
    destruct (decide (1 < count)) as [H|]; [rewrite levels_S in Hd by done; lia|lia].
  - assert (H1 : 1 < count) by (destruct (decide (1 < count)); [done|replace count with 1 in Hd by lia; done]).
    rewrite levels_S in Hd by done. pose proof (div_ceil_pos count 2 ltac:(lia) ltac:(lia)).
    unfold is_checkpoint. destruct (Z.eqb_spec count 1); [lia|]. rewrite orb_false_r.
    destruct (_ && _); (rewrite IH by lia; rewrite <- ?app_assoc; do 2 f_equal; lia).
Qed.

(** Each checkpoint describes its level, and starts where the one before ends. *)
Fixpoint chain (leaves : list Hash) (prev : StoredLevel) (cps : list StoredLevel) : Prop :=
  match cps with
  | [] => True
  | cp :: cps => (level prev < level cp)%nat /\ offset cp = offset prev + 32 * count prev
                 /\ count cp = zlen (ups (level cp) leaves) /\ chain leaves cp cps
  end.

Lemma cps_from_chain d l off leaves : exists cp cps, cps_from d l (zlen (ups l leaves)) off = cp :: cps
  /\ (l <= level cp)%nat /\ offset cp = off /\ count cp = zlen (ups (level cp) leaves) /\ chain leaves cp cps.
Proof.
  revert l off. induction d as [|d IH]; intros l off; cbn [cps_from].
  - eexists _, []. split_and!; done.
  - rewrite <- zlen_level_up, <- ups_S. destruct (_ && _).
    + destruct (IH (S l) (off + zlen (ups l leaves) * 32)) as (cp & cps & -> & Hl & Ho & Hc & Hch).
      eexists _, _. split; [done|]. cbn. split_and!; try done; lia.
    + destruct (IH (S l) off) as (cp & cps & -> & Hl & Ho & Hc & Hch). exists cp, cps. split_and!; try done; lia.
Qed.

Lemma cps_from_first d n off : exists cps, cps_from (5 + d) 0 n off
  = {| level := 5; offset := off; count := count_at_level n 5 |} :: cps.
Proof. destruct d; cbn; eexists; reflexivity. Qed.

Lemma cps_from_small d n off : (d < 5)%nat -> cps_from d 0 n off = [{| level := d; offset := off; count := count_at_level n d |}].
Proof. intros Hd. do 5 (destruct d as [|d]; [reflexivity|]). lia. Qed.

(** The levels that are stored. *)
Lemma cps_from_mem d l count off k : (l <= k <= l + d)%nat -> (0 < k)%nat -> (k mod 5 = 0)%nat \/ k = (l + d)%nat ->
  exists cp, cp ∈ cps_from d l count off /\ level cp = k.
Proof.
  revert l count off. induction d as [|d IH]; intros l cnt off Hk H0 Hm; cbn [cps_from].
  { eexists. split; [apply list_elem_of_here|]. cbn. lia. }
  destruct (decide (k = l)) as [->|Hne].
  - destruct Hm as [Hm|]; [|lia]. unfold CHECKPOINT_INTERVAL. rewrite (proj2 (Nat.ltb_lt 0 l)), (proj2 (Nat.eqb_eq _ _)) by done.
    cbn [andb]. eexists. split; [apply list_elem_of_here|done].
  - destruct (_ && _).
    + destruct (IH (S l) (div_ceil cnt 2) (off + cnt * 32)) as (cp & Hin & Hl); [lia|done|destruct Hm; [by left|right; lia]|].
      exists cp. split; [by apply list_elem_of_further|done].
    + apply IH; [lia|done|destruct Hm; [by left|right; lia]].
Qed.

Lemma cps_from_last d l count off : exists cps cp, cps_from d l count off = cps ++ [cp] /\ level cp = (l + d)%nat.
Proof.
  revert l count off. induction d as [|d IH]; intros l cnt off; cbn [cps_from].
  - eexists [], _. split; [done|]. cbn. lia.
  - destruct (_ && _).
    + destruct (IH (S l) (div_ceil cnt 2) (off + cnt * 32)) as (cps & cp & -> & Hl). eexists (_ :: cps), cp. split; [done|lia].
    + destruct (IH (S l) (div_ceil cnt 2) off) as (cps & cp & -> & Hl). exists cps, cp. split; [done|lia].
Qed.

(** A checkpoint whose nodes are in the file. *)
Definition good (leaves : list Hash) (file : list byte) (cp : StoredLevel) : Prop :=
  count cp = zlen (ups (level cp) leaves) /\ stored file (offset cp) (ups (level cp) leaves).

Lemma good_app leaves file more cp : good leaves file cp -> good leaves (file ++ more) cp.
Proof. intros [? ?]. split; [done|by apply stored_app]. Qed.

(** [upper_levels] appends each level after the one it is folded from. *)
Lemma upper_levels_spec leaves prev cps file : Forall is_hash leaves -> good leaves file prev ->
  zlen file = offset prev + 32 * count prev -> chain leaves prev cps ->
  exists more, upper_levels file prev cps = Ret (file ++ more) /\ Forall (good leaves (file ++ more)) (prev :: cps).
Proof.
  intros Hh. revert prev file. induction cps as [|cp cps IH]; intros prev file Hg Hz Hch; cbn [upper_levels].
  { exists []. rewrite app_nil_r. split; [done|]. constructor; [done|constructor]. }
  destruct Hch as (Hlt & Ho & Hc & Hch). pose proof Hg as [Hgc Hgs].
  pose proof (ups_hashes (level prev) leaves Hh) as Hhp.
  pose proof (stored_read file (offset prev) _ 0 (count prev) Hgs Hhp ltac:(lia) ltac:(rewrite Hgc; apply zlen_nonneg) ltac:(lia)) as Hr.
  rewrite Z.mul_0_l, Z.add_0_r, Z.add_0_l in Hr. rewrite Hr. cbn [mbind res_bind].
  rewrite Hgc, slice_to_end by (pose proof (zlen_nonneg (ups (level prev) leaves)); lia). cbn [Z.to_nat]. rewrite drop_0.
  rewrite fold_batches_ups. cbn [mbind res_bind]. rewrite <- ups_add.
  replace (level prev + (level cp - level prev))%nat with (level cp) by lia.
  pose proof (ups_hashes (level cp) leaves Hh) as Hhc.
  destruct (IH cp (file ++ concat (ups (level cp) leaves))) as (more & Hf' & Hall).
  - split; [done|]. exists file, []. rewrite app_nil_r. split; [done|lia].
  - rewrite zlen_app, (zlen_concat _ Hhc). lia.
  - done.
  - exists (concat (ups (level cp) leaves) ++ more). rewrite app_assoc. split; [done|]. constructor; [|done].
    rewrite <- app_assoc. by apply good_app.
Qed.

(** ** What a build returns *)

Abbreviation leaves_of w := (blake3_hash <$> chunk_source w).
Abbreviation depth w := (levels (zlen (chunk_source w))).

(** The index of a model of more than 16 chunks, any memo apart. *)
Record valid (w : WeightIndex) : Prop := {
  valid_n : n_chunks w = zlen (chunk_source w);
  valid_many : 16 < n_chunks w;
  valid_chunks : Forall (fun c => length c = 32%nat) (chunk_source w);
  valid_total : total_levels w = S (depth w);
  valid_good : Forall (good (leaves_of w) (tree_file w)) (checkpoints w);
  valid_stored : forall k, (0 < k <= depth w)%nat -> (k mod 5 = 0)%nat \/ k = depth w -> exists cp, cp ∈ checkpoints w /\ level cp = k;
  valid_root : Ret (r_t w) = index (ups (depth w) (leaves_of w)) 0;
  valid_dense : forall ls, dense w = Some ls -> ls = (fun k => ups k (leaves_of w)) <$> seq 0 (S (depth w));
}.

Lemma leaves_hashes (cs : list (list byte)) : Forall is_hash (blake3_hash <$> cs).
Proof. apply Forall_fmap, Forall_true. intros c. apply blake3_hash_len. Qed.

Lemma depth_5 n : 16 < n -> (5 <= levels n)%nat.
Proof.
  intros Hn. destruct (decide (5 <= levels n)%nat) as [|H]; [done|]. exfalso.
  pose proof (count_depth n ltac:(lia)) as Hc. rewrite count_div_ceil in Hc.
  pose proof (div_ceil_spec n (2 ^ Z.of_nat (levels n)) ltac:(lia)). rewrite Hc in *.
  assert (2 ^ Z.of_nat (levels n) <= 2 ^ 4) by (apply Z.pow_le_mono_r; lia). lia.
Qed.

Lemma depth_small n : 0 < n <= 16 -> (levels n < 5)%nat.
Proof.
  intros Hn. destruct (decide (levels n < 5)%nat) as [|H]; [done|]. exfalso.
  pose proof (count_below n 4 ltac:(lia) ltac:(lia)) as Hc. rewrite count_div_ceil in Hc.
  pose proof (div_ceil_spec n (2 ^ Z.of_nat 4) ltac:(lia)). lia.
Qed.

(** The root is the last node written. *)
Lemma root_node leaves : 0 < zlen leaves -> exists h, ups (levels (zlen leaves)) leaves = [h].
Proof.
  intros Hl. pose proof (zlen_ups (levels (zlen leaves)) leaves) as H. rewrite count_depth in H by done.
  destruct (ups _ leaves) as [|h [|h' t]]; [done|by exists h|]. rewrite !zlen_cons in H. pose proof (zlen_nonneg t). lia.
Qed.

Lemma build_tree_large source : 16 < zlen source -> Forall (fun c => length c = 32%nat) source ->
  exists w, build_tree source = Ret (Some w) /\ valid w /\ chunk_source w = source /\ dense w = None /\ sibling_memo w = ∅.
Proof.
  intros Hn Hc. set (leaves := blake3_hash <$> source). assert (Hzl : zlen leaves = zlen source) by apply zlen_fmap.
  pose proof (leaves_hashes source) as Hh. fold leaves in Hh.
  unfold build_tree. destruct (Z.eqb_spec (zlen source) 0); [lia|]. fold leaves.
  rewrite fold_batches_ups. cbn [mbind res_bind]. unfold finalize_checkpoint_upper, compute_checkpoint_offsets.
  destruct (Z.ltb_spec 0 (zlen source)); [|lia]. rewrite checkpoint_loop_cps by (done || lia). cbn [mbind res_bind app].
  pose proof (depth_5 _ Hn) as H5. set (d := levels (zlen source)) in *.
  pose proof (cps_from_chain d 0 0 leaves) as (cp & cps & Hcps & _ & Hco & Hcc & Hch).
  destruct (cps_from_first (d - 5) (zlen source) 0) as (cps' & Hfirst). replace (5 + (d - 5))%nat with d in Hfirst by lia.
  cbn [ups] in Hcps. rewrite Hzl in Hcps. rewrite Hcps in Hfirst. injection Hfirst as Hcp _.
  rewrite Hcps. cbn [tail]. change (index (cp :: cps) 0) with (Ret cp). cbn [mbind res_bind].
  assert (Hl5 : level cp = 5%nat) by (by rewrite Hcp).
  change CHECKPOINT_INTERVAL with 5%nat.
  destruct (upper_levels_spec leaves cp cps (concat (ups 5 leaves))) as (more & -> & Hall); [done| | |done|].
  { split; [done|]. rewrite Hl5. exists [], []. rewrite app_nil_r. split; [done|]. by rewrite Hco. }
  { rewrite zlen_concat, Hcc, Hl5, Hco by (by apply ups_hashes). lia. }
  cbn [mbind res_bind]. destruct (cps_from_last d 0 (zlen source) 0) as (init & rcp & Hlast & Hrl). rewrite Hcps in Hlast.
  rewrite (index_last (cp :: cps) rcp) by (by rewrite Hlast, last_snoc). cbn [mbind res_bind].
  assert (Hrg : good leaves (concat (ups 5 leaves) ++ more) rcp).
  { rewrite Forall_forall in Hall. apply Hall. rewrite Hlast. apply elem_of_app. right. apply list_elem_of_here. }
  destruct Hrg as [_ Hrs]. rewrite Hrl in Hrs. cbn [Nat.add] in Hrs. destruct (root_node leaves) as [h Hr]; [lia|].
  rewrite Hzl in Hr. fold d in Hr. rewrite Hr in Hrs.
  assert (Hhr : Forall is_hash [h]) by (rewrite <- Hr; by apply ups_hashes).
  pose proof (stored_one _ _ [h] 0 h Hrs Hhr ltac:(lia) eq_refl) as Hread. rewrite Z.mul_0_l, Z.add_0_r in Hread.
  rewrite Hread. cbn [mbind res_bind]. eexists. split; [reflexivity|]. split; [|done].
  split; cbn [n_chunks r_t chunk_source tree_file checkpoints total_levels dense]; try done.
  - intros k Hk Hm. rewrite <- Hcps. apply cps_from_mem; lia.
  - fold leaves. fold d. by rewrite Hr.
Qed.
End Checkpoints.

(** ** Paths *)

Section Paths.
Context `{B3 : Blake3} {BL : Blake3Lengths} {MC : MemoConfig}.

(** The sibling listed for [idx], and the path of [n] of them. *)
Definition sib_index (l : list Hash) (idx : Z) : Z := if Z.lxor idx 1 <? zlen l then Z.lxor idx 1 else idx.
Definition sibl (l : list Hash) (idx : Z) : Hash := default [] (get_at l (sib_index l idx)).
Fixpoint ref_path (n : nat) (l : list Hash) (idx : Z) : list Hash :=
  match n with O => [] | S n => sibl l idx :: ref_path n (level_up l) (Z.shiftr idx 1) end.

Lemma lxor_1 i : 0 <= i -> Z.lxor i 1 = if Z.even i then i + 1 else i - 1.
Proof.
  intros Hi. destruct (Z.even i) eqn:E.
  - apply Z.even_spec in E as [m ->]. replace (2 * m) with (Z.of_nat (2 * Z.to_nat m)) by lia. rewrite lxor_1_even. lia.
  - assert (Hodd : Z.odd i = true) by (rewrite <- Z.negb_even; by rewrite E). apply Z.odd_spec in Hodd as [m ->].
    replace (2 * m + 1) with (Z.of_nat (2 * Z.to_nat m + 1)) by lia. rewrite lxor_1_odd. lia.
Qed.

Lemma sib_index_range l idx : 0 <= idx < zlen l -> 0 <= sib_index l idx < zlen l.
Proof.
  intros H. unfold sib_index. rewrite lxor_1 by lia. destruct (Z.even idx) eqn:E.
  - destruct (Z.ltb_spec (idx + 1) (zlen l)); lia.
  - assert (idx <> 0) by (intros ->; done). destruct (Z.ltb_spec (idx - 1) (zlen l)); lia.
Qed.

Lemma sibl_lookup l idx : 0 <= idx < zlen l -> index l (sib_index l idx) = Ret (sibl l idx) /\ l !! Z.to_nat (sib_index l idx) = Some (sibl l idx).
Proof.
  intros H. pose proof (sib_index_range l idx H) as Hs. unfold sibl, index, get_at.
  destruct (Z.leb_spec 0 (sib_index l idx)); [|lia].
  destruct (lookup_lt_is_Some_2 l (Z.to_nat (sib_index l idx)) ltac:(unfold zlen in *; lia)) as [h ->]. done.
Qed.

Lemma half_range l idx : 0 <= idx < zlen l -> 0 <= Z.shiftr idx 1 < zlen (level_up l).
Proof.
  intros H. rewrite Z.shiftr_div_pow2 by lia. change (2 ^ 1) with 2. rewrite zlen_level_up.
  pose proof (div_ceil_spec (zlen l) 2 ltac:(lia)). dlia.
Qed.

Lemma shift_range l off k : 0 <= off < zlen l -> 0 <= Z.shiftr off (Z.of_nat k) < zlen (ups k l).
Proof.
  intros H. induction k as [|k IH].
  - cbn [ups]. change (Z.of_nat 0) with 0. by rewrite Z.shiftr_0_r.
  - rewrite ups_S. replace (Z.of_nat (S k)) with (Z.of_nat k + 1) by lia. rewrite <- Z.shiftr_shiftr by lia. by apply half_range.
Qed.

(** The reference proof lists these siblings. *)
Lemma sibling_of_sibl l idx : 0 <= idx < zlen l -> sibling_of l idx = Ret (sibl l idx).
Proof.
  intros H. rewrite <- (proj1 (sibl_lookup l idx H)). unfold sibling_of, sib_index. rewrite lxor_1 by lia.
  by destruct (_ <? zlen l).
Qed.

Lemma merkle_proof_ref leaves idx : 0 <= idx < zlen leaves ->
  merkle_proof leaves idx = Ret (ref_path (levels (zlen leaves)) leaves idx).
Proof.
  intros H. unfold merkle_proof. change (ref_path (levels (zlen leaves)) leaves idx) with ([] ++ ref_path (levels (zlen leaves)) leaves idx).
  generalize (@nil Hash) as pre. remember (levels (zlen leaves)) as d eqn:Hd. revert leaves idx H Hd.
  induction d as [|d IH]; intros l idx H Hd pre; cbn [merkle_proof_loop ref_path].
  - destruct (Z.leb_spec (zlen l) 1); [by rewrite app_nil_r|]. by rewrite levels_S in Hd.
  - destruct (Z.leb_spec (zlen l) 1); [replace (zlen l) with 1 in Hd by lia; done|]. rewrite levels_S in Hd by done.
    rewrite sibling_of_sibl by done. cbn [mbind res_bind]. rewrite IH; [by rewrite <- app_assoc|by apply half_range|].
    rewrite zlen_level_up. lia.
Qed.

Lemma ref_path_drop k n l idx : 0 <= idx -> (k <= n)%nat -> drop k (ref_path n l idx) = ref_path (n - k) (ups k l) (Z.shiftr idx (Z.of_nat k)).
Proof.
  revert n l idx. induction k as [|k IH]; intros n l idx Hi Hk.
  - rewrite drop_0, Nat.sub_0_r. change (Z.of_nat 0) with 0. by rewrite Z.shiftr_0_r.
  - destruct n as [|n]; [lia|]. cbn [ref_path drop ups]. rewrite IH by (rewrite ?Z.shiftr_nonneg; lia).
    rewrite Z.shiftr_shiftr by lia. f_equal. f_equal. lia.
Qed.

(** ** The sparse index lists them too *)

Context (w : WeightIndex) (Hw : valid w).
Abbreviation leaves := (blake3_hash <$> chunk_source w).
Abbreviation depth := (levels (zlen (chunk_source w))).

Lemma zlen_leaves : zlen leaves = zlen (chunk_source w).
Proof. apply zlen_fmap. Qed.

Lemma find_checkpoint_good k : (0 < k <= depth)%nat -> (k mod 5 = 0)%nat \/ k = depth ->
  exists cp, find_checkpoint w k = Ret cp /\ level cp = k /\ good leaves (tree_file w) cp.
Proof.
  intros Hk Hm. destruct (valid_stored w Hw k Hk Hm) as (cp0 & Hin & Hl). unfold find_checkpoint.
  destruct (list_find (fun cp => level cp = k) (checkpoints w)) as [[i cp]|] eqn:E.
  - apply list_find_Some in E as (Hi & Hlc & _). exists cp. split_and!; [done..|].
    pose proof (valid_good w Hw) as Hg. rewrite Forall_forall in Hg. apply Hg. by apply list_elem_of_lookup_2 with i.
  - apply list_find_None in E. rewrite Forall_forall in E. by destruct (E cp0 Hin).
Qed.

Lemma chunks_map_hash (cs : list (list byte)) : Forall (fun c => length c = 32%nat) cs -> blake3_hash <$> chunks 32 (concat cs) = blake3_hash <$> cs.
Proof. intros H. by rewrite chunks_concat. Qed.

Lemma fmap_slice {A B} (f : A -> B) l a b : f <$> slice l a b = slice (f <$> l) a b.
Proof. unfold slice. by rewrite fmap_take, fmap_drop. Qed.

(** A subtree hash is the node above its window. *)
Lemma compute_subtree_hash_node k r i h : (k < depth)%nat -> (k mod 5 = 0)%nat -> 0 <= i -> ups (k + r) leaves !! Z.to_nat i = Some h ->
  compute_subtree_hash w (i * Z.shiftl 1 (Z.of_nat r)) r k = Ret h.
Proof.
  intros Hk Hm Hi Hh. rewrite ups_add in Hh. set (nodes := ups k leaves) in *.
  rewrite Z.shiftl_1_l. set (span := 2 ^ Z.of_nat r). assert (Hsp : span = Z.of_nat (2 ^ r)) by (unfold span; by rewrite Nat2Z.inj_pow).
  assert (Hstart : i * span < zlen nodes).
  { pose proof (lookup_lt_Some _ _ _ Hh) as Hlt. 
    assert (i < zlen (ups r nodes)) by (unfold zlen; lia). rewrite zlen_ups, count_div_ceil in *.
    pose proof (div_ceil_spec (zlen nodes) (2 ^ Z.of_nat r) ltac:(lia)). unfold span in *. nia. }
  set (e := Z.min (i * span + span) (zlen nodes)).
  assert (Hwin : slice nodes (i * span) e = take (2 ^ r) (drop (Z.to_nat i * 2 ^ r) nodes)).
  { unfold slice. replace (Z.to_nat (i * span)) with (Z.to_nat i * 2 ^ r)%nat by lia. unfold e.
    destruct (Z.min_spec (i * span + span) (zlen nodes)) as [[_ ->]|[Hle ->]].
    - f_equal. lia.
    - unfold zlen in *. rewrite !take_ge; [done|rewrite length_drop; lia|rewrite length_drop; lia]. }
  pose proof (fold_window r nodes (Z.to_nat i) h Hh) as Hf. rewrite <- Hwin in Hf.
  unfold compute_subtree_hash. destruct (Nat.eqb_spec k 0) as [->|Hk0]; cbn [mbind res_bind mret res_ret].
  - assert (Hcnt : n_chunks w = zlen nodes) by (unfold nodes; cbn [ups]; rewrite zlen_leaves; apply (valid_n w Hw)).
    rewrite Hcnt. fold span. destruct (Z.leb_spec (zlen nodes) (i * span)); [lia|]. rewrite Z.shiftl_1_l. fold span. fold e.
    unfold read_chunks. rewrite index_range_Ret by (try lia; rewrite <- zlen_leaves; fold (ups 0 leaves); fold nodes; lia).
    cbn [mbind res_bind]. replace (i * span + (e - i * span)) with e by lia. rewrite chunks_map_hash.
    2: { unfold slice. apply Forall_take, Forall_drop, (valid_chunks w Hw). }
    rewrite fmap_slice. exact Hf.
  - destruct (find_checkpoint_good k) as (cp & Hcp & Hlc & Hgc & Hgs); [lia|by left|]. rewrite Hcp. cbn [mbind res_bind mret res_ret].
    rewrite Hlc in Hgc, Hgs. fold nodes in Hgc, Hgs. rewrite Hgc, Z.shiftl_1_l. fold span.
    destruct (Z.leb_spec (zlen nodes) (i * span)); [lia|]. fold e.
    rewrite (stored_read _ _ nodes) by (done || lia || (apply ups_hashes, leaves_hashes)). cbn [mbind res_bind].
    replace (i * span + (e - i * span)) with e by lia. exact Hf.
Qed.

Lemma path_node_sibl k idx : (k < depth)%nat -> 0 <= idx < zlen (ups k leaves) -> path_node w k idx = Ret (sibl (ups k leaves) idx).
Proof.
  intros Hk Hidx. destruct (sibl_lookup _ idx Hidx) as [_ Hs]. pose proof (sib_index_range _ idx Hidx) as Hr.
  unfold path_node. rewrite (valid_total w Hw).
  destruct ((0 <? k)%nat && _) eqn:E.
  - apply andb_true_iff in E as [E1%Nat.ltb_lt E2]. apply orb_true_iff in E2 as [E2%Nat.eqb_eq|E2%Nat.eqb_eq]; [|lia].
    destruct (find_checkpoint_good k) as (cp & Hcp & Hlc & Hgc & Hgs); [lia|by left|]. rewrite Hcp. cbn [mbind res_bind].
    rewrite Hlc in Hgc, Hgs. rewrite Hgc. fold (sib_index (ups k leaves) idx).
    apply (stored_one _ _ (ups k leaves)); [done|apply ups_hashes, leaves_hashes|lia|done].
  - unfold CHECKPOINT_INTERVAL. rewrite (valid_n w Hw), <- zlen_leaves, <- zlen_ups. fold (sib_index (ups k leaves) idx).
    assert (Hdiv : (k / 5 * 5 + (k - k / 5 * 5) = k)%nat) by (pose proof (Nat.div_mod_eq k 5); lia).
    apply compute_subtree_hash_node; [lia|by apply Nat.Div0.mod_mul|lia|]. by rewrite Hdiv.
Qed.

(** What the memo may hold. *)
Definition memo_ok (m : gmap (nat * Z) Hash) : Prop :=
  forall k s h, m !! (k, s) = Some h -> 0 <= Z.lxor s 1 < zlen (ups k leaves) -> h = sibl (ups k leaves) (Z.lxor s 1).
End Paths.

Section Sparse.
Context `{B3 : Blake3} {BL : Blake3Lengths} {MC : MemoConfig}.

Lemma valid_set_memo m w : valid w -> valid (set_memo m w).
Proof. by intros []; split. Qed.

Lemma sparse_path_ref n k w idx : valid w -> memo_ok w (sibling_memo w) -> (k + n <= levels (zlen (chunk_source w)))%nat ->
  0 <= idx < zlen (ups k (blake3_hash <$> chunk_source w)) ->
  exists m, sparse_path n k w idx = Ret (ref_path n (ups k (blake3_hash <$> chunk_source w)) idx, set_memo m w) /\ memo_ok w m.
Proof.
  revert k w idx. induction n as [|n IH]; intros k w idx Hw Hm Hk Hidx; cbn [sparse_path ref_path].
  { exists (sibling_memo w). split; [by destruct w|done]. }
  set (leaves := blake3_hash <$> chunk_source w) in *.
  assert (Hup : 0 <= Z.shiftr idx 1 < zlen (ups (S k) leaves)) by (rewrite ups_S; by apply half_range).
  assert (Hxx : Z.lxor (Z.lxor idx 1) 1 = idx) by (by rewrite Z.lxor_assoc, Z.lxor_nilpotent, Z.lxor_0_r).
  destruct (if memo_enabled && _ then _ else None) as [hit|] eqn:E.
  - destruct (memo_enabled && _); [|done]. pose proof (Hm _ _ _ E) as Hh. rewrite Hxx in Hh. rewrite (Hh Hidx).
    destruct (IH (S k) w (Z.shiftr idx 1) Hw Hm ltac:(lia) Hup) as (m & -> & Hmm). exists m. cbn [mbind res_bind].
    fold leaves. by rewrite ups_S.
  - rewrite path_node_sibl by (done || lia). cbn [mbind res_bind]. fold leaves. destruct (memo_enabled && _).
    + set (m0 := <[_ := _]> (sibling_memo w)). assert (Hm0 : memo_ok w m0).
      { intros j s h Hl Hr. apply lookup_insert_Some in Hl as [[[= <- <-] <-]|[_ Hl]]; [by rewrite Hxx|by apply Hm]. }
      destruct (IH (S k) (set_memo m0 w) (Z.shiftr idx 1) (valid_set_memo m0 w Hw) Hm0 ltac:(cbn; lia) Hup) as (m & Hp & Hmm).
      exists m. rewrite Hp. cbn [mbind res_bind chunk_source set_memo]. fold leaves. by rewrite ups_S.
    + destruct (IH (S k) w (Z.shiftr idx 1) Hw Hm ltac:(lia) Hup) as (m & -> & Hmm). exists m. cbn [mbind res_bind].
      fold leaves. by rewrite ups_S.
Qed.

Lemma dense_path_ref n k leaves idx : 0 <= idx < zlen (ups k leaves) ->
  dense_path ((fun k => ups k leaves) <$> seq k n) idx = Ret (ref_path n (ups k leaves) idx).
Proof.
  revert k idx. induction n as [|n IH]; intros k idx Hidx; cbn [seq fmap list_fmap dense_path ref_path]; [done|].
  replace (if Z.lxor idx 1 <? zlen (ups k leaves) then index (ups k leaves) (Z.lxor idx 1) else index (ups k leaves) idx)
    with (index (ups k leaves) (sib_index (ups k leaves) idx)) by (unfold sib_index; by destruct (_ <? _)).
  rewrite (proj1 (sibl_lookup _ idx Hidx)). cbn [mbind res_bind].
  change (list_fmap nat (list Hash) (fun k0 => ups k0 leaves) (seq (S k) n)) with ((fun k0 => ups k0 leaves) <$> seq (S k) n).
  rewrite IH by (rewrite ups_S; by apply half_range). cbn [mbind res_bind]. by rewrite ups_S.
Qed.
End Sparse.

(** ** The index in service *)

Section Service.
Context `{B3 : Blake3} {BL : Blake3Lengths} {MC : MemoConfig}.

(** The states of an index built from [source]. *)
Inductive served (source : list (list byte)) : WeightIndex -> Prop :=
| served_built w : build_tree source = Ret (Some w) -> served source w
| served_path w off first path w' : served source w -> 0 <= off ->
    merkle_path_from_level w off first = Ret (path, w') -> served source w'
| served_dense w w' : served source w -> build_dense w = Ret w' -> served source w'.

Lemma dense_levels_ups d leaves k : d = levels (zlen (ups k leaves)) -> 0 < zlen leaves ->
  dense_levels d (ups k leaves) = Ret ((fun k => ups k leaves) <$> seq k (S d)).
Proof.
  revert k. induction d as [|d IH]; intros k Hd Hl; cbn [dense_levels seq fmap list_fmap];
    assert (Hk : 0 < zlen (ups k leaves)) by (rewrite zlen_ups; by apply count_pos).
  - destruct (Z.leb_spec (zlen (ups k leaves)) 1); [done|]. by rewrite levels_S in Hd.
  - destruct (Z.leb_spec (zlen (ups k leaves)) 1) as [H|H].
    { replace (zlen (ups k leaves)) with 1 in Hd by lia. done. }
    rewrite levels_S in Hd by done. rewrite <- zlen_level_up, <- ups_S in Hd. rewrite <- ups_S, IH by (done || lia). done.
Qed.

Lemma levels_ups d k n : 0 < n -> d = levels n -> (k <= d)%nat -> levels (count_at_level n k) = (d - k)%nat.
Proof.
  revert d n. induction k as [|k IH]; intros d n Hn Hd Hk; cbn [count_at_level]; [lia|].
  destruct (decide (1 < n)) as [H|]; [|replace n with 1 in Hd by lia; change (levels 1) with 0%nat in Hd; lia].
  rewrite levels_S in Hd by done. rewrite (IH (d - 1)%nat); [lia|apply div_ceil_pos; lia|lia|lia].
Qed.

Lemma path_ref w off first : valid w -> memo_ok w (sibling_memo w) -> 0 <= off < n_chunks w -> (first < total_levels w)%nat ->
  exists m, merkle_path_from_level w off first
    = Ret (drop first (ref_path (levels (zlen (chunk_source w))) (blake3_hash <$> chunk_source w) off), set_memo m w) /\ memo_ok w m.
Proof.
  intros Hw Hm Hoff Hf. unfold merkle_path_from_level. rewrite (proj2 (Z.ltb_lt _ _)), (proj2 (Nat.ltb_lt _ _)) by lia. cbn [negb orb].
  rewrite (valid_total w Hw) in *. rewrite (valid_n w Hw) in Hoff. rewrite ref_path_drop by lia.
  set (d := levels (zlen (chunk_source w))) in *. set (leaves := blake3_hash <$> chunk_source w).
  assert (Hr : 0 <= Z.shiftr off (Z.of_nat first) < zlen (ups first leaves)).
  { apply shift_range. unfold leaves. by rewrite zlen_fmap. }
  destruct (dense w) as [ls|] eqn:Ed.
  - exists (sibling_memo w). split; [|done]. rewrite (valid_dense w Hw ls Ed). fold leaves d.
    rewrite length_fmap, length_seq, <- fmap_drop, <- fmap_take.
    replace (take (S d - 1 - first) (drop first (seq 0 (S d)))) with (seq first (d - first)).
    + rewrite dense_path_ref by done. cbn [mbind res_bind]. by destruct w.
    + rewrite drop_seq, take_seq. cbn. f_equal. lia.
  - replace (S d - 1 - first)%nat with (d - first)%nat by lia. apply sparse_path_ref; [done|done|fold d; lia|done].
Qed.

Lemma build_dense_valid w w' : valid w -> build_dense w = Ret w' -> valid w' /\ chunk_source w' = chunk_source w /\ sibling_memo w' = sibling_memo w.
Proof.
  intros Hw. unfold build_dense. destruct (dense w) eqn:Ed; [by intros [= <-]|].
  pose proof (valid_many w Hw) as Hn. pose proof (valid_n w Hw) as Hz. unfold read_chunks. rewrite index_range_Ret by lia. cbn [mbind res_bind].
  rewrite Z.add_0_l, Hz, slice_to_end by lia. cbn [Z.to_nat]. rewrite drop_0, chunks_map_hash by apply (valid_chunks w Hw).
  pose proof (dense_levels_ups (levels (zlen (chunk_source w))) (blake3_hash <$> chunk_source w) 0) as Hd. cbn [ups] in Hd.
  rewrite Hd by (rewrite zlen_fmap; (done || lia)). cbn [mbind res_bind]. intros [= <-].
  split; [|done]. destruct Hw. split; cbn; try done; [lia|]. by intros ? [= <-].
Qed.

Lemma served_valid source w : 16 < zlen source -> Forall (fun c => length c = 32%nat) source -> served source w ->
  valid w /\ chunk_source w = source /\ memo_ok w (sibling_memo w).
Proof.
  intros Hn Hc. induction 1 as [w Hb|w off first path w' _ (Hw & Hs & Hm) Hoff Hp|w w' _ (Hw & Hs & Hm) Hd].
  - destruct (build_tree_large source Hn Hc) as (w0 & Hb0 & Hv & Hs & _ & Hm). rewrite Hb0 in Hb. injection Hb as <-.
    split_and!; [done..|]. intros k s h. by rewrite Hm, lookup_empty.
  - assert (Hg : off < n_chunks w /\ (first < total_levels w)%nat).
    { unfold merkle_path_from_level in Hp. destruct (_ || _) eqn:E; [done|]. apply orb_false_iff in E.
      rewrite !negb_false_iff, Z.ltb_lt, Nat.ltb_lt in E. done. }
    destruct (path_ref w off first Hw Hm ltac:(lia) ltac:(lia)) as (m & Hpm & Hmm). rewrite Hpm in Hp. injection Hp as <- <-.
    split_and!; [by apply valid_set_memo|done|done].
  - destruct (build_dense_valid w w' Hw Hd) as (Hv & Hs' & Hm'). split_and!; [done|congruence|].
    unfold memo_ok. rewrite Hs', Hm'. done.
Qed.

(** ** Folding a path back *)

Lemma pair_up_lone {A B} (f : A -> A -> B) (g : A -> B) l i x : l !! (2 * i)%nat = Some x -> length l = S (2 * i) ->
  pair_up f g l !! i = Some (g x).
Proof.
  revert i. induction l as [|a|a b l IH] using list_pair_ind; intros i Hx Hl.
  - done.
  - destruct i; [|cbn in Hl; lia]. by injection Hx as ->.
  - destruct i as [|i]; [cbn in Hl; lia|]. replace (2 * S i)%nat with (S (S (2 * i))) in * by lia. cbn in *. apply IH; [done|lia].
Qed.

Lemma level_up_parent l idx x : 0 <= idx -> l !! Z.to_nat idx = Some x ->
  level_up l !! Z.to_nat (Z.shiftr idx 1) = Some (if Z.even idx then hash_pair x (sibl l idx) else hash_pair (sibl l idx) x).
Proof.
  intros Hi Hx. pose proof (lookup_lt_Some _ _ _ Hx) as Hlt. assert (Hr : 0 <= idx < zlen l) by (unfold zlen; lia).
  destruct (sibl_lookup l idx Hr) as [_ Hs]. unfold sib_index in Hs. rewrite lxor_1 in Hs by done.
  rewrite Z.shiftr_div_pow2 by lia. change (2 ^ 1) with 2. unfold level_up. destruct (Z.even idx) eqn:E.
  - apply Z.even_spec in E as [m ->]. replace (2 * m / 2) with m by dlia.
    replace (Z.to_nat (2 * m)) with (2 * Z.to_nat m)%nat in * by lia. destruct (Z.ltb_spec (2 * m + 1) (zlen l)) as [H|H].
    + apply pair_up_lookup_pair; [done|]. rewrite <- Hs. f_equal. lia.
    + replace (Z.to_nat (2 * m)) with (2 * Z.to_nat m)%nat in Hs by lia. rewrite Hx in Hs. injection Hs as <-.
      apply (pair_up_lone hash_pair (fun c => hash_pair c c)); [done|]. unfold zlen in *. lia.
  - assert (Hodd : Z.odd idx = true) by (by rewrite <- Z.negb_even, E). apply Z.odd_spec in Hodd as [m ->].
    replace ((2 * m + 1) / 2) with m by dlia. destruct (Z.ltb_spec (2 * m + 1 - 1) (zlen l)); [|lia].
    apply pair_up_lookup_pair; [rewrite <- Hs; f_equal; lia|rewrite <- Hx; f_equal; lia].
Qed.

Lemma fold_ref_path n l idx x : 0 <= idx -> l !! Z.to_nat idx = Some x ->
  ups n l !! Z.to_nat (Z.shiftr idx (Z.of_nat n)) = Some (fold_path x idx (ref_path n l idx)).
Proof.
  revert l idx x. induction n as [|n IH]; intros l idx x Hi Hx; cbn [ups ref_path fold_path].
  - change (Z.of_nat 0) with 0. by rewrite Z.shiftr_0_r.
  - replace (Z.of_nat (S n)) with (1 + Z.of_nat n) by lia. rewrite <- Z.shiftr_shiftr by lia.
    apply IH; [by apply Z.shiftr_nonneg|by apply level_up_parent].
Qed.

(** A node at [first] and the path from there lead to the root. *)
Lemma fold_to_root leaves off first x : 0 <= off < zlen leaves -> (first <= levels (zlen leaves))%nat ->
  ups first leaves !! Z.to_nat (Z.shiftr off (Z.of_nat first)) = Some x ->
  Ret (fold_path x (Z.shiftr off (Z.of_nat first)) (drop first (ref_path (levels (zlen leaves)) leaves off))) = merkle_root leaves.
Proof.
  intros Hoff Hf Hx. rewrite merkle_root_ups by lia. rewrite ref_path_drop by lia. set (d := levels (zlen leaves)) in *.
  assert (Hs : 0 <= Z.shiftr off (Z.of_nat first)) by (apply Z.shiftr_nonneg; lia).
  pose proof (fold_ref_path (d - first) _ _ _ Hs Hx) as H. rewrite Z.shiftr_shiftr, <- ups_add in H by lia.
  replace (first + (d - first))%nat with d in H by lia. replace (Z.of_nat first + Z.of_nat (d - first)) with (Z.of_nat d) in H by lia.
  destruct (root_node leaves) as [r Hr]; [lia|]. fold d in Hr. pose proof (shift_range leaves off d Hoff) as Hd. rewrite Hr in H, Hd |- *.
  change (zlen [r]) with 1 in Hd. replace (Z.shiftr off (Z.of_nat d)) with 0 in H by lia. by injection H as <-.
Qed.
End Service.

Section TreeTheorems.
Context `{B3 : Blake3} {BL : Blake3Lengths} {MC : MemoConfig}.

(** C17: The streamed build computes the consensus root.  Hashing the chunks in batches of 32, keeping
    only every fifth level on disk and folding each stored level from the one before never panics
    and yields the root of the plain tree over all the leaves, for every model of more than 16
    chunks, whatever the partial batches on the right edge. *)
Theorem build_tree_root (source : list (list byte)) : 16 < zlen source -> Forall (fun c => length c = 32%nat) source ->
  exists w, build_tree source = Ret (Some w) /\ n_chunks w = zlen source /\ Ret (r_t w) = merkle_root (blake3_hash <$> source).
Proof.
  intros Hn Hc. destruct (build_tree_large source Hn Hc) as (w & Hb & Hv & Hs & _). exists w.
  split_and!; [done|by rewrite (valid_n w Hv), Hs|]. rewrite (valid_root w Hv), Hs, merkle_root_ups; rewrite zlen_fmap; [done|lia].
Qed.

(** Below 17 chunks it does not.  The build always folds a batch five levels up, past the root of
    a tree of depth four or less: the index of a tiny model has the plain root paired with itself
    once more for each missing level. *)
Theorem small_tree_root (source : list (list byte)) : 0 < zlen source <= 16 ->
  exists w root, build_tree source = Ret (Some w) /\ merkle_root (blake3_hash <$> source) = Ret root
    /\ (levels (zlen source) < 5)%nat /\ r_t w = Nat.iter (5 - levels (zlen source)) (fun h => hash_pair h h) root.
Proof.
  intros Hn. set (leaves := blake3_hash <$> source). assert (Hzl : zlen leaves = zlen source) by apply zlen_fmap.
  pose proof (depth_small _ Hn) as Hd. set (d := levels (zlen source)) in *.
  destruct (root_node leaves) as [root Hr]; [lia|]. rewrite Hzl in Hr. fold d in Hr.
  assert (Hup : forall k h, ups k [h] = [Nat.iter k (fun h => hash_pair h h) h]).
  { intros k. induction k as [|k IH]; intros h; [done|]. rewrite ups_S, IH. done. }
  assert (H5 : ups 5 leaves = [Nat.iter (5 - d) (fun h => hash_pair h h) root]).
  { replace 5%nat with (d + (5 - d))%nat at 1 by lia. by rewrite ups_add, Hr, Hup. }
  assert (Hh : Forall is_hash (ups 5 leaves)) by apply ups_hashes, leaves_hashes.
  unfold build_tree. destruct (Z.eqb_spec (zlen source) 0); [lia|]. fold leaves. rewrite fold_batches_ups. cbn [mbind res_bind].
  unfold finalize_checkpoint_upper, compute_checkpoint_offsets. destruct (Z.ltb_spec 0 (zlen source)); [|lia].
  rewrite checkpoint_loop_cps, cps_from_small by (done || lia). cbn [mbind res_bind app tail upper_levels]. fold d.
  change CHECKPOINT_INTERVAL with 5%nat. rewrite H5 in *. set (r := Nat.iter (5 - d) _ root) in *.
  assert (Hst : stored (concat [r]) 0 [r]) by (exists [], []; by rewrite app_nil_r).
  pose proof (stored_one _ _ [r] 0 r Hst Hh ltac:(lia) eq_refl) as Hread. rewrite Z.mul_0_l, !Z.add_0_l in Hread.
  change (index [?x] 0) with (Ret x). cbn [mbind res_bind]. change (zlen [?x] - 1) with 0. change (index [?x] 0) with (Ret x).
  cbn [mbind res_bind mret res_ret offset]. rewrite !Z.add_0_l, Hread. cbn [mbind res_bind].
  eexists _, root. split; [reflexivity|]. split; [|split; [done|done]].
  rewrite merkle_root_ups, Hzl by lia. fold d. by rewrite Hr.
Qed.

(** C18: A served path is the reference path.  In any state of a built index, whatever paths were asked
    before, whatever the memo holds, and whether or not the dense tree was built, the path of a
    chunk from a level is the tail of the plain proof of that chunk, without a panic; and the node
    it starts from verifies against the index's root. *)
Theorem merkle_path_correct (source : list (list byte)) (w : WeightIndex) (off : Z) (first : nat) :
  16 < zlen source -> Forall (fun c => length c = 32%nat) source -> served source w ->
  0 <= off < zlen source -> (first < total_levels w)%nat ->
  exists proof w', merkle_proof (blake3_hash <$> source) off = Ret proof
    /\ merkle_path_from_level w off first = Ret (drop first proof, w') /\ served source w'
    /\ (forall node, ups first (blake3_hash <$> source) !! Z.to_nat (Z.shiftr off (Z.of_nat first)) = Some node ->
          verify_merkle node (Z.shiftr off (Z.of_nat first)) (drop first proof) (r_t w) = true).
Proof.
  intros Hn Hc Hs Hoff Hf. destruct (served_valid source w Hn Hc Hs) as (Hv & Hsrc & Hm).
  destruct (path_ref w off first Hv Hm) as (m & Hp & _); [by rewrite (valid_n w Hv), Hsrc|done|]. rewrite Hsrc in Hp.
  assert (Hz : zlen (blake3_hash <$> source) = zlen source) by apply zlen_fmap.
  eexists _, _. split; [apply merkle_proof_ref; lia|]. rewrite Hz. split; [exact Hp|]. split; [eapply (served_path source w off first); [exact Hs|lia|exact Hp]|].
  intros node Hnode. apply bool_decide_eq_true_2. rewrite (valid_total w Hv), Hsrc in Hf.
  pose proof (fold_to_root (blake3_hash <$> source) off first node ltac:(lia) ltac:(rewrite Hz; lia) Hnode) as Hroot.
  rewrite Hz, merkle_root_ups, Hz in Hroot by lia. pose proof (valid_root w Hv) as Hrt. rewrite Hsrc, <- Hroot in Hrt. by injection Hrt as <-.
Qed.
End TreeTheorems.

Section Witnesses.
Import Toy.

#[local] Instance toy_memo : MemoConfig := {| memo_enabled := true; sibling_memo_max_nodes := 8 |}.

(** A model of 19 chunks. *)
Definition toy_source (n : nat) : list (list byte) := (fun i => replicate 32 (byte_of_u8 (Z.of_nat i))) <$> seq 0 n.

Lemma build_tree_root_witness : exists w, build_tree (toy_source 19) = Ret (Some w) /\ Ret (r_t w) = merkle_root (blake3_hash <$> toy_source 19).
Proof. destruct (build_tree_root (toy_source 19)) as (w & Hb & _ & Hr); [evaluate|evaluate|]. by exists w. Defined.

Lemma small_tree_root_witness : exists w root, build_tree (toy_source 3) = Ret (Some w)
  /\ merkle_root (blake3_hash <$> toy_source 3) = Ret root /\ r_t w <> root.
Proof.
  destruct (small_tree_root (toy_source 3)) as (w & root & Hb & Hr & _ & Hw); [evaluate|]. exists w, root.
  split; [exact Hb|]. split; [exact Hr|]. rewrite Hw.
  assert (Hn : match merkle_root (blake3_hash <$> toy_source 3) with
               | Ret r => bool_decide (Nat.iter (5 - levels (zlen (toy_source 3))) (fun h => hash_pair h h) r <> r)
               | Panic => false end = true) by (vm_compute; reflexivity).
  rewrite Hr in Hn. by apply bool_decide_eq_true_1 in Hn.
Defined.

(** The index of 19 chunks, and the same after serving the path of chunk 16. *)
Definition no_index : WeightIndex := {| n_chunks := 0; r_t := []; chunk_source := []; tree_file := []; checkpoints := [];
  total_levels := 0; dense := None; sibling_memo := ∅ |}.
Definition toy_index : WeightIndex := match build_tree (toy_source 19) with Ret (Some w) => w | _ => no_index end.
Definition toy_asked : list Hash * WeightIndex :=
  match merkle_path_from_level toy_index 16 0 with Ret pw => pw | Panic => ([], no_index) end.

Lemma merkle_path_correct_witness : exists proof w', served (toy_source 19) (toy_asked.2) /\ sibling_memo (toy_asked.2) <> ∅
  /\ merkle_proof (blake3_hash <$> toy_source 19) 18 = Ret proof
  /\ merkle_path_from_level (toy_asked.2) 18 1 = Ret (drop 1 proof, w').
Proof.
  assert (Hb : build_tree (toy_source 19) = Ret (Some toy_index)) by (vm_compute; reflexivity).
  assert (Hp : merkle_path_from_level toy_index 16 0 = Ret (toy_asked.1, toy_asked.2)) by (vm_compute; reflexivity).
  assert (Hs : served (toy_source 19) (toy_asked.2)) by (apply (served_path _ toy_index 16 0 (toy_asked.1)); [apply served_built, Hb|evaluate|exact Hp]).
  destruct (merkle_path_correct (toy_source 19) (toy_asked.2) 18 1) as (proof & w' & Hm & Hf & _); [evaluate|evaluate|exact Hs|evaluate|evaluate|].
  exists proof, w'. split; [exact Hs|]. split; [evaluate|]. by split.
Defined.
End Witnesses.
