(* ===== verification/PomWalk.v ===== *)
(** * The possession walks ([src/pom_v4.rs], [src/pom_v5.rs])

    The 32x32 matrix walk over tiles of the model: its primitives, the proof a
    miner builds and the self-check that re-walks it, for v4 (weight tiles only)
    and v5 (weight tiles interleaved with tiles of a generated context pad).  An
    [i32] is its signed value in [Z].  The SIMD variants of the dot product compute
    what [dot_i8_scalar] does and are not modelled; nor is the Borsh wire of the proof. *)
From S2P Require Import Prelude Merkle Pom WeightTree.
From stdpp Require Import gmap strings.
#[local] Open Scope Z_scope.

Definition POM_V4_D : Z := 32.
Definition POM_V4_K : Z := 256.
Definition POM_V4_CHUNK_BYTES : Z := 32.
Definition POM_V4_TILE_BYTES : Z := POM_V4_D * POM_V4_D.
Definition POM_V4_TILE_CHUNKS : Z := POM_V4_TILE_BYTES / POM_V4_CHUNK_BYTES.
Definition POM_V4_SNIPPET_BYTES : Z := 32.
Definition POM_V4_TILE_SUBTREE_DEPTH : nat := 5.
Definition POM_V4_S0_ROW_SALT : Z := 0x03421325594C3C51.
Definition POM_V4_OFFSET_FIRST_SALT : Z := 0x6D1CCF96AC4D76F9.
Definition POM_V4_OFFSET_STEP_SALT : Z := 0x89050E78D34609EF.

(** The errors of both walks; a step is the one the message names. *)
Inductive WalkError :=
| BlobTooSmall
| WrongShape
| TileShape (step : Z)
| RangeProof (step : Z)
| NoTileSpace
| PadNotEmpty (step : Z).

Record PomV4RangeProof := { path : list Hash }.
Record PomProofV4 := { tier : Z; tiles : list (list byte); merkle : list PomV4RangeProof }.

(** [a % b] panics on a zero divisor. *)
Definition rem (a b : Z) : res Z := if b =? 0 then Panic else Ret (a mod b).

(** ** Primitives *)

Definition fold64 (root : Hash) : Z := from_le (take 8 root).

(** [acc as u32] *)
Definition rho8 (acc tweak : Z) : byte :=
  let z := Z.lxor (wrap 32 acc) tweak in
  let z := wrap 32 (z * 0x9E3779B9) in
  let z := Z.lxor z (Z.shiftr z 16) in
  let z := wrap 32 (z * 0x85EBCA6B) in
  let z := Z.lxor z (Z.shiftr z 13) in
  byte_of_u8 (Z.land z 0xff).

Definition rho_tweak (step row col : Z) : Z :=
  wrap 32 (wrap 32 (wrap 32 (step * 0x9E3779B9) + wrap 32 (row * 0xC2B2AE35)) + wrap 32 (col * 0x85EBCA6B)).

(** Wrapping [i32] arithmetic. *)
Definition wrap_i32 (z : Z) : Z := (z + 2 ^ 31) mod 2 ^ 32 - 2 ^ 31.

(** [n] products from position [i] on. *)
Fixpoint dot_loop (n : nat) (i : Z) (row col : list byte) (acc : Z) : res Z :=
  match n with
  | O => mret acc
  | S n => a ← index row i; b ← index col i; dot_loop n (i + 1) row col (wrap_i32 (acc + wrap_i32 (as_i8 a * as_i8 b)))
  end.
Definition dot_i8_scalar (row col : list byte) : res Z := dot_loop 32 0 row col 0.

Definition snippet_fold (snippet : list byte) : Z :=
  foldl (fun sf w => mix64 (Z.lxor sf (from_le (take 4 (drop (4 * w) snippet))))) 0 (seq 0 8).

(** ** The v4 walk *)

Definition v4_first_offset (seed n_tiles : Z) : res Z := rem (mix64 (Z.lxor seed POM_V4_OFFSET_FIRST_SALT)) n_tiles.
Definition v4_next_offset (seed step : Z) (snippet : list byte) (n_tiles : Z) : res Z :=
  rem (mix64 (Z.lxor (Z.lxor seed (wrap 64 ((step + 1) * POM_V4_OFFSET_STEP_SALT))) (snippet_fold snippet))) n_tiles.

(** [n] words of a row. *)
Fixpoint row_words (n : nat) (h : Z) : list byte :=
  match n with O => [] | S n => let h := mix64 h in to_le 4 (wrap 32 h) ++ row_words n h end.
Definition v4_initial_state (seed : Z) : list byte :=
  concat ((fun r => row_words 8 (mix64 (Z.lxor seed (wrap 64 (POM_V4_S0_ROW_SALT + Z.of_nat r))))) <$> seq 0 32).

(** The [32 * x + j]-th cell of the next state. *)
Definition v4_cell (src tile : list byte) (step x j : Z) : res byte :=
  row ← index_range src (x * POM_V4_D) ((x + 1) * POM_V4_D);
  col ← index_range tile (j * POM_V4_D) ((j + 1) * POM_V4_D);
  dot ← dot_i8_scalar row col;
  mret (rho8 dot (rho_tweak step x j)).
Definition v4_transition (src tile : list byte) (step : Z) : res (list byte) :=
  mapM (fun c => v4_cell src tile step (c / POM_V4_D) (c mod POM_V4_D)) (seqZ 0 (POM_V4_D * POM_V4_D)).

Section Reducers.
Context `{B3 : Blake3}.

(** The in-place pass over [n] pairs, and the passes while several nodes are left. *)
Fixpoint halve (n i : nat) (nodes : list Hash) : res (list Hash) :=
  match n with
  | O => mret nodes
  | S n =>
    left ← index nodes (Z.of_nat (i * 2)); right ← index nodes (Z.of_nat (i * 2 + 1));
    halve n (S i) (<[i := hash_pair left right]> nodes)
  end.
Fixpoint merkle_root_32_loop (fuel len : nat) (nodes : list Hash) : res Hash :=
  if (len <=? 1)%nat then index nodes 0 else
  match fuel with
  | O => Panic
  | S fuel => nodes ← halve (len / 2) 0 nodes; merkle_root_32_loop fuel (len / 2) nodes
  end.
Definition merkle_root_32 (nodes : list Hash) : res Hash := merkle_root_32_loop 5 32 nodes.

Definition v4_state_root (state : list byte) : res Hash :=
  leaves ← mapM (fun r => row ← index_range state (r * POM_V4_D) ((r + 1) * POM_V4_D); mret (blake3_hash row)) (seqZ 0 POM_V4_D);
  merkle_root_32 leaves.

(** The 32 zero leaves, overwritten as far as there are whole chunks. *)
Definition v4_tile_subtree_root (tile : list byte) : res Hash :=
  let hashes := take 32 (blake3_hash <$> chunks_exact 32 tile) in
  merkle_root_32 (hashes ++ replicate (32 - length hashes) (replicate 32 (byte_of_u8 0))).
End Reducers.

Section V4.
Context `{B3 : Blake3} {MC : MemoConfig}.

(** [n] steps from [step] on: the tiles, their paths, the last state, the index with its memo. *)
Fixpoint build_v4_loop (n : nat) (step seed n_tiles : Z) (state : list byte) (off : Z) (w : WeightIndex)
  : res (list (list byte) * list PomV4RangeProof * list byte * WeightIndex) :=
  match n with
  | O => mret ([], [], state, w)
  | S n =>
    tile ← read_chunks w (off * POM_V4_TILE_CHUNKS) POM_V4_TILE_CHUNKS;
    snippet ← index_range tile 0 POM_V4_SNIPPET_BYTES;
    '(p, w) ← merkle_path_from_level w (off * POM_V4_TILE_CHUNKS) POM_V4_TILE_SUBTREE_DEPTH;
    state ← v4_transition state tile (wrap 32 step);
    off ← (if step <? POM_V4_K then v4_next_offset seed step snippet n_tiles else mret off);
    '(ts, ms, state, w) ← build_v4_loop n (step + 1) seed n_tiles state off w;
    mret (tile :: ts, {| path := p |} :: ms, state, w)
  end.
Definition build_proof_v4 (tier seed : Z) (w : WeightIndex) : res ((WalkError + PomProofV4 * Z) * WeightIndex) :=
  let n_tiles := n_chunks w / POM_V4_TILE_CHUNKS in
  if n_tiles =? 0 then mret (inl BlobTooSmall, w) else
  off ← v4_first_offset seed n_tiles;
  '(ts, ms, state, w) ← build_v4_loop (Z.to_nat POM_V4_K) 1 seed n_tiles (v4_initial_state seed) off w;
  root ← v4_state_root state;
  mret (inr ({| tier := tier; tiles := ts; merkle := ms |}, fold64 root), w).

Fixpoint verify_v4_loop (n : nat) (step seed n_tiles : Z) (proof : PomProofV4) (r_t : Hash) (state : list byte) (off : Z)
  : res (WalkError + list byte) :=
  match n with
  | O => mret (inr state)
  | S n =>
    tile ← index (tiles proof) (step - 1);
    if negb (zlen tile =? POM_V4_TILE_BYTES) then mret (inl (TileShape step)) else
    subtree ← v4_tile_subtree_root tile;
    rp ← index (merkle proof) (step - 1);
    if negb (verify_merkle subtree off (path rp) r_t) then mret (inl (RangeProof step)) else
    state ← v4_transition state tile (wrap 32 step);
    off ← (if step <? POM_V4_K then
             snippet ← index_range tile 0 POM_V4_SNIPPET_BYTES; v4_next_offset seed step snippet n_tiles
           else mret off);
    verify_v4_loop n (step + 1) seed n_tiles proof r_t state off
  end.
Definition verify_proof_v4 (seed : Z) (proof : PomProofV4) (r_t : Hash) (n_chunks : Z) : res (WalkError + Z) :=
  if negb (zlen (tiles proof) =? POM_V4_K) || negb (zlen (merkle proof) =? POM_V4_K) then mret (inl WrongShape) else
  let n_tiles := n_chunks / POM_V4_TILE_CHUNKS in
  if n_tiles =? 0 then mret (inl BlobTooSmall) else
  off ← v4_first_offset seed n_tiles;
  r ← verify_v4_loop (Z.to_nat POM_V4_K) 1 seed n_tiles proof r_t (v4_initial_state seed) off;
  match r with
  | inl e => mret (inl e)
  | inr state => root ← v4_state_root state; mret (inr (fold64 root))
  end.
End V4.

(** ** The v5 walk *)

Definition POM_V5_P_ENTRY_BYTES : Z := 32.
Definition POM_V5_TILE_ENTRIES : Z := POM_V4_TILE_BYTES / POM_V5_P_ENTRY_BYTES.
Definition POM_V5_P_ROUNDS : Z := 1920.
Definition POM_V5_PAD_TILES_H14 : list Z := [638976; 3213312; 4804608; 6471680; 2450432].
Definition POM_V5_PAD_TILES_H16 : list Z := [434176; 3008512; 4599808; 6266880; 2245632].
Definition pom_v5_pad_tiles `{N : Network} (tier daa : Z) : Z :=
  let table := if pad_margin_activation_daa <=? daa then POM_V5_PAD_TILES_H16 else POM_V5_PAD_TILES_H14 in
  default 0 (get_at table tier).

Definition PAD_DOMAIN : list byte := String.list_byte_of_string "KERYX-POM-V5-PAD".
Definition PAD_IV : list Z := [0x510e527fade682d1; 0x9b05688c2b3e6c1f; 0x1f83d9abfb41bd6b; 0x5be0cd19137e2179].
Definition v5_pad_seed `{B3 : Blake3} (tier : Z) (model_id r_t : list byte) : Hash :=
  blake3_hash (PAD_DOMAIN ++ [byte_of_u8 tier] ++ model_id ++ r_t).

(** Four words, mixed in place. *)
Definition quad : Type := Z * Z * Z * Z.
Definition round4 (q : quad) : quad :=
  let '(a, b, c, d) := q in
  let a := wrap 64 (a + b) in let d := rotate_left 64 (Z.lxor d a) 32 in
  let c := wrap 64 (c + d) in let b := rotate_left 64 (Z.lxor b c) 24 in
  let a := wrap 64 (a + b) in let d := rotate_left 64 (Z.lxor d a) 16 in
  let c := wrap 64 (c + d) in let b := rotate_left 64 (Z.lxor b c) 63 in
  (a, b, c, d).

Definition v5_pad_seed_words (pad_seed : list byte) : quad :=
  let w i := Z.lxor (word_at pad_seed i) (nth i PAD_IV 0) in (w 0%nat, w 1%nat, w 2%nat, w 3%nat).
Definition pad_entry (words : quad) (index : Z) : list byte :=
  let '(a, b, c, d) := words in
  let '(a, b, c, d) := Nat.iter (Z.to_nat POM_V5_P_ROUNDS) round4 (a, Z.lxor b index, c, d) in
  to_le 8 a ++ to_le 8 b ++ to_le 8 c ++ to_le 8 d.
Definition v5_pad_entry (pad_seed : list byte) (index : Z) : list byte := pad_entry (v5_pad_seed_words pad_seed) index.
Definition v5_pad_tile (pad_seed : list byte) (tile : Z) : list byte :=
  concat ((fun k => pad_entry (v5_pad_seed_words pad_seed) (wrap 64 (wrap 64 (tile * POM_V5_TILE_ENTRIES) + k))) <$> seqZ 0 32).

(** [clamp(1, k - 1)] *)
Definition v5_pad_steps (weight_tiles pad_tiles : Z) : res Z :=
  let k := POM_V4_K in
  let n := wrap 64 (weight_tiles + pad_tiles) in
  if n =? 0 then Panic else Ret (Z.max 1 (Z.min (k - 1) (wrap 64 (wrap 64 (k * pad_tiles) + n / 2) / n))).
Definition v5_is_pad_step (step pad_steps : Z) : bool :=
  negb (wrap 64 (step * pad_steps) / POM_V4_K =? wrap 64 (wrap 64 (step - 1) * pad_steps) / POM_V4_K).

Definition v5_state_fold (state : list byte) : res Z :=
  foldl (fun h r => h ← h; w ← index_range state (r * POM_V4_D) (r * POM_V4_D + 8); mret (Z.lxor h (mix64 (Z.lxor (from_le w) r))))
    (mret 0) (seqZ 0 POM_V4_D).
Definition v5_first_offset (seed weight_tiles : Z) : res Z := v4_first_offset seed weight_tiles.
Definition v5_next_offset (seed step : Z) (snippet : list byte) (state_fold weight_tiles pad_tiles pad_steps : Z) : res Z :=
  let raw := mix64 (Z.lxor (Z.lxor (Z.lxor seed (wrap 64 ((step + 1) * POM_V4_OFFSET_STEP_SALT))) (snippet_fold snippet)) state_fold) in
  if v5_is_pad_step (step + 1) pad_steps then r ← rem raw pad_tiles; mret (wrap 64 (weight_tiles + r))
  else rem raw weight_tiles.

Section V5.
Context `{B3 : Blake3} {MC : MemoConfig}.

(** What [fetch] returns for a position: an error, a weight tile, or [None] for a pad tile; its
    captured state is threaded through. *)
Definition fetched (A : Type) : Type := res (WalkError + option (list byte) * A).

Fixpoint walk_loop {A} (n : nat) (step seed weight_tiles pad_tiles : Z) (pad_seed : list byte) (pad_steps : Z)
    (fetch : Z -> Z -> A -> fetched A) (state : list byte) (off : Z) (s : A) : res (WalkError + list byte * A) :=
  match n with
  | O => mret (inr (state, s))
  | S n =>
    r ← fetch (step - 1) off s;
    match r with
    | inl e => mret (inl e)
    | inr (t, s) =>
      let tile := match t with Some t => t | None => v5_pad_tile pad_seed (off - weight_tiles) end in
      off ← (if step <? POM_V4_K then
               snippet ← index_range tile 0 POM_V4_SNIPPET_BYTES; f ← v5_state_fold state;
               v5_next_offset seed step snippet f weight_tiles pad_tiles pad_steps
             else mret off);
      state ← v4_transition state tile (wrap 32 step);
      walk_loop n (step + 1) seed weight_tiles pad_tiles pad_seed pad_steps fetch state off s
    end
  end.
Definition walk {A} (seed weight_tiles pad_tiles : Z) (pad_seed : list byte) (fetch : Z -> Z -> A -> fetched A) (s : A)
  : res (WalkError + Z * A) :=
  if (weight_tiles =? 0) || (pad_tiles =? 0) then mret (inl NoTileSpace) else
  pad_steps ← v5_pad_steps weight_tiles pad_tiles;
  off ← v5_first_offset seed weight_tiles;
  r ← walk_loop (Z.to_nat POM_V4_K) 1 seed weight_tiles pad_tiles pad_seed pad_steps fetch (v4_initial_state seed) off s;
  match r with
  | inl e => mret (inl e)
  | inr (state, s) => root ← v4_state_root state; mret (inr (fold64 root, s))
  end.

(** The builder's closure captures the proof under construction and the index. *)
Definition push (t : list byte) (p : list Hash) (proof : PomProofV4) : PomProofV4 :=
  {| tier := tier proof; tiles := tiles proof ++ [t]; merkle := merkle proof ++ [{| path := p |}] |}.
Definition build_fetch (weight_tiles : Z) (_ off : Z) (s : PomProofV4 * WeightIndex) : fetched (PomProofV4 * WeightIndex) :=
  let '(proof, w) := s in
  if off <? weight_tiles then
    t ← mapM (fun c => read_chunks w (off * POM_V4_TILE_CHUNKS + c) 1) (seqZ 0 POM_V4_TILE_CHUNKS);
    '(p, w) ← merkle_path w (off * POM_V4_TILE_CHUNKS);
    p ← index_range p (Z.of_nat POM_V4_TILE_SUBTREE_DEPTH) (zlen p);
    mret (inr (Some (concat t), (push (concat t) p proof, w)))
  else mret (inr (None, (push [] [] proof, w))).
(** On an error the closure's index is dropped with the proof. *)
Definition build_proof_v5 (tier seed : Z) (w : WeightIndex) (pad_seed : list byte) (pad_tiles : Z)
  : res (WalkError + (PomProofV4 * Z) * WeightIndex) :=
  let weight_tiles := n_chunks w / POM_V4_TILE_CHUNKS in
  r ← walk seed weight_tiles pad_tiles pad_seed (build_fetch weight_tiles) ({| tier := tier; tiles := []; merkle := [] |}, w);
  match r with
  | inl e => mret (inl e)
  | inr (final_state, (proof, w)) => mret (inr (proof, final_state, w))
  end.

Definition verify_fetch (weight_tiles : Z) (proof : PomProofV4) (r_t : Hash) (i off : Z) (_ : unit) : fetched unit :=
  let step := i + 1 in
  t ← index (tiles proof) i; rp ← index (merkle proof) i;
  if off <? weight_tiles then
    if negb (zlen t =? POM_V4_TILE_BYTES) then mret (inl (TileShape step)) else
    subtree ← v4_tile_subtree_root t;
    if negb (verify_merkle subtree off (path rp) r_t) then mret (inl (RangeProof step)) else
    mret (inr (Some t, tt))
  else
    if negb (zlen t =? 0) || negb (zlen (path rp) =? 0) then mret (inl (PadNotEmpty step)) else mret (inr (None, tt)).
Definition verify_proof_v5 (seed : Z) (proof : PomProofV4) (r_t : Hash) (n_chunks : Z) (pad_seed : list byte) (pad_tiles : Z)
  : res (WalkError + Z) :=
  if negb (zlen (tiles proof) =? POM_V4_K) || negb (zlen (merkle proof) =? POM_V4_K) then mret (inl WrongShape) else
  let weight_tiles := n_chunks / POM_V4_TILE_CHUNKS in
  r ← walk seed weight_tiles pad_tiles pad_seed (verify_fetch weight_tiles proof r_t) tt;
  match r with inl e => mret (inl e) | inr (final_state, _) => mret (inr final_state) end.
End V5.

(** ** The dot product is exact *)

Definition dot (row col : list byte) : Z := foldr (fun p s => as_i8 p.1 * as_i8 p.2 + s) 0 (zip row col).

Section Dot.

Lemma wrap_i32_id z : - 2 ^ 31 <= z < 2 ^ 31 -> wrap_i32 z = z.
Proof. intros. unfold wrap_i32. rewrite Z.mod_small; lia. Qed.

Lemma dot_bound row col : Z.abs (dot row col) <= 2 ^ 14 * zlen row.
Proof.
  revert col. unfold dot. induction row as [|a row IH]; intros [|b col]; cbn [zip zip_with foldr fst snd]; rewrite ?zlen_cons, ?zlen_nil; try (unfold zlen; lia).
  pose proof (as_i8_range a). pose proof (as_i8_range b). specialize (IH col). assert (Z.abs (as_i8 a * as_i8 b) <= 2 ^ 14) by nia. lia.
Qed.

Lemma dot_loop_spec n k row col acc : (k + n <= length row)%nat -> (k + n <= length col)%nat -> (k + n <= 32)%nat ->
  Z.abs acc <= 2 ^ 14 * Z.of_nat k ->
  dot_loop n (Z.of_nat k) row col acc = Ret (acc + dot (take n (drop k row)) (take n (drop k col))).
Proof.
  revert k acc. induction n as [|n IH]; intros k acc Hr Hc Hk Ha; cbn [dot_loop].
  - cbn. by rewrite Z.add_0_r.
  - destruct (lookup_lt_is_Some_2 row k) as [a Hla]; [lia|]. destruct (lookup_lt_is_Some_2 col k) as [b Hlb]; [lia|].
    rewrite (index_of_nat row k a Hla), (index_of_nat col k b Hlb). cbn [mbind res_bind].
    pose proof (as_i8_range a). pose proof (as_i8_range b). assert (Hab : Z.abs (as_i8 a * as_i8 b) <= 2 ^ 14) by nia.
    rewrite (wrap_i32_id (as_i8 a * as_i8 b)), wrap_i32_id by lia. replace (Z.of_nat k + 1) with (Z.of_nat (S k)) by lia.
    rewrite IH by lia. rewrite (drop_S row a k Hla), (drop_S col b k Hlb). cbn [take]. unfold dot. cbn [zip zip_with foldr fst snd]. f_equal. lia.
Qed.

Lemma dot_i8_Ret row col : length row = 32%nat -> length col = 32%nat -> dot_i8_scalar row col = Ret (dot row col).
Proof.
  intros Hr Hc. unfold dot_i8_scalar. change 0 with (Z.of_nat 0) at 1. rewrite dot_loop_spec by lia.
  by rewrite !drop_0, !take_ge, Z.add_0_l by lia.
Qed.
End Dot.

(** ** Runs of a list cut into rows *)

Section Rows.
Lemma mapM_Ret {A B} (f : A -> res B) (g : A -> B) l : (forall x, x ∈ l -> f x = Ret (g x)) -> mapM f l = Ret (g <$> l).
Proof.
  induction l as [|x l IH]; intros H; [done|]. cbn [mapM]. rewrite H by left. cbn [mbind res_bind].
  rewrite IH by (intros; apply H; by right). done.
Qed.

Lemma chunks_whole k n {A} (l : list A) : (0 < k)%nat -> length l = (n * k)%nat ->
  chunks k l = (fun r => slice l (r * Z.of_nat k) ((r + 1) * Z.of_nat k)) <$> seqZ 0 (Z.of_nat n).
Proof.
  intros Hk. revert l. induction n as [|n IH]; intros l Hl.
  - destruct l; [done|cbn in Hl; lia].
  - assert (l <> []) by (intros ->; cbn in Hl; lia). rewrite chunks_cons by done. rewrite seqZ_cons by lia. cbn [fmap list_fmap]. f_equal.
    + unfold slice. rewrite Z.mul_0_l. cbn [Z.to_nat]. rewrite drop_0. f_equal. lia.
    + rewrite IH by (rewrite length_drop; lia). replace (Z.pred (Z.of_nat (S n))) with (Z.of_nat n) by lia.
      change (Z.succ 0) with (1 + 0). rewrite <- (fmap_add_seqZ 1 0), <- list_fmap_compose. apply list_fmap_ext. intros i x Hx. apply list_elem_of_lookup_2, elem_of_seqZ in Hx.
      unfold slice. cbn. rewrite drop_drop. f_equal; [lia|f_equal; lia].
Qed.

Lemma chunks_whole_length k n {A} (l : list A) : (0 < k)%nat -> length l = (n * k)%nat -> Forall (fun c => length c = k) (chunks k l).
Proof.
  intros Hk Hl. rewrite (chunks_whole k n) by done. apply Forall_fmap, Forall_forall. intros r Hr. apply elem_of_seqZ in Hr. cbn.
  pose proof (zlen_slice l (r * Z.of_nat k) ((r + 1) * Z.of_nat k)) as H. unfold zlen in H. rewrite Hl in H. nia.
Qed.

Lemma chunks_exact_whole k n {A} (l : list A) : (0 < k)%nat -> length l = (n * k)%nat -> chunks_exact k l = chunks k l.
Proof.
  intros Hk Hl. unfold chunks_exact. pose proof (chunks_whole_length k n l Hk Hl) as H.
  induction H as [|c cs Hc _ IH]; [done|]. rewrite filter_cons_True by done. by rewrite IH.
Qed.
End Rows.

(** ** The fixed reducers *)

Section Reducer.
Context `{B3 : Blake3}.

Lemma halve_spec n i c : (2 * (i + n) <= length c)%nat ->
  halve n i c = Ret (take i c ++ level_up (take (2 * n) (drop (2 * i) c)) ++ drop (i + n) c).
Proof.
  revert i c. induction n as [|n IH]; intros i c Hc; cbn [halve].
  - rewrite Nat.add_0_r, Nat.mul_0_r, take_0. cbn. by rewrite take_drop.
  - destruct (lookup_lt_is_Some_2 c (i * 2)) as [a Ha]; [lia|]. destruct (lookup_lt_is_Some_2 c (i * 2 + 1)) as [b Hb]; [lia|].
    rewrite (index_of_nat _ _ _ Ha), (index_of_nat _ _ _ Hb). cbn [mbind res_bind]. rewrite IH by (rewrite length_insert; lia). f_equal.
    rewrite take_S_r with (x := hash_pair a b) by (rewrite list_lookup_insert_eq; [done|lia]). rewrite take_insert_ge by lia.
    rewrite !drop_insert_lt by lia. rewrite <- app_assoc. f_equal. replace (2 * i)%nat with (i * 2)%nat by lia.
    rewrite (drop_S c a (i * 2) Ha). replace (S (i * 2)) with (i * 2 + 1)%nat by lia. rewrite (drop_S c b (i * 2 + 1) Hb).
    replace (2 * S n)%nat with (S (S (2 * n))) by lia. cbn [take]. unfold level_up at 2. cbn [pair_up app]. f_equal. f_equal.
    + unfold level_up. do 3 f_equal. lia.
    + f_equal. lia.
Qed.

Lemma merkle_root_32_loop_ups k c : (2 ^ k <= length c)%nat -> merkle_root_32_loop k (2 ^ k) c = index (ups k (take (2 ^ k) c)) 0.
Proof.
  revert c. induction k as [|k IH]; intros c Hc; cbn [merkle_root_32_loop ups].
  - cbn. destruct c; [done|]. done.
  - assert (Hp : (2 ^ S k = 2 ^ k * 2)%nat) by (cbn; lia). assert (0 < 2 ^ k)%nat by (apply Nat.neq_0_lt_0, Nat.pow_nonzero; lia).
    destruct (Nat.leb_spec (2 ^ S k) 1); [lia|]. rewrite Hp, Nat.div_mul by done. rewrite halve_spec by lia. cbn [mbind res_bind].
    rewrite Nat.mul_0_r, drop_0, take_0. cbn [app]. assert (Hl : length (level_up (take (2 * 2 ^ k) c)) = (2 ^ k)%nat).
    { pose proof (zlen_level_up (take (2 * 2 ^ k) c)) as Hz. unfold zlen, div_ceil in Hz. rewrite length_take_le in Hz by lia.
      rewrite Hp in Hc. set (m := (2 ^ k)%nat) in *. clearbody m. dlia. }
    rewrite IH by (rewrite !length_app, Hl; lia). rewrite take_app_length' by (symmetry; exact Hl) || rewrite take_app_length' by exact Hl. by rewrite Nat.mul_comm.
Qed.

Lemma merkle_root_32_ups c : length c = 32%nat -> merkle_root_32 c = index (ups 5 c) 0.
Proof.
  intros Hc. unfold merkle_root_32. change 32%nat with (2 ^ 5)%nat at 1. rewrite (merkle_root_32_loop_ups 5 c) by (rewrite Hc; done). by rewrite take_ge by (rewrite Hc; done).
Qed.

Lemma length_tile_leaves (l : list byte) : length l = 1024%nat -> length (blake3_hash <$> chunks 32 l) = 32%nat.
Proof. intros Hl. rewrite length_fmap. pose proof (length_chunks 32 ltac:(lia) l) as H. unfold zlen, div_ceil in H. rewrite Hl in H. dlia. Qed.

Lemma v4_tile_subtree_root_ups tile : length tile = 1024%nat -> v4_tile_subtree_root tile = index (ups 5 (blake3_hash <$> chunks 32 tile)) 0.
Proof.
  intros Ht. unfold v4_tile_subtree_root. rewrite (chunks_exact_whole 32 32) by (lia || done). rewrite take_ge by (rewrite length_tile_leaves; done || lia).
  rewrite length_tile_leaves by done. cbn [Nat.sub replicate]. rewrite app_nil_r. apply merkle_root_32_ups. by apply length_tile_leaves.
Qed.

Lemma v4_state_root_ups state : length state = 1024%nat -> v4_state_root state = index (ups 5 (blake3_hash <$> chunks 32 state)) 0.
Proof.
  intros Hs. unfold v4_state_root.
  rewrite (mapM_Ret _ (fun r => blake3_hash (slice state (r * 32) ((r + 1) * 32)))).
  - cbn [mbind res_bind]. assert ((fun r => blake3_hash (slice state (r * 32) ((r + 1) * 32))) <$> seqZ 0 POM_V4_D = blake3_hash <$> chunks 32 state) as ->.
    { rewrite (chunks_whole 32 32), <- list_fmap_compose by (lia || done). done. }
    apply merkle_root_32_ups. by apply length_tile_leaves.
  - intros r Hr. apply elem_of_seqZ in Hr. unfold POM_V4_D in *. rewrite index_range_Ret by (unfold zlen; lia). done.
Qed.
Lemma state_root_Ret state : length state = 1024%nat -> exists root, v4_state_root state = Ret root.
Proof.
  intros Hs. rewrite v4_state_root_ups by done. destruct (ups_head 5 (blake3_hash <$> chunks 32 state)) as (h & t & ->); [|by exists h].
  intros Hn. pose proof (length_tile_leaves state Hs) as Hl. by rewrite Hn in Hl.
Qed.
End Reducer.

Lemma bind_Ret {A B} (f : A -> res B) a : (Ret a ≫= f) = f a.
Proof. done. Qed.

(** ** Lengths *)

Definition full (b : list byte) : Prop := length b = 1024%nat.

Section Lengths.
Lemma full_slice b i n : full b -> 0 <= i -> 0 <= n -> i + n <= 1024 -> index_range b i (i + n) = Ret (slice b i (i + n)) /\ length (slice b i (i + n)) = Z.to_nat n.
Proof.
  intros Hb Hi Hn H. assert (zlen b = 1024) by (unfold zlen; rewrite Hb; done). rewrite index_range_Ret by lia. split; [done|].
  pose proof (zlen_slice b i (i + n) ltac:(lia) ltac:(lia) ltac:(lia)) as Hl. unfold zlen in *. lia.
Qed.

(** The cells of the next state. *)
Definition cell (src tile : list byte) (step c : Z) : byte :=
  let x := c / 32 in let j := c mod 32 in
  rho8 (dot (slice src (x * 32) (x * 32 + 32)) (slice tile (j * 32) (j * 32 + 32))) (rho_tweak step x j).
Definition transition (src tile : list byte) (step : Z) : list byte := cell src tile step <$> seqZ 0 1024.

Lemma v4_transition_Ret src tile step : full src -> full tile -> v4_transition src tile step = Ret (transition src tile step).
Proof.
  intros Hs Ht. unfold v4_transition, transition, POM_V4_D. apply mapM_Ret. intros c Hc. apply elem_of_seqZ in Hc.
  unfold v4_cell, cell, POM_V4_D. replace ((c / 32 + 1) * 32) with (c / 32 * 32 + 32) by lia.
  replace ((c mod 32 + 1) * 32) with (c mod 32 * 32 + 32) by lia.
  destruct (full_slice src (c / 32 * 32) 32 Hs) as [-> Hr]; [dlia..|]. destruct (full_slice tile (c mod 32 * 32) 32 Ht) as [-> Hcl]; [dlia..|].
  cbn [mbind res_bind]. by rewrite dot_i8_Ret.
Qed.

Lemma transition_full src tile step : full (transition src tile step).
Proof. unfold full, transition. by rewrite length_fmap, length_seqZ. Qed.

Lemma length_row_words n h : length (row_words n h) = (4 * n)%nat.
Proof. revert h. induction n as [|n IH]; intros h; [done|]. cbn [row_words]. rewrite length_app, length_to_le, IH. lia. Qed.

Lemma length_concat_rows {A B} (f : A -> list B) k l : (forall x, length (f x) = k) -> length (concat (f <$> l)) = (k * length l)%nat.
Proof. intros Hf. induction l as [|x l IH]; [cbn; lia|]. cbn [length]. rewrite fmap_cons. cbn [concat]. rewrite length_app, Hf, IH. lia. Qed.

Lemma initial_state_full seed : full (v4_initial_state seed).
Proof. unfold full, v4_initial_state. rewrite (length_concat_rows _ 32); [done|]. intros r. by rewrite length_row_words. Qed.

Lemma pad_tile_full pad_seed t : full (v5_pad_tile pad_seed t).
Proof.
  unfold full, v5_pad_tile. rewrite (length_concat_rows _ 32); [done|]. intros k. unfold pad_entry.
  destruct (v5_pad_seed_words pad_seed) as [[[a b] c] d]. destruct (Nat.iter _ _ _) as [[[a' b'] c'] d'].
  by rewrite !length_app, !length_to_le.
Qed.

Lemma state_fold_Ret state : full state -> exists f, v5_state_fold state = Ret f.
Proof.
  intros Hs. unfold v5_state_fold. assert (Hall : Forall (fun r => 0 <= r < 32) (seqZ 0 POM_V4_D)).
  { apply Forall_forall. intros r Hr. apply elem_of_seqZ in Hr. unfold POM_V4_D in Hr. lia. }
  assert (Hg : forall l h, Forall (fun r => 0 <= r < 32) l -> exists f, foldl (fun h r => h ← h; w ← index_range state (r * POM_V4_D) (r * POM_V4_D + 8);
    mret (Z.lxor h (mix64 (Z.lxor (from_le w) r)))) (Ret h) l = Ret f); [|by apply Hg].
  intros l. induction l as [|r l IH]; intros h Hl; [by exists h|]. apply Forall_cons in Hl as [Hr Hl]. cbn [foldl mbind res_bind].
  destruct (full_slice state (r * POM_V4_D) 8 Hs) as [-> _]; [unfold POM_V4_D; lia..|]. cbn [mbind res_bind]. by apply IH.
Qed.
End Lengths.

(** ** A tile proof binds *)

Section Binding.
Context `{B3 : Blake3} {BL : Blake3Lengths}.

(** Two different inputs of a chunk's or a node's length with one digest. *)
Definition digest_collision : Prop := exists a b : list byte,
  (length a = 32%nat \/ length a = 64%nat) /\ (length b = 32%nat \/ length b = 64%nat) /\ a <> b /\ blake3_hash a = blake3_hash b.

Lemma pair_binds a b c d : is_hash a -> is_hash b -> is_hash c -> is_hash d -> hash_pair a b = hash_pair c d ->
  (a = c /\ b = d) \/ digest_collision.
Proof.
  unfold is_hash. intros Ha Hb Hc Hd H. destruct (decide (a ++ b = c ++ d)) as [E|E].
  - left. apply app_inj_1 in E; [done|congruence].
  - right. exists (a ++ b), (c ++ d). rewrite !length_app, Ha, Hb, Hc, Hd. repeat split; auto.
Qed.

Lemma chunk_binds (c e : list byte) : length c = 32%nat -> length e = 32%nat -> blake3_hash c = blake3_hash e -> c = e \/ digest_collision.
Proof. intros Hc He H. destruct (decide (c = e)); [by left|]. right. exists c, e. auto. Qed.

Lemma chunk_not_pair (c : list byte) a b : length c = 32%nat -> is_hash a -> is_hash b -> blake3_hash c = hash_pair a b -> digest_collision.
Proof.
  unfold is_hash. intros Hc Ha Hb H. exists c, (a ++ b). rewrite length_app, Ha, Hb. repeat split; auto.
  intros ->. rewrite length_app in Hc. lia.
Qed.

Lemma fold_path_app x idx p q : 0 <= idx -> fold_path x idx (p ++ q) = fold_path (fold_path x idx p) (Z.shiftr idx (zlen p)) q.
Proof.
  revert x idx. induction p as [|s p IH]; intros x idx Hi; cbn [app fold_path]; [by rewrite zlen_nil, Z.shiftr_0_r|].
  rewrite IH by (by apply Z.shiftr_nonneg). rewrite Z.shiftr_shiftr, zlen_cons by (apply zlen_nonneg). done.
Qed.

Lemma fold_path_hash x idx p : is_hash x -> is_hash (fold_path x idx p).
Proof. revert x idx. induction p as [|s p IH]; intros x idx Hx; [done|]. cbn [fold_path]. apply IH. destruct (Z.even idx); apply hash_pair_len. Qed.

Lemma fold_path_pair x idx p : is_hash x -> Forall is_hash p -> p <> [] -> exists a b, is_hash a /\ is_hash b /\ fold_path x idx p = hash_pair a b.
Proof.
  revert x idx. induction p as [|s p IH]; intros x idx Hx Hp Hne; [done|]. apply Forall_cons in Hp as [Hs Hp]. cbn [fold_path].
  destruct p as [|t p]; [|apply IH; [destruct (Z.even idx); apply hash_pair_len|done|done]].
  cbn [fold_path]. destruct (Z.even idx); [by exists x, s|by exists s, x].
Qed.

(** Only the low bits of the position are read. *)
Lemma fold_path_low x hi i p k : 0 <= i -> 0 <= hi -> (length p <= k)%nat -> fold_path x (hi * 2 ^ Z.of_nat k + i) p = fold_path x i p.
Proof.
  revert x i k. induction p as [|s p IH]; intros x i k Hi Hh Hk; [done|]. destruct k as [|k]; [cbn in Hk; lia|]. cbn [fold_path].
  assert (Hp : hi * 2 ^ Z.of_nat (S k) + i = i + 2 * (hi * 2 ^ Z.of_nat k)) by (rewrite Nat2Z.inj_succ, Z.pow_succ_r by lia; lia).
  rewrite Hp, Z.even_add_mul_2, !Z.shiftr_div_pow2 by lia. change (2 ^ 1) with 2. replace (i + 2 * (hi * 2 ^ Z.of_nat k)) with (i + hi * 2 ^ Z.of_nat k * 2) by lia.
  rewrite Z.div_add by lia. rewrite Z.add_comm. apply IH; [dlia|done|cbn in Hk; lia].
Qed.

Lemma level_up_elem l h : Forall is_hash l -> h ∈ level_up l -> exists a b, a ∈ l /\ b ∈ l /\ h = hash_pair a b.
Proof.
  intros _. induction l as [|a|a b l IH] using list_pair_ind; cbn [level_up pair_up].
  - by intros ?%not_elem_of_nil.
  - intros ->%list_elem_of_singleton. exists a, a. repeat split; left.
  - intros [->|Hh]%elem_of_cons.
    + exists a, b. repeat split; [left|right; left].
    + destruct (IH Hh) as (c & d & Hc & Hd & ->). exists c, d. repeat split; by repeat right.
Qed.

Lemma path_in l idx x p : Forall is_hash l -> is_hash x -> Forall is_hash p -> fold_path x idx p ∈ ups (length p) l -> x ∈ l \/ digest_collision.
Proof.
  revert l idx x. induction p as [|s p IH]; intros l idx x Hl Hx Hp Hin; [by left|]. apply Forall_cons in Hp as [Hs Hp].
  cbn [length ups fold_path] in Hin. apply IH in Hin as [Hin|]; [|by right|by apply level_up_hashes|destruct (Z.even idx); apply hash_pair_len|done].
  apply level_up_elem in Hin as (a & b & Ha & Hb & E); [|done].
  assert (Hha : is_hash a) by (by apply (proj1 (Forall_forall _ _) Hl)). assert (Hhb : is_hash b) by (by apply (proj1 (Forall_forall _ _) Hl)).
  destruct (Z.even idx); apply pair_binds in E as [[-> ->]|]; auto.
Qed.

Lemma path_binds l idx x p : Forall is_hash l -> is_hash x -> Forall is_hash p -> 0 <= idx < zlen l ->
  ups (length p) l !! Z.to_nat (Z.shiftr idx (zlen p)) = Some (fold_path x idx p) ->
  (l !! Z.to_nat idx = Some x /\ p = ref_path (length p) l idx) \/ digest_collision.
Proof.
  revert l idx x. induction p as [|s p IH]; intros l idx x Hl Hx Hp Hidx Hup; [left; by rewrite zlen_nil, Z.shiftr_0_r in Hup|].
  apply Forall_cons in Hp as [Hs Hp]. cbn [length ups fold_path ref_path] in *. rewrite zlen_cons in Hup.
  rewrite <- Z.shiftr_shiftr in Hup by apply zlen_nonneg.
  apply IH in Hup as [[Hup Hrest]|]; [|by right|by apply level_up_hashes|destruct (Z.even idx); apply hash_pair_len|done|by apply half_range].
  destruct (lookup_lt_is_Some_2 l (Z.to_nat idx)) as [y Hy]; [unfold zlen in Hidx; lia|].
  rewrite (level_up_parent l idx y) in Hup by (done || lia). injection Hup as E.
  assert (Hhy : is_hash y) by (apply (proj1 (Forall_lookup _ _) Hl _ _ Hy)).
  assert (Hhs : is_hash (sibl l idx)) by (apply (proj1 (Forall_lookup _ _) Hl _ _ (proj2 (sibl_lookup l idx Hidx)))).
  destruct (Z.even idx); apply pair_binds in E as [[-> ->]|]; auto; left; (split; [done|f_equal; done]).
Qed.

Lemma length_ref_path n l idx : length (ref_path n l idx) = n.
Proof. revert l idx. induction n as [|n IH]; intros l idx; [done|]. cbn [ref_path length]. by rewrite IH. Qed.

Lemma ref_path_hashes n l idx : Forall is_hash l -> 0 <= idx < zlen l -> Forall is_hash (ref_path n l idx).
Proof.
  revert l idx. induction n as [|n IH]; intros l idx Hl Hidx; cbn [ref_path]; [done|]. constructor.
  - apply (proj1 (Forall_lookup _ _) Hl _ _ (proj2 (sibl_lookup l idx Hidx))).
  - apply IH; [by apply level_up_hashes|by apply half_range].
Qed.

(** A chunk that a path leads from to the root, whatever the path's length, is the chunk at its
    position and the path the plain proof. *)
Lemma leaf_binds source idx c p : Forall (fun c => length c = 32%nat) source -> length c = 32%nat -> Forall is_hash p -> 0 <= idx < zlen source ->
  Ret (fold_path (blake3_hash c) idx p) = index (ups (levels (zlen source)) (blake3_hash <$> source)) 0 ->
  (source !! Z.to_nat idx = Some c /\ p = ref_path (levels (zlen source)) (blake3_hash <$> source) idx) \/ digest_collision.
Proof.
  intros Hsrc Hc Hp Hidx Hroot. set (leaves := blake3_hash <$> source) in *. set (d := levels (zlen source)) in *.
  assert (Hz : zlen leaves = zlen source) by apply zlen_fmap. assert (Hl : Forall is_hash leaves) by apply leaves_hashes.
  destruct (root_node leaves) as [root Hr]; [lia|]. rewrite Hz in Hr. fold d in Hr. rewrite Hr in Hroot. injection Hroot as Hroot.
  assert (Hx : is_hash (blake3_hash c)) by apply blake3_hash_len.
  destruct (lt_eq_lt_dec (length p) d) as [[Hlt|Heq]|Hgt].
  - right. destruct (d - length p)%nat as [|k] eqn:E; [lia|].
    assert (Hin : fold_path (blake3_hash c) idx p ∈ ups (length p) (ups (S k) leaves)).
    { rewrite <- ups_add. replace (S k + length p)%nat with d by lia. rewrite Hr, Hroot. left. }
    apply path_in in Hin as [Hin|]; [|done|by apply ups_hashes|done|done]. rewrite ups_S in Hin.
    assert (Hu : Forall is_hash (ups k leaves)) by (by apply ups_hashes).
    apply level_up_elem in Hin as (a & b & Ha & Hb & E'); [|done]. rewrite Forall_forall in Hu. by apply (chunk_not_pair c a b); auto.
  - pose proof (shift_range leaves idx d) as Hs. rewrite Hr, Hz in Hs. specialize (Hs Hidx). change (zlen [root]) with 1 in Hs.
    destruct (path_binds leaves idx (blake3_hash c) p) as [[Hy Hpp]|]; [done|done|done|lia| | |by right].
    + rewrite Heq, Hr. unfold zlen. rewrite Heq. replace (Z.shiftr idx (Z.of_nat d)) with 0 by lia. cbn. by rewrite Hroot.
    + unfold leaves in Hy. rewrite list_lookup_fmap in Hy. destruct (source !! Z.to_nat idx) as [e|] eqn:He; [|done]. injection Hy as Hy.
      assert (Hle : length e = 32%nat) by (apply (proj1 (Forall_lookup _ _) Hsrc _ _ He)).
      destruct (chunk_binds e c) as [->|]; [done..| |by right]. left. by rewrite Heq in Hpp.
  - right. set (k := (length p - d)%nat). rewrite <- (take_drop k p), fold_path_app in Hroot by lia.
    assert (Hin : fold_path (fold_path (blake3_hash c) idx (take k p)) (Z.shiftr idx (zlen (take k p))) (drop k p) ∈ ups (length (drop k p)) leaves).
    { rewrite length_drop. replace (length p - k)%nat with d by lia. rewrite Hr, Hroot. left. }
    apply path_in in Hin as [Hin|]; [|done|done|by apply fold_path_hash|by apply Forall_drop].
    apply list_elem_of_fmap in Hin as (e & He & Hes). rewrite Forall_forall in Hsrc.
    destruct (fold_path_pair (blake3_hash c) idx (take k p)) as (a & b & Ha & Hb & Hab); [done|by apply Forall_take| |].
    { intros Hn. apply (f_equal length) in Hn. rewrite length_take in Hn. cbn in Hn. lia. }
    rewrite Hab in He. apply (chunk_not_pair e a b); auto.
Qed.
End Binding.

(** ** The tiles of a model *)

Section Tiles.
Context `{B3 : Blake3} {BL : Blake3Lengths}.
Context (source : list (list byte)) (Hchunks : Forall (fun c => length c = 32%nat) source) (Hmany : 32 <= zlen source).

Abbreviation leaves := (blake3_hash <$> source).
Abbreviation depth := (levels (zlen source)).

(** Tile [off] of the model and its path. *)
Definition tile_chunks (off : Z) : list (list byte) := slice source (off * 32) (off * 32 + 32).
Definition weight_tile (off : Z) : list byte := concat (tile_chunks off).
Definition weight_path (off : Z) : list Hash := drop 5 (ref_path depth leaves (off * 32)).

Context (off : Z) (Hoff : 0 <= off < zlen source / 32).

Lemma tile_range : 0 <= off * 32 /\ off * 32 + 32 <= zlen source.
Proof. clear -Hoff. dlia. Qed.

Lemma tile_chunks_32 : Forall (fun c => length c = 32%nat) (tile_chunks off).
Proof. unfold tile_chunks, slice. by apply Forall_take, Forall_drop. Qed.

Lemma length_tile_chunks : length (tile_chunks off) = 32%nat.
Proof. clear Hmany. pose proof tile_range as Hr. pose proof (zlen_slice source (off * 32) (off * 32 + 32) ltac:(lia) ltac:(lia) ltac:(lia)) as H. unfold tile_chunks. unfold zlen in *. lia. Qed.

Lemma weight_tile_full : full (weight_tile off).
Proof.
  clear Hmany. unfold full, weight_tile. pose proof (zlen_concat (tile_chunks off) tile_chunks_32) as H. unfold zlen in H. rewrite length_tile_chunks in H. lia.
Qed.

Lemma chunks_weight_tile : chunks 32 (weight_tile off) = tile_chunks off.
Proof. apply chunks_concat, tile_chunks_32. Qed.

(** The node over the tile. *)
Lemma tile_node : ups 5 (blake3_hash <$> tile_chunks off) = take 1 (drop (Z.to_nat off) (ups 5 leaves)).
Proof.
  unfold tile_chunks, slice. replace (Z.to_nat (off * 32 + 32 - off * 32)) with (1 * 2 ^ 5)%nat by lia.
  replace (Z.to_nat (off * 32)) with (Z.to_nat off * 2 ^ 5)%nat by (cbn; lia). by rewrite fmap_take, fmap_drop, ups_take, ups_drop.
Qed.

Lemma off_node : Z.shiftr (off * 32) 5 = off.
Proof. rewrite Z.shiftr_div_pow2 by lia. change (2 ^ 5) with 32. by rewrite Z.div_mul. Qed.

Lemma tile_verifies rt : Ret rt = index (ups depth leaves) 0 ->
  exists x, v4_tile_subtree_root (weight_tile off) = Ret x /\ verify_merkle x off (weight_path off) rt = true.
Proof.
  intros Hrt. pose proof tile_range as Ht. pose proof (shift_range leaves (off * 32) 5 ltac:(rewrite zlen_fmap; lia)) as Hr.
  change (Z.of_nat 5) with 5 in Hr. rewrite off_node in Hr.
  destruct (lookup_lt_is_Some_2 (ups 5 leaves) (Z.to_nat off) ltac:(unfold zlen in Hr; lia)) as [x Hx]. exists x. split.
  - rewrite v4_tile_subtree_root_ups by apply weight_tile_full. by rewrite chunks_weight_tile, tile_node, (take_1_drop _ _ _ Hx).
  - apply bool_decide_eq_true_2. pose proof (depth_5 (zlen source) ltac:(lia)).
    pose proof (fold_to_root leaves (off * 32) 5 x ltac:(rewrite zlen_fmap; lia) ltac:(rewrite zlen_fmap; lia)) as Hf.
    change (Z.of_nat 5) with 5 in Hf. rewrite off_node in Hf. specialize (Hf Hx). rewrite merkle_root_ups, zlen_fmap, <- Hrt in Hf by (rewrite zlen_fmap; lia).
    unfold weight_path. congruence.
Qed.

Lemma all_or {P : nat -> Prop} {Q : Prop} n : (forall i, (i < n)%nat -> P i \/ Q) -> (forall i, (i < n)%nat -> P i) \/ Q.
Proof.
  induction n as [|n IH]; intros H; [left; lia|]. destruct IH as [IH|]; [intros; apply H; lia| |by right].
  destruct (H n) as [Hn|]; [lia| |by right]. left. intros i Hi. destruct (decide (i = n)) as [->|]; [done|]. apply IH. lia.
Qed.

Lemma tile_binds tile p x rt : full tile -> Forall is_hash p -> Ret rt = index (ups depth leaves) 0 ->
  v4_tile_subtree_root tile = Ret x -> verify_merkle x off p rt = true ->
  (tile = weight_tile off /\ p = weight_path off) \/ digest_collision.
Proof.
  intros Hfull Hp Hrt Hx Hv%bool_decide_eq_true_1. pose proof tile_range as Ht.
  rewrite v4_tile_subtree_root_ups in Hx by done. set (tl := blake3_hash <$> chunks 32 tile) in *.
  assert (Hlen : length tl = 32%nat) by (by apply length_tile_leaves).
  assert (Hup : ups 5 tl = [x]).
  { destruct (root_node tl) as [r Hr]; [unfold zlen; lia|]. unfold zlen in Hr. rewrite Hlen in Hr. change (levels (Z.of_nat 32)) with 5%nat in Hr.
    rewrite Hr in *. by injection Hx as ->. }
  assert (Hall : forall i, (i < 32)%nat -> (source !! Z.to_nat (off * 32 + Z.of_nat i) = chunks 32 tile !! i
    /\ ref_path 5 tl (Z.of_nat i) ++ p = ref_path depth leaves (off * 32 + Z.of_nat i)) \/ digest_collision).
  { intros i Hi. destruct (lookup_lt_is_Some_2 (chunks 32 tile) i) as [c Hc]; [unfold tl in Hlen; rewrite length_fmap in Hlen; lia|].
    rewrite Hc. apply leaf_binds; [done| | |lia|].
    - apply (proj1 (Forall_lookup _ _) (chunks_whole_length 32 32 tile ltac:(lia) Hfull) _ _ Hc).
    - apply Forall_app. split; [|done]. apply ref_path_hashes; [apply leaves_hashes|unfold zlen; lia].
    - rewrite fold_path_app by lia. assert (Hlr : length (ref_path 5 tl (Z.of_nat i)) = 5%nat) by done.
      unfold zlen. rewrite Hlr. change (Z.of_nat 5) with 5.
      replace (Z.shiftr (off * 32 + Z.of_nat i) 5) with off by (rewrite Z.shiftr_div_pow2 by lia; change (2 ^ 5) with 32; dlia).
      pose proof (fold_path_low (blake3_hash c) off (Z.of_nat i) (ref_path 5 tl (Z.of_nat i)) 5 ltac:(lia) ltac:(lia) ltac:(lia)) as Hlow.
      change (2 ^ Z.of_nat 5) with 32 in Hlow. rewrite Hlow.
      pose proof (fold_ref_path 5 tl (Z.of_nat i) (blake3_hash c) ltac:(lia)) as Hf. rewrite Nat2Z.id in Hf.
      unfold tl in Hf at 1. rewrite list_lookup_fmap, Hc in Hf. specialize (Hf eq_refl). rewrite Hup in Hf.
      replace (Z.shiftr (Z.of_nat i) (Z.of_nat 5)) with 0 in Hf by (rewrite Z.shiftr_div_pow2 by lia; change (2 ^ Z.of_nat 5) with 32; dlia).
      change ([x] !! Z.to_nat 0) with (Some x) in Hf. apply Some_inj in Hf. rewrite <- Hf, Hv. exact Hrt. }
  apply all_or in Hall as [Hall|]; [left|by right]. split.
  - rewrite <- (concat_chunks 32 ltac:(lia) tile). unfold weight_tile. f_equal. apply list_eq_same_length with (n := 32%nat); [by rewrite length_tile_chunks| |].
    + unfold tl in Hlen. by rewrite length_fmap in Hlen.
    + intros i c e Hi Hc He. destruct (Hall i Hi) as [Hs _]. rewrite Hc in Hs. unfold tile_chunks, slice in He.
      rewrite lookup_take_lt in He by lia. rewrite lookup_drop in He. replace (Z.to_nat (off * 32) + i)%nat with (Z.to_nat (off * 32 + Z.of_nat i)) in He by lia. congruence.
  - destruct (Hall 0%nat ltac:(lia)) as [_ Hr]. change (Z.of_nat 0) with 0 in Hr. rewrite Z.add_0_r in Hr. unfold weight_path. rewrite <- Hr. done.
Qed.
End Tiles.

(** ** The honest walk *)

(** What a walk reads and shows: the tile of a position, what the proof carries for it, and the
    next position from the step, the state and the tile. *)
Section Honest.
Context (next : Z -> list byte -> list byte -> Z) (tile_at : Z -> list byte) (shown : Z -> list byte * list Hash).

Fixpoint honest (n : nat) (step : Z) (state : list byte) (off : Z) : list (list byte * list Hash) * list byte :=
  match n with
  | O => ([], state)
  | S n =>
    let tile := tile_at off in
    let r := honest n (step + 1) (transition state tile (wrap 32 step)) (if step <? POM_V4_K then next step state tile else off) in
    (shown off :: r.1, r.2)
  end.

Lemma honest_S n step state off : honest (S n) step state off =
  (shown off :: (honest n (step + 1) (transition state (tile_at off) (wrap 32 step)) (if step <? POM_V4_K then next step state (tile_at off) else off)).1,
   (honest n (step + 1) (transition state (tile_at off) (wrap 32 step)) (if step <? POM_V4_K then next step state (tile_at off) else off)).2).
Proof. done. Qed.

Lemma honest_full n step state off : full state -> full (honest n step state off).2.
Proof. revert step state off. induction n as [|n IH]; intros; [done|]. cbn [honest]. apply IH, transition_full. Qed.

Lemma length_honest n step state off : length (honest n step state off).1 = n.
Proof. revert step state off. induction n as [|n IH]; intros; [done|]. cbn [honest fst length]. by rewrite IH. Qed.
End Honest.

Definition range_proof (p : list Hash) : PomV4RangeProof := {| path := p |}.
Definition shown_tiles (h : list (list byte * list Hash)) : list (list byte) := h.*1.
Definition shown_merkle (h : list (list byte * list Hash)) : list PomV4RangeProof := (fun x => range_proof x.2) <$> h.

(** The proof's hashes are 32 bytes long, as their type in the code says. *)
Definition typed (proof : PomProofV4) : Prop := Forall (fun rp => Forall is_hash (path rp)) (merkle proof).

Lemma typed_at proof i m ms : typed proof -> drop i (merkle proof) = m :: ms -> Forall is_hash (path m).
Proof.
  intros Hty Hm. apply (proj1 (Forall_lookup _ _) Hty i m). by rewrite <- (Nat.add_0_r i), <- lookup_drop, Hm.
Qed.

Lemma drop_cons_index {A} (l : list A) (step : Z) x t : 1 <= step -> drop (Z.to_nat (step - 1)) l = x :: t ->
  index l (step - 1) = Ret x /\ drop (Z.to_nat (step + 1 - 1)) l = t.
Proof.
  intros Hs Hd. replace (step - 1) with (Z.of_nat (Z.to_nat (step - 1))) at 1 by lia.
  assert (Hx : l !! Z.to_nat (step - 1) = Some x) by (rewrite <- (Nat.add_0_r (Z.to_nat (step - 1))), <- lookup_drop, Hd; done).
  split; [by apply index_of_nat|]. replace (Z.to_nat (step + 1 - 1)) with (S (Z.to_nat (step - 1))) by lia.
  rewrite (drop_S l x _ Hx) in Hd. by injection Hd.
Qed.

Lemma drop_nonempty {A} (l : list A) (step : Z) n : 1 <= step -> Z.of_nat (S n) + step = zlen l + 1 -> exists x t, drop (Z.to_nat (step - 1)) l = x :: t.
Proof.
  intros Hs Hn. destruct (drop (Z.to_nat (step - 1)) l) as [|x t] eqn:E; [|eauto].
  apply (f_equal length) in E. rewrite length_drop in E. unfold zlen in Hn. cbn in E. lia.
Qed.

Section Model.
Context `{B3 : Blake3} {BL : Blake3Lengths} {MC : MemoConfig}.
Context (source : list (list byte)) (Hchunks : Forall (fun c => length c = 32%nat) source) (Hmany : 32 <= zlen source).
Abbreviation leaves := (blake3_hash <$> source).
Abbreviation depth := (levels (zlen source)).
Abbreviation n_tiles := (zlen source / 32).

Lemma n_tiles_pos : 0 < n_tiles.
Proof. dlia. Qed.

Lemma tile_root t : full t -> exists x, v4_tile_subtree_root t = Ret x.
Proof.
  intros Hft. destruct (state_root_Ret t Hft) as [x Hx]. exists x. by rewrite v4_tile_subtree_root_ups, <- v4_state_root_ups.
Qed.

Section Served.
Context (w : WeightIndex) (Hw : served source w).

Lemma served_n : n_chunks w = zlen source.
Proof. destruct (served_valid source w ltac:(lia) Hchunks Hw) as (Hv & Hs & _). by rewrite (valid_n w Hv), Hs. Qed.

Lemma served_root : Ret (r_t w) = index (ups depth leaves) 0.
Proof. destruct (served_valid source w ltac:(lia) Hchunks Hw) as (Hv & Hs & _). by rewrite (valid_root w Hv), Hs. Qed.

Lemma served_read a n : 0 <= a -> 0 <= n -> a + n <= zlen source -> read_chunks w a n = Ret (concat (slice source a (a + n))).
Proof.
  intros. destruct (served_valid source w ltac:(lia) Hchunks Hw) as (Hv & Hs & _). unfold read_chunks. rewrite Hs, index_range_Ret by lia. done.
Qed.

Lemma served_path_ref off first : 0 <= off < zlen source -> (first <= depth)%nat ->
  exists w', merkle_path_from_level w off first = Ret (drop first (ref_path depth leaves off), w') /\ served source w'.
Proof.
  intros Hoff Hf. destruct (served_valid source w ltac:(lia) Hchunks Hw) as (Hv & Hs & Hm).
  destruct (path_ref w off first Hv Hm) as (m & Hp & _); [by rewrite served_n|rewrite (valid_total w Hv), Hs; lia|]. rewrite Hs in Hp.
  eexists. split; [exact Hp|]. eapply (served_path source w off first); [done|lia|exact Hp].
Qed.

Lemma served_tile off : 0 <= off < n_tiles -> read_chunks w (off * POM_V4_TILE_CHUNKS) POM_V4_TILE_CHUNKS = Ret (weight_tile source off).
Proof. intros Hoff. pose proof (tile_range source off Hoff). change POM_V4_TILE_CHUNKS with 32. rewrite served_read by lia. done. Qed.

Lemma served_tile_path off : 0 <= off < n_tiles ->
  exists w', merkle_path_from_level w (off * POM_V4_TILE_CHUNKS) POM_V4_TILE_SUBTREE_DEPTH = Ret (weight_path source off, w') /\ served source w'.
Proof.
  intros Hoff. pose proof (tile_range source off Hoff). apply served_path_ref; [change POM_V4_TILE_CHUNKS with 32; lia|]. apply depth_5. lia.
Qed.
End Served.

#[local] Opaque honest.

(** *** v4 *)

Section WalkV4.
Context (seed : Z).

Definition next4 (step : Z) (_ tile : list byte) : Z :=
  mix64 (Z.lxor (Z.lxor seed (wrap 64 ((step + 1) * POM_V4_OFFSET_STEP_SALT))) (snippet_fold (slice tile 0 32))) mod n_tiles.
Abbreviation honest4 := (honest next4 (weight_tile source) (fun off => (weight_tile source off, weight_path source off))).

Lemma rem_tiles a : rem a n_tiles = Ret (a mod n_tiles) /\ 0 <= a mod n_tiles < n_tiles.
Proof. pose proof n_tiles_pos. unfold rem. destruct (Z.eqb_spec n_tiles 0); [lia|]. split; [done|]. by apply Z.mod_pos_bound. Qed.

Lemma next_tile step state tile off : full tile -> 0 <= off < n_tiles ->
  (if step <? POM_V4_K then snippet ← index_range tile 0 POM_V4_SNIPPET_BYTES; v4_next_offset seed step snippet n_tiles else mret off)
    = Ret (if step <? POM_V4_K then next4 step state tile else off)
  /\ 0 <= (if step <? POM_V4_K then next4 step state tile else off) < n_tiles.
Proof.
  intros Hf Hoff. destruct (step <? POM_V4_K); [|done]. destruct (full_slice tile 0 32 Hf) as [Hs _]; [lia..|].
  change (index_range tile 0 POM_V4_SNIPPET_BYTES) with (index_range tile 0 (0 + 32)). rewrite Hs. cbn [mbind res_bind].
  unfold v4_next_offset, next4. apply rem_tiles.
Qed.

Lemma build_v4_loop_honest n step state off w : served source w -> full state -> 0 <= off < n_tiles ->
  let h := honest4 n step state off in
  exists w', build_v4_loop n step seed n_tiles state off w = Ret (shown_tiles h.1, shown_merkle h.1, h.2, w') /\ served source w'.
Proof.
  revert step state off w. induction n as [|n IH]; intros step state off w Hw Hs Hoff; cbn [build_v4_loop]; rewrite ?honest_S; [by exists w|].
  pose proof (weight_tile_full source Hchunks off Hoff) as Ht. rewrite (served_tile w Hw off Hoff). cbn [mbind res_bind].
  destruct (served_tile_path w Hw off Hoff) as (w1 & Hp & Hw1). rewrite Hp.
  destruct (next_tile step state (weight_tile source off) off Ht Hoff) as [Hn Hr].
  destruct (full_slice (weight_tile source off) 0 32 Ht) as [Hsl _]; [lia..|].
  change (index_range (weight_tile source off) 0 POM_V4_SNIPPET_BYTES) with (index_range (weight_tile source off) 0 (0 + 32)) in Hn |- *.
  rewrite Hsl in Hn |- *. cbn [mbind res_bind] in Hn |- *. rewrite Hn, v4_transition_Ret by done. cbn [mbind res_bind].
  destruct (IH (step + 1) (transition state (weight_tile source off) (wrap 32 step)) _ w1 Hw1 (transition_full _ _ _) Hr) as (w2 & -> & Hw2).
  exists w2. by split.
Qed.

Lemma verify_v4_loop_spec n step proof state off rt : Ret rt = index (ups depth leaves) 0 ->
  zlen (tiles proof) = POM_V4_K -> zlen (merkle proof) = POM_V4_K -> Z.of_nat n + step = POM_V4_K + 1 -> 1 <= step ->
  full state -> 0 <= off < n_tiles ->
  let h := honest4 n step state off in
  let same := drop (Z.to_nat (step - 1)) (tiles proof) = shown_tiles h.1 /\ drop (Z.to_nat (step - 1)) (merkle proof) = shown_merkle h.1 in
  exists r, verify_v4_loop n step seed n_tiles proof rt state off = Ret r
    /\ (same -> r = inr h.2) /\ (forall st, r = inr st -> full st /\ (typed proof -> (same /\ st = h.2) \/ digest_collision)).
Proof.
  intros Hrt Htl Hml. revert step state off. induction n as [|n IH]; intros step state off Hn Hstep Hs Hoff; cbn [verify_v4_loop]; rewrite ?honest_S.
  - eexists. split; [done|]. split; [done|]. intros st [= <-]. split; [done|]. intros _. left. split; [|done].
    rewrite !drop_ge by (unfold zlen, POM_V4_K in *; lia). done.
  - destruct (drop_nonempty (tiles proof) step n Hstep) as (t & ts & Ht); [unfold POM_V4_K in *; lia|].
    destruct (drop_nonempty (merkle proof) step n Hstep) as (m & ms & Hm); [unfold POM_V4_K in *; lia|].
    destruct (drop_cons_index _ step t ts Hstep Ht) as [-> Hts]. destruct (drop_cons_index _ step m ms Hstep Hm) as [-> Hms]. cbn [mbind res_bind].
    pose proof (weight_tile_full source Hchunks off Hoff) as Hf. unfold shown_tiles, shown_merkle. cbn [fst snd fmap list_fmap]. rewrite Ht, Hm.
    destruct (Z.eqb_spec (zlen t) POM_V4_TILE_BYTES) as [Hlen|Hlen]; cbn [negb].
    2: { eexists. split; [done|]. split; [|by intros]. intros [[= -> _] _]. exfalso. apply Hlen. unfold zlen. by rewrite Hf. }
    assert (Hft : full t) by (unfold full, zlen in *; change POM_V4_TILE_BYTES with 1024 in Hlen; lia).
    destruct (tile_root t Hft) as [x Hsub]. rewrite Hsub. cbn [mbind res_bind]. destruct (verify_merkle x off (path m) rt) eqn:Hv; cbn [negb].
    2: { eexists. split; [done|]. split; [|by intros]. intros [[= -> _] [= -> _]].
         destruct (tile_verifies source Hchunks Hmany off Hoff rt Hrt) as (x' & Hx' & Hv'). cbn [path range_proof] in Hv. congruence. }
    rewrite v4_transition_Ret by done. cbn [mbind res_bind]. destruct (next_tile step state t off Hft Hoff) as [-> Hr]. cbn [mbind res_bind].
    destruct (IH (step + 1) (transition state t (wrap 32 step)) _ ltac:(lia) ltac:(lia) (transition_full _ _ _) Hr) as (r & Hvr & H1 & H2).
    exists r. split; [exact Hvr|]. rewrite Hts, Hms in H1, H2. split; [intros [[= -> Ha] [= _ Hb]]; by apply H1|].
    intros st Hst. destruct (H2 st Hst) as [Hfst Hin]. split; [done|]. intros Hty.
    destruct (tile_binds source Hchunks Hmany off Hoff t (path m) x rt Hft (typed_at proof (Z.to_nat (step - 1)) m ms Hty Hm) Hrt Hsub Hv) as [[-> Hpm]|]; [|by right].
    destruct (Hin Hty) as [[[Ha Hb] Hc]|]; [left|by right]. split; [|done]. rewrite Ha, Hb. split; [done|].
    f_equal. unfold range_proof. rewrite <- Hpm. by destruct m.
Qed.

(** The whole walk, the final state it derives, and the self-check's verdict on any proof. *)
Definition off4 : Z := mix64 (Z.lxor seed POM_V4_OFFSET_FIRST_SALT) mod n_tiles.
Definition walk4 : list (list byte * list Hash) * list byte := honest4 (Z.to_nat POM_V4_K) 1 (v4_initial_state seed) off4.

Lemma v4_first : (n_tiles =? 0) = false /\ v4_first_offset seed n_tiles = Ret off4 /\ 0 <= off4 < n_tiles.
Proof.
  pose proof n_tiles_pos. split; [lia|]. apply rem_tiles.
Qed.

Lemma build_v4_verdict t w root : served source w -> v4_state_root walk4.2 = Ret root ->
  exists w', build_proof_v4 t seed w = Ret (inr ({| tier := t; tiles := shown_tiles walk4.1; merkle := shown_merkle walk4.1 |}, fold64 root), w') /\ served source w'.
Proof.
  intros Hw Hroot. destruct v4_first as (Hz & Hfirst & Hoff).
  assert (Hb : exists w', build_v4_loop (Z.to_nat POM_V4_K) 1 seed n_tiles (v4_initial_state seed) off4 w
    = Ret (shown_tiles walk4.1, shown_merkle walk4.1, walk4.2, w') /\ served source w')
    by exact (build_v4_loop_honest (Z.to_nat POM_V4_K) 1 (v4_initial_state seed) off4 w Hw (initial_state_full seed) Hoff).
  destruct Hb as (w' & Hb & Hw'). exists w'. split; [|exact Hw']. unfold build_proof_v4. rewrite (served_n w Hw). change POM_V4_TILE_CHUNKS with 32.
  rewrite Hz, Hfirst, bind_Ret, Hb, bind_Ret. cbv beta iota. rewrite Hroot, bind_Ret. reflexivity.
Qed.

Lemma verify_v4_verdict w p root : served source w -> v4_state_root walk4.2 = Ret root ->
  exists r, verify_proof_v4 seed p (r_t w) (n_chunks w) = Ret r
    /\ (tiles p = shown_tiles walk4.1 /\ merkle p = shown_merkle walk4.1 -> r = inr (fold64 root))
    /\ forall fs, r = inr fs -> typed p -> (tiles p = shown_tiles walk4.1 /\ merkle p = shown_merkle walk4.1 /\ fs = fold64 root) \/ digest_collision.
Proof.
  unfold walk4. intros Hw Hroot. destruct v4_first as (Hz & Hfirst & Hoff). pose proof (length_honest (next4) (weight_tile source) (fun off => (weight_tile source off, weight_path source off)) (Z.to_nat POM_V4_K) 1 (v4_initial_state seed) off4) as Hlen.
  unfold verify_proof_v4. rewrite (served_n w Hw). change POM_V4_TILE_CHUNKS with 32.
  destruct (Z.eqb_spec (zlen (tiles p)) POM_V4_K) as [Ht|Ht]; cbn [negb orb].
  2: { eexists. split; [done|]. split; [|by intros]. intros [Ht' _]. exfalso. apply Ht. rewrite Ht'. unfold shown_tiles, zlen. by rewrite length_fmap, Hlen. }
  destruct (Z.eqb_spec (zlen (merkle p)) POM_V4_K) as [Hk|Hk]; cbn [negb].
  2: { eexists. split; [done|]. split; [|by intros]. intros [_ Hk']. exfalso. apply Hk. rewrite Hk'. unfold shown_merkle, zlen. by rewrite length_fmap, Hlen. }
  rewrite Hz, Hfirst. cbn [mbind res_bind].
  destruct (verify_v4_loop_spec (Z.to_nat POM_V4_K) 1 p (v4_initial_state seed) off4 (r_t w) (served_root w Hw) Ht Hk ltac:(done) ltac:(done) (initial_state_full seed) Hoff) as (r & Hr & H1 & H2).
  change (Z.to_nat (1 - 1)) with 0%nat in H1, H2. rewrite !drop_0 in H1, H2. rewrite Hr. cbn [mbind res_bind].
  match type of Hroot with v4_state_root (?x.2) = _ => set (h := x) in * end. clearbody h.
  destruct r as [e|st]; [eexists; split; [done|]; split; [|by intros]; intros Hsame; by specialize (H1 Hsame)|].
  destruct (H2 st eq_refl) as [Hfst Hin]. destruct (state_root_Ret st Hfst) as [root' Hroot']. rewrite Hroot'. cbn [mbind res_bind]. eexists. split; [done|]. split.
  - intros Hsame. injection (H1 Hsame) as ->. congruence.
  - intros fs [= <-] Hty. destruct (Hin Hty) as [[[Ha Hb] ->]|]; [left|by right]. split; [done|]. split; [done|]. congruence.
Qed.
End WalkV4.

(** *** v5 *)

Section WalkV5.
Context (seed pad_tiles : Z) (pad_seed : list byte) (Hpad : 0 < pad_tiles) (Hsize : n_tiles + pad_tiles < 2 ^ 64).
Context (pad_steps : Z).

Definition state_fold (state : list byte) : Z := match v5_state_fold state with Ret f => f | Panic => 0 end.
Definition next5 (step : Z) (state tile : list byte) : Z :=
  let raw := mix64 (Z.lxor (Z.lxor (Z.lxor seed (wrap 64 ((step + 1) * POM_V4_OFFSET_STEP_SALT))) (snippet_fold (slice tile 0 32))) (state_fold state)) in
  if v5_is_pad_step (step + 1) pad_steps then wrap 64 (n_tiles + raw mod pad_tiles) else raw mod n_tiles.
Definition tile5 (off : Z) : list byte := if off <? n_tiles then weight_tile source off else v5_pad_tile pad_seed (off - n_tiles).
Definition shown5 (off : Z) : list byte * list Hash := if off <? n_tiles then (weight_tile source off, weight_path source off) else ([], []).
Abbreviation honest5 := (honest next5 tile5 shown5).

Lemma tile5_full off : 0 <= off -> full (tile5 off).
Proof. intros H. unfold tile5. destruct (Z.ltb_spec off n_tiles); [by apply weight_tile_full|apply pad_tile_full]. Qed.

Lemma next_tile5 step state tile off : full state -> full tile -> 0 <= off ->
  (if step <? POM_V4_K then snippet ← index_range tile 0 POM_V4_SNIPPET_BYTES; f ← v5_state_fold state;
     v5_next_offset seed step snippet f n_tiles pad_tiles pad_steps else mret off)
    = Ret (if step <? POM_V4_K then next5 step state tile else off)
  /\ 0 <= (if step <? POM_V4_K then next5 step state tile else off).
Proof.
  intros Hst Hf Hoff. destruct (step <? POM_V4_K); [|done]. destruct (full_slice tile 0 32 Hf) as [Hs _]; [lia..|].
  change (index_range tile 0 POM_V4_SNIPPET_BYTES) with (index_range tile 0 (0 + 32)). rewrite Hs. cbn [mbind res_bind].
  unfold next5, state_fold. destruct (state_fold_Ret state Hst) as [f ->]. cbn [mbind res_bind]. unfold v5_next_offset. cbv zeta.
  destruct (v5_is_pad_step _ _); [|match goal with |- rem ?a _ = _ /\ _ => destruct (rem_tiles a) as [-> ?] end; split; [done|lia]]. unfold rem. destruct (Z.eqb_spec pad_tiles 0); [lia|]. cbn [mbind res_bind].
  split; [done|]. apply wrap_fits. lia.
Qed.

Lemma concat_singles (s : list (list byte)) a n : 0 <= a -> concat ((fun c => concat (slice s (a + c) (a + c + 1))) <$> seqZ 0 (Z.of_nat n)) = concat (slice s a (a + Z.of_nat n)).
Proof.
  intros Ha. induction n as [|n IH].
  - change (Z.of_nat 0) with 0. rewrite Z.add_0_r. unfold slice. by rewrite Z.sub_diag.
  - rewrite Nat2Z.inj_succ, <- Z.add_1_r, seqZ_app by lia. rewrite fmap_app, concat_app, IH, <- (slice_slice_app s a (a + Z.of_nat n) (a + (Z.of_nat n + 1))) by lia.
    rewrite concat_app. f_equal. rewrite (seqZ_cons (0 + Z.of_nat n)) by lia. cbn [fmap list_fmap]. rewrite seqZ_nil by lia. cbn [fmap list_fmap concat].
    rewrite app_nil_r, Z.add_0_l. f_equal. f_equal. lia.
Qed.

Lemma build_fetch_spec i off proof w : served source w -> 0 <= off ->
  exists w', build_fetch n_tiles i off (proof, w)
    = Ret (inr (if off <? n_tiles then Some (weight_tile source off) else None, (push (shown5 off).1 (shown5 off).2 proof, w'))) /\ served source w'.
Proof.
  intros Hw Hoff. unfold build_fetch, shown5. destruct (Z.ltb_spec off n_tiles) as [Hlt|]; [|exists w; by split].
  pose proof (tile_range source off ltac:(lia)) as Hr. change POM_V4_TILE_CHUNKS with 32.
  rewrite (mapM_Ret _ (fun c => concat (slice source (off * 32 + c) (off * 32 + c + 1)))).
  2: { intros c Hc. apply elem_of_seqZ in Hc. apply served_read; [done|lia..]. }
  cbn [mbind res_bind]. destruct (served_path_ref w Hw (off * 32) 0 ltac:(lia) ltac:(lia)) as (w' & Hp & Hw'). rewrite drop_0 in Hp.
  exists w'. unfold merkle_path. rewrite Hp. cbn [mbind res_bind]. split; [|done].
  assert (Hl : zlen (ref_path depth leaves (off * 32)) = Z.of_nat depth).
  { unfold zlen. by rewrite length_ref_path. }
  pose proof (depth_5 (zlen source) ltac:(lia)). unfold POM_V4_TILE_SUBTREE_DEPTH. change (Z.of_nat 5) with 5.
  rewrite index_range_Ret, slice_to_end by lia. cbn [mbind res_bind]. change (Z.to_nat 5) with 5%nat. unfold weight_path.
  change 32 with (Z.of_nat 32) at 2 3 5 6. rewrite concat_singles by lia. done.
Qed.

Definition extend (proof : PomProofV4) (h : list (list byte * list Hash)) : PomProofV4 :=
  {| tier := tier proof; tiles := tiles proof ++ shown_tiles h; merkle := merkle proof ++ shown_merkle h |}.

Lemma build_walk_honest n step state off proof w : served source w -> full state -> 0 <= off ->
  let h := honest5 n step state off in
  exists w', walk_loop n step seed n_tiles pad_tiles pad_seed pad_steps (build_fetch n_tiles) state off (proof, w)
    = Ret (inr (h.2, (extend proof h.1, w'))) /\ served source w'.
Proof.
  revert step state off proof w. induction n as [|n IH]; intros step state off proof w Hw Hs Hoff; cbn [walk_loop]; rewrite ?honest_S.
  - exists w. split; [|done]. unfold extend. cbn. rewrite !app_nil_r. by destruct proof.
  - destruct (build_fetch_spec (step - 1) off proof w Hw Hoff) as (w1 & -> & Hw1). cbn [mbind res_bind].
    assert (match (if off <? n_tiles then Some (weight_tile source off) else None) with Some t => t | None => v5_pad_tile pad_seed (off - n_tiles) end = tile5 off) as ->
      by (unfold tile5; by destruct (_ <? _)).
    destruct (next_tile5 step state (tile5 off) off Hs (tile5_full off Hoff) Hoff) as [-> Hn]. cbn [mbind res_bind].
    rewrite v4_transition_Ret by (done || by apply tile5_full). cbn [mbind res_bind].
    destruct (IH (step + 1) (transition state (tile5 off) (wrap 32 step)) _ (push (shown5 off).1 (shown5 off).2 proof) w1 Hw1 (transition_full _ _ _) Hn) as (w2 & -> & Hw2).
    exists w2. split; [|done]. cbn [fst snd]. do 4 f_equal. unfold extend, push, shown_tiles, shown_merkle. cbn [tier tiles merkle fmap list_fmap]. rewrite <- !app_assoc. done.
Qed.

Definition fetched5 (off : Z) : option (list byte) := if off <? n_tiles then Some (weight_tile source off) else None.
Definition tile_of (off : Z) (o : option (list byte)) : list byte := match o with Some t => t | None => v5_pad_tile pad_seed (off - n_tiles) end.

Lemma tile_of_fetched off : tile_of off (fetched5 off) = tile5 off.
Proof. unfold tile_of, fetched5, tile5. by destruct (_ <? _). Qed.

(** One position of the verifier's closure. *)
Lemma verify_fetch_spec proof rt step off t m : Ret rt = index (ups depth leaves) 0 -> 0 <= off ->
  index (tiles proof) (step - 1) = Ret t -> index (merkle proof) (step - 1) = Ret m ->
  exists r, verify_fetch n_tiles proof rt (step - 1) off tt = Ret r
    /\ ((t, path m) = shown5 off -> r = inr (fetched5 off, tt))
    /\ (forall o s, r = inr (o, s) -> full (tile_of off o) /\ (Forall is_hash (path m) -> ((t, path m) = shown5 off /\ o = fetched5 off) \/ digest_collision)).
Proof.
  intros Hrt Hoff Ht Hm. unfold verify_fetch. rewrite Ht, Hm. cbn [mbind res_bind]. unfold shown5, fetched5, tile_of.
  destruct (Z.ltb_spec off n_tiles) as [Hlt|Hge].
  - pose proof (weight_tile_full source Hchunks off ltac:(lia)) as Hf.
    destruct (Z.eqb_spec (zlen t) POM_V4_TILE_BYTES) as [Hlen|Hlen]; cbn [negb].
    2: { eexists. split; [done|]. split; [|by intros]. intros [= -> _]. exfalso. apply Hlen. unfold zlen. by rewrite Hf. }
    assert (Hft : full t) by (unfold full, zlen in *; change POM_V4_TILE_BYTES with 1024 in Hlen; lia).
    destruct (tile_root t Hft) as [x Hx]. rewrite Hx. cbn [mbind res_bind].
    destruct (verify_merkle x off (path m) rt) eqn:Hv; cbn [negb].
    2: { eexists. split; [done|]. split; [|by intros]. intros [= -> Hp].
         destruct (tile_verifies source Hchunks Hmany off ltac:(lia) rt Hrt) as (x' & Hx' & Hv'). congruence. }
    eexists. split; [done|]. split; [by intros [= -> _]|]. intros o s [= <- _]. split; [done|]. intros Hpm.
    destruct (tile_binds source Hchunks Hmany off ltac:(lia) t (path m) x rt) as [[-> ->]|]; auto.
  - destruct (Z.eqb_spec (zlen t) 0) as [H0|H0]; cbn [negb orb].
    2: { eexists. split; [done|]. split; [|by intros]. intros [= -> _]. by destruct H0. }
    destruct (Z.eqb_spec (zlen (path m)) 0) as [H1|H1]; cbn [negb].
    2: { eexists. split; [done|]. split; [|by intros]. intros [= _ Hp]. rewrite Hp in H1. by destruct H1. }
    eexists. split; [done|]. split; [done|]. intros o s [= <- _]. split; [apply pad_tile_full|]. intros _. left.
    destruct t; [|rewrite zlen_cons in H0; pose proof (zlen_nonneg t); lia]. destruct (path m) as [|h p]; [done|].
    rewrite zlen_cons in H1. pose proof (zlen_nonneg p). lia.
Qed.

Lemma verify_walk_spec n step proof state off rt : Ret rt = index (ups depth leaves) 0 ->
  zlen (tiles proof) = POM_V4_K -> zlen (merkle proof) = POM_V4_K -> Z.of_nat n + step = POM_V4_K + 1 -> 1 <= step ->
  full state -> 0 <= off ->
  let h := honest5 n step state off in
  let same := drop (Z.to_nat (step - 1)) (tiles proof) = shown_tiles h.1 /\ drop (Z.to_nat (step - 1)) (merkle proof) = shown_merkle h.1 in
  exists r, walk_loop n step seed n_tiles pad_tiles pad_seed pad_steps (verify_fetch n_tiles proof rt) state off tt = Ret r
    /\ (same -> r = inr (h.2, tt)) /\ (forall st, r = inr (st, tt) -> full st /\ (typed proof -> (same /\ st = h.2) \/ digest_collision)).
Proof.
  intros Hrt Htl Hml. revert step state off. induction n as [|n IH]; intros step state off Hn Hstep Hs Hoff; cbn [walk_loop]; rewrite ?honest_S.
  - eexists. split; [done|]. split; [done|]. intros st [= <-]. split; [done|]. intros _. left. split; [|done].
    rewrite !drop_ge by (unfold zlen, POM_V4_K in *; lia). done.
  - destruct (drop_nonempty (tiles proof) step n Hstep) as (t & ts & Ht); [unfold POM_V4_K in *; lia|].
    destruct (drop_nonempty (merkle proof) step n Hstep) as (m & ms & Hm); [unfold POM_V4_K in *; lia|].
    destruct (drop_cons_index _ step t ts Hstep Ht) as [Hit Hts]. destruct (drop_cons_index _ step m ms Hstep Hm) as [Him Hms].
    destruct (verify_fetch_spec proof rt step off t m Hrt Hoff Hit Him) as (r & -> & Hshow & Hback). cbn [mbind res_bind].
    unfold shown_tiles, shown_merkle. cbn [fst snd fmap list_fmap]. rewrite Ht, Hm.
    assert (Hsame : t :: ts = (shown5 off).1 :: shown_tiles (honest5 n (step + 1) (transition state (tile5 off) (wrap 32 step))
        (if step <? POM_V4_K then next5 step state (tile5 off) else off)).1
      /\ m :: ms = range_proof (shown5 off).2 :: shown_merkle (honest5 n (step + 1) (transition state (tile5 off) (wrap 32 step))
        (if step <? POM_V4_K then next5 step state (tile5 off) else off)).1 -> r = inr (fetched5 off, tt)).
    { intros [[= -> _] [= -> _]]. apply Hshow. by destruct (shown5 off). }
    destruct r as [e|[o s]].
    { eexists. split; [done|]. split; [|by intros]. intros Hs'. by specialize (Hsame Hs'). }
    destruct (Hback o s eq_refl) as [Hfull Hor]. change (match o with Some t => t | None => v5_pad_tile pad_seed (off - n_tiles) end) with (tile_of off o).
    destruct (next_tile5 step state (tile_of off o) off Hs Hfull Hoff) as [-> Hn']. cbn [mbind res_bind].
    rewrite v4_transition_Ret by done. cbn [mbind res_bind]. destruct s.
    destruct (IH (step + 1) (transition state (tile_of off o) (wrap 32 step)) _ ltac:(lia) ltac:(lia) (transition_full _ _ _) Hn') as (r & Hr & H1 & H2).
    exists r. split; [exact Hr|]. rewrite Hts, Hms in H1, H2. split.
    + intros Hs'. injection (Hsame Hs') as ->. rewrite tile_of_fetched in *. destruct Hs' as [[= _ Ha] [= _ Hb]]. by apply H1.
    + intros st Hst. destruct (H2 st Hst) as [Hfst Hin]. split; [done|]. intros Hty.
      destruct (Hor (typed_at proof _ m ms Hty Hm)) as [[Hsh ->]|]; [|by right]. rewrite tile_of_fetched in *.
      destruct (Hin Hty) as [[[Ha Hb] Hc]|]; [left|by right]. split; [|done]. rewrite <- Hsh. cbn [fst snd]. rewrite Ha, Hb. split; [done|].
      f_equal. by destruct m.
Qed.

Definition walk5 : list (list byte * list Hash) * list byte := honest5 (Z.to_nat POM_V4_K) 1 (v4_initial_state seed) (off4 seed).

Lemma walk_v5_run {A} (fetch : Z -> Z -> A -> fetched A) (s : A) : v5_pad_steps n_tiles pad_tiles = Ret pad_steps ->
  walk seed n_tiles pad_tiles pad_seed fetch s =
    (r ← walk_loop (Z.to_nat POM_V4_K) 1 seed n_tiles pad_tiles pad_seed pad_steps fetch (v4_initial_state seed) (off4 seed) s;
     match r with inl e => mret (inl e) | inr (state, s) => root ← v4_state_root state; mret (inr (fold64 root, s)) end).
Proof.
  intros Hps. destruct (v4_first seed) as (Hz & Hfirst & _). unfold walk. rewrite Hz, Hps. destruct (Z.eqb_spec pad_tiles 0); [lia|].
  cbn [mbind res_bind orb]. unfold v5_first_offset. by rewrite Hfirst.
Qed.

Lemma build_v5_verdict t w root : served source w -> v5_pad_steps n_tiles pad_tiles = Ret pad_steps -> v4_state_root walk5.2 = Ret root ->
  exists w', build_proof_v5 t seed w pad_seed pad_tiles = Ret (inr (extend {| tier := t; tiles := []; merkle := [] |} walk5.1, fold64 root, w')) /\ served source w'.
Proof.
  intros Hw Hps Hroot. destruct (v4_first seed) as (_ & _ & Hoff).
  assert (Hb : exists w', walk_loop (Z.to_nat POM_V4_K) 1 seed n_tiles pad_tiles pad_seed pad_steps (build_fetch n_tiles) (v4_initial_state seed) (off4 seed)
      ({| tier := t; tiles := []; merkle := [] |}, w)
    = Ret (inr (walk5.2, (extend {| tier := t; tiles := []; merkle := [] |} walk5.1, w'))) /\ served source w')
    by exact (build_walk_honest (Z.to_nat POM_V4_K) 1 (v4_initial_state seed) (off4 seed) _ w Hw (initial_state_full seed) (proj1 Hoff)).
  destruct Hb as (w' & Hb & Hw'). exists w'. split; [|exact Hw']. unfold build_proof_v5. rewrite (served_n w Hw). change POM_V4_TILE_CHUNKS with 32.
  rewrite walk_v5_run by exact Hps. rewrite Hb, bind_Ret. cbv beta iota. rewrite Hroot, bind_Ret. reflexivity.
Qed.

Lemma verify_v5_verdict w p root : served source w -> v5_pad_steps n_tiles pad_tiles = Ret pad_steps -> v4_state_root walk5.2 = Ret root ->
  exists r, verify_proof_v5 seed p (r_t w) (n_chunks w) pad_seed pad_tiles = Ret r
    /\ (tiles p = shown_tiles walk5.1 /\ merkle p = shown_merkle walk5.1 -> r = inr (fold64 root))
    /\ forall fs, r = inr fs -> typed p -> (tiles p = shown_tiles walk5.1 /\ merkle p = shown_merkle walk5.1 /\ fs = fold64 root) \/ digest_collision.
Proof.
  unfold walk5. intros Hw Hps Hroot. destruct (v4_first seed) as (_ & _ & Hoff). pose proof (length_honest next5 tile5 shown5 (Z.to_nat POM_V4_K) 1 (v4_initial_state seed) (off4 seed)) as Hlen.
  unfold verify_proof_v5. rewrite (served_n w Hw). change POM_V4_TILE_CHUNKS with 32.
  destruct (Z.eqb_spec (zlen (tiles p)) POM_V4_K) as [Ht|Ht]; cbn [negb orb].
  2: { eexists. split; [done|]. split; [|by intros]. intros [Ht' _]. exfalso. apply Ht. rewrite Ht'. unfold shown_tiles, zlen. by rewrite length_fmap, Hlen. }
  destruct (Z.eqb_spec (zlen (merkle p)) POM_V4_K) as [Hk|Hk]; cbn [negb].
  2: { eexists. split; [done|]. split; [|by intros]. intros [_ Hk']. exfalso. apply Hk. rewrite Hk'. unfold shown_merkle, zlen. by rewrite length_fmap, Hlen. }
  destruct (verify_walk_spec (Z.to_nat POM_V4_K) 1 p (v4_initial_state seed) (off4 seed) (r_t w) (served_root w Hw) Ht Hk ltac:(done) ltac:(done) (initial_state_full seed) ltac:(lia)) as (r & Hr & H1 & H2).
  change (Z.to_nat (1 - 1)) with 0%nat in H1, H2. rewrite !drop_0 in H1, H2. rewrite walk_v5_run, Hr by done. cbn [mbind res_bind].
  match type of Hroot with v4_state_root (?x.2) = _ => set (h := x) in * end. clearbody h.
  destruct r as [e|[st []]]; [eexists; split; [done|]; split; [|by intros]; intros Hsame; by specialize (H1 Hsame)|].
  destruct (H2 st eq_refl) as [Hfst Hin]. destruct (state_root_Ret st Hfst) as [root' Hroot']. rewrite Hroot'. cbn [mbind res_bind]. eexists. split; [done|]. split.
  - intros Hsame. injection (H1 Hsame) as ->. congruence.
  - intros fs [= <-] Hty. destruct (Hin Hty) as [[[Ha Hb] ->]|]; [left|by right]. split; [done|]. split; [done|]. congruence.
Qed.
End WalkV5.
End Model.

(** ** The pad generator *)

Section Pad.

Lemma bits_fits z : 0 <= z -> (forall i, 64 <= i -> Z.testbit z i = false) -> fits 64 z.
Proof.
  intros Hz Hb. assert (z mod 2 ^ 64 = z) as <-; [|by apply wrap_fits].
  apply Z.bits_inj'. intros i Hi. destruct (decide (i < 64)).
  - by rewrite Z.mod_pow2_bits_low by lia.
  - rewrite Z.mod_pow2_bits_high by lia. symmetry. apply Hb. lia.
Qed.

Lemma fits_bits z i : fits 64 z -> 64 <= i -> Z.testbit z i = false.
Proof. intros Hz Hi. rewrite <- (wrap_id 64 z Hz). unfold wrap. by rewrite Z.mod_pow2_bits_high by lia. Qed.

Lemma rotate_bit x r i : 0 < r < 64 -> fits 64 x -> 0 <= i < 64 ->
  Z.testbit (rotate_left 64 x r) (if i + r <? 64 then i + r else i + r - 64) = Z.testbit x i.
Proof.
  intros Hr Hx Hi. unfold rotate_left, wrap. rewrite Z.lor_spec. destruct (Z.ltb_spec (i + r) 64).
  - rewrite Z.mod_pow2_bits_low, Z.shiftl_spec, Z.shiftr_spec by lia. rewrite (fits_bits x (i + r + (64 - r))) by (done || lia).
    rewrite orb_false_r. f_equal. lia.
  - rewrite Z.mod_pow2_bits_low, Z.shiftl_spec_low, Z.shiftr_spec by lia. cbn. f_equal. lia.
Qed.

Lemma rotate_fits x r : 0 < r < 64 -> fits 64 x -> fits 64 (rotate_left 64 x r).
Proof.
  intros Hr Hx. unfold rotate_left. apply bits_fits.
  - apply Z.lor_nonneg. split; [apply wrap_fits; lia|]. apply Z.shiftr_nonneg. apply Hx.
  - intros i Hi. unfold wrap. rewrite Z.lor_spec, Z.mod_pow2_bits_high, Z.shiftr_spec by lia. cbn. apply fits_bits; [done|lia].
Qed.

Lemma rotate_inj x y r : 0 < r < 64 -> fits 64 x -> fits 64 y -> rotate_left 64 x r = rotate_left 64 y r -> x = y.
Proof.
  intros Hr Hx Hy He. apply Z.bits_inj'. intros i Hi. destruct (decide (i < 64)).
  - by rewrite <- (rotate_bit x r i), <- (rotate_bit y r i), He by (done || lia).
  - by rewrite !fits_bits by (done || lia).
Qed.

Lemma wrap_add_inj a b c : fits 64 a -> fits 64 b -> wrap 64 (a + c) = wrap 64 (b + c) -> a = b.
Proof. unfold fits, wrap. intros. dlia. Qed.

Lemma lxor_inj a b c : Z.lxor a c = Z.lxor b c -> a = b.
Proof. intros H. apply lxor_move in H. by rewrite Z.lxor_assoc, Z.lxor_nilpotent, Z.lxor_0_r in H. Qed.

(** Half a round, with its two rotations. *)
Definition half (r1 r2 : Z) (q : quad) : quad :=
  let '(a, b, c, d) := q in
  let a := wrap 64 (a + b) in let d := rotate_left 64 (Z.lxor d a) r1 in
  let c := wrap 64 (c + d) in let b := rotate_left 64 (Z.lxor b c) r2 in
  (a, b, c, d).
Lemma round4_halves q : round4 q = half 16 63 (half 32 24 q).
Proof. by destruct q as [[[a b] c] d]. Qed.

Definition quad_fits (q : quad) : Prop := let '(a, b, c, d) := q in fits 64 a /\ fits 64 b /\ fits 64 c /\ fits 64 d.

Lemma half_fits r1 r2 q : 0 < r1 < 64 -> 0 < r2 < 64 -> quad_fits q -> quad_fits (half r1 r2 q).
Proof.
  destruct q as [[[a b] c] d]. intros H1 H2 (Ha & Hb & Hc & Hd). cbn.
  split_and!; repeat first [apply wrap_fits; lia | apply rotate_fits; [done|] | apply lxor_fits; [lia|done|]].
Qed.

Lemma half_inj r1 r2 p q : 0 < r1 < 64 -> 0 < r2 < 64 -> quad_fits p -> quad_fits q -> half r1 r2 p = half r1 r2 q -> p = q.
Proof.
  destruct p as [[[a b] c] d], q as [[[a' b'] c'] d']. intros H1 H2 (Ha & Hb & Hc & Hd) (Ha' & Hb' & Hc' & Hd'). unfold half. cbv zeta.
  intros E. apply pair_equal_spec in E as [E Ed]. apply pair_equal_spec in E as [E Ec]. apply pair_equal_spec in E as [Ea Eb].
  rewrite Ec in Eb. apply rotate_inj, lxor_inj in Eb as ->; [|done|apply lxor_fits; [lia|done|apply wrap_fits; lia]..].
  rewrite Ed in Ec. apply wrap_add_inj in Ec as ->; [|done..]. rewrite Ea in Ed.
  apply rotate_inj, lxor_inj in Ed as ->; [|done|apply lxor_fits; [lia|done|apply wrap_fits; lia]..].
  by apply wrap_add_inj in Ea as ->.
Qed.

Lemma rounds_fits n q : quad_fits q -> quad_fits (Nat.iter n round4 q).
Proof. intros Hq. induction n as [|n IH]; [done|]. rewrite ?Nat.iter_succ. rewrite round4_halves. by apply half_fits, half_fits. Qed.

Lemma rounds_inj n p q : quad_fits p -> quad_fits q -> Nat.iter n round4 p = Nat.iter n round4 q -> p = q.
Proof.
  intros Hp Hq. induction n as [|n IH]; [done|]. rewrite ?Nat.iter_succ. rewrite !round4_halves. intros E. apply IH.
  pose proof (rounds_fits n p Hp). pose proof (rounds_fits n q Hq).
  apply half_inj in E; [apply half_inj in E; [done|lia|lia|done|done]|lia|lia|by apply half_fits|by apply half_fits].
Qed.

Lemma seed_words_fits s : quad_fits (v5_pad_seed_words s).
Proof. unfold v5_pad_seed_words, quad_fits. cbv zeta. split_and!; (apply lxor_fits; [lia|apply word_fits|evaluate]). Qed.

Lemma words_bytes_inj (p q : quad) : quad_fits p -> quad_fits q ->
  (let '(a, b, c, d) := p in to_le 8 a ++ to_le 8 b ++ to_le 8 c ++ to_le 8 d) = (let '(a, b, c, d) := q in to_le 8 a ++ to_le 8 b ++ to_le 8 c ++ to_le 8 d) -> p = q.
Proof.
  destruct p as [[[a b] c] d], q as [[[a' b'] c'] d']. intros (Ha & Hb & Hc & Hd) (Ha' & Hb' & Hc' & Hd') E.
  assert (Hle : forall x y, fits 64 x -> fits 64 y -> to_le 8 x = to_le 8 y -> x = y).
  { intros x y Hx Hy H. by rewrite <- (from_to_le 8 x), <- (from_to_le 8 y), H. }
  apply app_inj_1 in E as [Ea E]; [|by rewrite !length_to_le]. apply app_inj_1 in E as [Eb E]; [|by rewrite !length_to_le].
  apply app_inj_1 in E as [Ec Ed]; [|by rewrite !length_to_le]. repeat f_equal; by apply Hle.
Qed.

Lemma pad_entry_inj words i j : quad_fits words -> fits 64 i -> fits 64 j -> pad_entry words i = pad_entry words j -> i = j.
Proof.
  destruct words as [[[a b] c] d]. intros (Ha & Hb & Hc & Hd) Hi Hj. unfold pad_entry. generalize (Z.to_nat POM_V5_P_ROUNDS) as n. intros n E.
  assert (Hf : forall k, fits 64 k -> quad_fits (a, Z.lxor b k, c, d)) by (intros k Hk; unfold quad_fits; split_and!; [done|by apply lxor_fits|done|done]).
  apply words_bytes_inj, rounds_inj in E; try (apply rounds_fits); try (by apply Hf). injection E as E.
  rewrite !(Z.lxor_comm b) in E. by apply lxor_inj in E.
Qed.
End Pad.

(** ** The pad schedule *)

Section Schedule.
Context (ps : Z) (Hps : 1 <= ps <= 255).

Lemma is_pad_step_div s : 1 <= s <= 256 -> v5_is_pad_step s ps = negb (s * ps / 256 =? (s - 1) * ps / 256).
Proof.
  intros Hs. unfold v5_is_pad_step. change POM_V4_K with 256. rewrite (wrap_id 64 (s * ps)), (wrap_id 64 (s - 1)) by (unfold fits; nia).
  by rewrite (wrap_id 64 ((s - 1) * ps)) by (unfold fits; nia).
Qed.

Lemma pad_count a n : 0 <= a -> a + Z.of_nat n <= 256 ->
  zlen (filter (fun s => v5_is_pad_step s ps = true) (seqZ (a + 1) (Z.of_nat n))) = (a + Z.of_nat n) * ps / 256 - a * ps / 256.
Proof.
  revert a. induction n as [|n IH]; intros a Ha Hn; [change (Z.of_nat 0) with 0; rewrite Z.add_0_r, Z.sub_diag; done|].
  rewrite seqZ_cons by lia. replace (Z.pred (Z.of_nat (S n))) with (Z.of_nat n) by lia. replace (Z.succ (a + 1)) with (a + 1 + 1) by lia.
  specialize (IH (a + 1) ltac:(lia) ltac:(lia)). replace (a + 1 + Z.of_nat n) with (a + Z.of_nat (S n)) in IH by lia.
  assert (Hstep : (a + 1) * ps / 256 - a * ps / 256 = if v5_is_pad_step (a + 1) ps then 1 else 0).
  { rewrite is_pad_step_div by lia. replace (a + 1 - 1) with a by lia. destruct (Z.eqb_spec ((a + 1) * ps / 256) (a * ps / 256)); cbn [negb]; [lia|].
    replace ((a + 1) * ps) with (a * ps + ps) in * by lia. set (x := a * ps) in *. clearbody x. dlia. }
  destruct (v5_is_pad_step (a + 1) ps) eqn:E; [rewrite filter_cons_True by done; rewrite zlen_cons|rewrite filter_cons_False by (by rewrite E)]; lia.
Qed.
End Schedule.

Lemma pad_steps_Ret weight_tiles pad_tiles : 0 < weight_tiles -> 0 < pad_tiles -> weight_tiles + pad_tiles < 2 ^ 55 ->
  exists ps, v5_pad_steps weight_tiles pad_tiles = Ret ps /\ 1 <= ps <= 255
    /\ (1 < ps < 255 -> 2 * Z.abs (ps * (weight_tiles + pad_tiles) - 256 * pad_tiles) <= weight_tiles + pad_tiles).
Proof.
  intros Hw Hp Hs. unfold v5_pad_steps. change POM_V4_K with 256. set (n := weight_tiles + pad_tiles) in *.
  rewrite (wrap_id 64 n), (wrap_id 64 (256 * pad_tiles)) by (unfold fits; lia).
  assert (Hh : 0 <= n / 2 /\ 2 * (n / 2) <= n < 2 * (n / 2) + 2) by dlia. rewrite (wrap_id 64 (256 * pad_tiles + n / 2)) by (unfold fits; lia).
  destruct (Z.eqb_spec n 0); [lia|]. eexists. split; [done|]. split; [lia|].
  pose proof (Z.div_mod (256 * pad_tiles + n / 2) n ltac:(lia)). pose proof (Z.mod_pos_bound (256 * pad_tiles + n / 2) n ltac:(lia)).
  set (q := (256 * pad_tiles + n / 2) / n) in *. intros Hq. assert (Z.max 1 (Z.min (256 - 1) q) = q) as -> by lia. nia.
Qed.

Section WalkTheorems.
Context `{B3 : Blake3} {BL : Blake3Lengths} {MC : MemoConfig}.



(** C31: The fixed-size reducers are the generic tree.  The in-place passes over 32 nodes that hash a
    tile and a state return the root the generic [merkle_root] gives over the digests of their rows. *)
Theorem reducers_are_merkle_root (b : list byte) : length b = 1024%nat ->
  v4_tile_subtree_root b = merkle_root (blake3_hash <$> chunks 32 b) /\ v4_state_root b = merkle_root (blake3_hash <$> chunks 32 b).
Proof.
  intros Hb. rewrite v4_tile_subtree_root_ups, v4_state_root_ups by done. pose proof (length_tile_leaves b Hb) as Hl.
  rewrite merkle_root_ups by (unfold zlen; lia). unfold zlen. by rewrite Hl.
Qed.
End WalkTheorems.

(** C32: The accumulator never overflows.  On two rows of 32 bytes the wrapping [i32] loop returns the
    exact signed dot product, which is at most 2^19 in magnitude. *)
Theorem dot_i8_exact (row col : list byte) : length row = 32%nat -> length col = 32%nat ->
  dot_i8_scalar row col = Ret (dot row col) /\ Z.abs (dot row col) <= 2 ^ 19.
Proof.
  intros Hr Hc. split; [by apply dot_i8_Ret|]. pose proof (dot_bound row col) as H. unfold zlen in H. rewrite Hr in H. lia.
Qed.


(** No two pad entries coincide.  The 1920 rounds permute the four words, so under one pad seed
    different indices have different entries. *)
Theorem pad_entries_distinct (pad_seed : list byte) (i j : Z) : fits 64 i -> fits 64 j ->
  v5_pad_entry pad_seed i = v5_pad_entry pad_seed j -> i = j.
Proof. apply pad_entry_inj, seed_words_fits. Qed.

Section Witnesses.
Import Toy.

#[local] Instance toy_switches : MemoConfig := {| memo_enabled := false; sibling_memo_max_nodes := 0 |}.

Lemma toy_served : exists w, served (toy_source 70) w.
Proof. destruct (build_tree_large (toy_source 70)) as (w & Hb & _); [evaluate|evaluate|]. exists w. by apply served_built. Qed.



Lemma reducers_are_merkle_root_witness : v4_tile_subtree_root (replicate 1024 (byte_of_u8 5)) = v4_state_root (replicate 1024 (byte_of_u8 5)).
Proof. destruct (reducers_are_merkle_root (replicate 1024 (byte_of_u8 5)) eq_refl) as [-> ->]. reflexivity. Defined.

(** Thirty-two products of -128 with itself. *)
Lemma dot_i8_exact_witness : dot_i8_scalar (replicate 32 (byte_of_u8 128)) (replicate 32 (byte_of_u8 128)) = Ret (2 ^ 19).
Proof. destruct (dot_i8_exact (replicate 32 (byte_of_u8 128)) (replicate 32 (byte_of_u8 128)) eq_refl eq_refl) as [-> _]. vm_compute. reflexivity. Defined.

Example pad_steps_tier0 : v5_pad_steps 1000000 434176 = Ret 78.
Proof. vm_compute. reflexivity. Qed.

Lemma pad_entries_distinct_witness : v5_pad_entry (replicate 32 (byte_of_u8 7)) 5 <> v5_pad_entry (replicate 32 (byte_of_u8 7)) 6.
Proof. intros H. discriminate (pad_entries_distinct (replicate 32 (byte_of_u8 7)) 5 6 ltac:(evaluate) ltac:(evaluate) H). Defined.
End Witnesses.
