(* ===== verification/Quant.v ===== *)
(** * Quantised rows and their dot product ([verifiable-inference/src/quant.rs], [q8.rs], [dot.rs])

    The block formats of weight rows and activation rows, and the recomputation of
    one output element of a matrix product.  Every index and slice of the source
    panics out of range here too, and a [Vec] panics when its capacity passes
    [isize::MAX] bytes; the theorems show which inputs are decoded, to how many
    values, and that none of them panics. *)
From S2P Require Import Prelude Float Magnitude.
#[local] Open Scope Z_scope.

(** [Vec::with_capacity(n)] of elements of [size] bytes. *)
Definition with_capacity (n size : Z) : res unit := if n * size <? 2 ^ 63 then Ret () else Panic.

(** ** Weight rows *)

Definition Q4_0 : Z := 2.
Definition Q5_0 : Z := 6.
Definition Q8_0 : Z := 8.
Definition Q4_K : Z := 12.
Definition Q5_K : Z := 13.
Definition Q6_K : Z := 14.

(** (bytes per block, values per block) *)
Definition block_size (wtype : Z) : option (Z * Z) :=
  if wtype =? Q4_0 then Some (18, 32)
  else if wtype =? Q5_0 then Some (22, 32)
  else if wtype =? Q8_0 then Some (34, 32)
  else if wtype =? Q4_K then Some (144, 256)
  else if wtype =? Q5_K then Some (176, 256)
  else if wtype =? Q6_K then Some (210, 256)
  else None.

Definition row_bytes (wtype k : Z) : option Z :=
  '(bb, bv) ← block_size wtype; Some (wrap 64 (k / bv * bb)).

(** [l[i]] of bytes, as the [u8] it holds. *)
Definition u8_at (l : list byte) (i : Z) : res Z := b ← index l i; Ret (u8_of_byte b).
(** [l[i] as i8] *)
Definition i8_at (l : list byte) (i : Z) : res Z := b ← index l i; Ret (as_i8 b).

(** 6-bit scale and min of sub-block [j] of a Q4_K or Q5_K block. *)
Definition scale_min_k4 (j : Z) (q : list byte) : res (Z * Z) :=
  if j <? 4 then
    a ← u8_at q j; b ← u8_at q (j + 4); Ret (Z.land a 63, Z.land b 63)
  else
    a ← u8_at q (j + 4); b ← u8_at q (j - 4); c ← u8_at q j;
    Ret (Z.lor (Z.land a 0xf) (Z.shiftl (Z.shiftr b 6) 4), Z.lor (Z.shiftr a 4) (Z.shiftl (Z.shiftr c 6) 4)).

(** [f] over [lo..hi] *)
Abbreviation for_range lo hi f := (mapM (M:=res) f (seqZ lo (hi - lo))).

Definition q8_0_block (blk : list byte) : res (list f32) :=
  d ← f16_read blk 0;
  for_range 0 32 (fun j => q ← i8_at blk (2 + j); Ret (f32_mul (f32_of_Z q) d)).

Definition q4_0_block (blk : list byte) : res (list f32) :=
  d ← f16_read blk 0;
  lo ← for_range 0 16 (fun j => q ← u8_at blk (2 + j); Ret (f32_mul (f32_of_Z (Z.land q 0xf - 8)) d));
  hi ← for_range 0 16 (fun j => q ← u8_at blk (2 + j); Ret (f32_mul (f32_of_Z (Z.shiftr q 4 - 8)) d));
  Ret (lo ++ hi).

Definition q5_0_block (blk : list byte) : res (list f32) :=
  d ← f16_read blk 0;
  qh ← index_range blk 2 6;
  let qh := from_le qh in
  lo ← for_range 0 16 (fun j => q ← u8_at blk (6 + j);
    let xh0 := Z.land (wrap 32 (Z.shiftl (Z.shiftr qh j) 4)) 0x10 in
    Ret (f32_mul (f32_of_Z (Z.lor (Z.land q 0xf) xh0 - 16)) d));
  hi ← for_range 0 16 (fun j => q ← u8_at blk (6 + j);
    let xh1 := Z.land (Z.shiftr qh (j + 12)) 0x10 in
    Ret (f32_mul (f32_of_Z (Z.lor (Z.shiftr q 4) xh1 - 16)) d));
  Ret (lo ++ hi).

(** [d1 * q - mm1] over one half of a group of 64 values. *)
Definition k_half (d dmin : f32) (sc : list byte) (j : Z) (q : Z -> res Z) : res (list f32) :=
  '(s, m) ← scale_min_k4 j sc;
  let d1 := f32_mul d (f32_of_Z s) in
  let mm := f32_mul dmin (f32_of_Z m) in
  for_range 0 32 (fun l => v ← q l; Ret (f32_sub (f32_mul d1 (f32_of_Z v)) mm)).

Definition q4_k_block (blk : list byte) : res (list f32) :=
  d ← f16_read blk 0; dmin ← f16_read blk 2;
  sc ← index_range blk 4 16; qs ← index_range blk 16 144;
  groups ← for_range 0 4 (fun g =>
    q ← index_range qs (32 * g) (32 * g + 32);
    lo ← k_half d dmin sc (2 * g) (fun l => v ← u8_at q l; Ret (Z.land v 0xf));
    hi ← k_half d dmin sc (2 * g + 1) (fun l => v ← u8_at q l; Ret (Z.shiftr v 4));
    Ret (lo ++ hi));
  Ret (concat groups).

(** The fifth bit of a value: 16 when bit [u] of [qh] is set. *)
Definition high_bit (qh u : Z) : Z := if negb (Z.land qh u =? 0) then 16 else 0.

Definition q5_k_block (blk : list byte) : res (list f32) :=
  d ← f16_read blk 0; dmin ← f16_read blk 2;
  sc ← index_range blk 4 16; qh ← index_range blk 16 48; qs ← index_range blk 48 176;
  groups ← for_range 0 4 (fun g =>
    let u1 := wrap 8 (Z.shiftl 1 (2 * g)) in let u2 := wrap 8 (Z.shiftl 2 (2 * g)) in
    q ← index_range qs (32 * g) (32 * g + 32);
    lo ← k_half d dmin sc (2 * g) (fun l => v ← u8_at q l; h ← u8_at qh l; Ret (Z.land v 0xf + high_bit h u1));
    hi ← k_half d dmin sc (2 * g + 1) (fun l => v ← u8_at q l; h ← u8_at qh l; Ret (Z.shiftr v 4 + high_bit h u2));
    Ret (lo ++ hi));
  Ret (concat groups).

(** One run of 32 values of a Q6_K half block: [low] and [high] pick four and two bits. *)
Definition q6_run (d : f32) (sc ql qh : list byte) (is_off ql_off : Z) (low high : Z -> Z) : res (list f32) :=
  for_range 0 32 (fun l =>
    let si := l / 16 in
    a ← u8_at ql (l + ql_off); b ← u8_at qh l; s ← i8_at sc (si + is_off);
    let q := Z.lor (low a) (Z.shiftl (high b) 4) - 32 in
    Ret (f32_mul (f32_mul d (f32_of_Z s)) (f32_of_Z q))).

Definition q6_k_block (blk : list byte) : res (list f32) :=
  ql ← index_range blk 0 128; qh ← index_range blk 128 192; sc ← index_range blk 192 208;
  d ← f16_read blk 208;
  halves ← for_range 0 2 (fun h =>
    ql ← index_range ql (64 * h) (zlen ql); qh ← index_range qh (32 * h) (zlen qh); sc ← index_range sc (8 * h) (zlen sc);
    r1 ← q6_run d sc ql qh 0 0 (fun a => Z.land a 0xf) (fun b => Z.land b 3);
    r2 ← q6_run d sc ql qh 2 32 (fun a => Z.land a 0xf) (fun b => Z.land (Z.shiftr b 2) 3);
    r3 ← q6_run d sc ql qh 4 0 (fun a => Z.shiftr a 4) (fun b => Z.land (Z.shiftr b 4) 3);
    r4 ← q6_run d sc ql qh 6 32 (fun a => Z.shiftr a 4) (fun b => Z.land (Z.shiftr b 6) 3);
    Ret (r1 ++ r2 ++ r3 ++ r4));
  Ret (concat halves).

(** The arms of the [match wtype] in [dequant_row]; no other type has a block size. *)
Definition dequant_block (wtype : Z) (blk : list byte) : res (list f32) :=
  if wtype =? Q8_0 then q8_0_block blk
  else if wtype =? Q4_0 then q4_0_block blk
  else if wtype =? Q5_0 then q5_0_block blk
  else if wtype =? Q4_K then q4_k_block blk
  else if wtype =? Q5_K then q5_k_block blk
  else q6_k_block blk.

(** Dequantize one weight row of [k] values. *)
Definition dequant_row (wtype : Z) (row : list byte) (k : Z) : res (option (list f32)) :=
  match block_size wtype with
  | None => Ret None
  | Some (bb, bv) =>
    if (zlen row <? wrap 64 (k / bv * bb)) || negb (k mod bv =? 0) then Ret None else
    _ ← with_capacity k 4;
    out ← for_range 0 (k / bv) (fun b => blk ← index_range row (b * bb) ((b + 1) * bb); dequant_block wtype blk);
    Ret (Some (concat out))
  end.

(** One 32-value sub-block of [k_tile_form]: its effective weights and its rounded minimum. *)
Definition tile_sub_block (wtype : Z) (blk sc : list byte) (d dmin : f32) (sb : Z) : res (list f32 * f32) :=
  '(s, m) ← scale_min_k4 sb sc;
  let a_h := f16_round (f32_mul d (f16_round (f32_of_Z s))) in
  let b_h := f16_round (f32_mul dmin (f16_round (f32_of_Z m))) in
  let g := sb / 2 in
  w ← for_range 0 32 (fun l =>
    q ← (if wtype =? Q4_K then
           v ← u8_at blk (16 + 32 * g + l);
           Ret (if sb mod 2 =? 0 then Z.land v 0xf else Z.shiftr v 4)
         else
           v ← u8_at blk (48 + 32 * g + l); h ← u8_at blk (16 + l);
           let '(lo, bit) := if sb mod 2 =? 0 then (Z.land v 0xf, wrap 8 (Z.shiftl 1 (2 * g)))
                             else (Z.shiftr v 4, wrap 8 (Z.shiftl 2 (2 * g))) in
           Ret (lo + high_bit h bit));
    Ret (if SFeqb a_h (S754_zero false) then S754_zero false else f32_mul a_h (f32_of_Z q)));
  Ret (w, b_h).

(** [v] written over the start of [vec![0f32; n]]. *)
Definition over_zeros (n : Z) (v : list f32) : list f32 := v ++ replicate (Z.to_nat (n - zlen v)) (S754_zero false).

(** Q4_K or Q5_K row in tiled form. *)
Definition k_tile_form (wtype : Z) (row : list byte) (k : Z) : res (option (list f32 * list f32)) :=
  if negb (wtype =? Q4_K) && negb (wtype =? Q5_K) then Ret None else
  match block_size wtype with
  | None => Ret None
  | Some (bb, _) =>
    _ ← with_capacity k 4;
    tiles ← for_range 0 (k / 256) (fun b =>
      blk ← index_range row (b * bb) ((b + 1) * bb);
      d ← f16_read blk 0; dmin ← f16_read blk 2; sc ← index_range blk 4 16;
      for_range 0 8 (tile_sub_block wtype blk sc d dmin));
    let subs := concat tiles in
    Ret (Some (over_zeros k (concat subs.*1), over_zeros (k / 32) subs.*2))
  end.

(** Block scales and offset of a Q4_0 or Q5_0 row. *)
Definition offset_block_scales (wtype : Z) (row : list byte) (k : Z) : res (option (list f32 * f64)) :=
  let scales bb off := s ← for_range 0 (k / 32) (fun b => f16_read row (b * bb)); Ret (Some (s, off)) in
  if wtype =? Q4_0 then scales 18 (f64_of_Z 8)
  else if wtype =? Q5_0 then scales 22 (f64_of_Z 16)
  else Ret None.

(** ** Activation rows *)

Definition MMVQ : Z := 0.
Definition MMQ_D4 : Z := 1.
Definition MMQ_DS4 : Z := 2.
Definition MMQ_D2S6 : Z := 3.

Definition is_mmq (layout : Z) : bool := (layout =? MMQ_D4) || (layout =? MMQ_DS4) || (layout =? MMQ_D2S6).

(** [leaf.chunks_exact(n).take(c)] *)
Definition leaf_blocks (leaf : list byte) (n c : Z) : list (list byte) := take (Z.to_nat c) (chunks_exact (Z.to_nat n) leaf).

(** The scale of sub-block [sb] of a 144-byte block. *)
Definition mmq_scale (layout : Z) (blk : list byte) (sb : Z) : res f32 :=
  if layout =? MMQ_D4 then b ← index_range blk (4 * sb) (4 * sb + 4); Ret (f32_from_le b)
  else if layout =? MMQ_DS4 then f16_read blk (4 * sb)
  else f16_read blk (2 * (sb / 2)).

(** The 32 signed values from offset [o] on. *)
Definition quants (blk : list byte) (o : Z) : res (list Z) := for_range 0 32 (fun j => i8_at blk (o + j)).

(** Scale and quantized values of each 32-value block of a row. *)
Definition blocks (leaf : list byte) (layout k : Z) : res (option (list (f32 * list Z))) :=
  let n := div_ceil k 32 in
  _ ← with_capacity n 36;
  if layout =? MMVQ then
    if zlen leaf <? wrap 64 (n * 36) then Ret None else
    out ← mapM (M:=res) (fun blk => d ← f16_read blk 0; q ← quants blk 4; Ret (d, q)) (leaf_blocks leaf 36 n);
    Ret (Some (take (Z.to_nat n) out))
  else if is_mmq layout then
    if zlen leaf <? wrap 64 (div_ceil k 128 * 144) then Ret None else
    out ← mapM (M:=res) (fun blk => for_range 0 4 (fun sb =>
        d ← mmq_scale layout blk sb; q ← quants blk (16 + 32 * sb); Ret (d, q)))
      (leaf_blocks leaf 144 (div_ceil k 128));
    Ret (Some (take (Z.to_nat n) (concat out)))
  else Ret None.

(** [q as f32 * d] *)
Definition scaled (d : f32) (q : list Z) : list f32 := (fun v => f32_mul (f32_of_Z v) d) <$> q.

(** Values and stored partial sums of a row. *)
Definition decode (leaf : list byte) (layout k : Z) : res (option (list f32 * option (list f32))) :=
  _ ← with_capacity k 4;
  if layout =? MMVQ then
    if zlen leaf <? wrap 64 (div_ceil k 32 * 36) then Ret None else
    out ← mapM (M:=res) (fun blk => d ← f16_read blk 0; s ← f16_read blk 2; q ← quants blk 4; Ret (s, scaled d q))
      (leaf_blocks leaf 36 (div_ceil k 32));
    Ret (Some (take (Z.to_nat k) (concat out.*2), Some (take (Z.to_nat (k / 32)) out.*1)))
  else if is_mmq layout then
    if zlen leaf <? wrap 64 (div_ceil k 128 * 144) then Ret None else
    out ← mapM (M:=res) (fun blk => for_range 0 4 (fun sb =>
        s ← (if layout =? MMQ_DS4 then f16_read blk (4 * sb + 2) else Ret (S754_zero false));
        d ← mmq_scale layout blk sb; q ← quants blk (16 + 32 * sb); Ret (s, scaled d q)))
      (leaf_blocks leaf 144 (div_ceil k 128));
    let out := concat out in
    Ret (Some (take (Z.to_nat k) (concat out.*2),
               if layout =? MMQ_DS4 then Some (take (Z.to_nat (k / 32)) out.*1) else None))
  else Ret None.

(** Whether a block is one the quantizer writes. *)
Definition canonical (d : f32) (q : list Z) : bool :=
  (SFeqb d (S754_zero false) && forallb (Z.eqb 0) q)
  || (SFltb (S754_zero false) d && existsb (fun v => Z.abs v =? 127) q).

Definition SUM_SLACK : f64 := f64_of_Z 24.

(** Whether every stored partial sum of a row agrees with the values of its block. *)
Definition sums_consistent (leaf : list byte) (layout k : Z) : res bool :=
  dec ← decode leaf layout k; blks ← blocks leaf layout k;
  match dec, blks with
  | Some (_, None), Some _ => Ret true
  | Some (_, Some sums), Some blocks =>
    Ret (forallb (fun '(s, (d, q)) =>
      let sq := f64_mul (f64_sum (f64_of_Z <$> q)) (f64_of_f32 d) in
      SFleb (SFabs (f64_sub (f64_of_f32 s) sq))
            (f64_add (f64_mul SUM_SLACK (f64_of_f32 (SFabs d))) (f64_div (SFabs (f64_of_f32 s)) (f64_of_Z 1024))))
      (zip sums blocks))
  | _, _ => Ret false
  end.

(** ** One output element *)

Record Recomputed := { y_hat : f64; scale : f64 }.

(** [a.iter().zip(b).map(|(&a, &b)| f(a as f64 * b as f64)).sum()] *)
Definition dot_with (f : f64 -> f64) (a b : list f32) : f64 :=
  f64_sum (zip_with (fun x y => f (f64_mul (f64_of_f32 x) (f64_of_f32 y))) a b).

(** Output element of weight row [row] applied to activation row [x_leaf]. *)
Definition canonical_dot (wtype : Z) (row : list byte) (k : Z) (x_leaf : list byte) (layout : Z) : res (option Recomputed) :=
  w ← dequant_row wtype row k;
  match w with None => Ret None | Some w =>
  dec ← decode x_leaf layout k;
  match dec with None => Ret None | Some (x, s) =>
  let scale := dot_with SFabs w x in
  if (layout =? MMQ_DS4) && ((wtype =? Q4_K) || (wtype =? Q5_K)) then
    tile ← k_tile_form wtype row k;
    match tile, s with
    | Some (w_eff, b_h), Some s =>
      Ret (Some {| y_hat := f64_sub (dot_with id w_eff x) (dot_with id s b_h); scale := scale |})
    | _, _ => Ret None
    end
  else
    let y_hat := dot_with id w x in
    off ← (if layout =? MMVQ then offset_block_scales wtype row k else Ret None);
    match off, s with
    | None, _ => Ret (Some {| y_hat := y_hat; scale := scale |})
    | Some _, None => Ret None
    | Some (dw, off), Some s =>
      terms ← for_range 0 (k / 32) (fun b =>
        xs ← index_range x (32 * b) (32 * b + 32); db ← index dw b; sb ← index s b;
        Ret (f64_mul (f64_mul off (f64_of_f32 db)) (f64_sub (f64_sum (f64_of_f32 <$> xs)) (f64_of_f32 sb))));
      Ret (Some {| y_hat := foldl f64_add y_hat terms; scale := scale |})
    end
  end
  end.

Definition accept (y : f32) (r : Recomputed) (eps : f64) : bool :=
  SFleb (SFabs (f64_sub (f64_of_f32 y) (y_hat r))) (f64_mul eps (scale r)).

(** ** Decoding never panics *)

(** A call whose list has [n] elements. *)
Abbreviation gives n m := (returns (fun v => zlen v = n) m).
Abbreviation ok m := (returns (fun _ => True) m).

Lemma zlen_concat_const {A} n (ll : list (list A)) : Forall (fun l => zlen l = n) ll -> zlen (concat ll) = zlen ll * n.
Proof. induction 1 as [|l ll Hl _ IH]; [done|]. cbn [concat]. rewrite zlen_app, zlen_cons, IH, Hl. lia. Qed.

Section Totality.

Lemma u8_at_ok l i : 0 <= i < zlen l -> returns (fun z => 0 <= z < 256) (u8_at l i).
Proof. intros Hi. eapply returns_bind; [by apply returns_index|]. intros b _. apply returns_ret, u8_of_byte_range. Qed.
Lemma i8_at_ok l i : 0 <= i < zlen l -> ok (i8_at l i).
Proof. intros Hi. eapply returns_bind; [by apply returns_index|]. intros b _. by apply returns_ret. Qed.
Lemma f16_read_ok b o : 0 <= o -> o + 2 <= zlen b -> ok (f16_read b o).
Proof.
  intros. eapply returns_bind; [apply returns_index; lia|]. intros ? _.
  eapply returns_bind; [apply returns_index; lia|]. intros ? _. by apply returns_ret.
Qed.
Lemma f16_read_single b o : 0 <= o -> o + 2 <= zlen b -> returns single (f16_read b o).
Proof.
  intros. eapply returns_bind; [apply returns_index; lia|]. intros lo _. eapply returns_bind; [apply returns_index; lia|]. intros hi _.
  apply returns_ret. pose proof (from_le_fits [lo; hi]) as Hf. change (8 * zlen [lo; hi]) with 16 in Hf.
  exists (to_f32_bits (from_le [lo; hi])). split; [|done]. rewrite to_f32_bits_widen by done.
  assert (Hw : fits 31 (widen (from_le [lo; hi] mod 2 ^ 15))) by (apply widen_range, Z.mod_pos_bound; lia). unfold fits in *. dlia.
Qed.
Lemma scale_min_k4_ok j q : 0 <= j < 8 -> zlen q = 12 -> ok (scale_min_k4 j q).
Proof.
  intros Hj Hq. unfold scale_min_k4. destruct (Z.ltb_spec j 4);
    repeat (eapply returns_bind; [apply u8_at_ok; lia|]; intros ? _); by apply returns_ret.
Qed.
Lemma with_capacity_ok n size : n * size < 2 ^ 63 -> ok (with_capacity n size).
Proof. intros. unfold with_capacity. destruct (Z.ltb_spec (n * size) (2 ^ 63)); [by apply returns_ret|lia]. Qed.

(** A loop gives a value per position. *)
Lemma loop_ok {B} lo hi n (f : Z -> res B) : lo <= hi -> n = hi - lo -> (forall i, lo <= i < hi -> ok (f i)) -> gives n (for_range lo hi f).
Proof. intros Hle -> Hf. eapply returns_impl; [by apply returns_for|]. by intros r [Hr _]. Qed.

(** One call of a sequence, its range conditions by arithmetic; the last value by its length. *)
#[local] Ltac ok_call := first
  [ apply u8_at_ok; lia | apply i8_at_ok; lia | apply f16_read_ok; lia | apply scale_min_k4_ok; lia
  | apply returns_index_range; lia | apply with_capacity_ok; lia | eassumption ].
#[local] Ltac ok_step := eapply returns_bind; [ok_call|]; intros ? ?; cbn beta in *; destruct_and?.
#[local] Ltac ok_loop := eapply returns_bind; [apply loop_ok; [done|reflexivity|]; intros ? ?|intros ? ?].
#[local] Ltac ok_ret := apply returns_ret; cbn beta in *; rewrite ?zlen_app; try done; lia.

Lemma k_half_ok d dmin sc j q : 0 <= j < 8 -> zlen sc = 12 -> (forall l, 0 <= l < 32 -> ok (q l)) -> gives 32 (k_half d dmin sc j q).
Proof.
  intros Hj Hs Hq. unfold k_half. ok_step. destruct a as [s m]. apply loop_ok; [done..|]. intros l Hl. eapply returns_bind; [by apply Hq|]. intros v _. by apply returns_ret.
Qed.

Lemma q8_0_ok blk : zlen blk = 34 -> gives 32 (q8_0_block blk).
Proof.
  intros Hb. unfold q8_0_block. ok_step. apply loop_ok; [done..|]. intros l Hl. ok_step. by apply returns_ret.
Qed.

Lemma q4_0_ok blk : zlen blk = 18 -> gives 32 (q4_0_block blk).
Proof. intros Hb. unfold q4_0_block. ok_step. do 2 (ok_loop; [ok_step; by apply returns_ret|]). ok_ret. Qed.

Lemma q5_0_ok blk : zlen blk = 22 -> gives 32 (q5_0_block blk).
Proof. intros Hb. unfold q5_0_block. do 2 ok_step. do 2 (ok_loop; [ok_step; by apply returns_ret|]). ok_ret. Qed.

(** A loop whose bodies give [n] values each. *)
Lemma groups_ok c n (f : Z -> res (list f32)) : 0 <= c -> (forall g, 0 <= g < c -> gives n (f g)) ->
  gives (c * n) (groups ← for_range 0 c f; Ret (concat groups)).
Proof.
  intros Hc Hf. eapply returns_bind; [apply (returns_for (fun l : list f32 => zlen l = n)); [done|exact Hf]|].
  intros r [Hr HF]. apply returns_ret. rewrite (zlen_concat_const n) by done. lia.
Qed.

Lemma q4_k_ok blk : zlen blk = 144 -> gives 256 (q4_k_block blk).
Proof.
  intros Hb. unfold q4_k_block. do 4 ok_step. apply (groups_ok 4 64); [done|]. intros g Hg. ok_step.
  eapply returns_bind; [apply k_half_ok; [lia|lia|]; intros l Hl; ok_step; by apply returns_ret|]. intros lo Hlo.
  eapply returns_bind; [apply k_half_ok; [lia|lia|]; intros l Hl; ok_step; by apply returns_ret|]. intros hi Hhi. ok_ret.
Qed.

Lemma q5_k_ok blk : zlen blk = 176 -> gives 256 (q5_k_block blk).
Proof.
  intros Hb. unfold q5_k_block. do 5 ok_step. apply (groups_ok 4 64); [done|]. intros g Hg. cbv zeta. ok_step.
  eapply returns_bind; [apply k_half_ok; [lia|lia|]; intros l Hl; do 2 ok_step; by apply returns_ret|]. intros lo Hlo.
  eapply returns_bind; [apply k_half_ok; [lia|lia|]; intros l Hl; do 2 ok_step; by apply returns_ret|]. intros hi Hhi. ok_ret.
Qed.

Lemma q6_run_ok d sc ql qh io qo low high : 0 <= io -> io + 2 <= zlen sc -> 0 <= qo -> qo + 32 <= zlen ql -> 32 <= zlen qh ->
  gives 32 (q6_run d sc ql qh io qo low high).
Proof.
  intros. unfold q6_run. apply loop_ok; [done..|]. intros l Hl. cbv zeta. do 2 ok_step. eapply returns_bind; [apply i8_at_ok; dlia|]. intros ? _. by apply returns_ret.
Qed.

Lemma q6_k_ok blk : zlen blk = 210 -> gives 256 (q6_k_block blk).
Proof.
  intros Hb. unfold q6_k_block. do 4 ok_step. apply (groups_ok 2 128); [done|]. intros h Hh. do 3 ok_step.
  do 4 (eapply returns_bind; [apply q6_run_ok; lia|]; intros ? ?). ok_ret.
Qed.

Lemma block_size_cases wtype bb bv : block_size wtype = Some (bb, bv) ->
  (bb, bv, wtype) ∈ [(18, 32, Q4_0); (22, 32, Q5_0); (34, 32, Q8_0); (144, 256, Q4_K); (176, 256, Q5_K); (210, 256, Q6_K)].
Proof.
  unfold block_size. intros H. repeat case_match; simplify_eq;
    repeat match goal with E : (wtype =? _) = true |- _ => apply Z.eqb_eq in E as -> end; repeat first [apply list_elem_of_here | apply list_elem_of_further].
Qed.

Lemma block_size_pos wtype bb bv : block_size wtype = Some (bb, bv) -> 0 < bb <= 210 /\ 32 <= bv <= 256 /\ bv mod 32 = 0 /\ bb <= bv + 2.
Proof.
  intros H%block_size_cases. repeat (apply elem_of_cons in H as [[= -> -> ->]|H]; [evaluate|]). by apply elem_of_nil in H.
Qed.

Lemma dequant_block_ok wtype bb bv blk : block_size wtype = Some (bb, bv) -> zlen blk = bb -> gives bv (dequant_block wtype blk).
Proof.
  intros H%block_size_cases Hb.
  repeat (apply elem_of_cons in H as [[= -> -> ->]|H]; [first [by apply q4_0_ok|by apply q5_0_ok|by apply q8_0_ok|by apply q4_k_ok|by apply q5_k_ok|by apply q6_k_ok]|]).
  by apply elem_of_nil in H.
Qed.

(** The bytes a row of [k] values takes. *)
Definition row_fits (wtype : Z) (row : list byte) (k : Z) : Prop :=
  exists bb bv, block_size wtype = Some (bb, bv) /\ k mod bv = 0 /\ k / bv * bb <= zlen row.

Lemma row_need_small wtype bb bv k : block_size wtype = Some (bb, bv) -> 0 <= k < 2 ^ 61 -> 0 <= k / bv * bb < 2 ^ 64.
Proof.
  intros H%block_size_pos Hk. assert (0 <= k / bv) by (apply Z.div_pos; lia).
  assert (bv * (k / bv) <= k) by (apply Z.mul_div_le; lia). nia.
Qed.

Lemma dequant_row_spec wtype row k : 0 <= k < 2 ^ 61 ->
  (row_fits wtype row k /\ returns (fun o => exists w, o = Some w /\ zlen w = k) (dequant_row wtype row k))
  \/ (~ row_fits wtype row k /\ dequant_row wtype row k = Ret None).
Proof.
  intros Hk. unfold dequant_row. destruct (block_size wtype) as [[bb bv]|] eqn:E.
  - pose proof (block_size_pos _ _ _ E) as Hp. pose proof (row_need_small _ _ _ _ E Hk) as Hn. rewrite wrap_id by done.
    destruct (Z.ltb_spec (zlen row) (k / bv * bb)); cbn [orb].
    { right. split; [|done]. intros (bb' & bv' & E' & _ & Hl). rewrite E in E'. simplify_eq. lia. }
    destruct (Z.eqb_spec (k mod bv) 0) as [Hm|Hm]; cbn [negb].
    + left. split; [exists bb, bv; split_and!; done || lia|].
      eapply returns_bind; [apply with_capacity_ok; lia|]. intros _ _.
      assert (Hkb : k = k / bv * bv) by (pose proof (Z.div_mod k bv ltac:(lia)); lia).
      assert (Hq : 0 <= k / bv) by (apply Z.div_pos; lia).
      eapply returns_bind.
      * apply (returns_for (fun l : list f32 => zlen l = bv)); [done|]. intros b Hb.
        eapply returns_bind; [apply returns_index_range; nia|]. intros blk [_ Hblk]. apply (dequant_block_ok _ bb); [done|lia].
      * intros out [Hlo HF]. apply returns_ret. eexists. split; [done|]. rewrite (zlen_concat_const bv) by done. lia.
    + right. split; [|done]. intros (bb' & bv' & E' & Hm' & _). rewrite E in E'. by simplify_eq.
  - right. split; [|done]. intros (bb & bv & E' & _). congruence.
Qed.
End Totality.

(** ** Activation rows *)

(** The bytes an activation row of [k] values takes, in the layouts that exist. *)
Definition x_need (layout k : Z) : Z := if layout =? MMVQ then div_ceil k 32 * 36 else div_ceil k 128 * 144.
Definition x_fits (layout : Z) (leaf : list byte) (k : Z) : Prop :=
  ((layout =? MMVQ) || is_mmq layout) = true /\ x_need layout k <= zlen leaf.
(** The layouts that store partial sums. *)
Definition has_sums (layout : Z) : bool := (layout =? MMVQ) || (layout =? MMQ_DS4).

Section Blocks.

Lemma leaf_blocks_ok (leaf : list byte) n c : 0 < n -> 0 <= c -> c * n <= zlen leaf ->
  zlen (leaf_blocks leaf n c) = c /\ Forall (fun b => zlen b = n) (leaf_blocks leaf n c).
Proof.
  intros Hn Hc Hl. unfold leaf_blocks, chunks_exact, zlen in *. set (m := Z.to_nat n). set (d := Z.to_nat c).
  assert (Hlen : length (take (d * m) leaf) = (d * m)%nat) by (rewrite length_take; lia).
  pose proof (chunks_full m d _ ltac:(lia) Hlen) as HF. rewrite chunks_take in HF by lia.
  assert (Hd : length (take d (chunks m leaf)) = d).
  { rewrite <- chunks_take by lia. pose proof (length_chunks m ltac:(lia) (take (d * m) leaf)) as H. unfold zlen in H. rewrite Hlen in H.
    unfold div_ceil in H. rewrite Nat2Z.inj_mul in H. replace (Z.of_nat d * Z.of_nat m + Z.of_nat m - 1) with (Z.of_nat d * Z.of_nat m + (Z.of_nat m - 1)) in H by lia.
    rewrite Z.div_add_l, Z.div_small in H by lia. lia. }
  assert (Hf : take d (filter (fun b => length b = m) (chunks m leaf)) = take d (chunks m leaf)).
  { rewrite <- (take_drop d (chunks m leaf)) at 1. rewrite filter_app.
    assert (filter (fun b => length b = m) (take d (chunks m leaf)) = take d (chunks m leaf)) as ->.
    { clear -HF. induction HF as [|b l Hb _ IH]; [done|]. rewrite filter_cons_True by done. by rewrite IH. }
    rewrite take_app_le by lia. by rewrite take_ge by lia. }
  rewrite Hf, Hd. split; [lia|]. eapply Forall_impl; [exact HF|]. intros b Hb. cbn in *. lia.
Qed.

Lemma Forall2_Forall_r {A B} (P : B -> Prop) (l : list A) (r : list B) : Forall2 (fun _ => P) l r -> Forall P r.
Proof. by induction 1; constructor. Qed.

(** A call mapped over the blocks of a long enough row. *)
Lemma blocks_map_ok {B} (P : B -> Prop) (f : list byte -> res B) leaf n c : 0 < n -> 0 <= c -> c * n <= zlen leaf ->
  (forall blk, zlen blk = n -> returns P (f blk)) ->
  returns (fun out => zlen out = c /\ Forall P out) (mapM (M:=res) f (leaf_blocks leaf n c)).
Proof.
  intros Hn Hc Hl Hf. destruct (leaf_blocks_ok leaf n c Hn Hc Hl) as [Hlen HF].
  eapply returns_impl.
  - apply (returns_mapM (fun _ => P)). intros blk Hb. apply Hf. by apply (proj1 (Forall_forall _ _) HF).
  - intros out Ho. split; [apply Forall2_length in Ho; unfold zlen in *; lia|by eapply Forall2_Forall_r].
Qed.

Lemma quants_ok blk o : 0 <= o -> o + 32 <= zlen blk -> gives 32 (quants blk o).
Proof. intros. apply loop_ok; [done..|]. intros j Hj. apply i8_at_ok. lia. Qed.

Lemma mmq_scale_ok layout blk sb : 0 <= sb < 4 -> zlen blk = 144 -> returns single (mmq_scale layout blk sb).
Proof.
  intros Hs Hb. unfold mmq_scale. repeat case_match; try (apply f16_read_single; dlia).
  eapply returns_bind; [apply returns_index_range; lia|]. intros v [_ Hv]. apply returns_ret. exists (from_le v). split; [|done].
  pose proof (from_le_fits v) as Hf. by rewrite Hv in Hf; replace (8 * (4 * sb + 4 - 4 * sb)) with 32 in Hf by lia.
Qed.

Lemma zlen_scaled d q : zlen (scaled d q) = zlen q.
Proof. unfold zlen, scaled. by rewrite length_fmap. Qed.

Lemma zlen_fst {A B} (l : list (A * B)) : zlen l.*1 = zlen l.
Proof. unfold zlen. by rewrite length_fmap. Qed.

(** Values with their sums, per block: what [decode] keeps of them. *)
Lemma kept_ok (out : list (f32 * list f32)) c k : 0 <= k -> k <= c * 32 -> zlen out = c -> Forall (fun sv => zlen sv.2 = 32) out ->
  zlen (take (Z.to_nat k) (concat out.*2)) = k /\ zlen (take (Z.to_nat (k / 32)) out.*1) = k / 32.
Proof.
  intros Hk Hkc Hc HF. split.
  - apply zlen_take. rewrite (zlen_concat_const 32) by (by apply Forall_fmap). unfold zlen in *. rewrite length_fmap. lia.
  - apply zlen_take. rewrite zlen_fst. dlia.
Qed.

Lemma need_small k : 0 <= k < 2 ^ 61 -> 0 <= div_ceil k 32 * 36 < 2 ^ 64 /\ 0 <= div_ceil k 128 * 144 < 2 ^ 64
  /\ k <= div_ceil k 32 * 32 /\ k <= div_ceil k 128 * 128 /\ 0 <= div_ceil k 32 <= 4 * div_ceil k 128 /\ div_ceil k 32 * 36 < 2 ^ 63.
Proof. intros Hk. unfold div_ceil. dlia. Qed.

Lemma concat_pairs_ok (out : list (list (f32 * list f32))) : Forall (fun l => zlen l = 4 /\ Forall (fun sv => zlen sv.2 = 32) l) out ->
  zlen (concat out) = zlen out * 4 /\ Forall (fun sv => zlen sv.2 = 32) (concat out).
Proof.
  intros HF. split; [apply zlen_concat_const; eapply Forall_impl; [exact HF|]; by intros l [? _]|].
  apply Forall_concat. eapply Forall_impl; [exact HF|]. by intros l [_ ?].
Qed.

Lemma decode_spec leaf layout k : 0 <= k < 2 ^ 61 ->
  (x_fits layout leaf k /\ returns (fun o => exists x s, o = Some (x, s) /\ zlen x = k
     /\ (if has_sums layout then exists v, s = Some v /\ zlen v = k / 32 else s = None)) (decode leaf layout k))
  \/ (~ x_fits layout leaf k /\ decode leaf layout k = Ret None).
Proof.
  intros Hk. destruct (need_small k Hk) as (H32 & H128 & Hc32 & Hc128 & _).
  unfold x_fits, x_need, decode, has_sums. destruct (with_capacity_ok k 4 ltac:(lia)) as ([] & -> & _). cbn [mbind res_bind].
  destruct (Z.eqb_spec layout MMVQ) as [->|Hv]; cbn [orb].
  - rewrite wrap_id by done. destruct (Z.ltb_spec (zlen leaf) (div_ceil k 32 * 36)); [right; split; [lia|done]|]. left. split; [split; [done|lia]|].
    eapply returns_bind; [apply (blocks_map_ok (fun sv => zlen sv.2 = 32)); [done|lia|done|]|].
    + intros blk Hb. eapply returns_bind; [apply f16_read_ok; lia|]. intros d _. eapply returns_bind; [apply f16_read_ok; lia|]. intros s _.
      eapply returns_bind; [apply quants_ok; lia|]. intros q Hq. apply returns_ret. cbn. by rewrite zlen_scaled.
    + intros out [Hlen HF]. apply returns_ret. destruct (kept_ok out _ k ltac:(lia) Hc32 Hlen HF) as [? ?]. eexists _, _. split_and!; eauto.
  - destruct (is_mmq layout) eqn:Hm; [|right; split; [by intros [? _]|done]].
    rewrite wrap_id by done. destruct (Z.ltb_spec (zlen leaf) (div_ceil k 128 * 144)); [right; split; [lia|done]|]. left. split; [split; [done|lia]|].
    eapply returns_bind; [apply (blocks_map_ok (fun l => zlen l = 4 /\ Forall (fun sv : f32 * list f32 => zlen sv.2 = 32) l)); [done|lia|done|]|].
    + intros blk Hb. apply (returns_for (fun sv : f32 * list f32 => zlen sv.2 = 32)); [done|]. intros sb Hsb.
      eapply returns_bind; [instantiate (1 := fun _ => True); case_match; [apply f16_read_ok; lia|by apply returns_ret]|]. intros s _.
      eapply returns_bind; [by apply mmq_scale_ok|]. intros d _. eapply returns_bind; [apply quants_ok; lia|]. intros q Hq.
      apply returns_ret. cbn. by rewrite zlen_scaled.
    + intros out [Hlen HF]. apply returns_ret. destruct (concat_pairs_ok out HF) as [Hl HF'].
      rewrite Hlen in Hl. destruct (kept_ok (concat out) (div_ceil k 128 * 4) k ltac:(lia) ltac:(lia) Hl HF') as [? ?]. eexists _, _. split; [done|]. split; [done|].
      case_match; eauto.
Qed.
End Blocks.

(** ** The stored sums and the dot product never panic *)

Section Dot.

(** A block has a single-precision scale and 32 values. *)
Definition block_ok (b : f32 * list Z) : Prop := single b.1 /\ zlen b.2 = 32.

Lemma concat_fours {A} (P : A -> Prop) (out : list (list A)) : Forall (fun l => zlen l = 4 /\ Forall P l) out ->
  zlen (concat out) = 4 * zlen out /\ Forall P (concat out).
Proof.
  induction 1 as [|l out [Hl HP] _ [IHl IHP]]; [done|]. cbn [concat]. rewrite zlen_app, zlen_cons. split; [lia|]. by apply Forall_app.
Qed.

Lemma blocks_spec leaf layout k : 0 <= k < 2 ^ 61 ->
  (x_fits layout leaf k /\ returns (fun o => exists b, o = Some b /\ zlen b = div_ceil k 32 /\ Forall block_ok b) (blocks leaf layout k))
  \/ (~ x_fits layout leaf k /\ blocks leaf layout k = Ret None).
Proof.
  intros Hk. destruct (need_small k Hk) as (H32 & H128 & Hc32 & Hc128 & Hcc & Hcap).
  unfold x_fits, x_need, blocks. destruct (with_capacity_ok (div_ceil k 32) 36 ltac:(lia)) as ([] & -> & _). cbn [mbind res_bind].
  destruct (Z.eqb_spec layout MMVQ) as [->|Hv]; cbn [orb].
  - rewrite wrap_id by done. destruct (Z.ltb_spec (zlen leaf) (div_ceil k 32 * 36)); [right; split; [lia|done]|]. left. split; [split; [done|lia]|].
    eapply returns_bind; [apply (blocks_map_ok block_ok); [done|lia|done|]|].
    + intros blk Hb. eapply returns_bind; [apply f16_read_single; lia|]. intros d Hd.
      eapply returns_bind; [apply quants_ok; lia|]. intros q Hq. by apply returns_ret.
    + intros out [Hl HF]. apply returns_ret. eexists. split; [done|]. split; [apply zlen_take; lia|by apply Forall_take].
  - destruct (is_mmq layout) eqn:Hm; [|right; split; [by intros [? _]|done]].
    rewrite wrap_id by done. destruct (Z.ltb_spec (zlen leaf) (div_ceil k 128 * 144)); [right; split; [lia|done]|]. left. split; [split; [done|lia]|].
    eapply returns_bind; [apply (blocks_map_ok (fun l => zlen l = 4 /\ Forall block_ok l)); [done|lia|done|]|].
    + intros blk Hb. apply (returns_for block_ok); [done|]. intros sb Hsb.
      eapply returns_bind; [by apply mmq_scale_ok|]. intros d Hd. eapply returns_bind; [apply quants_ok; lia|]. intros q Hq. by apply returns_ret.
    + intros out [Hl HF]. destruct (concat_fours block_ok out HF) as [Hz HF']. apply returns_ret. eexists. split; [done|]. split; [apply zlen_take; lia|by apply Forall_take].
Qed.

(** A type of block with an offset, or one whose rows have a tiled form. *)
Lemma row_bound wtype row k b : row_fits wtype row k -> forall bb bv, block_size wtype = Some (bb, bv) -> 0 <= b < k / bv -> (b + 1) * bb <= zlen row.
Proof.
  intros (bb' & bv' & E & _ & Hl) bb bv E' Hb. rewrite E in E'. simplify_eq. pose proof (block_size_pos _ _ _ E). nia.
Qed.

Lemma tile_sub_block_ok wtype blk sc d dmin sb : block_size wtype = Some (zlen blk, 256) -> (wtype = Q4_K \/ wtype = Q5_K) -> zlen sc = 12 -> 0 <= sb < 8 ->
  returns (fun wb => zlen wb.1 = 32) (tile_sub_block wtype blk sc d dmin sb).
Proof.
  intros Hb Hw Hs Hsb. unfold tile_sub_block. eapply returns_bind; [by apply scale_min_k4_ok|]. intros [s m] _. cbv zeta.
  eapply returns_bind; [apply loop_ok; [done|reflexivity|]|intros w Hlen; by apply returns_ret].
  intros l Hl. eapply returns_bind; [|intros q _; by apply (returns_ret (fun _ => True))]. instantiate (1 := fun _ => True).
  assert (Hg : 0 <= sb / 2 < 4) by dlia.
  destruct Hw as [-> | ->]; cbn in Hb; simplify_eq; cbn [Z.eqb Q4_K Q5_K].
  - eapply returns_bind; [apply u8_at_ok; lia|]. intros v _. by apply returns_ret.
  - change (Q5_K =? Q4_K) with false. cbn iota. eapply returns_bind; [apply u8_at_ok; lia|]. intros v _. eapply returns_bind; [apply u8_at_ok; lia|]. intros h _.
    case_match; by apply returns_ret.
Qed.

Lemma k_tile_form_ok wtype row k : 0 <= k < 2 ^ 61 -> (wtype = Q4_K \/ wtype = Q5_K) -> row_fits wtype row k ->
  returns (fun o => exists p, o = Some p) (k_tile_form wtype row k).
Proof.
  intros Hk Hw Hf. unfold k_tile_form.
  assert (negb (wtype =? Q4_K) && negb (wtype =? Q5_K) = false) as -> by (by destruct Hw as [-> | ->]).
  assert (exists bb, block_size wtype = Some (bb, 256)) as [bb Hbb] by (destruct Hw as [-> | ->]; cbn; eauto). rewrite Hbb.
  pose proof (block_size_pos _ _ _ Hbb) as Hp. assert (Hbb2 : 144 <= bb) by (destruct Hw as [-> | ->]; cbn in Hbb; simplify_eq; lia).
  eapply returns_bind; [apply with_capacity_ok; lia|]. intros _ _.
  eapply returns_bind; [apply (loop_ok 0 (k / 256) (k / 256)); [apply Z.div_pos; lia|lia|]|intros tiles _; apply returns_ret; eauto].
  intros b Hb. pose proof (row_bound _ _ _ _ Hf _ _ Hbb Hb) as Hl.
  eapply returns_bind; [apply returns_index_range; nia|]. intros blk [_ Hblk].
  eapply returns_bind; [apply f16_read_ok; lia|]. intros d _. eapply returns_bind; [apply f16_read_ok; lia|]. intros dm _.
  eapply returns_bind; [apply returns_index_range; lia|]. intros sc [_ Hsc].
  eapply returns_impl; [|by intros]. apply loop_ok; [done..|]. intros sb Hsb.
  eapply returns_impl; [apply tile_sub_block_ok; [replace (zlen blk) with bb by lia; done|done|lia|lia]|done].
Qed.

Lemma offset_block_scales_ok wtype row k : 0 <= k -> row_fits wtype row k ->
  returns (fun o => forall v, o = Some v -> zlen v.1 = k / 32) (offset_block_scales wtype row k).
Proof.
  intros Hk Hf. unfold offset_block_scales.
  assert (Hloop : forall bb off, block_size wtype = Some (bb, 32) ->
    returns (fun o : option (list f32 * f64) => forall v, o = Some v -> zlen v.1 = k / 32)
      (s ← for_range 0 (k / 32) (fun b => f16_read row (b * bb)); Ret (Some (s, off)))).
  { intros bb off Hbb. pose proof (block_size_pos _ _ _ Hbb) as Hp. assert (Hb18 : 18 <= bb).
    { unfold block_size in Hbb. repeat case_match; simplify_eq; lia. }
    eapply returns_bind; [apply (loop_ok 0 (k / 32) (k / 32)); [apply Z.div_pos; lia|lia|]|].
    - intros b Hb. pose proof (row_bound _ _ _ _ Hf _ _ Hbb Hb). apply f16_read_ok; nia.
    - intros s Hs. apply returns_ret. intros v [= <-]. done. }
  repeat case_match; try (apply Hloop; match goal with E : (wtype =? _) = true |- _ => apply Z.eqb_eq in E as -> end; done).
  apply returns_ret. done.
Qed.
End Dot.

(** When a dot product is recomputed; it never panics. *)
Lemma canonical_dot_spec (wtype : Z) (row : list byte) (k : Z) (x : list byte) (layout : Z) : 0 <= k < 2 ^ 61 ->
  exists o, canonical_dot wtype row k x layout = Ret o
    /\ (is_Some o <-> row_fits wtype row k /\ x_fits layout x k).
Proof.
  intros Hk. unfold canonical_dot. destruct (dequant_row_spec wtype row k Hk) as [[Hr (o & -> & w & -> & Hw)]|[Hr ->]]; cbn [mbind res_bind].
  2: { exists None. split; [done|]. split; [by intros []|tauto]. }
  destruct (decode_spec x layout k Hk) as [[Hx (o & -> & v & s & -> & Hv & Hs)]|[Hx ->]]; cbn [mbind res_bind].
  2: { exists None. split; [done|]. split; [by intros []|tauto]. }
  assert (Hyes : forall m : res (option Recomputed), returns is_Some m -> exists o, m = Ret o /\ (is_Some o <-> row_fits wtype row k /\ x_fits layout x k)).
  { intros m (o & -> & Ho). exists o. tauto. }
  apply Hyes. clear Hyes. destruct ((layout =? MMQ_DS4) && ((wtype =? Q4_K) || (wtype =? Q5_K))) eqn:Ht.
  - rewrite andb_true_iff, orb_true_iff, !Z.eqb_eq in Ht. destruct Ht as [-> Ht].
    destruct (k_tile_form_ok wtype row k Hk Ht Hr) as (o & -> & [w_eff b_h] & ->). destruct Hs as (sv & -> & _). apply returns_ret. eauto.
  - clear Ht. cbv zeta. destruct (Z.eqb_spec layout MMVQ) as [->|Hl]; [|apply returns_ret; eauto].
    destruct (offset_block_scales_ok wtype row k ltac:(lia) Hr) as (o & -> & Ho). cbn [mbind res_bind].
    destruct o as [[dw off]|]; [|apply returns_ret; eauto]. specialize (Ho _ eq_refl). cbn in Ho. destruct Hs as (sv & -> & Hsv).
    eapply returns_bind; [apply (loop_ok 0 (k / 32) (k / 32)); [apply Z.div_pos; lia|lia|]|intros; apply returns_ret; eauto].
    intros b Hb. eapply returns_bind; [apply returns_index_range; dlia|]. intros xs _.
    eapply returns_bind; [apply returns_index; lia|]. intros db _. eapply returns_bind; [apply returns_index; lia|]. intros sb _. by apply returns_ret.
Qed.

(** The calls on their own. *)
Lemma dot_returns wtype row k x layout : 0 <= k < 2 ^ 61 -> exists o, canonical_dot wtype row k x layout = Ret o.
Proof. intros Hk. destruct (canonical_dot_spec wtype row k x layout Hk) as (o & Ho & _). by exists o. Qed.

Lemma sums_consistent_returns leaf layout k : 0 <= k < 2 ^ 61 -> exists b, sums_consistent leaf layout k = Ret b.
Proof.
  intros Hk. unfold sums_consistent.
  destruct (decode_spec leaf layout k Hk) as [[Hx (o & -> & x & s & -> & _)]|[Hx ->]];
    destruct (blocks_spec leaf layout k Hk) as [[Hx' (o' & -> & b & -> & _)]|[Hx' ->]]; try done; cbn [mbind res_bind]; [destruct s; eauto|eauto].
Qed.

(** C27: The activation and weight decoders are total.  On fewer than 2^61 values neither the stored-sum check nor
    [canonical_dot] panics; an output is recomputed exactly when the weight type is one of the six block
    formats, [k] is a whole number of blocks, the layout exists and both rows are long enough. *)
Theorem canonical_dot_total (wtype : Z) (row : list byte) (k : Z) (x : list byte) (layout : Z) : 0 <= k < 2 ^ 61 ->
  (exists o, canonical_dot wtype row k x layout = Ret o /\ (is_Some o <-> row_fits wtype row k /\ x_fits layout x k))
  /\ exists b, sums_consistent x layout k = Ret b.
Proof. intros Hk. split; [by apply canonical_dot_spec|by apply sums_consistent_returns]. Qed.

Lemma canonical_dot_total_witness : is_Some (match canonical_dot Q4_0 (to_le 18 0x3c00) 32 (to_le 36 0x3c003c00) MMVQ with Ret o => o | Panic => None end).
Proof.
  destruct (canonical_dot_total Q4_0 (to_le 18 0x3c00) 32 (to_le 36 0x3c003c00) MMVQ) as [(o & -> & Ho) _]; [lia|].
  apply Ho. split; [exists 18, 32; by vm_compute|by vm_compute].
Defined.

(** ** The two readings of an activation row agree *)

Section Agree.

Lemma mapM_related {A B C} (R : B -> C -> Prop) (f : A -> res B) (h : A -> res C) (l : list A) r1 r2 :
  (forall a b c, f a = Ret b -> h a = Ret c -> R b c) -> mapM f l = Ret r1 -> mapM h l = Ret r2 -> Forall2 R r1 r2.
Proof.
  intros HR. revert r1 r2. induction l as [|a l IH]; intros r1 r2; cbn; [intros [= <-] [= <-]; constructor|].
  destruct (f a) as [b|] eqn:Ef; [|done]. destruct (h a) as [c|] eqn:Eh; [|done].
  destruct (mapM f l) as [r1'|]; [|done]. destruct (mapM h l) as [r2'|]; [|done].
  intros [= <-] [= <-]. constructor; eauto.
Qed.

Lemma mapM_zlen {A B} (f : A -> res B) (l : list A) r : mapM f l = Ret r -> length r = length l.
Proof.
  revert r. induction l as [|a l IH]; intros r; cbn; [by intros [= <-]|].
  destruct (f a); [|done]. destruct (mapM f l); [|done]. intros [= <-]. cbn. by rewrite (IH _ eq_refl).
Qed.

Lemma bind_Ret_inv {A B} (m : res A) (f : A -> res B) b : m ≫= f = Ret b -> exists a, m = Ret a /\ f a = Ret b.
Proof. destruct m; [eauto|done]. Qed.

Lemma take_concat_whole {A} (n k : nat) (ll : list (list A)) : Forall (fun l => length l = 32%nat) ll -> (k <= n * 32)%nat ->
  take k (concat ll) = take k (concat (take n ll)).
Proof.
  intros HF. revert n k. induction HF as [|l ll Hl _ IH]; intros n k Hk; [by rewrite take_nil|].
  destruct n as [|n]; [replace k with 0%nat by lia; done|]. cbn [take concat]. rewrite !firstn_app, Hl. f_equal. apply IH. lia.
Qed.

Abbreviation values := (fun dq : f32 * list Z => scaled dq.1 dq.2).

(** The values of a block as [decode] stores them, against the block. *)
Definition same_block (sv : f32 * list f32) (dq : f32 * list Z) : Prop := sv.2 = values dq /\ length dq.2 = 32%nat.

Lemma quants_len blk o q : quants blk o = Ret q -> length q = 32%nat.
Proof. intros H. apply mapM_zlen in H. by rewrite length_seqZ in H. Qed.

Lemma same_blocks out1 out2 : Forall2 same_block out1 out2 -> out1.*2 = values <$> out2 /\ Forall (fun l => length l = 32%nat) (values <$> out2).
Proof.
  induction 1 as [|sv dq l1 l2 [Hv Hl] _ [IH1 IH2]]; [done|]. cbn. rewrite Hv, IH1. split; [done|]. constructor; [|done].
  unfold scaled. by rewrite length_fmap.
Qed.

Lemma same_concat (l1 : list (list (f32 * list f32))) (l2 : list (list (f32 * list Z))) :
  Forall2 (Forall2 same_block) l1 l2 -> Forall2 same_block (concat l1) (concat l2).
Proof. induction 1; cbn; [constructor|]. by apply Forall2_app. Qed.

Lemma kept_agree out1 out2 k : 0 <= k -> Forall2 same_block out1 out2 ->
  take (Z.to_nat k) (concat out1.*2) = take (Z.to_nat k) (concat (values <$> take (Z.to_nat (div_ceil k 32)) out2)).
Proof.
  intros Hk H. destruct (same_blocks _ _ H) as [-> HF]. rewrite <- firstn_map.
  apply (take_concat_whole (Z.to_nat (div_ceil k 32))); [done|]. unfold div_ceil. dlia.
Qed.
End Agree.

(** Both readings of an activation row agree.  Whenever [decode] succeeds, [blocks] gives one block per 32
    values, and the decoded values are exactly the [k] first products of a block's quants by its scale, in all four layouts. *)
Theorem decode_agrees (leaf : list byte) (layout k : Z) x s : 0 <= k < 2 ^ 61 -> decode leaf layout k = Ret (Some (x, s)) ->
  exists b, blocks leaf layout k = Ret (Some b) /\ zlen b = div_ceil k 32 /\ zlen x = k
    /\ x = take (Z.to_nat k) (concat ((fun dq => scaled dq.1 dq.2) <$> b)).
Proof.
  intros Hk Hd. destruct (blocks_spec leaf layout k Hk) as [[Hx (o & Hb & b & -> & _)]|[Hx _]].
  2: { destruct (decode_spec leaf layout k Hk) as [[? _]|[_ E]]; [done|congruence]. }
  destruct (decode_spec leaf layout k Hk) as [[_ (o & E & x' & s' & -> & Hlen & _)]|[? _]]; [|done]. rewrite Hd in E. injection E as <- <-.
  exists b. split; [done|]. destruct (need_small k Hk) as (H32 & H128 & Hc32 & Hc128 & Hcc & Hcap).
  revert Hd Hb. unfold decode, blocks. destruct (with_capacity_ok k 4 ltac:(lia)) as ([] & -> & _).
  destruct (with_capacity_ok (div_ceil k 32) 36 ltac:(lia)) as ([] & -> & _). cbn [mbind res_bind]. destruct Hx as [_ Hx]. revert Hx. unfold x_need.
  destruct (Z.eqb_spec layout MMVQ) as [->|Hv]; [|destruct (is_mmq layout) eqn:Hm; [|done]].
  - intros Hn. case_match; [done|]. intros (out1 & H1 & [= <- <-])%bind_Ret_inv (out2 & H2 & [= <-])%bind_Ret_inv.
    assert (HR : Forall2 same_block out1 out2).
    { eapply mapM_related; [|exact H1|exact H2]. intros blk a c (d & Hd & (s & Hs & (q & Hq & [= <-])%bind_Ret_inv)%bind_Ret_inv)%bind_Ret_inv.
      intros (d' & Hd' & (q' & Hq' & [= <-])%bind_Ret_inv)%bind_Ret_inv. rewrite Hd in Hd'. rewrite Hq in Hq'. simplify_eq. split; [done|]. by eapply quants_len. }
    destruct (leaf_blocks_ok leaf 36 (div_ceil k 32)) as [Hl _]; [lia..|]. apply mapM_zlen in H2.
    split; [apply zlen_take; unfold zlen in *; lia|]. split; [done|]. apply kept_agree; [lia|done].
  - intros Hn. case_match; [done|]. intros (out1 & H1 & [= <- <-])%bind_Ret_inv (out2 & H2 & [= <-])%bind_Ret_inv.
    assert (HR : Forall2 (fun l1 l2 => Forall2 same_block l1 l2 /\ length l2 = 4%nat) out1 out2).
    { eapply mapM_related; [|exact H1|exact H2]. intros blk a c Ha Hc. split; [|apply mapM_zlen in Hc; by rewrite length_seqZ in Hc].
      eapply mapM_related; [|exact Ha|exact Hc]. intros sb a' c' (s & Hs & (d & Hd & (q & Hq & [= <-])%bind_Ret_inv)%bind_Ret_inv)%bind_Ret_inv.
      intros (d' & Hd' & (q' & Hq' & [= <-])%bind_Ret_inv)%bind_Ret_inv. rewrite Hd in Hd'. rewrite Hq in Hq'. simplify_eq. split; [done|]. by eapply quants_len. }
    destruct (leaf_blocks_ok leaf 144 (div_ceil k 128)) as [Hl _]; [lia..|]. apply mapM_zlen in H2.
    assert (Hz : zlen (concat out2) = zlen out2 * 4).
    { apply zlen_concat_const. clear -HR. induction HR as [|? ? ? ? [_ H] _ IH]; constructor; [unfold zlen; lia|done]. }
    split; [apply zlen_take; unfold zlen in *; lia|]. split; [done|].
    apply kept_agree; [lia|]. apply same_concat. eapply Forall2_impl; [exact HR|]. by intros ? ? [? _].
Qed.

(** ** Packed scales *)

(** The range of every byte the goal reads. *)
Ltac byte_ranges := repeat match goal with |- context [u8_of_byte ?b] =>
  lazymatch goal with H : 0 <= u8_of_byte b < 256 |- _ => fail | _ => pose proof (u8_of_byte_range b) end end.

(** Twelve bytes as the 6-bit scales and minima of their eight sub-blocks. *)
Definition scales_of (q : list byte) : res (list (Z * Z)) := mapM (M:=res) (fun j => scale_min_k4 j q) (seqZ 0 8).

(** The packing of eight pairs. *)
Definition pack_scales (p : list (Z * Z)) : list byte :=
  let s j := (nth j p (0, 0)).1 in let m j := (nth j p (0, 0)).2 in
  byte_of_u8 <$> (((fun j => s j + s (j + 4)%nat / 16 * 64) <$> [0; 1; 2; 3]%nat)
    ++ ((fun j => m j + m (j + 4)%nat / 16 * 64) <$> [0; 1; 2; 3]%nat)
    ++ ((fun j => s (j + 4)%nat mod 16 + m (j + 4)%nat mod 16 * 16) <$> [0; 1; 2; 3]%nat)).

Section Scales.

Lemma u8_at_lookup l i b : 0 <= i -> l !! Z.to_nat i = Some b -> u8_at l i = Ret (u8_of_byte b).
Proof. intros Hi Hl. unfold u8_at, index, get_at. destruct (Z.leb_spec 0 i); [|lia]. by rewrite Hl. Qed.

Lemma scale_low q j a b : 0 <= j < 4 -> q !! Z.to_nat j = Some a -> q !! Z.to_nat (j + 4) = Some b ->
  scale_min_k4 j q = Ret (u8_of_byte a mod 64, u8_of_byte b mod 64).
Proof.
  intros Hj Ha Hb. unfold scale_min_k4. destruct (Z.ltb_spec j 4); [|lia].
  rewrite (u8_at_lookup q j a), (u8_at_lookup q (j + 4) b) by (done || lia). cbn [mbind res_bind].
  change 63 with (2 ^ 6 - 1). by rewrite !land_field.
Qed.

Lemma scale_high q j a b c : 4 <= j -> q !! Z.to_nat (j + 4) = Some a -> q !! Z.to_nat (j - 4) = Some b -> q !! Z.to_nat j = Some c ->
  scale_min_k4 j q = Ret (u8_of_byte a mod 16 + u8_of_byte b / 64 * 16, u8_of_byte a / 16 + u8_of_byte c / 64 * 16).
Proof.
  intros Hj Ha Hb Hc. unfold scale_min_k4. destruct (Z.ltb_spec j 4); [lia|].
  rewrite (u8_at_lookup q (j + 4) a), (u8_at_lookup q (j - 4) b), (u8_at_lookup q j c) by (done || lia). cbn [mbind res_bind].
  pose proof (u8_of_byte_range a). change 0xf with (2 ^ 4 - 1). rewrite land_field, !Z.shiftr_div_pow2 by done.
  rewrite (Z.lor_comm (_ mod 2 ^ 4)), (Z.lor_comm (_ / 2 ^ 4)), !lor_shiftl_add by (try done; dlia). do 2 f_equal; lia.
Qed.

Lemma scales_of_bytes b0 b1 b2 b3 b4 b5 b6 b7 b8 b9 b10 b11 :
  let u := u8_of_byte in
  scales_of [b0; b1; b2; b3; b4; b5; b6; b7; b8; b9; b10; b11]
  = Ret [(u b0 mod 64, u b4 mod 64); (u b1 mod 64, u b5 mod 64); (u b2 mod 64, u b6 mod 64); (u b3 mod 64, u b7 mod 64);
         (u b8 mod 16 + u b0 / 64 * 16, u b8 / 16 + u b4 / 64 * 16); (u b9 mod 16 + u b1 / 64 * 16, u b9 / 16 + u b5 / 64 * 16);
         (u b10 mod 16 + u b2 / 64 * 16, u b10 / 16 + u b6 / 64 * 16); (u b11 mod 16 + u b3 / 64 * 16, u b11 / 16 + u b7 / 64 * 16)].
Proof.
  intros u. unfold scales_of. change (seqZ 0 8) with [0; 1; 2; 3; 4; 5; 6; 7]. cbn [mapM].
  rewrite (scale_low _ 0 b0 b4), (scale_low _ 1 b1 b5), (scale_low _ 2 b2 b6), (scale_low _ 3 b3 b7) by done.
  rewrite (scale_high _ 4 b8 b0 b4), (scale_high _ 5 b9 b1 b5), (scale_high _ 6 b10 b2 b6), (scale_high _ 7 b11 b3 b7) by done. done.
Qed.
End Scales.

(** The packed scales are a bijection.  Twelve bytes hold exactly eight pairs of 6-bit numbers: every pair
    [scale_min_k4] reads fits six bits, the pairs determine the bytes, and any pairs can be packed. *)
Theorem scales_bijective :
  (forall q, length q = 12%nat -> exists p, scales_of q = Ret p /\ length p = 8%nat
     /\ Forall (fun sm => fits 6 sm.1 /\ fits 6 sm.2) p /\ pack_scales p = q)
  /\ (forall p, length p = 8%nat -> Forall (fun sm => fits 6 sm.1 /\ fits 6 sm.2) p -> scales_of (pack_scales p) = Ret p).
Proof.
  split.
  - intros q Hq. do 12 (destruct q as [|? q]; [done|]). destruct q; [|done]. eexists. rewrite scales_of_bytes. split; [done|]. split; [done|].
    split.
    + rewrite !Forall_cons, Forall_nil. cbn -[Z.modulo Z.div Byte.byte.unsigned Z.add Z.mul]. unfold fits. split_and!; byte_ranges; dlia.
    + unfold pack_scales. cbn -[Z.modulo Z.div Byte.byte.unsigned Byte.byte.of_Z Z.add Z.mul].
      assert (Hx : forall x b, x = u8_of_byte b -> byte_of_u8 x = b) by (intros ? ? ->; apply byte_of_u8_of_byte).
      repeat (apply (f_equal2 cons); [apply Hx; byte_ranges; dlia|]). done.
  - intros p Hp HF. do 8 (destruct p as [|[? ?] p]; [done|]). destruct p; [|done]. rewrite !Forall_cons in HF. cbn in HF. unfold fits in HF. destruct_and!.
    unfold pack_scales. cbn -[Z.modulo Z.div Byte.byte.unsigned Byte.byte.of_Z Z.add Z.mul scales_of]. rewrite scales_of_bytes. cbv zeta.
    rewrite !u8_of_byte_of_u8 by dlia. repeat f_equal; dlia.
Qed.

Lemma decode_agrees_witness : exists b, blocks (to_le 36 (0x3c003c00 + 2 ^ 32 * 0x7f)) MMVQ 32 = Ret (Some b) /\ zlen b = 1.
Proof.
  destruct (decode_agrees (to_le 36 (0x3c003c00 + 2 ^ 32 * 0x7f)) MMVQ 32 _ _ ltac:(lia) eq_refl) as (b & Hb & Hl & _). by exists b.
Defined.
