(* ===== verification/VerifyPoint.v ===== *)
(** * Verification of opened points ([verifiable-inference/src/verify.rs], [draw.rs])

    A point of an audit opening is one output element of one matrix product at one
    traced position.  [verify_point_at] draws the product, the position and the
    element from the seed, checks the manifest entries, the trace leaves and the
    weight rows of the opening against the consensus roots, recomputes the element
    and compares it with the committed one.  It is modelled whole: every guard in the
    order of the source, every slice that could panic, and the arithmetic in binary64.
    [libm] is third-party code, a class. *)
From S2P Require Import Prelude Float Merkle Seq Wire Opening Quant Manifest.
#[local] Open Scope Z_scope.

(** The functions of the [libm] crate the verifier calls. *)
Class Libm := { libm_exp : f64 -> f64; libm_tanh : f64 -> f64; libm_sqrt : f64 -> f64 }.

(** ** Draws *)

Definition AUDIT_THRESHOLD : Z := 16384.
Definition POINTS : Z := 2.

(** [u16::from_le_bytes([seed[0], seed[1]]) < AUDIT_THRESHOLD] *)
Definition audited (seed : Hash) : bool := from_le (take 2 seed) <? AUDIT_THRESHOLD.

(** Draw [j] of point [i]: one of the four words of a digest. *)
Definition draw `{B3 : Blake3} (seed : Hash) (i j : Z) : Z :=
  let h := blake3_hash (seed ++ to_le 4 i) in from_le (slice h (8 * j) (8 * j + 8)).

(** ** Consensus data *)

Definition EPS : f64 := f64_lit 1 100000.
Definition EPS_GEGLU : f64 := f64_lit 3 100000.
Definition MMVQ_MAX_BATCH : Z := 8.
Definition UBATCH : Z := 512.
Definition MATRIX_ROW_PADDING : Z := 512.

Record TierCtx := { r_t : Hash; tier_n_chunks : Z; m_t : Hash; n_entries : Z; n_products : Z }.
Record ResponseCtx := { resp_trace_root : Hash; n_prompt : Z; n_pos : Z }.

Inductive Fail := Shape | Manifest_ | Weights_ | Trace | Unsupported | Mismatch.

Record PosShape := { ps_n_leaves : Z; ps_meta_index : Z; ps_tok : option Z; ps_n_used : Z }.

Record Report := { rep_t : Z; rep_rank : Z; rep_row : Z; rep_y : f64; rep_y_hat : f64; rep_tol : f64 }.
Record Opened := { pos_root : Hash; op_input : Entry; op_layout : Z; op_slot : Z; op_expert : Z }.

Definition stage1 (n_products : Z) : PosShape :=
  {| ps_n_leaves := wrap 64 (2 * n_products + 1); ps_meta_index := wrap 64 (2 * n_products); ps_tok := None; ps_n_used := 0 |}.

(** [chain::meta] *)
Definition meta (t n_ubatch tok : Z) : list byte := to_le 4 t ++ to_le 4 n_ubatch ++ to_le 4 tok.

(** Batch size the traced run computes position [t] with. *)
Definition expected_ubatch (t n_prompt : Z) : Z :=
  if n_prompt <=? t then 1 else
  let start := t / UBATCH * UBATCH in
  Z.min UBATCH (wrap 32 (n_prompt - wrap 32 start)).

Definition layout_for (n_ubatch wtype : Z) : Z :=
  if n_ubatch <=? MMVQ_MAX_BATCH then MMVQ
  else if (wtype =? 2) || (wtype =? 3) || (wtype =? 7) || (wtype =? Q4_K) || (wtype =? Q5_K) then MMQ_DS4
  else MMQ_D4.
Definition input_layout (role n_ubatch wtype : Z) : Z :=
  if role =? ROLE_OUTPUT then MMVQ else layout_for n_ubatch wtype.

Definition x_len (k layout : Z) : Z :=
  let kp := wrap 64 (div_ceil k MATRIX_ROW_PADDING * MATRIX_ROW_PADDING) in
  if layout =? MMVQ then wrap 64 (kp / 32 * 36) else wrap 64 (kp / 128 * 144).

(** ** Gated linear units *)

Definition one : f64 := f64_of_Z 1.
Definition half : f64 := f64_lit 1 2.
Definition PI : f64 := f64_lit 314159265358979323846264338327950288 100000000000000000000000000000000000.

Declare Scope f64_scope.
Delimit Scope f64_scope with F.
Infix "+" := f64_add : f64_scope.
Infix "-" := f64_sub : f64_scope.
Infix "*" := f64_mul : f64_scope.
Infix "/" := f64_div : f64_scope.

(** The gate function at [g] and its derivative. *)
Definition glu `{L : Libm} (op : Z) (g : f64) : option (f64 * f64) :=
  if op =? GLU_SWIGLU then
    let s := (one / (one + libm_exp (SFopp g)))%F in
    Some ((g * s)%F, (s * (one + g * (one - s)))%F)
  else if op =? GLU_GEGLU then
    let a := f64_sqrt (f64_of_Z 2 / PI)%F in
    let c := f64_lit 44715 1000000 in
    let t := libm_tanh (a * (g + c * g * g * g))%F in
    Some ((half * g * (one + t))%F,
          (half * (one + t) + half * g * (one - t * t) * a * (one + f64_of_Z 3 * c * g * g))%F)
  else None.

Section Verify.
Context `{B3 : Blake3, L : Libm}.

Definition meta_bytes (shape : PosShape) (t n_ubatch : Z) : list byte :=
  match ps_tok shape with
  | Some tok => meta (wrap 32 t) n_ubatch tok
  | None => to_le 4 (wrap 32 t) ++ to_le 4 n_ubatch
  end.
Definition meta_hash (shape : PosShape) (t n_ubatch : Z) : Hash := blake3_hash (meta_bytes shape t n_ubatch).

(** ** Opening entries and weights *)

Definition open_entry (tier : TierCtx) (e : EntryOpening) (expected_index : Z) : res (Fail + Entry) :=
  bail Manifest_ if negb (entry_index e =? expected_index);
  included ← verify_entry (m_t tier) (n_entries tier) expected_index (entry_bytes e) (entry_path e);
  bail Manifest_ if negb included;
  '(entry, len) ←? ok_or Manifest_ (parse (entry_bytes e));
  ok_or Manifest_ (if len =? zlen (entry_bytes e) then Some entry else None).

(** Tensor bytes proven against the model root. *)
Definition open_bytes (tier : TierCtx) (entry : Entry) (r : ChunkRange) (offset len : Z) : res (Fail + list byte) :=
  let fin := wrap 64 (offset + len) in
  bail Shape if (len =? 0) || (n_bytes entry / 32 * 32 <? fin);
  let first := wrap 64 (chunk_base entry + offset / 32) in
  let last := wrap 64 (chunk_base entry + wrap 64 (fin - 1) / 32) in
  bail Shape if negb (range_first_chunk r =? first) || negb (zlen (range_chunks r) =? wrap 64 (wrap 64 (last - first + 1) * 32));
  let leaves := blake3_hash <$> chunks_exact 32 (range_chunks r) in
  included ← rt_verify_range (r_t tier) (tier_n_chunks tier) first leaves (range_proof r);
  bail Weights_ if negb included;
  let o := offset mod 32 in
  bytes ← index_range (range_chunks r) o (o + len);
  Ret (inr bytes).

Definition open_expert_row (tier : TierCtx) (entry : Entry) (r : ChunkRange) (exp row : Z) : res (Fail + list byte) :=
  bail Shape if (e_m entry <=? row) || (n_exp entry <=? exp);
  let rb := row_bytes entry in
  open_bytes tier entry r (wrap 64 ((exp * e_m entry + row) * rb)) rb.

Definition open_row (tier : TierCtx) (entry : Entry) (r : ChunkRange) (row : Z) : res (Fail + list byte) :=
  bail Shape if (e_m entry <=? row) || negb (n_exp entry =? 1);
  let rb := row_bytes entry in
  open_bytes tier entry r (wrap 64 (row * rb)) rb.

(** ** The drawn product *)

(** What the draw selects: the entry drawn, the gate entry with its rank, the up entry of a pair. *)
Record Drawn := { dr_first : Entry; dr_rank : Z; dr_t : Z; dr_gate : Entry; dr_gate_rank : Z; dr_up : option Entry }.

(** The traced position: any position, or for an output product one the response generates from. *)
Definition drawn_position (resp : ResponseCtx) (output_only : bool) (d0 : Z) : res (Fail + Z) :=
  if output_only then
    first_pos ←? ok_or Shape (checked_sub (n_prompt resp) 1);
    n ←? ok_or Shape (n ← checked_sub (n_pos resp) first_pos; if 0 <? n then Some n else None);
    Ret (inr (wrap 64 (first_pos + d0 mod n)))
  else Ret (inr (d0 mod n_pos resp)).

Definition drawn_gate (tier : TierCtx) (p : Point) (first : Entry) (rank : Z) : res (Fail + (Entry * Z * option Entry)) :=
  if (glu_form first =? FORM_NONE) || (glu_form first =? FORM_SPLIT) then
    bail Shape if bool_decide (is_Some (p_partner p));
    Ret (inr (first, rank, None))
  else if (glu_form first =? FORM_PAIR_GATE) || (glu_form first =? FORM_PAIR_UP) then
    po ←? ok_or Shape (p_partner p);
    other ←? open_entry tier po (partner first);
    bail Manifest_ if negb (partner other =? rank) || negb (e_k other =? e_k first) || negb (e_m other =? e_m first);
    Ret (inr (if glu_form first =? FORM_PAIR_GATE then (first, rank, Some other) else (other, partner first, Some first)))
  else Ret (inl Unsupported).

Definition drawn (tier : TierCtx) (resp : ResponseCtx) (seed : Hash) (i : Z) (p : Point) : res (Fail + Drawn) :=
  bail Shape if (n_pos resp =? 0) || (n_prompt resp =? 0) || (n_pos resp <? n_prompt resp);
  bail Shape if (n_products tier =? 0) || (n_entries tier <? n_products tier);
  let rank := draw seed i 1 mod n_products tier in
  first ←? open_entry tier (p_entry p) rank;
  let output_only := role first =? ROLE_OUTPUT in
  bail Manifest_ if negb (role first =? ROLE_PRODUCT) && negb output_only && negb (role first =? ROLE_HEADS);
  t ←? drawn_position resp output_only (draw seed i 0);
  '(g, g_rank, up) ←? drawn_gate tier p first rank;
  Ret (inr {| dr_first := first; dr_rank := rank; dr_t := t; dr_gate := g; dr_gate_rank := g_rank; dr_up := up |}).

(** ** The drawn element *)

Record Element := { el_experts : bool; el_n_used : Z; el_slot : Z; el_split : bool; el_m_out : Z; el_row : Z }.

Definition drawn_element (seed : Hash) (i : Z) (d : Drawn) (shape : PosShape) (has_ids : bool) : res (Fail + Element) :=
  let g := dr_gate d in
  let heads := role (dr_first d) =? ROLE_HEADS in
  let experts := (1 <? n_exp g) && negb heads in
  bail Shape if xorb experts has_ids || (experts && (ps_n_used shape =? 0))
    || (heads && ((n_exp g <? 2) || bool_decide (is_Some (dr_up d))));
  bail Manifest_ if match dr_up d with Some u => negb (n_exp u =? n_exp g) | None => false end;
  let n_used := if experts then ps_n_used shape else if heads then n_exp g else 1 in
  let slot := if 1 <? n_used then Z.shiftr (draw seed i 3) 32 mod n_used else 0 in
  let split := glu_form g =? FORM_SPLIT in
  let m_out := if split then e_m g / 2 else e_m g in
  bail Shape if m_out =? 0;
  Ret (inr {| el_experts := experts; el_n_used := n_used; el_slot := slot; el_split := split; el_m_out := m_out;
              el_row := draw seed i 2 mod m_out |}).

(** ** The committed input and output *)

(** The part of the input leaf the element reads. *)
Definition input_row (p : Point) (x_one n_used slot : Z) : res (Fail + list byte) :=
  let n := zlen (p_x p) in
  if n =? x_one then Ret (inr (p_x p))
  else if (1 <? n_used) && (n =? wrap 64 (n_used * x_one)) then
    x ← index_range (p_x p) (wrap 64 (slot * x_one)) (wrap 64 ((slot + 1) * x_one)); Ret (inr x)
  else Ret (inl Shape).

(** The root of the position, its place in the trace and its meta leaf. *)
Definition open_position (resp : ResponseCtx) (p : Point) (d : Drawn) (shape : PosShape) : res (Fail + Hash) :=
  pos_root ←? ok_or Trace (b3_fold (ps_n_leaves shape) (wrap 64 (2 * dr_gate_rank d)) (blake3_hash (p_x p)) (p_x_path p));
  bail Trace if negb (b3_verify (resp_trace_root resp) (n_pos resp) (dr_t d) pos_root (p_pos_path p));
  bail Mismatch if negb (p_n_ubatch p =? expected_ubatch (dr_t d) (n_prompt resp));
  bail Trace if negb (b3_verify pos_root (ps_n_leaves shape) (ps_meta_index shape) (meta_hash shape (dr_t d) (p_n_ubatch p)) (p_meta_path p));
  Ret (inr pos_root).

(** The committed element, the digest of the output leaf and the length of its values. *)
Definition open_output (p : Point) (d : Drawn) (e : Element) (shape : PosShape) (pos_root : Hash) : res (Fail + (f64 * Hash * Z)) :=
  let body := wrap 64 (wrap 64 (el_n_used e * el_m_out e) * 4) in
  bail Shape if el_experts e && negb (body mod B3_CHUNK =? 0);
  let y_off := wrap 64 (wrap 64 (el_slot e * el_m_out e + el_row e) * 4) in
  let y_total := wrap 64 (body + if el_experts e then 4 * el_n_used e else 0) in
  bail Shape if negb (p_y_total_len p =? y_total) || negb (p_y_chunk_index p =? y_off / B3_CHUNK);
  y_leaf ←? ok_or Trace (b3_leaf_from_chunk (p_y_total_len p) (p_y_chunk_index p) (p_y_chunk p) (p_y_chunk_path p));
  bail Trace if negb (b3_verify pos_root (ps_n_leaves shape) (wrap 64 (2 * dr_gate_rank d + 1)) y_leaf (p_y_path p));
  let o := y_off mod B3_CHUNK in
  y ← index_range (p_y_chunk p) o (o + 4);
  Ret (inr (f64_of_f32 (f32_from_le y), y_leaf, y_total)).

(** The expert of the drawn slot: the id at the end of the output leaf, or the slot itself. *)
Definition open_expert (d : Drawn) (e : Element) (ids : option ExpertIds) (y_leaf : Hash) (y_total : Z) : res (Fail + Z) :=
  match ids with
  | None => Ret (inr (el_slot e))
  | Some ids =>
    let last := wrap 64 (wrap 64 (el_n_used e * el_m_out e) * 4) / B3_CHUNK in
    bail Trace if negb (bool_decide (b3_leaf_from_chunk y_total last (ids_chunk ids) (ids_chunk_path ids) = Some y_leaf));
    let s := 4 * el_slot e in
    b ←? ok_or Shape (get_range (ids_chunk ids) s (s + 4));
    bail Mismatch if n_exp (dr_gate d) <=? from_le b;
    Ret (inr (from_le b))
  end.

(** ** Recomputation *)

(** [dot_row]: the product of a proven weight row with the input. *)
Definition dot_row (tier : TierCtx) (k : Z) (x : list byte) (layout exp : Z) (entry : Entry) (r : ChunkRange) (row : Z)
  : res (Fail + Recomputed) :=
  bytes ←? open_expert_row tier entry r exp row;
  o ← canonical_dot (wtype entry) bytes k x layout;
  ok_or Unsupported o.

Definition open_bias (tier : TierCtx) (p : Point) (g : Entry) (row : Z) : res (Fail + f64) :=
  match p_bias p with
  | None => if bias g =? NONE then Ret (inr (S754_zero false)) else Ret (inl Shape)
  | Some (be, br) =>
    bail Shape if bias g =? NONE;
    bias_entry ←? open_entry tier be (bias g);
    bail Manifest_ if negb (role bias_entry =? ROLE_BIAS) || negb (wtype bias_entry =? 0) || negb (e_k bias_entry =? e_m g);
    v ←? open_bytes tier bias_entry br (wrap 64 (row * 4)) 4;
    Ret (inr (f64_of_f32 (f32_from_le v)))
  end.

(** The recomputed element and its tolerance. *)
Definition recompute (tier : TierCtx) (p : Point) (d : Drawn) (e : Element) (x : list byte) (layout exp : Z)
  : res (Fail + (f64 * f64)) :=
  let g := dr_gate d in
  let dot := dot_row tier (e_k g) x layout exp in
  if glu_form g =? FORM_NONE then
    match p_rows p with
    | [r0] =>
      r ←? dot g r0 (el_row e);
      b ←? open_bias tier p g (el_row e);
      Ret (inr ((y_hat r + b)%F, (EPS * (Quant.scale r + SFabs b))%F))
    | _ => Ret (inl Shape)
    end
  else
    match p_rows p, p_bias p with
    | [r0; r1], None =>
      rg ←? dot g r0 (el_row e);
      ru ←? (if el_split e then dot g r1 (wrap 64 (el_row e + el_m_out e))
             else match dr_up d with Some up => dot up r1 (el_row e) | None => Panic end);
      '(f, df) ←? ok_or Unsupported (glu (glu_op g) (y_hat rg));
      let eps_glu := if glu_op g =? GLU_GEGLU then EPS_GEGLU else EPS in
      Ret (inr ((f * y_hat ru)%F,
                (EPS * (SFabs (df * y_hat ru) * Quant.scale rg + SFabs f * Quant.scale ru) + eps_glu * SFabs (y_hat rg * y_hat ru))%F))
    | _, _ => Ret (inl Shape)
    end.

(** [|y - y_hat| <= tol] on finite numbers. *)
Definition within (y y_hat tol : f64) : bool :=
  is_finite y && is_finite y_hat && is_finite tol && SFleb (SFabs (y - y_hat)%F) tol.

(** ** The verifier *)

Definition verify_point_at (tier : TierCtx) (resp : ResponseCtx) (seed : Hash) (i : Z) (p : Point) (shape : PosShape)
    (ids : option ExpertIds) : res (Fail + (Report * Opened)) :=
  d ←? drawn tier resp seed i p;
  e ←? drawn_element seed i d shape (bool_decide (is_Some ids));
  let g := dr_gate d in
  let layout := input_layout (role (dr_first d)) (p_n_ubatch p) (wtype g) in
  x ←? input_row p (x_len (e_k g) layout) (el_n_used e) (el_slot e);
  pos_root ←? open_position resp p d shape;
  '(y, y_leaf, y_total) ←? open_output p d e shape pos_root;
  exp ←? open_expert d e ids y_leaf y_total;
  consistent ← sums_consistent x layout (e_k g);
  bail Mismatch if negb consistent;
  '(y_hat, tol) ←? recompute tier p d e x layout exp;
  bail Mismatch if negb (within y y_hat tol);
  Ret (inr ({| rep_t := dr_t d; rep_rank := dr_rank d; rep_row := el_row e; rep_y := y; rep_y_hat := y_hat; rep_tol := tol |},
            {| pos_root := pos_root; op_input := g; op_layout := layout; op_slot := el_slot e; op_expert := exp |})).

(** Verify point [i] of an opening. *)
Definition verify_point (tier : TierCtx) (resp : ResponseCtx) (seed : Hash) (i : Z) (p : Point) : res (Fail + Report) :=
  r ←? verify_point_at tier resp seed i p (stage1 (n_products tier)) None;
  Ret (inr r.1).
End Verify.

(** ** No opening makes the verifier panic *)

(** Sizes that keep the verifier's 64-bit products exact: rows of fewer than 2^30 values, fewer than 2^29
    rows, fewer than 2^63 bytes of rows in all. *)
Definition sane (e : Entry) : Prop := e_k e < 2 ^ 30 /\ e_m e < 2 ^ 29 /\ n_exp e * e_m e * row_bytes e < 2 ^ 63.
Definition usable (e : Entry) : Prop := widths e /\ sane e.

(** The manifest entries a point carries. *)
Definition point_entries (p : Point) : list EntryOpening :=
  p_entry p :: from_option (fun e => [e]) [] (p_partner p) ++ from_option (fun w : Weights => [w.1]) [] (p_bias p).

Section Total.
Context `{B3 : Blake3, L : Libm}.

Lemma draw_nonneg seed i j : 0 <= draw seed i j.
Proof. unfold draw. pose proof (from_le_fits (slice (blake3_hash (seed ++ to_le 4 i)) (8 * j) (8 * j + 8))) as [? _]. done. Qed.

Lemma open_entry_inr tier e idx entry : open_entry tier e idx = Ret (inr entry) ->
  idx = entry_index e /\ verify_entry (m_t tier) (n_entries tier) idx (entry_bytes e) (entry_path e) = Ret true
  /\ exists len, parse (entry_bytes e) = Some (entry, len).
Proof.
  unfold open_entry. intros [Hi (b & Hv & [Hb ([en len] & Hp & Hl)%try_inr]%bail_inr)%bind_inr]%bail_inr.
  apply ok_or_inr in Hp, Hl. destruct b; [|done]. rewrite negb_false_iff, Z.eqb_eq in Hi. split; [done|]. split; [done|].
  exists len. destruct (len =? _); congruence.
Qed.

Lemma open_entry_ok tier e idx : is_u64 (n_entries tier) -> 0 <= idx ->
  (forall entry, open_entry tier e (entry_index e) = Ret (inr entry) -> sane entry) -> yields usable (open_entry tier e idx).
Proof.
  intros Hn Hi HP. enough (exists r, open_entry tier e idx = Ret r) as [[r|entry] Hr].
  { rewrite Hr. by exists (inl r). }
  { rewrite Hr. exists (inr entry). split; [done|]. apply open_entry_inr in Hr as Hx. destruct Hx as (-> & _ & len & Hp).
    split; [by eapply parse_widths|by apply HP]. }
  unfold open_entry. destruct (negb _); [eauto|]. unfold verify_entry, rt_verify_leaf.
  destruct (rt_verify_range_total (m_t tier) (n_entries tier) idx [leaf (entry_bytes e)] (entry_path e) Hn Hi) as [b ->]. cbn [mbind res_bind].
  destruct (negb b); [eauto|]. unfold try_bind, ok_or. cbn [mbind res_bind].
  destruct (parse (entry_bytes e)) as [[en len]|]; eauto.
Qed.

Lemma zlen_chunks_exact n (l : list byte) : Forall (fun c => zlen c = Z.of_nat n) (chunks_exact n l).
Proof. apply Forall_forall. intros c Hc. unfold chunks_exact in Hc. apply list_elem_of_filter in Hc as [Hc _]. unfold zlen. lia. Qed.

Lemma open_bytes_ok tier entry r offset len : is_u64 (tier_n_chunks tier) -> is_u64 (n_bytes entry) -> is_u64 (chunk_base entry) ->
  0 <= offset -> 0 <= len -> offset + len < 2 ^ 63 ->
  yields (fun b => zlen b = len) (open_bytes tier entry r offset len).
Proof.
  intros Hn Hb Hc Ho Hl Hol. unfold open_bytes. cbv zeta. rewrite (wrap_id 64 (offset + len)) by (unfold fits; lia).
  apply yields_bail. intros [Hl0 _]%orb_false_iff. apply Z.eqb_neq in Hl0. rewrite (wrap_id 64 (offset + len - 1)) by (unfold fits; lia).
  set (a := offset / 32). set (b := (offset + len - 1) / 32).
  assert (Hab : 0 <= a <= b /\ (b - a + 1) * 32 >= offset mod 32 + len /\ (b - a + 1) * 32 < 2 ^ 64) by (unfold a, b; dlia).
  assert (Hspan : wrap 64 (wrap 64 (chunk_base entry + b) - wrap 64 (chunk_base entry + a) + 1) = b - a + 1).
  { unfold wrap. rewrite <- Zplus_mod_idemp_l, <- Zminus_mod, Zplus_mod_idemp_l. replace (_ - _ + 1) with (b - a + 1) by lia. apply Z.mod_small. lia. }
  rewrite Hspan, (wrap_id 64 ((b - a + 1) * 32)) by (unfold fits; lia).
  apply yields_bail. intros [_ Hlen]%orb_false_iff. rewrite negb_false_iff, Z.eqb_eq in Hlen.
  eapply yields_bind.
  { destruct (rt_verify_range_total (r_t tier) (tier_n_chunks tier) (wrap 64 (chunk_base entry + a)) (blake3_hash <$> chunks_exact 32 (range_chunks r)) (range_proof r) Hn) as [v Hv].
    - apply wrap_fits. lia.
    - rewrite Hv. by apply (returns_ret (fun _ => True)). }
  intros v _. apply yields_bail. intros _. eapply yields_bind; [apply returns_index_range; dlia|].
  intros bytes [_ Hz]. apply yields_ret. lia.
Qed.

Lemma row_in_bounds exp n row m rb : 0 <= exp < n -> 0 <= row < m -> 0 <= rb -> (exp * m + row) * rb + rb <= n * m * rb.
Proof. intros. assert (exp * m + row + 1 <= n * m) by nia. nia. Qed.

Lemma open_expert_row_ok tier entry r exp row : is_u64 (tier_n_chunks tier) -> usable entry -> 0 <= exp -> 0 <= row ->
  yields (fun b => zlen b = row_bytes entry) (open_expert_row tier entry r exp row).
Proof.
  intros Hn [(_ & Hk & Hm & Hx & Hc & Hb & Hrb & _) (_ & _ & Hsz)] He Hr. unfold open_expert_row. apply yields_bail. rewrite orb_false_iff, !Z.leb_gt. intros [? ?].
  cbv zeta. unfold fits in Hrb. pose proof (row_in_bounds exp (n_exp entry) row (e_m entry) (row_bytes entry)).
  assert (0 <= (exp * e_m entry + row) * row_bytes entry) by nia. rewrite wrap_id by (unfold fits; lia). apply open_bytes_ok; try done; lia.
Qed.

Definition drawn_ok (d : Drawn) : Prop :=
  usable (dr_gate d) /\ (forall u, dr_up d = Some u -> usable u) /\ 0 <= dr_t d /\ 0 <= dr_gate_rank d
  /\ (dr_up d = None -> glu_form (dr_gate d) = FORM_NONE \/ glu_form (dr_gate d) = FORM_SPLIT).

Definition element_ok (d : Drawn) (e : Element) : Prop :=
  0 <= el_slot e < el_n_used e /\ is_u32 (el_n_used e) /\ 0 <= el_row e < el_m_out e /\ el_m_out e <= e_m (dr_gate d)
  /\ (el_split e = true <-> glu_form (dr_gate d) = FORM_SPLIT).

Section Steps.
Context (tier : TierCtx) (p : Point) (Hn : is_u64 (n_entries tier)) (Hc : is_u64 (tier_n_chunks tier)).
Context (Hs : Forall (fun eo => forall e, open_entry tier eo (entry_index eo) = Ret (inr e) -> sane e) (point_entries p)).

Lemma open_usable eo idx : 0 <= idx -> eo ∈ point_entries p -> yields usable (open_entry tier eo idx).
Proof. intros Hi Heo. apply open_entry_ok; [done|done|]. by eapply Forall_forall in Hs. Qed.

Lemma drawn_position_ok resp out d0 : 0 <= d0 -> 0 <= n_pos resp -> yields (fun t => 0 <= t) (drawn_position resp out d0).
Proof.
  intros Hd Hp. unfold drawn_position. destruct out.
  - eapply yields_try; [by apply (yields_ok_or (fun _ => True))|]. intros fp _. eapply yields_try; [by apply (yields_ok_or (fun _ => True))|].
    intros n _. apply yields_ret. apply (wrap_fits 64). lia.
  - apply yields_ret. destruct (Z.eqb_spec (n_pos resp) 0) as [->|]; [by rewrite Zmod_0_r|]. apply Z.mod_pos_bound. lia.
Qed.

Lemma drawn_gate_ok first rank : usable first -> 0 <= rank ->
  yields (fun '(g, gr, up) => usable g /\ (forall u, up = Some u -> usable u) /\ 0 <= gr
    /\ (up = None -> glu_form g = FORM_NONE \/ glu_form g = FORM_SPLIT)) (drawn_gate tier p first rank).
Proof.
  intros Hf Hr. unfold drawn_gate. destruct ((glu_form first =? FORM_NONE) || _) eqn:Hform.
  - apply yields_bail. intros _. apply yields_ret. rewrite orb_true_iff, !Z.eqb_eq in Hform. split_and!; try done.
  - destruct ((glu_form first =? FORM_PAIR_GATE) || _) eqn:Hpair; [|apply yields_err].
    eapply yields_try; [by apply (yields_ok_or (fun po => p_partner p = Some po))|]. intros po Hpo.
    pose proof Hf as [(_ & _ & _ & _ & _ & _ & _ & [Hpp _] & _) _].
    eapply yields_try; [apply open_usable; [done|by unfold point_entries; rewrite Hpo; right; left]|]. intros other Ho. apply yields_bail. intros _. apply yields_ret.
    destruct (glu_form first =? FORM_PAIR_GATE); (split; [done|split; [by intros u [= <-]|by split]]).
Qed.

Lemma drawn_yields resp seed i : 0 <= n_pos resp -> 0 <= n_products tier -> yields drawn_ok (drawn tier resp seed i p).
Proof.
  intros Hp Hnp. unfold drawn. apply yields_bail. intros _. apply yields_bail. intros [Hz _]%orb_false_iff. apply Z.eqb_neq in Hz. cbv zeta.
  assert (0 <= draw seed i 1 mod n_products tier) by (apply Z.mod_pos_bound; lia).
  eapply yields_try; [apply open_usable; [done|by left]|]. intros first Hf. apply yields_bail. intros _.
  eapply yields_try; [apply drawn_position_ok; [apply draw_nonneg|done]|]. intros t Ht.
  eapply yields_try; [by apply drawn_gate_ok|]. intros [[g gr] up] (Hg & Hu & Hgr & Hform). apply yields_ret. by split_and!.
Qed.

Lemma drawn_element_yields seed i d shape ids : drawn_ok d -> is_u32 (ps_n_used shape) -> yields (element_ok d) (drawn_element seed i d shape ids).
Proof.
  intros (((_ & _ & [Hm _] & Hx & _) & _) & _) Hu. unfold drawn_element. cbv zeta. apply yields_bail. intros Hsh. apply yields_bail. intros _.
  rewrite !orb_false_iff in Hsh. destruct Hsh as [[_ He] Hh].
  set (experts := (1 <? n_exp (dr_gate d)) && negb (role (dr_first d) =? ROLE_HEADS)) in *.
  set (n_used := if experts then ps_n_used shape else if role (dr_first d) =? ROLE_HEADS then n_exp (dr_gate d) else 1).
  assert (Hused : 0 < n_used < 2 ^ 32).
  { unfold n_used, fits in *. destruct experts; [cbn in He; apply Z.eqb_neq in He; lia|].
    destruct (role (dr_first d) =? ROLE_HEADS); [|lia]. cbn in Hh. apply orb_false_iff in Hh as [Hh _]. apply Z.ltb_ge in Hh. lia. }
  apply yields_bail. intros Hz%Z.eqb_neq. apply yields_ret. unfold element_ok. cbn [el_slot el_n_used el_row el_m_out el_split].
  assert (Hmo : 0 < (if glu_form (dr_gate d) =? FORM_SPLIT then e_m (dr_gate d) / 2 else e_m (dr_gate d)) <= e_m (dr_gate d)) by (destruct (_ =? FORM_SPLIT); dlia).
  split; [|split; [|split; [|split]]].
  - destruct (Z.ltb_spec 1 n_used); [apply Z.mod_pos_bound|]; lia.
  - unfold fits. lia.
  - apply Z.mod_pos_bound. lia.
  - apply Hmo.
  - apply Z.eqb_eq.
Qed.

Lemma x_len_small k layout : 0 <= k < 2 ^ 30 -> 0 <= x_len k layout < 2 ^ 31.
Proof.
  intros Hk. unfold x_len, div_ceil, MATRIX_ROW_PADDING. rewrite (wrap_id 64 (_ * 512)) by (unfold fits; dlia).
  destruct (layout =? MMVQ); rewrite wrap_id by (unfold fits; dlia); dlia.
Qed.

Lemma input_row_yields x_one n_used slot : 0 <= x_one < 2 ^ 31 -> 0 <= slot < n_used -> is_u32 n_used ->
  yields (fun _ => True) (input_row p x_one n_used slot).
Proof.
  intros Hx Hsl Hu. unfold fits in Hu. unfold input_row. cbv zeta. destruct (_ =? x_one); [by apply yields_ret|].
  assert (n_used * x_one < 2 ^ 63) by nia. rewrite !wrap_id by (unfold fits; nia). destruct (_ && _) eqn:E; [|apply yields_err].
  rewrite andb_true_iff, Z.ltb_lt, Z.eqb_eq in E. eapply yields_bind; [apply returns_index_range; nia|]. intros x _. by apply yields_ret.
Qed.

Lemma output_size d e : drawn_ok d -> element_ok d e ->
  let body := el_n_used e * el_m_out e * 4 in let y_off := (el_slot e * el_m_out e + el_row e) * 4 in
  0 <= y_off /\ y_off + 4 <= body /\ body + 4 * el_n_used e < 2 ^ 63
  /\ wrap 64 (wrap 64 (el_n_used e * el_m_out e) * 4) = body /\ wrap 64 (wrap 64 (el_slot e * el_m_out e + el_row e) * 4) = y_off
  /\ wrap 64 (body + if el_experts e then 4 * el_n_used e else 0) = body + if el_experts e then 4 * el_n_used e else 0.
Proof.
  intros (((_ & _ & [Hm0 _] & _) & (_ & Hm & _)) & _) (Hsl & Hu & Hr & Hmo & _). unfold fits in Hu. cbv zeta.
  assert (Hoff : 0 <= el_slot e * el_m_out e + el_row e < el_n_used e * el_m_out e) by nia.
  assert (Hbody : el_n_used e * el_m_out e <= (2 ^ 32 - 1) * (2 ^ 29 - 1)) by nia.
  rewrite !(wrap_id 64 (el_n_used e * el_m_out e)), !(wrap_id 64 (el_slot e * el_m_out e + el_row e)) by (unfold fits; lia).
  split_and!; try lia; rewrite wrap_id; try done; unfold fits; destruct (el_experts e); lia.
Qed.

Lemma open_output_yields d e shape root : drawn_ok d -> element_ok d e ->
  yields (fun _ => True) (open_output p d e shape root).
Proof.
  intros Hd He. destruct (output_size d e Hd He) as (Ho & Hb & Hs63 & Eb & Eo & Et). unfold open_output. cbv zeta. rewrite Eb, Eo, Et. clear Eb Eo Et.
  apply yields_bail. intros _. apply yields_bail. rewrite orb_false_iff, !negb_false_iff, !Z.eqb_eq. intros [Hl Hci].
  set (y_off := (el_slot e * el_m_out e + el_row e) * 4) in *. set (body := el_n_used e * el_m_out e * 4) in *.
  eapply (yields_try (fun _ => y_off mod B3_CHUNK + 4 <= zlen (p_y_chunk p))).
  - apply yields_ok_or. intros h Hh. unfold B3_CHUNK in *.
    assert (Hu : 0 <= el_n_used e) by (destruct He as (? & ? & _); lia).
    apply b3_leaf_from_chunk_chunks in Hh as [_ Hz]; [|dlia|rewrite Hl; destruct (el_experts e); lia]. rewrite Hz, Hl, Hci.
    assert (y_off mod 4 = 0) by (unfold y_off; apply Z_mod_mult). unfold B3_CHUNK. destruct (el_experts e); dlia.
  - intros y_leaf Hz. apply yields_bail. intros _. eapply yields_bind; [apply returns_index_range; unfold B3_CHUNK in *; dlia|].
    intros y _. by apply yields_ret.
Qed.

Lemma open_expert_yields d e ids y_leaf y_total : 0 <= el_slot e -> yields (fun x => 0 <= x) (open_expert d e ids y_leaf y_total).
Proof.
  intros Hsl. unfold open_expert. destruct ids as [ids|]; [|by apply yields_ret]. apply yields_bail. intros _.
  eapply yields_try; [by apply (yields_ok_or (fun _ => True))|]. intros b _. apply yields_bail. intros _. apply yields_ret. apply from_le_fits.
Qed.

Lemma dot_row_yields k x layout exp entry r row : 0 <= k < 2 ^ 30 -> usable entry -> 0 <= exp -> 0 <= row ->
  yields (fun _ => True) (dot_row tier k x layout exp entry r row).
Proof.
  intros Hk He Hx Hr. unfold dot_row. eapply yields_try; [by apply open_expert_row_ok|]. intros bytes _.
  destruct (dot_returns (wtype entry) bytes k x layout) as [o ->]; [lia|]. by apply yields_ok_or.
Qed.

Lemma open_bias_yields g row : usable g -> 0 <= row < 2 ^ 29 -> yields (fun _ => True) (open_bias tier p g row).
Proof.
  intros Hg Hr. unfold open_bias. destruct (p_bias p) as [[be br]|] eqn:Hpb; [|destruct (_ =? _); [by apply yields_ret|apply yields_err]].
  apply yields_bail. intros _. pose proof Hg as [(_ & _ & _ & _ & _ & _ & _ & _ & [Hb _] & _) _].
  eapply yields_try; [apply open_usable; [done|by unfold point_entries; rewrite Hpb; right; apply elem_of_app; right; left]|].
  intros entry [(_ & _ & _ & _ & Hcb & Hnb & _) _]. apply yields_bail. intros _.
  rewrite wrap_id by (unfold fits; lia). eapply yields_try; [apply open_bytes_ok; try done; lia|]. intros v _. by apply yields_ret.
Qed.

Lemma recompute_yields d e x layout exp : drawn_ok d -> element_ok d e -> 0 <= exp -> yields (fun _ => True) (recompute tier p d e x layout exp).
Proof.
  intros Hd He Hx. pose proof Hd as (Hg & Hup & _ & _ & Hform). pose proof He as (_ & _ & Hr & Hmo & Hsp). pose proof Hg as [(_ & [Hk0 _] & [Hm0 _] & _) (Hk & Hm & _)].
  unfold recompute. cbv zeta. destruct (Z.eqb_spec (glu_form (dr_gate d)) FORM_NONE) as [Hn0|Hn0].
  - destruct (p_rows p) as [|r0 [|? ?]]; [apply yields_err| |apply yields_err].
    eapply yields_try; [apply dot_row_yields; try done; lia|]. intros r _. eapply yields_try; [apply open_bias_yields; try done; lia|].
    intros b _. by apply yields_ret.
  - destruct (p_rows p) as [|r0 [|r1 [|? ?]]]; try apply yields_err. destruct (p_bias p); [apply yields_err|].
    eapply yields_try; [apply dot_row_yields; try done; lia|]. intros rg _.
    eapply (yields_try (fun _ => True)).
    + destruct (el_split e) eqn:Es; [rewrite wrap_id by (unfold fits; lia); apply dot_row_yields; try done; lia|].
      destruct (dr_up d) as [u|] eqn:Eu; [apply dot_row_yields; try done; [by apply Hup|lia]|].
      exfalso. destruct (Hform eq_refl) as [?|?%Hsp]; congruence.
    + intros ru _. eapply yields_try; [by apply (yields_ok_or (fun _ => True))|]. intros [f df] _. by apply yields_ret.
Qed.

(** An accepted point has a usable product and a slot. *)
Lemma verify_point_yields resp seed i shape ids : is_u64 (n_products tier) -> is_u32 (n_pos resp) -> is_u32 (ps_n_used shape) ->
  yields (fun '(rep, o) => usable (op_input o) /\ 0 <= op_slot o < 2 ^ 32 /\ 0 <= rep_t rep) (verify_point_at tier resp seed i p shape ids).
Proof.
  intros Hp Hr Hu.
  unfold verify_point_at. eapply yields_try; [apply drawn_yields; [apply Hr|apply Hp]|]. intros d Hd.
  eapply yields_try; [by apply drawn_element_yields|]. intros e He. cbv zeta.
  pose proof Hd as (((_ & [Hk0 _] & _) & (Hk & _)) & _). pose proof He as (Hsl & Hnu & _).
  eapply yields_try; [apply input_row_yields; [by apply x_len_small|done|done]|]. intros x _.
  eapply (yields_try (fun _ => True)).
  { unfold open_position. eapply yields_try; [by apply (yields_ok_or (fun _ => True))|]. intros root _.
    do 3 (apply yields_bail; intros _). by apply yields_ret. }
  intros root _. eapply yields_try; [by apply open_output_yields|]. intros [[y y_leaf] y_total] _.
  eapply yields_try; [apply open_expert_yields, Hsl|]. intros exp Hexp.
  destruct (sums_consistent_returns x (input_layout (role (dr_first d)) (p_n_ubatch p) (wtype (dr_gate d))) (e_k (dr_gate d))) as [v ->]; [lia|].
  cbn [mbind res_bind]. apply yields_bail. intros _.
  eapply yields_try; [by apply recompute_yields|]. intros [yh tol] _. apply yields_bail. intros _. apply yields_ret. cbn. unfold fits in Hnu. split; [exact (proj1 Hd)|split; [lia|apply Hd]].
Qed.
Lemma verify_point_returns resp seed i shape ids : is_u64 (n_products tier) -> is_u32 (n_pos resp) -> is_u32 (ps_n_used shape) ->
  exists r, verify_point_at tier resp seed i p shape ids = Ret r.
Proof. intros Hp Hr Hu. destruct (verify_point_yields resp seed i shape ids Hp Hr Hu) as (r & -> & _). by exists r. Qed.
End Steps.
End Total.

(** ** A point has one accepted reading *)

(** Two different inputs of BLAKE3, of one of its merges or of one of its chunks, with one digest. *)
Definition opening_collision `{B3 : Blake3} : Prop :=
  (exists a b, a <> b /\ blake3_hash a = blake3_hash b) \/ merge_collision \/ chunk_collision.

Section Unique.
Context `{B3 : Blake3} {BL : Blake3Lengths} {BC : Blake3Chunks} {L : Libm}.

Lemma hash_agree a b : blake3_hash a = blake3_hash b -> a = b \/ opening_collision.
Proof. destruct (decide (a = b)); [by left|]. intros ?. right. left. by exists a, b. Qed.
Lemma rt_collides : blake3_collision -> opening_collision.
Proof. intros (x & y & ? & _ & _ & ?). left. by exists x, y. Qed.

Lemma b3_fold_hash n i a p h : is_hash a -> Forall is_hash p -> b3_fold n i a p = Some h -> is_hash h.
Proof.
  unfold b3_fold. destruct (_ || _); [done|]. generalize (levels n) as fuel. intros fuel. revert n i a p.
  induction fuel as [|fuel IH]; intros n i a p Ha Hp; cbn [b3_fold_loop]; destruct (n <=? 1); cbn [mbind option_bind]; try done.
  1-2: by destruct (zlen p =? 0); intros [= <-].
  destruct (Z.even n || _); [|cbn [mbind option_bind]; by apply IH]. unfold next_proof.
  destruct p as [|s p]; [done|]. apply Forall_cons in Hp as [Hs Hp]. cbn [mbind option_bind].
  apply IH; [|done]. destruct (Z.even i); apply b3_merge_len.
Qed.

Lemma b3_leaf_from_chunk_hash total c chunk path h : Forall is_hash path -> b3_leaf_from_chunk total c chunk path = Some h -> is_hash h.
Proof.
  intros Hp. unfold b3_leaf_from_chunk. destruct (if _ <? _ then _ else _); [|done]. cbn [mbind option_bind].
  destruct (_ || _); [done|]. destruct (_ =? 1).
  - destruct (_ =? 0); [|done]. intros [= <-]. apply blake3_hash_len.
  - apply b3_fold_hash; [|done]. apply chunk_chaining_value_len.
Qed.

Lemma hashes_agree (l l' : list (list byte)) : blake3_hash <$> l = blake3_hash <$> l' -> l = l' \/ opening_collision.
Proof.
  revert l'. induction l as [|a l IH]; intros [|b l'] H; try done; [by left|]. cbn in H. injection H as Hab Hl.
  destruct (hash_agree _ _ Hab) as [->|]; [|by right]. destruct (IH _ Hl) as [->|]; [by left|by right].
Qed.

Lemma hashed_chunks_agree (l l' : list byte) : zlen l mod 32 = 0 -> zlen l' mod 32 = 0 ->
  blake3_hash <$> chunks_exact 32 l = blake3_hash <$> chunks_exact 32 l' -> l = l' \/ opening_collision.
Proof.
  intros Hl Hl'. rewrite !chunks_exact_all by (done || lia). intros [Heq|]%hashes_agree; [left|by right].
  rewrite <- (concat_chunks 32 ltac:(lia) l), Heq. by apply concat_chunks; lia.
Qed.

Section Committed.
Context (tier : TierCtx) (Hn : is_u64 (n_entries tier)) (Hc : is_u64 (tier_n_chunks tier)).

Lemma open_entry_agree eo eo' idx e e' : 0 <= idx -> entry_ok eo -> entry_ok eo' ->
  open_entry tier eo idx = Ret (inr e) -> open_entry tier eo' idx = Ret (inr e') -> e = e' \/ opening_collision.
Proof.
  intros Hi (_ & _ & _ & Hp) (_ & _ & _ & Hp') H H'. unfold open_entry, verify_entry, rt_verify_leaf in H, H'. accepted H. accepted H'.
  destruct a, a1; try done.
  destruct (rt_verify_range_agree (m_t tier) (n_entries tier) idx [leaf (entry_bytes eo)] (entry_path eo) [leaf (entry_bytes eo')] (entry_path eo'))
    as [[= Hleaf]|]; try done; [by repeat constructor; apply blake3_hash_len..| |right; by apply rt_collides].
  destruct (hash_agree _ _ Hleaf) as [Hb|]; [left|by right].
  apply ok_or_inr in E0, E2. rewrite Hb in E0. rewrite E0 in E2. injection E2 as ->. destruct a2 as [en len]. apply ok_or_inr in H, H'.
  destruct (len =? _), (len =? _); congruence.
Qed.

Lemma wrap_mult32 x : wrap 64 (x * 32) mod 32 = 0.
Proof. unfold wrap. replace (2 ^ 64) with (32 * 2 ^ 59) by done. rewrite (Z.mul_comm x), Zmult_mod_distr_l, Z.mul_comm. apply Z_mod_mult. Qed.

Lemma open_bytes_agree entry r r' o n b b' : range_ok r -> range_ok r' ->
  open_bytes tier entry r o n = Ret (inr b) -> open_bytes tier entry r' o n = Ret (inr b') -> b = b' \/ opening_collision.
Proof.
  intros (_ & _ & _ & Hp) (_ & _ & _ & Hp') H H'. unfold open_bytes in H, H'. accepted H. accepted H'. subst a0 a2. destruct a, a1; try done.
  rewrite orb_false_iff, !negb_false_iff, !Z.eqb_eq in G0, G3. destruct G0 as [_ Hl], G3 as [_ Hl'].
  assert (Hh : forall l : list (list byte), Forall is_hash (blake3_hash <$> l)) by (intros l; apply Forall_fmap, Forall_true; intros; apply blake3_hash_len).
  assert (Hlen : forall l : list byte, zlen l mod 32 = 0 -> zlen (blake3_hash <$> chunks_exact 32 l) = div_ceil (zlen l) 32).
  { intros l Hm. rewrite zlen_fmap, chunks_exact_all by (done || lia). unfold zlen at 1. by rewrite length_chunks by lia. }
  destruct (rt_verify_range_agree (r_t tier) (tier_n_chunks tier) (wrap 64 (chunk_base entry + o / 32)) (blake3_hash <$> chunks_exact 32 (range_chunks r)) (range_proof r)
    (blake3_hash <$> chunks_exact 32 (range_chunks r')) (range_proof r')) as [Heq|]; try done; [apply wrap_fits; lia| | |right; by apply rt_collides].
  - rewrite !Hlen by (rewrite ?Hl, ?Hl'; apply wrap_mult32). congruence.
  - apply hashed_chunks_agree in Heq as [Heq|]; [|by right|rewrite ?Hl, ?Hl'; apply wrap_mult32..]. left. rewrite Heq in E0. congruence.
Qed.

Lemma open_expert_row_agree entry r r' exp row b b' : range_ok r -> range_ok r' ->
  open_expert_row tier entry r exp row = Ret (inr b) -> open_expert_row tier entry r' exp row = Ret (inr b') -> b = b' \/ opening_collision.
Proof. intros Hr Hr' H H'. unfold open_expert_row in H, H'. accepted H. accepted H'. by eapply (open_bytes_agree entry r r'). Qed.

Lemma dot_row_agree k x layout exp entry r r' row v v' : range_ok r -> range_ok r' ->
  dot_row tier k x layout exp entry r row = Ret (inr v) -> dot_row tier k x layout exp entry r' row = Ret (inr v') -> v = v' \/ opening_collision.
Proof.
  intros Hr Hr' H H'. unfold dot_row in H, H'. accepted H. accepted H'. apply ok_or_inr in H, H'.
  destruct (open_expert_row_agree entry r r' exp row a a1) as [->|]; try done; [left; congruence|by right].
Qed.

Lemma open_bias_agree p p' g row v v' : is_u32 (bias g) -> option_ok weights_ok (p_bias p) -> option_ok weights_ok (p_bias p') ->
  open_bias tier p g row = Ret (inr v) -> open_bias tier p' g row = Ret (inr v') -> v = v' \/ opening_collision.
Proof.
  intros [Hg _] Hb Hb' H H'. unfold open_bias in H, H'.
  destruct (p_bias p) as [[be br]|], (p_bias p') as [[be' br']|]; cbn [option_ok] in Hb, Hb'; destruct (bias g =? NONE); try done; [|left; congruence].
  destruct Hb as [Hbe Hbr], Hb' as [Hbe' Hbr']. accepted H. accepted H'. subst.
  destruct (open_entry_agree be be' (bias g) a a1) as [->|]; try done; [|by right].
  destruct (open_bytes_agree a1 br br' (wrap 64 (row * 4)) 4 a0 a2) as [->|]; try done; [by left|by right].
Qed.

Lemma open_entry_widths eo idx e : open_entry tier eo idx = Ret (inr e) -> widths e.
Proof. intros (_ & _ & len & Hp)%open_entry_inr. by eapply parse_widths. Qed.

Lemma drawn_gate_agree p p' first rank v v' : widths first -> option_ok entry_ok (p_partner p) -> option_ok entry_ok (p_partner p') ->
  drawn_gate tier p first rank = Ret (inr v) -> drawn_gate tier p' first rank = Ret (inr v') -> v = v' \/ opening_collision.
Proof.
  intros Hw Hp Hp' H H'. unfold drawn_gate in H, H'. destruct (_ || _).
  - accepted H. accepted H'. left. congruence.
  - destruct (_ || _); [|done]. accepted H. accepted H'. apply ok_or_inr in E, E1. rewrite E in Hp. rewrite E1 in Hp'.
    assert (0 <= partner first) by apply Hw.
    destruct (open_entry_agree a a1 (partner first) a0 a2) as [->|]; try done; [left; congruence|by right].
Qed.

Lemma drawn_agree resp seed i p p' d d' : point_ok p -> point_ok p' -> is_u64 (n_products tier) ->
  drawn tier resp seed i p = Ret (inr d) -> drawn tier resp seed i p' = Ret (inr d') -> d = d' \/ opening_collision.
Proof.
  intros (_ & _ & _ & He & Hp & _) (_ & _ & _ & He' & Hp' & _) [Hnp _] H H'. unfold drawn in H, H'. accepted H. accepted H'.
  rewrite orb_false_iff, Z.eqb_neq in G0. assert (0 <= draw seed i 1 mod n_products tier) by (apply Z.mod_pos_bound; lia).
  destruct (open_entry_agree (p_entry p) (p_entry p') (draw seed i 1 mod n_products tier) a a2) as [->|]; try done; [|by right].
  assert (a0 = a3) as -> by congruence.
  destruct (drawn_gate_agree p p' a2 (draw seed i 1 mod n_products tier) a1 a4) as [->|]; try done; [by eapply open_entry_widths|left; congruence|by right].
Qed.

Lemma drawn_facts resp seed i p d : is_u64 (n_pos resp) -> drawn tier resp seed i p = Ret (inr d) -> 0 <= dr_t d /\ widths (dr_gate d).
Proof.
  intros [Hp _] H. unfold drawn in H. accepted H. destruct a1 as [[g gr] up]. apply ret_inr in H. subst d. cbn [dr_t dr_gate]. split.
  - destruct (role a =? ROLE_OUTPUT); unfold drawn_position in E0; accepted E0; subst a0; [apply (wrap_fits 64); lia|].
    pose proof (draw_nonneg seed i 0). destruct (Z.eqb_spec (n_pos resp) 0) as [->|]; [by rewrite Zmod_0_r|apply Z.mod_pos_bound; lia].
  - apply open_entry_widths in E. unfold drawn_gate in E1. clear G G0. destruct (_ || _); [accepted E1; congruence|]. destruct (_ || _); [|done].
    accepted E1. apply open_entry_widths in E3. clear E2 G. destruct (glu_form a =? _); congruence.
Qed.

Lemma open_position_agree resp p p' d shape rt rt' : point_ok p -> point_ok p' -> is_u64 (n_pos resp) -> 0 <= dr_t d -> is_u64 (ps_n_leaves shape) ->
  open_position resp p d shape = Ret (inr rt) -> open_position resp p' d shape = Ret (inr rt') -> (rt = rt' /\ p_x p = p_x p') \/ opening_collision.
Proof.
  intros (_ & [_ Hpp] & _ & _ & _ & _ & _ & _ & [_ Hxp] & _) (_ & [_ Hpp'] & _ & _ & _ & _ & _ & _ & [_ Hxp'] & _) Hnp Ht Hnl H H'.
  unfold open_position in H, H'. accepted H. accepted H'. subst a a0. rewrite !negb_false_iff in *. apply ok_or_inr in E, E0.
  assert (Hr : is_hash rt) by exact (b3_fold_hash _ _ _ _ _ (blake3_hash_len _) Hxp E).
  assert (Hr' : is_hash rt') by exact (b3_fold_hash _ _ _ _ _ (blake3_hash_len _) Hxp' E0).
  destruct (b3_verify_agree (resp_trace_root resp) (n_pos resp) (dr_t d) rt (p_pos_path p) rt' (p_pos_path p')) as [->|]; try done; [|by right; right; left].
  destruct (b3_fold_agree (ps_n_leaves shape) (wrap 64 (2 * dr_gate_rank d)) (blake3_hash (p_x p)) (p_x_path p) (blake3_hash (p_x p')) (p_x_path p') rt')
    as [Hh|]; try done; [apply wrap_fits; lia|apply blake3_hash_len..| |by right; right; left].
  destruct (hash_agree _ _ Hh); [by left|by right].
Qed.

Lemma chunk_agree total c b p b' p' h : is_u32 total -> 0 < total -> 0 <= c -> hashes_ok p -> hashes_ok p' ->
  b3_leaf_from_chunk total c b p = Some h -> b3_leaf_from_chunk total c b' p' = Some h -> b = b' \/ opening_collision.
Proof.
  intros [_ Ht] Hpos Hc0 [_ Hp] [_ Hp'] H H'. destruct (b3_leaf_from_chunk_agree total c b p b' p' h) as [->|?]; try done; [unfold fits in *; lia|by left|by right; right].
Qed.

(** A chunk read at a position is not empty, so neither is its input. *)
Lemma chunk_total total c chunk path h o y : is_u32 total -> 0 <= c -> 0 <= o ->
  b3_leaf_from_chunk total c chunk path = Some h -> index_range chunk o (o + 4) = Ret y -> 0 < total.
Proof.
  intros [H0 _] Hc0 Ho H Hy. destruct (Z.eqb_spec total 0) as [->|]; [exfalso|lia].
  assert (Hz : o + 4 <= zlen chunk).
  { unfold index_range in Hy. destruct (get_range chunk o (o + 4)) eqn:E; [|done]. by apply get_range_Some_le in E. }
  unfold b3_leaf_from_chunk in H. change (Z.max (div_ceil 0 B3_CHUNK) 1) with 1 in H.
  destruct (Z.ltb_spec (wrap 64 (c + 1)) 1); cbn [mbind option_bind] in H.
  - destruct (Z.leb_spec 1 c); [done|]. assert (c = 0) as -> by lia. done.
  - unfold checked_sub in H. destruct (_ <=? 0); [|done]. cbn [mbind option_bind] in H.
    destruct (Z.leb_spec 1 c); [done|]. assert (c = 0) as -> by lia. cbn [orb] in H.
    destruct (Z.eqb_spec (zlen chunk) (0 - wrap 64 (0 * B3_CHUNK))) as [Hl|]; [|done]. rewrite Hl in Hz. change (wrap 64 (0 * B3_CHUNK)) with 0 in Hz. lia.
Qed.

Lemma open_output_agree p p' d e shape rt v v' : point_ok p -> point_ok p' -> is_u64 (ps_n_leaves shape) ->
  open_output p d e shape rt = Ret (inr v) -> open_output p' d e shape rt = Ret (inr v') -> (v = v' /\ is_u32 v.2 /\ 0 < v.2) \/ opening_collision.
Proof.
  intros (_ & _ & _ & _ & _ & _ & _ & _ & _ & Htl & Hci & _ & Hcp & Hyp) (_ & _ & _ & _ & _ & _ & _ & _ & _ & Htl' & Hci' & _ & Hcp' & Hyp') Hnl H H'.
  unfold open_output in H, H'. accepted H. accepted H'. subst v v'. cbn [snd].
  rewrite orb_false_iff, !negb_false_iff, !Z.eqb_eq in G0, G3. destruct G0 as [Ht Hi], G3 as [Ht' Hi']. rewrite negb_false_iff in G1, G4. apply ok_or_inr in E, E1.
  destruct (b3_verify_agree rt (ps_n_leaves shape) (wrap 64 (2 * dr_gate_rank d + 1)) a (p_y_path p) a1 (p_y_path p')) as [->|];
    try done; [apply wrap_fits; lia|by eapply b3_leaf_from_chunk_hash; [apply Hcp|]|by eapply b3_leaf_from_chunk_hash; [apply Hcp'|]|apply Hyp|apply Hyp'| |by right; right; left].
  assert (0 < p_y_total_len p) by (eapply chunk_total; [done|apply Hci| |exact E|exact E0]; by apply Z.mod_pos_bound).
  rewrite Ht', Hi', <- Ht, <- Hi in E1.
  destruct (chunk_agree (p_y_total_len p) (p_y_chunk_index p) (p_y_chunk p) (p_y_chunk_path p) (p_y_chunk p') (p_y_chunk_path p') a1) as [Hc'|];
    try done; [apply Hci| |by right]. left. rewrite <- Ht. split; [|done]. rewrite Hc' in E0. congruence.
Qed.

Lemma open_expert_agree d e ids ids' h total v v' : is_u32 total -> 0 < total -> option_ok expert_ids_ok ids -> option_ok expert_ids_ok ids' ->
  bool_decide (is_Some ids) = bool_decide (is_Some ids') ->
  open_expert d e ids h total = Ret (inr v) -> open_expert d e ids' h total = Ret (inr v') -> v = v' \/ opening_collision.
Proof.
  intros Ht Hp Hi Hi' Hsame H H'. unfold open_expert in H, H'.
  destruct ids as [s|], ids' as [s'|]; [|done|done|left; congruence].
  accepted H. accepted H'. subst v v'. rewrite negb_false_iff, bool_decide_eq_true in G, G1. apply ok_or_inr in E, E0.
  assert (Hl : 0 <= wrap 64 (wrap 64 (el_n_used e * el_m_out e) * 4) / B3_CHUNK) by (apply Z.div_pos; [apply wrap_fits; lia|done]).
  destruct (chunk_agree total _ _ _ _ _ h Ht Hp Hl (proj2 Hi) (proj2 Hi') G G1) as [Hc'|]; [left|by right].
  rewrite Hc' in E. congruence.
Qed.

Lemma drawn_element_agree seed i d shape b b' e e' :
  drawn_element seed i d shape b = Ret (inr e) -> drawn_element seed i d shape b' = Ret (inr e') -> e = e' /\ b = b'.
Proof.
  intros H H'. unfold drawn_element in H, H'. accepted H. accepted H'. split; [congruence|].
  rewrite !orb_false_iff in G, G2. destruct G as [[Hb _] _], G2 as [[Hb' _] _].
  destruct (_ && negb _), b, b'; done.
Qed.

Lemma recompute_agree p p' d e x layout exp v v' : widths (dr_gate d) -> point_ok p -> point_ok p' ->
  recompute tier p d e x layout exp = Ret (inr v) -> recompute tier p' d e x layout exp = Ret (inr v') -> v = v' \/ opening_collision.
Proof.
  intros (_ & _ & _ & _ & _ & _ & _ & _ & Hg & _) (_ & _ & _ & _ & _ & Hb & [_ Hr] & _) (_ & _ & _ & _ & _ & Hb' & [_ Hr'] & _) H H'.
  unfold recompute in H, H'. cbv zeta in H, H'. destruct (_ =? FORM_NONE).
  - destruct (p_rows p) as [|r0 [|? ?]]; try done. destruct (p_rows p') as [|r0' [|? ?]]; try done. accepted H. accepted H'.
    apply Forall_inv in Hr, Hr'.
    destruct (dot_row_agree (e_k (dr_gate d)) x layout exp (dr_gate d) r0 r0' (el_row e) a a1) as [->|]; try done; [|by right].
    destruct (open_bias_agree p p' (dr_gate d) (el_row e) a0 a2) as [->|]; try done; [left; congruence|by right].
  - destruct (p_rows p) as [|r0 [|r1 [|? ?]]]; try done. destruct (p_rows p') as [|r0' [|r1' [|? ?]]]; try done.
    destruct (p_bias p), (p_bias p'); try done. accepted H. accepted H'.
    apply Forall_cons in Hr as [Hr0 Hr1], Hr' as [Hr0' Hr1']. apply Forall_inv in Hr1, Hr1'.
    destruct (dot_row_agree (e_k (dr_gate d)) x layout exp (dr_gate d) r0 r0' (el_row e) a a2) as [->|]; try done; [|by right].
    assert (a0 = a3 \/ opening_collision) as [->|]; [|left|by right].
    { destruct (el_split e); [|destruct (dr_up d); [|done]].
      - by eapply (dot_row_agree (e_k (dr_gate d)) x layout exp (dr_gate d) r1 r1').
      - by eapply (dot_row_agree (e_k (dr_gate d)) x layout exp e0 r1 r1'). }
    apply ok_or_inr in E1, E4. rewrite E1 in E4. injection E4 as ->. destruct a4. congruence.
Qed.

Lemma verify_point_agree resp seed i shape p ids r p' ids' r' :
  is_u64 (n_products tier) -> is_u64 (n_pos resp) -> is_u64 (ps_n_leaves shape) -> point_ok p -> point_ok p' ->
  option_ok expert_ids_ok ids -> option_ok expert_ids_ok ids' ->
  verify_point_at tier resp seed i p shape ids = Ret (inr r) -> verify_point_at tier resp seed i p' shape ids' = Ret (inr r') ->
  r = r' \/ opening_collision.
Proof.
  intros Hnp Hpos Hnl Hp Hp' Hi Hi' H H'. unfold verify_point_at in H, H'.
  apply try_inr in H as (d & Hd & H), H' as (d' & Hd' & H').
  destruct (drawn_agree resp seed i p p' d d') as [->|]; try done; [|by right]. destruct (drawn_facts _ _ _ _ _ Hpos Hd) as [Ht Hw].
  apply try_inr in H as (e & He & H), H' as (e' & He' & H'). destruct (drawn_element_agree _ _ _ _ _ _ _ _ He He') as [<- Hids].
  cbv zeta in H, H'. apply try_inr in H as (x & Hx & H), H' as (x' & Hx' & H').
  apply try_inr in H as (rt & Hrt & H), H' as (rt' & Hrt' & H').
  assert (Hub : p_n_ubatch p = p_n_ubatch p').
  { unfold open_position in Hrt, Hrt'. accepted Hrt. accepted Hrt'. rewrite negb_false_iff, Z.eqb_eq in *. congruence. }
  destruct (open_position_agree resp p p' d' shape rt rt') as [[<- Hpx]|]; try done; [|by right].
  apply try_inr in H as (y & Hy & H), H' as (y' & Hy' & H').
  destruct (open_output_agree p p' d' e shape rt y y') as [[<- [Hu H0]]|]; try done; [|by right]. destruct y as [[y y_leaf] y_total].
  apply try_inr in H as (exp & Hexp & H), H' as (exp' & Hexp' & H').
  destruct (open_expert_agree d' e ids ids' y_leaf y_total exp exp') as [<-|]; try done; [|by right].
  assert (x = x') as <- by (unfold input_row in Hx, Hx'; rewrite Hub, Hpx in Hx; congruence). rewrite Hub in H.
  apply bind_inr in H as (v & _ & [_ H]%bail_inr), H' as (v' & _ & [_ H']%bail_inr).
  apply try_inr in H as (t & Hr & H), H' as (t' & Hr' & H').
  destruct (recompute_agree p p' d' e x (input_layout (role (dr_first d')) (p_n_ubatch p') (Manifest.wtype (dr_gate d'))) exp t t') as [<-|]; try done; [|by right].
  destruct t as [y_hat tol]. apply bail_inr in H as [_ H], H' as [_ H']. left. congruence.
Qed.
End Committed.

(** ** Committed manifests *)

(** The manifest root commits to a list of entries. *)
Definition commits (tier : TierCtx) (entries : list (list byte)) : Prop :=
  zlen entries = n_entries tier /\ exists p0, rt_range_proof (leaf <$> entries) 0 1 = Ret (m_t tier, p0).

Lemma committed_sane tier entries eo : is_u64 (n_entries tier) -> commits tier entries -> entry_ok eo ->
  Forall (fun b => forall e len, parse b = Some (e, len) -> sane e) entries ->
  (forall e, open_entry tier eo (entry_index eo) = Ret (inr e) -> sane e) \/ opening_collision.
Proof.
  intros Hn [Hlen [p0 Hroot]] (Hi & _ & _ & Hp) Hs. destruct (open_entry tier eo (entry_index eo)) as [[|e]|] eqn:E; [by left| |by left].
  apply open_entry_inr in E as (_ & Hv & len & Hparse). unfold verify_entry, rt_verify_leaf in Hv.
  assert (Hl : zlen (leaf <$> entries) = n_entries tier) by (by rewrite zlen_fmap).
  destruct (rt_verify_range_guard (m_t tier) (n_entries tier) (entry_index eo) [leaf (entry_bytes eo)] (entry_path eo)) as (_ & Hin & _); [apply Hi|apply Hn|congruence|].
  change (zlen [leaf (entry_bytes eo)]) with 1 in Hin. destruct Hi as [Hi _].
  rewrite <- Hl in Hv. apply (rt_range_binds _ _ _ _ p0) in Hv as [Heq|]; try done; [|right; by apply rt_collides|unfold fits in *; lia|apply Forall_fmap, Forall_true; intros; apply blake3_hash_len|by repeat constructor; apply blake3_hash_len].
  assert (Hmem : leaf (entry_bytes eo) ∈ leaf <$> entries).
  { assert (Hin2 : leaf (entry_bytes eo) ∈ slice (leaf <$> entries) (entry_index eo) (entry_index eo + zlen [leaf (entry_bytes eo)])) by (rewrite <- Heq; left).
    unfold slice in Hin2. apply elem_of_take in Hin2 as (j & Hj & _). rewrite lookup_drop in Hj. by eapply list_elem_of_lookup_2. }
  apply list_elem_of_fmap in Hmem as (b & Hb & Hmem). destruct (hash_agree _ _ Hb) as [Heb|]; [left|by right].
  intros e' [= <-]. rewrite Heb in Hparse. eapply Forall_forall in Hs; [|exact Hmem]. by eapply Hs.
Qed.

Lemma committed_point_sane tier entries p : is_u64 (n_entries tier) -> commits tier entries -> point_ok p ->
  Forall (fun b => forall e len, parse b = Some (e, len) -> sane e) entries ->
  Forall (fun eo => forall e, open_entry tier eo (entry_index eo) = Ret (inr e) -> sane e) (point_entries p) \/ opening_collision.
Proof.
  intros Hn Hcm (_ & _ & _ & He & Hpa & Hb & _) Hs. unfold point_entries.
  enough (Hall : forall l, Forall entry_ok l -> Forall (fun eo => forall e, open_entry tier eo (entry_index eo) = Ret (inr e) -> sane e) l \/ opening_collision).
  { apply Hall. constructor; [done|]. apply Forall_app. split.
    - destruct (p_partner p); cbn; [by apply Forall_singleton|by apply Forall_nil].
    - destruct (p_bias p); cbn; [apply Forall_singleton, Hb|by apply Forall_nil]. }
  induction 1 as [|eo l Heo _ [IH|]]; [by left| |by right]. destruct (committed_sane tier entries eo) as [?|]; try done; [left; by constructor|by right].
Qed.
End Unique.

(** The verifier is total.  When the manifest root commits to entries of sane sizes, [verify_point_at]
    returns a verdict on every opening, whatever its bytes: no slice of a chunk, of the input or of the
    output is out of range, and no row decoding, dot product or [unwrap] panics, for any seed, point,
    position shape and expert list - or two inputs of BLAKE3 with one digest are exhibited. *)
Theorem verify_point_total `{B3 : Blake3} {BL : Blake3Lengths} {BC : Blake3Chunks} {L : Libm}
    (tier : TierCtx) (entries : list (list byte)) (resp : ResponseCtx) (seed : Hash) (i : Z) (p : Point) (shape : PosShape) (ids : option ExpertIds) :
  is_u64 (n_entries tier) -> is_u64 (tier_n_chunks tier) -> is_u64 (n_products tier) -> is_u32 (n_pos resp) -> is_u32 (ps_n_used shape) ->
  point_ok p -> commits tier entries -> Forall (fun b => forall e len, parse b = Some (e, len) -> sane e) entries ->
  (exists r, verify_point_at tier resp seed i p shape ids = Ret r) \/ opening_collision.
Proof.
  intros Hn Hc Hp Hr Hu Hpo Hcm Hs. destruct (committed_point_sane tier entries p) as [Hsane|]; try done; [left|by right].
  by apply verify_point_returns.
Qed.


(** ** A concrete point

    A model of one Q8_0 product with one row of 32 weights, traced at one position: the committed output
    2 x 127 = 254 is the one the weights give on the committed input. *)

Module Sample.
Import Toy.

#[export] Instance no_libm : Libm := {| libm_exp x := x; libm_tanh x := x; libm_sqrt x := x |}.

Definition entry : list byte :=
  to_le 2 1 ++ [byte_of_u8 97] ++ to_le 4 8 ++ to_le 8 32 ++ to_le 8 1 ++ to_le 4 1 ++ to_le 8 0 ++ to_le 8 64 ++ to_le 4 34
  ++ to_le 1 ROLE_PRODUCT ++ to_le 1 0 ++ to_le 1 FORM_NONE ++ to_le 4 NONE ++ to_le 4 NONE.
(** The scale 1.0 and the quants 2, 0, ... 0. *)
Definition weights : list byte := to_le 2 0x3c00 ++ to_le 62 2.
(** The scale 1.0, the sum 127.0 and the quants 127, 0, ... 0, then blocks of zeros. *)
Definition x : list byte := to_le 2 0x3c00 ++ to_le 2 0x57f0 ++ to_le 572 127.
Definition y : list byte := to_le 4 0x437e0000.

Definition chunk_hashes : list Hash := blake3_hash <$> chunks_exact 32 weights.
Definition leaves : list Hash := [blake3_hash x; blake3_hash y; blake3_hash (to_le 4 0 ++ to_le 4 1)].
Definition position : Hash := root_of leaves.
Definition path (l : list Hash) (i : Z) : list Hash := the (b3_path l i).

Definition tier : TierCtx :=
  {| r_t := rt_root_of chunk_hashes; tier_n_chunks := 2; m_t := leaf entry; n_entries := 1; n_products := 1 |}.
Definition resp : ResponseCtx := {| resp_trace_root := position; n_prompt := 1; n_pos := 1 |}.
Definition seed : Hash := to_le 32 7.
Definition point : Point := {|
  p_n_ubatch := 1; p_pos_path := []; p_meta_path := path leaves 2;
  p_entry := {| entry_index := 0; entry_bytes := entry; entry_path := [] |};
  p_partner := None; p_bias := None;
  p_rows := [{| range_first_chunk := 0; range_chunks := weights; range_proof := [] |}];
  p_x := x; p_x_path := path leaves 0;
  p_y_total_len := 4; p_y_chunk_index := 0; p_y_chunk := y; p_y_chunk_path := []; p_y_path := path leaves 1;
|}.
Definition verdict := verify_point_at tier resp seed 0 point (stage1 1) None.

Lemma hashes_small (l : list Hash) : forallb (fun h => (length h =? 32)%nat) l && (zlen l <? 2 ^ 8) = true -> hashes_ok l.
Proof.
  intros [Hl Hz]%andb_true_iff. split; [by apply Z.ltb_lt|]. apply Forall_forall. intros h Hh. rewrite forallb_forall in Hl.
  by apply Nat.eqb_eq, Hl, list_elem_of_In.
Qed.

Lemma point_fits : point_ok point.
Proof.
  assert (Hn : hashes_ok []) by by apply hashes_small. assert (Hu : is_u32 0 /\ is_u32 1 /\ is_u32 4 /\ is_u64 0) by (unfold fits; lia).
  assert (Hp : forall i, i = 0 \/ i = 1 \/ i = 2 -> hashes_ok (path leaves i)) by (intros i [-> |[-> | ->]]; apply hashes_small; vm_compute; reflexivity).
  destruct Hu as (H0 & H1 & H4 & H0'). unfold point_ok, point. cbn [p_n_ubatch p_pos_path p_meta_path p_entry p_partner p_bias p_rows p_x p_x_path p_y_total_len p_y_chunk_index p_y_chunk p_y_chunk_path p_y_path].
  refine (conj H1 (conj Hn (conj _ (conj _ (conj I (conj I (conj _ (conj _ (conj _ (conj H4 (conj H0 (conj _ (conj Hn _))))))))))))); try (apply Hp; lia).
  - split; [done|]. by split.
  - split; [done|]. apply Forall_singleton. split; [done|]. by split.
  - done.
  - done.
Qed.
End Sample.

Section Witnesses.
Import Toy Sample.

Lemma verify_point_total_witness : (exists r, verdict = Ret r) \/ opening_collision.
Proof.
  apply (verify_point_total tier [entry]); [evaluate..|exact point_fits| |].
  - split; [done|]. eexists. vm_compute. reflexivity.
  - apply Forall_singleton. intros e len He. vm_compute in He. injection He as <- <-. unfold sane. cbn. lia.
Defined.

End Witnesses.
