(* ===== verification/Commitment.v ===== *)
(** * What the consensus roots commit to

    A tier commits to a model: the bytes of its manifest entries and of its weights.  A
    response commits to a trace: for each position, the leaves holding its activations.
    Whatever an opening carries and the verifier accepts is a part of that model or of
    that trace, or two inputs of BLAKE3 with one digest are exhibited. *)
From S2P Require Import Prelude Float Merkle Seq Wire Opening Quant Manifest VerifyPoint.
#[local] Open Scope Z_scope.

(** [P] holds unless two inputs of BLAKE3 with one digest are exhibited. *)
Definition unless_collision `{B3 : Blake3} (P : Prop) : Prop := P \/ opening_collision.

Section Unless.
Context `{B3 : Blake3}.

Lemma unless_ret (P : Prop) : P -> unless_collision P.
Proof. by left. Qed.
Lemma unless_bind (P Q : Prop) : unless_collision P -> (P -> unless_collision Q) -> unless_collision Q.
Proof. intros [HP|HC] H; [by apply H|by right]. Qed.
Lemma unless_mono (P Q : Prop) : unless_collision P -> (P -> Q) -> unless_collision Q.
Proof. intros [HP|HC] H; [left; auto|by right]. Qed.
Lemma unless_and (P Q : Prop) : unless_collision P -> unless_collision Q -> unless_collision (P /\ Q).
Proof. intros [HP|HC] [HQ|HC']; [by left|by right..]. Qed.
End Unless.

(** ** The model of a tier *)

Record Model := { md_entries : list (list byte); md_weights : list byte }.

(** Entry [idx] of the manifest, as the verifier reads it. *)
Definition entry_of (M : Model) (idx : Z) : option Entry :=
  b ← get_at (md_entries M) idx; '(e, len) ← parse b; if len =? zlen b then Some e else None.

(** Bytes [off..off + len] of the tensor of an entry. *)
Definition tensor_bytes (M : Model) (e : Entry) (off len : Z) : list byte :=
  let start := 32 * wrap 64 (chunk_base e + off / 32) + off mod 32 in slice (md_weights M) start (start + len).

Definition model_commits `{B3 : Blake3} (tier : TierCtx) (M : Model) : Prop :=
  is_u64 (n_entries tier) /\ commits tier (md_entries M) /\ is_u64 (tier_n_chunks tier)
  /\ zlen (md_weights M) = 32 * tier_n_chunks tier
  /\ exists p0, rt_range_proof (blake3_hash <$> chunks 32 (md_weights M)) 0 1 = Ret (r_t tier, p0).

(** ** The trace of a response *)

Definition TraceData : Type := list (list (list byte)).

Definition position_root `{B3 : Blake3} (leaves : list (list byte)) : res Hash := b3_root (blake3_hash <$> leaves).

(** The trace has [n_pos] positions of [n] leaves each. *)
Definition trace_commits `{B3 : Blake3} (resp : ResponseCtx) (n : Z) (T : TraceData) : Prop :=
  is_u64 (n_pos resp) /\ zlen T = n_pos resp /\ is_u64 n /\ Forall (fun ls => zlen ls = n) T
  /\ exists roots, mapM (M:=res) position_root T = Ret roots /\ b3_root roots = Ret (resp_trace_root resp).

Definition leaf_at (T : TraceData) (t i : Z) : option (list byte) := ls ← get_at T t; get_at ls i.

(** Chunk [c] of a leaf. *)
Definition chunk_of (data : list byte) (c : Z) : list byte := slice data (c * B3_CHUNK) (Z.min (zlen data) ((c + 1) * B3_CHUNK)).

(** The bytes [b] are chunk [c] of leaf [i], when the leaf has [total] bytes. *)
Definition raw_chunk (ls : list (list byte)) (i total c : Z) (b : list byte) : Prop :=
  exists data, get_at ls i = Some data /\ (zlen data = total -> b = chunk_of data c).

(** Value [j] of chunk [c] of leaf [i], when the leaf has [total] bytes. *)
Definition chunk_element (ls : list (list byte)) (i total c j : Z) (y : f64) : Prop :=
  exists b, raw_chunk ls i total c b /\ y = f64_of_f32 (f32_from_le (slice b (4 * j) (4 * j + 4))).

Section Committed.
Context `{B3 : Blake3} {BL : Blake3Lengths} {BC : Blake3Chunks}.

Lemma slice_one {A} (l : list A) i x : get_at l i = Some x -> slice l i (i + 1) = [x].
Proof.
  intros Hx. apply get_at_Some_lt in Hx as Hr. unfold get_at in Hx. destruct (Z.leb_spec 0 i); [|lia].
  unfold slice. replace (Z.to_nat (i + 1 - i)) with 1%nat by lia. by apply take_1_drop.
Qed.

Lemma hash_binds a b : blake3_hash a = blake3_hash b -> unless_collision (a = b).
Proof. apply hash_agree. Qed.

Lemma hashed (l : list (list byte)) : Forall is_hash (blake3_hash <$> l).
Proof. apply Forall_fmap, Forall_true. intros. apply blake3_hash_len. Qed.

Section OfModel.
Context (tier : TierCtx) (M : Model) (HM : model_commits tier M).

Lemma open_entry_binds eo idx e : 0 <= idx -> entry_ok eo -> open_entry tier eo idx = Ret (inr e) -> unless_collision (entry_of M idx = Some e).
Proof.
  intros Hi (_ & _ & _ & Hp) H. destruct HM as (Hn & (Hlen & p0 & Hroot) & _).
  assert (Hl : zlen (leaf <$> md_entries M) = n_entries tier) by (by rewrite zlen_fmap).
  unfold open_entry in H. accepted H. unfold verify_entry, rt_verify_leaf in E. destruct a; [|done]. clear G G0.
  destruct (rt_verify_range_guard (m_t tier) (n_entries tier) idx [leaf (entry_bytes eo)] (entry_path eo)) as (_ & Hin & _); [done|apply Hn|congruence|].
  change (zlen [leaf (entry_bytes eo)]) with 1 in Hin. rewrite <- Hl in E.
  destruct (rt_range_binds _ _ _ _ p0 idx Hroot Hi ltac:(unfold fits in *; lia) (hashed _) (hashed [entry_bytes eo]) Hp E) as [Heq|]; [|by right; apply rt_collides].
  change ([leaf (entry_bytes eo)] = slice (leaf <$> md_entries M) idx (idx + 1)) in Heq.
  destruct (get_at (md_entries M) idx) as [b|] eqn:Eb; [|unfold get_at in Eb; destruct (Z.leb_spec 0 idx); [|lia]; apply lookup_ge_None in Eb; rewrite zlen_fmap in Hl; unfold zlen in *; lia].
  assert (Eh : get_at (leaf <$> md_entries M) idx = Some (leaf b)) by (unfold get_at in *; destruct (0 <=? idx); [|done]; by rewrite list_lookup_fmap, Eb).
  rewrite (slice_one _ _ _ Eh) in Heq. injection Heq as Hb. eapply unless_mono; [by apply hash_binds|]. intros Heb.
  unfold entry_of. rewrite Eb. cbn [mbind option_bind]. rewrite <- Heb. destruct a0 as [en len]. apply ok_or_inr in E0, H. rewrite E0. done.
Qed.

Lemma open_bytes_binds e r off len b : range_ok r -> 0 <= off -> 0 <= len -> off + len < 2 ^ 63 ->
  open_bytes tier e r off len = Ret (inr b) -> unless_collision (b = tensor_bytes M e off len).
Proof.
  intros (_ & _ & _ & Hp) Ho Hl Hol H. destruct HM as (_ & _ & Hn & Hw & p0 & Hroot). set (W := md_weights M) in *.
  unfold open_bytes in H. cbv zeta in H. rewrite (wrap_id 64 (off + len)) in H by (unfold fits; lia).
  apply bail_inr in H as [[Hl0 _]%orb_false_iff H]. apply Z.eqb_neq in Hl0. rewrite (wrap_id 64 (off + len - 1)) in H by (unfold fits; lia).
  set (a := off / 32) in *. set (z := (off + len - 1) / 32) in *.
  assert (Haz : 0 <= a <= z /\ (z - a + 1) * 32 < 2 ^ 64 /\ off mod 32 + len <= (z - a + 1) * 32) by (unfold a, z; dlia).
  assert (Hspan : wrap 64 (wrap 64 (chunk_base e + z) - wrap 64 (chunk_base e + a) + 1) = z - a + 1).
  { unfold wrap. rewrite <- Zplus_mod_idemp_l, <- Zminus_mod, Zplus_mod_idemp_l. replace (_ - _ + 1) with (z - a + 1) by lia. apply Z.mod_small. lia. }
  rewrite Hspan, (wrap_id 64 ((z - a + 1) * 32)) in H by (unfold fits; lia). accepted H. subst a1.
  rewrite orb_false_iff, !negb_false_iff, !Z.eqb_eq in G. destruct G as [_ Hz]. destruct a0; [|done]. clear G0.
  set (first := wrap 64 (chunk_base e + a)) in *. assert (Hf : 0 <= first) by (apply (wrap_fits 64); lia).
  assert (Hch : zlen (chunks 32 W) = tier_n_chunks tier) by (unfold zlen at 1; rewrite length_chunks, Hw by lia; unfold div_ceil; dlia).
  assert (Hcr : chunks_exact 32 (range_chunks r) = chunks 32 (range_chunks r)) by (apply chunks_exact_all; [lia|]; rewrite Hz; apply Z_mod_mult).
  rewrite Hcr in E.
  assert (Hcl : zlen (blake3_hash <$> chunks 32 (range_chunks r)) = z - a + 1) by (rewrite zlen_fmap; unfold zlen at 1; rewrite length_chunks, Hz by lia; unfold div_ceil; dlia).
  destruct (rt_verify_range_guard (r_t tier) (tier_n_chunks tier) first (blake3_hash <$> chunks 32 (range_chunks r)) (range_proof r)) as (_ & Hin & _); [done|apply Hn|congruence|].
  rewrite Hcl in Hin. assert (Hhl : zlen (blake3_hash <$> chunks 32 W) = tier_n_chunks tier) by (by rewrite zlen_fmap). rewrite <- Hhl in E.
  destruct (rt_range_binds _ _ _ _ p0 first Hroot Hf ltac:(unfold fits in *; lia) (hashed _) (hashed _) Hp E) as [Heq|]; [|by right; apply rt_collides].
  rewrite Hcl in Heq. unfold slice in Heq. rewrite <- fmap_drop, <- fmap_take in Heq.
  apply hashes_agree in Heq as [Heq|]; [left|by right].
  assert (Hb : range_chunks r = slice W (32 * first) (32 * first + (z - a + 1) * 32)).
  { rewrite <- (concat_chunks 32 ltac:(lia) (range_chunks r)), Heq, <- chunks_drop, <- chunks_take, concat_chunks by lia. unfold slice. f_equal; [lia|f_equal; lia]. }
  unfold tensor_bytes. cbv zeta. fold W a first.
  rewrite index_range_Ret in E0 by lia. injection E0 as <-. rewrite Hb, slice_slice by lia. f_equal; lia.
Qed.
End OfModel.

Lemma pair_up_hash (f : Hash -> Hash -> Hash) l : (forall a b, is_hash (f a b)) -> Forall is_hash l -> Forall is_hash (pair_up f (fun c => c) l).
Proof.
  intros Hf. induction l as [|a|a b l IH] using list_pair_ind; cbn [pair_up]; intros H; try done. constructor; [apply Hf|].
  apply IH. by apply Forall_cons in H as [_ [_ ?]%Forall_cons].
Qed.

Lemma b3_root_hash l r : Forall is_hash l -> b3_root l = Ret r -> is_hash r.
Proof.
  unfold b3_root. generalize (levels (zlen l)) as fuel. intros fuel. revert l. induction fuel as [|fuel IH]; intros l Hl; cbn [b3_root_loop];
    (destruct (zlen l <=? 1); [unfold index; destruct (get_at l 0) as [x|] eqn:E; [|done]; intros [= <-];
      unfold get_at in E; cbn in E; by eapply Forall_lookup_1|]); [done|].
  apply IH. unfold b3_next. apply pair_up_hash; [|done]. intros a b. apply b3_merge_len.
Qed.

(** A root of digests exists only over at least one. *)
Lemma b3_root_pos l r : b3_root l = Ret r -> 0 < zlen l.
Proof. destruct l as [|x l]; [done|]. intros _. unfold zlen. cbn [length]. lia. Qed.

Lemma trace_leaf_binds ls n pr i h path : position_root ls = Ret pr -> zlen ls = n -> is_u64 n -> 0 <= i -> is_hash h -> Forall is_hash path ->
  b3_verify pr n i h path = true -> unless_collision (exists data, get_at ls i = Some data /\ blake3_hash data = h).
Proof.
  intros Hr Hz Hn Hi Hh Hp Hv. unfold position_root in Hr. pose proof (b3_root_pos _ _ Hr) as Hpos.
  assert (Hl : zlen (blake3_hash <$> ls) = n) by (by rewrite zlen_fmap). rewrite <- Hl in Hv.
  destruct (b3_verify_binds (blake3_hash <$> ls) path i h pr Hr Hi ltac:(unfold fits in *; lia) (hashed _) Hh Hp Hv) as [Hg|]; [left|by right; right; left].
  unfold get_at in *. destruct (0 <=? i); [|done]. apply list_lookup_fmap_Some in Hg as (data & -> & Hg). by exists data.
Qed.

Lemma mapM_lookup {A C} (f : A -> res C) l r j a : mapM f l = Ret r -> l !! j = Some a -> exists c, r !! j = Some c /\ f a = Ret c.
Proof.
  revert r j. induction l as [|x l IH]; intros r j H Hj; [done|]. cbn in H. destruct (f x) as [c|] eqn:Ec; [|done]. cbn in H.
  destruct (mapM f l) as [cs|] eqn:Em; [|done]. injection H as <-. destruct j as [|j]; [injection Hj as <-; by exists c|]. by apply (IH cs).
Qed.

Lemma mapM_res_length {A C} (f : A -> res C) l r : mapM f l = Ret r -> length r = length l.
Proof.
  revert r. induction l as [|x l IH]; intros r H; cbn in H; [by injection H as <-|]. destruct (f x); [|done]. cbn in H.
  destruct (mapM f l) as [cs|] eqn:Em; [|done]. injection H as <-. cbn. by rewrite (IH cs).
Qed.

Section OfTrace.
Context (resp : ResponseCtx) (n : Z) (T : TraceData) (HT : trace_commits resp n T).

Lemma position_binds t pr path : 0 <= t -> is_hash pr -> Forall is_hash path -> b3_verify (resp_trace_root resp) (n_pos resp) t pr path = true ->
  unless_collision (exists ls, get_at T t = Some ls /\ zlen ls = n /\ position_root ls = Ret pr).
Proof.
  intros Ht Hr Hp Hv. destruct HT as (Hnp & Hz & Hn & HF & roots & Hm & Hroot).
  pose proof (b3_root_pos _ _ Hroot). pose proof (mapM_res_length _ _ _ Hm) as Hlen.
  assert (Hl : zlen roots = n_pos resp) by (unfold zlen in *; lia). rewrite <- Hl in Hv.
  assert (Hhash : Forall is_hash roots).
  { apply Forall_lookup. intros j root Hj. destruct (lookup_lt_is_Some_2 T j) as [ls Hls]; [rewrite <- Hlen; by eapply lookup_lt_Some|].
    destruct (mapM_lookup _ _ _ _ _ Hm Hls) as (root' & Hj' & Hroot'). rewrite Hj in Hj'. injection Hj' as <-. eapply b3_root_hash; [apply hashed|exact Hroot']. }
  destruct (b3_verify_binds roots path t pr (resp_trace_root resp) Hroot Ht ltac:(unfold fits in *; lia) Hhash Hr Hp Hv) as [Hg|]; [left|by right; right; left].
  unfold get_at in *. destruct (0 <=? t); [|done]. destruct (lookup_lt_is_Some_2 T (Z.to_nat t)) as [ls Hls]; [rewrite <- Hlen; by eapply lookup_lt_Some|].
  exists ls. split; [done|]. destruct (mapM_lookup _ _ _ _ _ Hm Hls) as (root' & Hj' & Hroot'). rewrite Hg in Hj'. injection Hj' as <-.
  split; [|done]. by apply (Forall_lookup_1 _ _ _ _ HF Hls).
Qed.
End OfTrace.

(** An opened chunk is the one of the data with that digest. *)
Lemma trace_chunk_binds data c chunk path : 0 < zlen data < 2 ^ 63 -> 0 <= c -> Forall is_hash path ->
  b3_leaf_from_chunk (zlen data) c chunk path = Some (blake3_hash data) -> unless_collision (chunk = chunk_of data c).
Proof.
  intros Hd Hc Hp H. apply b3_leaf_from_chunk_chunks in H as [H Hz]; [|done..].
  destruct (b3_chunks_binds data chunk c path Hd Hc Hp H) as [Hb|]; [left|by right; right]. rewrite Hb. unfold chunk_of. f_equal. lia.
Qed.

(** A chunk of a committed leaf of [total] bytes. *)
Lemma opened_chunk_binds data c chunk p total : zlen data = total -> total < 2 ^ 63 -> 0 <= c -> Forall is_hash p ->
  b3_leaf_from_chunk total c chunk p = Some (blake3_hash data) -> unless_collision (chunk = chunk_of data c).
Proof.
  intros Hd Ht Hc Hp H. pose proof (zlen_nonneg data). destruct (Z.eqb_spec total 0) as [->|]; [|rewrite <- Hd in H; apply (trace_chunk_binds data c chunk p); (done || lia)].
  apply unless_ret. destruct data; [|done]. unfold b3_leaf_from_chunk in H. change (Z.max (div_ceil 0 B3_CHUNK) 1) with 1 in H.
  assert (Hc1 : (1 <=? c) = false). { destruct (1 <=? c); [|done]. destruct (wrap 64 (c + 1) <? 1); [done|]. by destruct (checked_sub _ _). }
  assert (c = 0) as -> by lia. change (if wrap 64 (0 + 1) <? 1 then Some B3_CHUNK else checked_sub 0 (wrap 64 (0 * B3_CHUNK))) with (Some 0) in H. cbn [mbind option_bind orb] in H.
  destruct (Z.eqb_spec (zlen chunk) 0) as [E|]; [|done]. by destruct chunk.
Qed.

Lemma raw_chunk_binds ls data c chunk p total i : get_at ls i = Some data -> total < 2 ^ 63 -> 0 <= c -> Forall is_hash p ->
  b3_leaf_from_chunk total c chunk p = Some (blake3_hash data) -> unless_collision (raw_chunk ls i total c chunk).
Proof.
  intros Hd Ht Hc Hp H. destruct (decide (zlen data = total)) as [Hz'|]; [|apply unless_ret; by exists data].
  eapply unless_mono; [exact (opened_chunk_binds data c chunk p total Hz' Ht Hc Hp H)|]. intros ->. by exists data.
Qed.
End Committed.

(** ** Entries and rows of a committed model of sane sizes *)

Definition model_sane (M : Model) : Prop := Forall (fun b => forall e len, parse b = Some (e, len) -> sane e) (md_entries M).

Section SaneModel.
Context `{B3 : Blake3} {BL : Blake3Lengths} {BC : Blake3Chunks}.
Context (tier : TierCtx) (M : Model) (HM : model_commits tier M) (HS : model_sane M).

Lemma entry_usable idx e : entry_of M idx = Some e -> usable e.
Proof.
  unfold entry_of. destruct (get_at _ idx) as [b|] eqn:Eb; [|done]. cbn [mbind option_bind]. destruct (parse b) as [[e' len]|] eqn:Ep; [|done]. cbn [mbind option_bind].
  destruct (len =? zlen b); [|done]. intros [= <-]. split; [by eapply parse_widths|]. unfold get_at in Eb. destruct (0 <=? idx); [|done].
  by eapply (Forall_lookup_1 _ _ _ _ HS Eb).
Qed.

Lemma opened_entry eo idx e : 0 <= idx -> entry_ok eo -> open_entry tier eo idx = Ret (inr e) -> unless_collision (entry_of M idx = Some e /\ usable e).
Proof.
  intros Hi He H. eapply unless_mono; [by apply (open_entry_binds tier M HM eo idx e)|]. intros H'. split; [done|by eapply entry_usable].
Qed.

(** An opening entry opens to a usable entry, whatever its path. *)
Lemma entry_sane eo : entry_ok eo -> unless_collision (forall e, open_entry tier eo (entry_index eo) = Ret (inr e) -> sane e).
Proof. intros He. destruct HM as (Hn & Hc & _). by apply (committed_sane tier (md_entries M) eo Hn Hc He). Qed.

Lemma entry_yields eo : entry_ok eo -> unless_collision (forall idx, 0 <= idx -> yields usable (open_entry tier eo idx)).
Proof. intros He. eapply unless_mono; [by apply entry_sane|]. intros Hs idx Hi. destruct HM as (Hn & _). by apply open_entry_ok. Qed.

Lemma opened_expert_row e r exp row b : usable e -> range_ok r -> 0 <= exp -> 0 <= row -> open_expert_row tier e r exp row = Ret (inr b) ->
  unless_collision (row < e_m e /\ exp < n_exp e /\ b = tensor_bytes M e ((exp * e_m e + row) * row_bytes e) (row_bytes e)).
Proof.
  intros [(_ & _ & Hm & Hx & _ & _ & Hrb & _) (_ & _ & Hsz)] Hr He Hrow H. unfold open_expert_row in H. cbv zeta in H. apply bail_inr in H as [G H].
  apply orb_false_iff in G as [G1%Z.leb_gt G2%Z.leb_gt]. unfold fits in Hrb.
  pose proof (row_in_bounds exp (n_exp e) row (e_m e) (row_bytes e)). assert (0 <= (exp * e_m e + row) * row_bytes e) by nia.
  rewrite wrap_id in H by (unfold fits; lia). eapply unless_mono; [eapply (open_bytes_binds tier M HM e r _ _ _ Hr); [| | |exact H]; lia|]. done.
Qed.

Lemma opened_row e r row b : usable e -> range_ok r -> 0 <= row -> open_row tier e r row = Ret (inr b) ->
  unless_collision (row < e_m e /\ n_exp e = 1 /\ b = tensor_bytes M e (row * row_bytes e) (row_bytes e)).
Proof.
  intros [(_ & _ & Hm & Hx & _ & _ & Hrb & _) (_ & _ & Hsz)] Hr Hrow H. unfold open_row in H. cbv zeta in H. apply bail_inr in H as [G H].
  rewrite orb_false_iff, Z.leb_gt, negb_false_iff, Z.eqb_eq in G. destruct G as [G1 G2]. unfold fits in Hrb. rewrite G2 in *.
  pose proof (row_in_bounds 0 1 row (e_m e) (row_bytes e)). assert (0 <= row * row_bytes e) by nia.
  rewrite wrap_id in H by (unfold fits; lia). eapply unless_mono; [eapply (open_bytes_binds tier M HM e r _ _ _ Hr); [| | |exact H]; lia|]. done.
Qed.

Lemma open_row_ok e r row : usable e -> 0 <= row -> yields (fun b => zlen b = row_bytes e) (open_row tier e r row).
Proof.
  intros [(_ & _ & Hm & Hx & Hc & Hb & Hrb & _) (_ & _ & Hsz)] Hrow. destruct HM as (_ & _ & Hn & _). unfold open_row. apply yields_bail. intros G. cbv zeta.
  rewrite orb_false_iff, Z.leb_gt, negb_false_iff, Z.eqb_eq in G. destruct G as [G1 G2]. unfold fits in Hrb. rewrite G2 in *.
  pose proof (row_in_bounds 0 1 row (e_m e) (row_bytes e)). assert (0 <= row * row_bytes e) by nia. rewrite wrap_id by (unfold fits; lia). apply open_bytes_ok; try done; lia.
Qed.
End SaneModel.
