(* ===== verification/PointSound.v ===== *)
(** * What an accepted point shows

    Against a committed model and a committed trace, an accepted point opening shows that
    the committed element the seed draws is the one its committed input and weights give,
    whatever else the opening carries - or two inputs of BLAKE3 with one digest are
    exhibited. *)
From S2P Require Import Prelude Float Magnitude Merkle Seq Wire Opening Quant Manifest VerifyPoint Commitment.
#[local] Open Scope Z_scope.

(** ** What the committed model and trace say of a drawn element *)

(** [r] is the dot product of row [row] of expert [exp] of [e] with the input [x]. *)
Definition dotted (M : Model) (e : Entry) (exp row k : Z) (x : list byte) (layout : Z) (r : Recomputed) : Prop :=
  row < e_m e /\ exp < n_exp e
  /\ canonical_dot (wtype e) (tensor_bytes M e ((exp * e_m e + row) * row_bytes e) (row_bytes e)) k x layout = Ret (Some r).

(** [b] is the bias of row [row] of [e]. *)
Definition bias_value (M : Model) (e : Entry) (row : Z) (b : f64) : Prop :=
  bias e = NONE /\ b = S754_zero false
  \/ bias e <> NONE /\ exists be, entry_of M (bias e) = Some be /\ role be = ROLE_BIAS /\ wtype be = 0 /\ e_k be = e_m e
       /\ b = f64_of_f32 (f32_from_le (tensor_bytes M be (4 * row) 4)).

(** The element and its tolerance: a row and its bias, or the gate function of one row times another. *)
Definition element_value `{L : Libm} (M : Model) (d : Drawn) (e : Element) (x : list byte) (layout exp : Z) (y tol : f64) : Prop :=
  let g := dr_gate d in let k := e_k g in
  if glu_form g =? FORM_NONE then
    exists r b, dotted M g exp (el_row e) k x layout r /\ bias_value M g (el_row e) b /\ y = (y_hat r + b)%F /\ tol = (EPS * (Quant.scale r + SFabs b))%F
  else
    exists rg ru f df, dotted M g exp (el_row e) k x layout rg
      /\ (if el_split e then dotted M g exp (el_row e + el_m_out e) k x layout ru else exists up, dr_up d = Some up /\ dotted M up exp (el_row e) k x layout ru)
      /\ glu (glu_op g) (y_hat rg) = Some (f, df) /\ y = (f * y_hat ru)%F
      /\ tol = (EPS * (SFabs (df * y_hat ru) * Quant.scale rg + SFabs f * Quant.scale ru)
                + (if glu_op g =? GLU_GEGLU then EPS_GEGLU else EPS) * SFabs (y_hat rg * y_hat ru))%F.

(** The product and the position a seed draws. *)
Definition drawn_from `{B3 : Blake3} (M : Model) (tier : TierCtx) (resp : ResponseCtx) (seed : Hash) (i : Z) (d : Drawn) : Prop :=
  let first := dr_first d in
  dr_rank d = draw seed i 1 mod n_products tier /\ entry_of M (dr_rank d) = Some first
  /\ (role first = ROLE_PRODUCT \/ role first = ROLE_OUTPUT \/ role first = ROLE_HEADS)
  /\ drawn_position resp (role first =? ROLE_OUTPUT) (draw seed i 0) = Ret (inr (dr_t d))
  /\ ((glu_form first = FORM_NONE \/ glu_form first = FORM_SPLIT) /\ dr_gate d = first /\ dr_gate_rank d = dr_rank d /\ dr_up d = None
      \/ exists other, entry_of M (partner first) = Some other /\ partner other = dr_rank d /\ e_k other = e_k first /\ e_m other = e_m first
          /\ (glu_form first = FORM_PAIR_GATE /\ dr_gate d = first /\ dr_gate_rank d = dr_rank d /\ dr_up d = Some other
              \/ glu_form first = FORM_PAIR_UP /\ dr_gate d = other /\ dr_gate_rank d = partner first /\ dr_up d = Some first)).

(** The row of the input of slot [slot]. *)
Definition slot_of (x : list byte) (x_one n_used slot : Z) (xs : list byte) : Prop :=
  zlen x = x_one /\ xs = x \/ 1 < n_used /\ zlen x = n_used * x_one /\ xs = slice x (slot * x_one) ((slot + 1) * x_one).

(** What a report says of the trace: at the drawn position, product, slot and row the committed element [rep_y] is
    the value [rep_y_hat] of the committed input and weights, up to [rep_tol]. *)
Definition point_bound `{B3 : Blake3, L : Libm} (M : Model) (T : TraceData) (tier : TierCtx) (resp : ResponseCtx) (seed : Hash) (i : Z) (shape : PosShape)
    (rep : Report) (o : Opened) (ls : list (list byte)) (x : list byte) : Prop :=
  exists d e has_ids xs, drawn_from M tier resp seed i d /\ drawn_element seed i d shape has_ids = Ret (inr e)
    /\ get_at T (dr_t d) = Some ls /\ position_root ls = Ret (pos_root o) /\ zlen ls = ps_n_leaves shape
    /\ get_at ls (ps_meta_index shape) = Some (meta_bytes shape (dr_t d) (expected_ubatch (dr_t d) (n_prompt resp)))
    /\ get_at ls (2 * dr_gate_rank d) = Some x
    /\ let g := dr_gate d in
       let layout := input_layout (role (dr_first d)) (expected_ubatch (dr_t d) (n_prompt resp)) (wtype g) in
       let body := el_n_used e * el_m_out e * 4 in let off := (el_slot e * el_m_out e + el_row e) * 4 in
       let total := body + if el_experts e then 4 * el_n_used e else 0 in let y_leaf := 2 * dr_gate_rank d + 1 in
       slot_of x (x_len (e_k g) layout) (el_n_used e) (el_slot e) xs /\ sums_consistent xs layout (e_k g) = Ret true
       /\ chunk_element ls y_leaf total (off / B3_CHUNK) (off mod B3_CHUNK / 4) (rep_y rep)
       /\ (if has_ids then exists idb, raw_chunk ls y_leaf total (body / B3_CHUNK) idb
             /\ op_expert o = from_le (slice idb (4 * el_slot e) (4 * el_slot e + 4)) /\ op_expert o < n_exp g
           else op_expert o = el_slot e)
       /\ element_value M d e xs layout (op_expert o) (rep_y_hat rep) (rep_tol rep)
       /\ VerifyPoint.within (rep_y rep) (rep_y_hat rep) (rep_tol rep) = true
       /\ rep_t rep = dr_t d /\ rep_rank rep = dr_rank d /\ rep_row rep = el_row e
       /\ op_input o = g /\ op_layout o = layout /\ op_slot o = el_slot e.

Section Sound.
Context `{B3 : Blake3, L : Libm} {BL : Blake3Lengths} {BC : Blake3Chunks}.
Context (tier : TierCtx) (M : Model) (HM : model_commits tier M) (HS : model_sane M).

Lemma dot_row_binds k x layout exp e r row v : usable e -> range_ok r -> 0 <= exp -> 0 <= row ->
  dot_row tier k x layout exp e r row = Ret (inr v) -> unless_collision (dotted M e exp row k x layout v).
Proof.
  intros He Hr Hx Hrow H. unfold dot_row in H. accepted H. apply ok_or_inr in H. subst a0.
  eapply unless_mono; [exact (opened_expert_row tier M HM e r exp row a He Hr Hx Hrow E)|]. intros (H1 & H2 & ->). by split.
Qed.

Lemma open_bias_binds p e row b : usable e -> 0 <= row < 2 ^ 29 -> option_ok weights_ok (p_bias p) ->
  open_bias tier p e row = Ret (inr b) -> unless_collision (bias_value M e row b).
Proof.
  intros [(_ & _ & _ & _ & _ & _ & _ & _ & [Hb0 _] & _) _] Hrow Hp H. unfold open_bias in H. unfold bias_value. destruct (p_bias p) as [[be br]|].
  - destruct Hp as [Hbe Hbr]. accepted H. apply Z.eqb_neq in G. rewrite !orb_false_iff, !negb_false_iff, !Z.eqb_eq in G0. destruct G0 as [[G1 G2] G3]. subst b.
    eapply unless_bind; [exact (opened_entry tier M HM HS _ _ a Hb0 Hbe E)|]. intros [Ha _]. rewrite wrap_id in E0 by (unfold fits; lia).
    eapply unless_mono; [eapply (open_bytes_binds tier M HM a _ _ _ a0 Hbr); [| | |exact E0]; lia|]. intros ->. right. split; [done|]. exists a. do 4 (split; [done|]). by rewrite (Z.mul_comm 4 row).
  - apply unless_ret. left. destruct (Z.eqb_spec (bias e) NONE); [|done]. split; [done|]. congruence.
Qed.

Lemma recompute_binds p d e x layout exp y tol : drawn_ok d -> element_ok d e -> 0 <= exp -> point_ok p ->
  recompute tier p d e x layout exp = Ret (inr (y, tol)) -> unless_collision (element_value M d e x layout exp y tol).
Proof.
  intros Hd He Hx (_ & _ & _ & _ & _ & Hb & [_ Hr] & _) H. pose proof Hd as (Hg & Hup & _). pose proof He as (_ & _ & Hrow & Hmo & _). pose proof Hg as [(_ & _ & [Hm0 _] & _) (_ & Hm & _)].
  unfold recompute in H. cbv zeta in H. unfold element_value. cbv zeta. destruct (_ =? FORM_NONE).
  - destruct (p_rows p) as [|r0 [|? ?]]; try done. apply Forall_inv in Hr. accepted H. injection H as <- <-.
    eapply unless_bind; [eapply dot_row_binds; [exact Hg|exact Hr|exact Hx| |exact E]; lia|]. intros Hdot.
    eapply unless_mono; [eapply open_bias_binds; [exact Hg| |exact Hb|exact E0]; lia|]. intros Hbias. by exists a, a0.
  - destruct (p_rows p) as [|r0 [|r1 [|? ?]]]; try done. destruct (p_bias p); [done|]. apply Forall_cons in Hr as [Hr0 Hr1%Forall_inv].
    apply try_inr in H as (rg & E & H). apply try_inr in H as (ru & E0 & H). apply try_inr in H as ([f df] & E1 & H). apply ok_or_inr in E1. injection H as <- <-.
    eapply unless_bind; [eapply dot_row_binds; [exact Hg|exact Hr0|exact Hx| |exact E]; lia|]. intros Hdg.
    refine (unless_mono (if el_split e then dotted M (dr_gate d) exp (el_row e + el_m_out e) (e_k (dr_gate d)) x layout ru
                         else exists up, dr_up d = Some up /\ dotted M up exp (el_row e) (e_k (dr_gate d)) x layout ru) _ _ _); [|intros Hdu; by exists rg, ru, f, df].
    destruct (el_split e).
    + rewrite wrap_id in E0 by (unfold fits; lia). eapply dot_row_binds; [exact Hg|exact Hr1|exact Hx| |exact E0]. lia.
    + destruct (dr_up d) as [up|] eqn:Eu; [|done]. eapply unless_mono; [eapply dot_row_binds; [exact (Hup up eq_refl)|exact Hr1|exact Hx| |exact E0]; lia|]. intros Hdu. by exists up.
Qed.

Lemma drawn_gate_binds p first rank g gr up : usable first -> option_ok entry_ok (p_partner p) -> drawn_gate tier p first rank = Ret (inr (g, gr, up)) ->
  unless_collision ((glu_form first = FORM_NONE \/ glu_form first = FORM_SPLIT) /\ g = first /\ gr = rank /\ up = None
      \/ exists other, entry_of M (partner first) = Some other /\ partner other = rank /\ e_k other = e_k first /\ e_m other = e_m first
          /\ (glu_form first = FORM_PAIR_GATE /\ g = first /\ gr = rank /\ up = Some other
              \/ glu_form first = FORM_PAIR_UP /\ g = other /\ gr = partner first /\ up = Some first)).
Proof.
  intros [(_ & _ & _ & _ & _ & _ & _ & [Hp0 _] & _) _] Hp H. unfold drawn_gate in H.
  destruct ((glu_form first =? FORM_NONE) || (glu_form first =? FORM_SPLIT)) eqn:G; [|destruct ((glu_form first =? FORM_PAIR_GATE) || (glu_form first =? FORM_PAIR_UP)) eqn:G2; [|done]].
  - rewrite orb_true_iff, !Z.eqb_eq in G. accepted H. injection H as <- <- <-. apply unless_ret. by left.
  - destruct (p_partner p) as [po|]; [|done]. rewrite orb_true_iff, !Z.eqb_eq in G2. apply try_inr in H as (po' & [= <-] & H). apply try_inr in H as (other & E & H). apply bail_inr in H as [Gm H].
    rewrite !orb_false_iff, !negb_false_iff, !Z.eqb_eq in Gm. destruct Gm as [[G3 G4] G5].
    eapply unless_mono; [exact (opened_entry tier M HM HS _ _ other Hp0 Hp E)|]. intros [Ho _]. right. exists other. do 4 (split; [done|]).
    destruct (Z.eqb_spec (glu_form first) FORM_PAIR_GATE); injection H as <- <- <-; [by left|right; split; [tauto|done]].
Qed.

Lemma drawn_binds resp seed i p d : point_ok p -> is_u64 (n_products tier) -> drawn tier resp seed i p = Ret (inr d) -> unless_collision (drawn_from M tier resp seed i d /\ n_products tier <> 0).
Proof.
  intros (_ & _ & _ & He & Hp & _) Hn H. unfold drawn in H. cbv zeta in H. apply bail_inr in H as [_ H]. apply bail_inr in H as [Gn H]. rewrite orb_false_iff, Z.eqb_neq in Gn. destruct Gn as [Gn _].
  apply try_inr in H as (first & E & H). apply bail_inr in H as [G H]. apply try_inr in H as (t & Et & H). apply try_inr in H as ([[g gr] up] & Eg & H). injection H as <-.
  assert (Hrk : 0 <= draw seed i 1 mod n_products tier) by (apply Z.mod_pos_bound; unfold fits in Hn; lia).
  eapply unless_bind; [exact (opened_entry tier M HM HS _ _ first Hrk He E)|]. intros [Hf Hu].
  eapply unless_mono; [exact (drawn_gate_binds p first _ g gr up Hu Hp Eg)|]. intros Hg. split; [|done]. split; [done|]. split; [done|]. split; [|by split].
  rewrite !andb_false_iff, !negb_false_iff, !Z.eqb_eq in G. cbn. tauto.
Qed.
End Sound.

(** ** The committed input and output *)

Section Position.
Context `{B3 : Blake3, L : Libm} {BL : Blake3Lengths} {BC : Blake3Chunks}.

Lemma input_row_slot p x_one n_used slot xs : 0 <= x_one < 2 ^ 31 -> 0 <= slot < n_used -> is_u32 n_used ->
  input_row p x_one n_used slot = Ret (inr xs) -> slot_of (p_x p) x_one n_used slot xs.
Proof.
  intros Hx Hsl Hu H. unfold fits in Hu. unfold input_row in H. cbv zeta in H. unfold slot_of. destruct (Z.eqb_spec (zlen (p_x p)) x_one); [left; split; [done|congruence]|].
  assert (n_used * x_one < 2 ^ 63) by nia. rewrite !wrap_id in H by (unfold fits; nia). destruct (_ && _) eqn:E; [|done].
  rewrite andb_true_iff, Z.ltb_lt, Z.eqb_eq in E. right. rewrite index_range_Ret in H by nia. split; [tauto|]. split; [tauto|]. by injection H as <-.
Qed.

Section OfTrace.
Context (resp : ResponseCtx) (T : TraceData) (shape : PosShape) (HT : trace_commits resp (ps_n_leaves shape) T) (Hmi : 0 <= ps_meta_index shape).

Lemma open_position_binds p d rt : point_ok p -> 0 <= dr_t d -> 0 <= dr_gate_rank d < 2 ^ 63 -> open_position resp p d shape = Ret (inr rt) ->
  unless_collision (exists ls, get_at T (dr_t d) = Some ls /\ position_root ls = Ret rt /\ zlen ls = ps_n_leaves shape
    /\ get_at ls (ps_meta_index shape) = Some (meta_bytes shape (dr_t d) (expected_ubatch (dr_t d) (n_prompt resp)))
    /\ get_at ls (2 * dr_gate_rank d) = Some (p_x p) /\ p_n_ubatch p = expected_ubatch (dr_t d) (n_prompt resp)).
Proof.
  intros (_ & [_ Hpp] & [_ Hmp] & _ & _ & _ & _ & _ & [_ Hxp] & _) Ht Hgr H. unfold open_position in H. accepted H. subst rt.
  rewrite !negb_false_iff in *. apply Z.eqb_eq in G0. rewrite G0 in *. apply ok_or_inr in E. rewrite wrap_id in E by (unfold fits; lia). pose proof HT as (_ & _ & Hn64 & _).
  assert (Hh : is_hash a) by exact (b3_fold_hash _ _ _ _ _ (blake3_hash_len _) Hxp E).
  eapply unless_bind; [exact (position_binds resp _ T HT (dr_t d) a _ Ht Hh Hpp G)|]. intros (ls & Hls & Hz & Hr).
  assert (Hv : b3_verify a (ps_n_leaves shape) (2 * dr_gate_rank d) (blake3_hash (p_x p)) (p_x_path p) = true) by (unfold b3_verify; by rewrite bool_decide_eq_true).
  eapply unless_bind; [exact (trace_leaf_binds ls _ a (2 * dr_gate_rank d) _ _ Hr Hz Hn64 ltac:(lia) (blake3_hash_len _) Hxp Hv)|]. intros (x & Hx & Hhx).
  eapply unless_bind; [exact (trace_leaf_binds ls _ a _ _ _ Hr Hz Hn64 Hmi (blake3_hash_len _) Hmp G1)|]. intros (m & Hm & Hhm).
  eapply unless_bind; [exact (hash_binds _ _ Hhx)|]. intros ->. eapply unless_mono; [exact (hash_binds _ _ Hhm)|]. intros ->. by exists ls.
Qed.
End OfTrace.

Lemma f32_at_slice (b : list byte) o y : 0 <= o -> o mod 4 = 0 -> index_range b o (o + 4) = Ret y -> y = slice b (4 * (o / 4)) (4 * (o / 4) + 4).
Proof.
  intros Ho Hm H. unfold index_range in H. destruct (get_range b o (o + 4)) as [s|] eqn:E; [|done]. injection H as <-. apply get_range_Some in E as (_ & _ & ->). f_equal; dlia.
Qed.

Section Output.
Context (pr : Hash) (ls : list (list byte)) (shape : PosShape) (Hr : position_root ls = Ret pr) (Hz : zlen ls = ps_n_leaves shape) (Hn : is_u64 (ps_n_leaves shape)).

Lemma open_output_binds p d e v : point_ok p -> drawn_ok d -> element_ok d e -> dr_gate_rank d < 2 ^ 62 ->
  open_output p d e shape pr = Ret (inr v) ->
  let body := el_n_used e * el_m_out e * 4 in let off := (el_slot e * el_m_out e + el_row e) * 4 in let total := body + if el_experts e then 4 * el_n_used e else 0 in
  v.2 = total /\ unless_collision (chunk_element ls (2 * dr_gate_rank d + 1) total (off / B3_CHUNK) (off mod B3_CHUNK / 4) v.1.1
    /\ exists data, get_at ls (2 * dr_gate_rank d + 1) = Some data /\ v.1.2 = blake3_hash data).
Proof.
  intros (_ & _ & _ & _ & _ & _ & _ & _ & _ & _ & _ & _ & [_ Hcp] & [_ Hyp]) Hd He Hgr H. destruct (output_size d e Hd He) as (Ho & Hb & Hs63 & Eb & Eo & Et). unfold open_output in H. cbv zeta in H. rewrite Eb, Eo, Et in H. clear Eb Eo Et.
  pose proof Hd as (_ & _ & _ & Hgr0 & _). pose proof He as (Hsl & _). cbv zeta. set (off := (el_slot e * el_m_out e + el_row e) * 4) in *. set (body := el_n_used e * el_m_out e * 4) in *.
  accepted H. subst v. cbn [fst snd]. rewrite orb_false_iff, !negb_false_iff, !Z.eqb_eq in G0. destruct G0 as [Gt Gc]. rewrite negb_false_iff in G1. apply ok_or_inr in E. rewrite wrap_id in G1 by (unfold fits; lia).
  split; [done|]. rewrite Gt, Gc in E. assert (Hh : is_hash a) by exact (b3_leaf_from_chunk_hash _ _ _ _ _ Hcp E).
  eapply unless_bind; [exact (trace_leaf_binds ls _ pr (2 * dr_gate_rank d + 1) _ _ Hr Hz Hn ltac:(lia) Hh Hyp G1)|]. intros (data & Hdata & <-).
  assert (Htot : body + (if el_experts e then 4 * el_n_used e else 0) < 2 ^ 63) by (destruct (el_experts e); lia).
  assert (Hoc : 0 <= off / B3_CHUNK) by (apply Z.div_pos; [exact Ho|done]).
  eapply unless_mono; [exact (raw_chunk_binds ls data _ _ _ _ _ Hdata Htot Hoc Hcp E)|]. intros Hraw. split; [|by exists data].
  assert (Hm4 : off mod 4 = 0) by (unfold off; apply Z_mod_mult). exists (p_y_chunk p). split; [exact Hraw|].
  do 2 f_equal. apply f32_at_slice; [unfold B3_CHUNK; dlia|unfold B3_CHUNK; dlia|exact E0].
Qed.

Lemma open_expert_binds d e ids data exp : 0 <= el_slot e -> drawn_ok d -> element_ok d e -> option_ok expert_ids_ok ids ->
  let body := el_n_used e * el_m_out e * 4 in let total := body + if el_experts e then 4 * el_n_used e else 0 in
  get_at ls (2 * dr_gate_rank d + 1) = Some data -> open_expert d e ids (blake3_hash data) total = Ret (inr exp) ->
  unless_collision (if bool_decide (is_Some ids) then exists idb, raw_chunk ls (2 * dr_gate_rank d + 1) total (body / B3_CHUNK) idb
             /\ exp = from_le (slice idb (4 * el_slot e) (4 * el_slot e + 4)) /\ exp < n_exp (dr_gate d)
           else exp = el_slot e).
Proof.
  intros Hsl Hd He Hids. destruct (output_size d e Hd He) as (_ & _ & Hs63 & Eb & _ & _). cbv zeta. intros Hdata H. unfold open_expert in H. destruct ids as [s|]; [|apply unless_ret; by injection H as <-].
  rewrite bool_decide_eq_true_2 by eauto. cbv zeta in H. rewrite Eb in H. accepted H. subst exp. rewrite negb_false_iff, bool_decide_eq_true in G. apply ok_or_inr, get_range_Some in E as (_ & _ & ->). apply Z.leb_gt in G0.
  destruct Hids as [_ [_ Hip]]. pose proof He as (Hslb & _ & Hrow & _). assert (Htot : el_n_used e * el_m_out e * 4 + (if el_experts e then 4 * el_n_used e else 0) < 2 ^ 63) by (destruct (el_experts e); lia).
  assert (Hc : 0 <= el_n_used e * el_m_out e * 4 / B3_CHUNK) by (apply Z.div_pos; [nia|done]).
  eapply unless_mono; [exact (raw_chunk_binds ls data _ _ _ _ _ Hdata Htot Hc Hip G)|]. intros Hraw. by exists (ids_chunk s).
Qed.
End Output.
End Position.

(** ** The point *)

Section Point.
Context `{B3 : Blake3, L : Libm} {BL : Blake3Lengths} {BC : Blake3Chunks}.
Context (tier : TierCtx) (M : Model) (HM : model_commits tier M) (HS : model_sane M) (Hnp : is_u64 (n_products tier)) (Hsmall : n_products tier < 2 ^ 32).
Context (resp : ResponseCtx) (T : TraceData) (shape : PosShape) (HT : trace_commits resp (ps_n_leaves shape) T) (Hmi : 0 <= ps_meta_index shape) (Hnu : is_u32 (ps_n_used shape)).

Lemma point_binds seed i p ids rep o : point_ok p -> option_ok expert_ids_ok ids -> verify_point_at tier resp seed i p shape ids = Ret (inr (rep, o)) ->
  unless_collision (exists ls, point_bound M T tier resp seed i shape rep o ls (p_x p)).
Proof.
  intros Hp Hids H. pose proof HM as (Hn & Hcm & Hnc & _). pose proof HT as ([Hpos0 _] & _ & Hn64 & _).
  eapply unless_bind; [exact (committed_point_sane tier (md_entries M) p Hn Hcm Hp HS)|]. intros Hsane.
  unfold verify_point_at in H. apply try_inr in H as (d & Ed & H). apply try_inr in H as (e & Ee & H). cbv zeta in H.
  assert (Hd : drawn_ok d). { destruct (drawn_yields tier p Hn Hsane resp seed i Hpos0 (proj1 Hnp)) as (r & Er & Hr). rewrite Ed in Er. by injection Er as <-. }
  assert (He : element_ok d e). { assert (Hye : yields (element_ok d) (drawn_element seed i d shape (bool_decide (is_Some ids)))) by (eapply drawn_element_yields; eassumption). destruct Hye as (r & Er & Hr). rewrite Ee in Er. by injection Er as <-. }
  pose proof Hd as (Hg & _ & Ht & Hgr0 & _). pose proof Hg as [(_ & [Hk0 _] & _) (Hk & _)]. pose proof He as (Hsl & Hu & _).
  eapply unless_bind; [exact (drawn_binds tier M HM HS resp seed i p d Hp Hnp Ed)|]. intros [Hdrawn Hnz].
  assert (Hgr : dr_gate_rank d < 2 ^ 32).
  { destruct Hdrawn as (Erk & Hent & _ & _ & Hgate). pose proof (entry_usable M HS _ _ Hent) as [(_ & _ & _ & _ & _ & _ & _ & [_ Hpa] & _) _].
    assert (dr_rank d < 2 ^ 32) by (rewrite Erk; pose proof (Z.mod_pos_bound (draw seed i 1) (n_products tier)); lia). destruct Hgate as [(_ & _ & -> & _)|(? & _ & _ & _ & _ & [(_ & _ & -> & _)|(_ & _ & -> & _)])]; done. }
  apply try_inr in H as (xs & Exs & H). apply try_inr in H as (rt & Ert & H). apply try_inr in H as ([[y y_leaf] y_total] & Ey & H). apply try_inr in H as (exp & Ex & H).
  apply bind_inr in H as (cons & Ec & H). apply bail_inr in H as [Gc H]. apply try_inr in H as ([yh tol] & Erec & H). apply bail_inr in H as [Gw H]. injection H as <- <-. rewrite negb_false_iff in *. subst cons.
  eapply unless_bind; [exact (open_position_binds resp T shape HT Hmi p d rt Hp Ht ltac:(lia) Ert)|]. intros (ls & Hls & Hr & Hz & Hmeta & Hx & Hub). rewrite Hub in *.
  destruct (open_output_binds rt ls shape Hr Hz Hn64 p d e _ Hp Hd He ltac:(lia) Ey) as [Htot Hy]. cbn [fst snd] in Htot, Hy. subst y_total.
  eapply unless_bind; [exact Hy|]. intros (Hel & data & Hdata & ->).
  eapply unless_bind; [exact (open_expert_binds ls d e ids data exp (proj1 Hsl) Hd He Hids Hdata Ex)|]. intros Hexp.
  assert (Hexp0 : 0 <= exp). { destruct (open_expert_yields d e ids (blake3_hash data) (el_n_used e * el_m_out e * 4 + if el_experts e then 4 * el_n_used e else 0) (proj1 Hsl)) as (r & Er & Hr0). rewrite Ex in Er. by injection Er as <-. }
  eapply unless_mono; [exact (recompute_binds tier M HM HS p d e xs _ exp yh tol Hd He Hexp0 Hp Erec)|]. intros Hval.
  exists ls, d, e, (bool_decide (is_Some ids)), xs. do 7 (split; [done|]). cbv zeta. split; [apply input_row_slot; [by apply x_len_small|done|done|exact Exs]|]. by split_and!.
Qed.
End Point.


(** ** A concrete point *)

Section Witnesses.
Import Toy VerifyPoint.Sample.

Definition M : Model := {| md_entries := [entry]; md_weights := weights |}.
Definition T : TraceData := [[VerifyPoint.Sample.x; y; to_le 4 0 ++ to_le 4 1]].

Lemma one_row_commits : model_commits tier M.
Proof. split; [evaluate|]. split; [split; [reflexivity|eexists; vm_compute; reflexivity]|]. split; [evaluate|]. split; [reflexivity|]. eexists. vm_compute. reflexivity. Qed.
Lemma one_row_sane : model_sane M.
Proof. apply Forall_singleton. intros e len He. vm_compute in He. injection He as <- <-. unfold sane. cbn. lia. Qed.
Lemma one_position_commits : trace_commits resp 3 T.
Proof. split; [evaluate|]. split; [reflexivity|]. split; [evaluate|]. split; [evaluate|]. exists [VerifyPoint.Sample.position]. split; vm_compute; reflexivity. Qed.
Lemma point_accepted : exists rep o, verify_point_at tier resp seed 0 point (stage1 1) None = Ret (inr (rep, o)).
Proof. eexists _, _. vm_compute. reflexivity. Qed.

End Witnesses.
