(* ===== verification/Links.v ===== *)
(** * Links between committed activations ([verifiable-inference/src/chain.rs], [prefix.rs])

    The layout of the leaves of a stage-2 position, the draws that select what a link
    checks, and the checks of one link: the committed input of a product against the
    normed, gated or direct source it comes from, a residual addition element by
    element, and the mixing weights of the routed experts.  Sums and quotients are
    those of binary64, in the order of the source. *)
From S2P Require Import Prelude Float Magnitude Merkle Quant Manifest VerifyPoint.
From stdpp Require Export sorting.
#[local] Open Scope Z_scope.

(** ** Leaves of a stage-2 position *)

Definition STAGE_CHAIN : Z := 2.
Definition RESID_POINT : Z := POINTS + 1.
Definition ATTN_POINT : Z := RESID_POINT + 1.

(** Consensus chain data of a tier. *)
Record ChainCtx := {
  cc_n_layers : Z;
  cc_layer_base : Z;
  cc_embd_entry : Z;
  cc_eps : f64;
  cc_embd_scale : f64;
  cc_trim_last : bool;
  cc_n_used : Z;
  cc_n_attn : Z;
  cc_n_recur : Z;
  cc_seq_heads : Z;
}.

Definition EPS_RESID : f64 := f64_lit 1 1000000.

Inductive Resid := Resid_Attn | Resid_Out.

Definition n_pos_leaves (n_products n_layers n_router : Z) : Z := wrap 64 (2 * n_products + 2 * n_layers + n_router + 1).
Definition router_leaf (n_products n_layers layer : Z) : Z := wrap 64 (2 * n_products + 2 * n_layers + layer).
Definition resid_leaf (n_products layer : Z) (kind : Resid) : Z :=
  wrap 64 (2 * n_products + 2 * layer + match kind with Resid_Attn => 0 | Resid_Out => 1 end).
Definition meta_leaf (n_products n_layers n_router : Z) : Z := wrap 64 (2 * n_products + 2 * n_layers + n_router).

Definition n_router (ctx : ChainCtx) : Z := if 0 <? cc_n_used ctx then cc_n_layers ctx else 0.

(** Leaf layout of a stage-2 position consuming [tok]. *)
Definition shape (tier : TierCtx) (ctx : ChainCtx) (tok : Z) : PosShape := {|
  ps_n_leaves := n_pos_leaves (n_products tier) (cc_n_layers ctx) (n_router ctx);
  ps_meta_index := meta_leaf (n_products tier) (cc_n_layers ctx) (n_router ctx);
  ps_tok := Some tok;
  ps_n_used := cc_n_used ctx;
|}.

(** ** What a link checks *)

Definition NORM_FRAGMENT_BLOCKS : Z := 8.
Definition CHUNK_BLOCKS : Z := B3_CHUNK / 128.
Definition FRAGMENT_DRAW : Z := 64.
Definition PEAK_OVER_MEDIAN : f32 := f32_of_Z 1024.

Definition zero : spec_float := S754_zero false.

(** [x as u64], which saturates; a NaN is 0. *)
Definition f64_as_u64 (x : f64) : Z :=
  match x with
  | S754_finite false m e => Z.min (2 ^ 64 - 1) (Z.shiftl (Zpos m) e)
  | S754_infinity false => 2 ^ 64 - 1
  | _ => 0
  end.

(** First block and block count of the norm weight fragment covering [block] over [k] values. *)
Definition norm_fragment (block k : Z) : Z * Z :=
  let blocks := div_ceil k 32 in
  let n := Z.min NORM_FRAGMENT_BLOCKS blocks in
  (Z.min block (blocks - n), n).

(** Largest block scale in magnitude. *)
Definition peak_scale (d : list f32) : f32 := foldl f64_max zero (SFabs <$> d).

(** Weight of a block in the draw by scale. *)
Definition block_weight (peak d : f32) : Z :=
  wrap 64 (1 + if SFltb zero peak then f64_as_u64 (f64_of_f32 (SFabs d) / f64_of_f32 peak * f64_of_Z 65535)%F else 0).

(** The weight the target falls in. *)
Fixpoint pick (target b : Z) (w : list Z) : option Z :=
  match w with
  | [] => None
  | wb :: w => if target <? wb then Some b else pick (target - wb) (b + 1) w
  end.

Section Draws.
Context `{B3 : Blake3}.

(** Block of the product input [x] that the link of point [i] checks. *)
Definition link_block (seed : Hash) (i : Z) (x : list byte) (layout k : Z) : res (option Z) :=
  if negb (k mod 32 =? 0) then Ret None else
  blks ← blocks x layout k;
  match blks with
  | None => Ret None
  | Some blks =>
    let n := zlen blks in
    if n =? 0 then Ret None else
    let r := draw seed (wrap 32 (FRAGMENT_DRAW + i)) in
    if Z.land (r 1) 1 =? 0 then Ret (Some (r 0 mod n)) else
    let peak := peak_scale blks.*1 in
    if negb (is_finite peak) then Ret None else
    let w := block_weight peak <$> blks.*1 in
    let total := wrap 64 (foldr Z.add 0 w) in
    if total =? 0 then Panic else Ret (pick (r 2 mod total) 0 w)
  end.
End Draws.

(** The bits of [x] as [f32::total_cmp] compares them. *)
Definition total_key (x : f32) : Z := let b := f32_to_bits x in if b <? 2 ^ 31 then b else 2 ^ 31 - 1 - b.
Definition total_le (x y : f32) : Prop := total_key x <= total_key y.

#[export] Instance total_le_dec : RelDecision total_le.
Proof. intros x y. unfold total_le. apply _. Defined.

(** Whether no block scale of slot [slot] of [x] exceeds [PEAK_OVER_MEDIAN] times their median. *)
Definition peak_bounded (x : list byte) (layout k slot : Z) : res bool :=
  let x_one := x_len k layout in
  if negb (k mod 32 =? 0) || (x_one =? 0) || (zlen x =? 0) || negb (zlen x mod x_one =? 0) then Ret false else
  let slot := if zlen x =? x_one then 0 else slot in
  match get_at (chunks_exact (Z.to_nat x_one) x) slot with
  | None => Ret false
  | Some row =>
    blks ← blocks row layout k;
    match blks with
    | None => Ret false
    | Some blks =>
      let d := SFabs <$> blks.*1 in
      if existsb (fun v => negb (is_finite v)) d then Ret false else
      let peak := foldl f64_max zero d in
      median ← index (merge_sort total_le d) (zlen d / 2);
      Ret (SFeqb median zero || SFleb peak (f32_mul PEAK_OVER_MEDIAN median))
    end
  end.

(** ** Root mean squares *)

Definition RESID_RMS_MIN : f64 := f64_lit 1 1000.
Definition RESID_RMS_MAX : f64 := f64_of_Z 1024.
Definition RESID_CHUNK_RMS_MIN : f64 := f64_lit 1 10000.
Definition THRESHOLD : f64 := f64_of_Z 1.

(** [(lo..=hi).contains(&x)] *)
Definition contains (lo hi x : f64) : bool := SFleb lo x && SFleb x hi.

Section Norms.
Context `{L : Libm}.

Definition rms (v : list f32) : f64 :=
  libm_sqrt (f64_sum ((fun a => f64_of_f32 a * f64_of_f32 a)%F <$> v) / f64_of_Z (Z.max (zlen v) 1))%F.

Definition rms_scaled (v : list f32) (eps scale : f64) : list f64 :=
  let e := (fun a => f64_of_f32 a * scale)%F <$> v in
  let inv := (one / libm_sqrt (f64_sum ((fun a => a * a)%F <$> e) / f64_of_Z (zlen e) + eps))%F in
  (fun a => a * inv)%F <$> e.

(** [prefix::expected_input] *)
Definition expected_input (embd_row norm : list f32) (eps embd_scale : f64) : list f64 :=
  let e := (fun v => f64_of_f32 v * embd_scale)%F <$> embd_row in
  let ms := (f64_sum ((fun v => v * v)%F <$> e) / f64_of_Z (zlen e))%F in
  let inv := (one / libm_sqrt (ms + eps))%F in
  zip_with (fun v w => v * inv * f64_of_f32 w)%F e norm.

Definition rms_norm (v w : list f32) (eps : f64) : list f64 := expected_input v w eps one.
End Norms.

(** ** Deviations of a committed row *)

Definition abs_max (v : list f64) : f64 := foldl (fun m a => f64_max m (SFabs a)) zero v.

(** Deviations of the values [vals] from the block of scale [d] and values [q]. *)
Definition block_devs (vmax : f64) (d : f32) (q : list Z) (vals : list f64) : option (list f64) :=
  if negb (is_finite d) || negb (canonical d q) || existsb (fun a => negb (is_finite a)) vals then None
  else if SFeqb d zero then
    if existsb (fun a => SFltb (f64_lit 1 1000000 * vmax)%F (SFabs a)) vals then None else Some []
  else Some (zip_with (fun qj a => SFabs (f64_of_Z qj - a / f64_of_f32 d)%F) q vals).

(** The blocks [bl], numbered from [b], against their 32 values of [v]. *)
Fixpoint all_devs (vmax : f64) (v : list f64) (b : Z) (bl : list (f32 * list Z)) : res (option (list (list f64))) :=
  match bl with
  | [] => Ret (Some [])
  | (d, q) :: bl =>
    vals ← index_range v (b * 32) (Z.min ((b + 1) * 32) (zlen v));
    match block_devs vmax d q vals with
    | None => Ret None
    | Some ds => rest ← all_devs vmax v (b + 1) bl; Ret (option_map (cons ds) rest)
    end
  end.

Definition worst_of (devs : list (list f64)) : f64 := foldl f64_max zero (concat devs).

(** The deviations of [v] from the blocks of [x] starting at block [first_block]. *)
Definition devs_from (x : list byte) (layout k first_block : Z) (v : list f64) : res (option (list (list f64))) :=
  blks ← blocks x layout k;
  match blks with
  | None => Ret None
  | Some blks =>
    match (last ← checked_add 64 first_block (div_ceil (zlen v) 32); get_range blks first_block last) with
    | None => Ret None
    | Some bl => all_devs (abs_max v) v 0 bl
    end
  end.

(** [max |q - v / d|] over the blocks of [x] starting at [first_block], against [v]. *)
Definition block_deviation (x : list byte) (layout k first_block : Z) (v : list f64) : res (option f64) :=
  devs ← devs_from x layout k first_block v; Ret (option_map worst_of devs).

(** The worst deviation, and the most values of one block past [base]. *)
Definition block_outliers (x : list byte) (layout k first_block : Z) (v : list f64) (base : f64) : res (option (f64 * Z)) :=
  devs ← devs_from x layout k first_block v;
  Ret (option_map (fun devs => (worst_of devs, foldl Z.max 0 ((fun ds => zlen (filter (fun dev => SFltb base dev = true) ds)) <$> devs))) devs).

(** [prefix::deviation]: the whole row. *)
Definition deviation (x : list byte) (layout : Z) (v : list f64) : res (option f64) :=
  blks ← blocks x layout (zlen v);
  match blks with
  | None => Ret None
  | Some blks => devs ← all_devs (abs_max v) v 0 blks; Ret (option_map worst_of devs)
  end.

(** [chain::within] *)
Definition dev_within (dev : option f64) : Fail + unit :=
  match dev with Some d => if SFleb d THRESHOLD then inr () else inl Mismatch | None => inl Mismatch end.

(** ** Links *)

Section Links.
Context `{L : Libm}.

(** The input blocks [b0..b0 + n] against the scaled source times the weight fragment [w]. *)
Definition fragment_link (x : list byte) (layout k : Z) (scaled : list f64) (w : list f32) (b0 n : Z) : res (Fail + unit) :=
  let lo := wrap 64 (b0 * 32) in let hi := Z.min (wrap 64 ((b0 + n) * 32)) k in
  bail Shape if negb (zlen scaled =? k) || negb (zlen w =? wrap 64 (hi - lo));
  s ← index_range scaled lo hi;
  dev ← block_deviation x layout k b0 (zip_with (fun a b => a * f64_of_f32 b)%F s w); Ret (dev_within dev).

(** A product input normed from a committed residual. *)
Definition norm_link (x : list byte) (layout : Z) (src w : list f32) (eps : f64) : res (Fail + unit) :=
  bail Shape if negb (zlen src =? zlen w) || (zlen src =? 0);
  dev ← block_deviation x layout (zlen src) 0 (rms_norm src w eps); Ret (dev_within dev).

(** A product input taken from the committed output [h], for the blocks covering [h] from [first_block]. *)
Definition glu_link (x : list byte) (layout k first_block : Z) (h : list f32) : res (Fail + unit) :=
  bail Shape if zlen h =? 0;
  dev ← block_deviation x layout k first_block (f64_of_f32 <$> h); Ret (dev_within dev).
End Links.

(** [f32::MIN_POSITIVE as f64] *)
Definition MIN_POSITIVE : f64 := f64_of_f32 (f32_from_bits 0x00800000).

(** [d] is [scale * (a + s)] up to the tolerance of the addition. *)
Definition adds_up (scale : f64) (d : f32) (a : f64) (s : f32) : bool :=
  let s := f64_of_f32 s in
  let tol := (EPS_RESID * SFabs scale * (SFabs a + SFabs s) + MIN_POSITIVE)%F in
  is_finite tol && SFleb (SFabs (f64_of_f32 d - scale * (a + s))%F) tol.

(** The three lists in step, as far as the shortest. *)
Fixpoint all_add_up (scale : f64) (dst : list f32) (add : list f64) (src : list f32) : bool :=
  match dst, add, src with
  | d :: dst, a :: add, s :: src => adds_up scale d a s && all_add_up scale dst add src
  | _, _, _ => true
  end.

(** A residual addition, element by element: [dst = scale * (add + src)]. *)
Definition residual_link (dst : list f32) (add : list f64) (src : list f32) (scale : f64) : Fail + unit :=
  if (zlen dst =? 0) || negb (zlen dst =? zlen add) || negb (zlen dst =? zlen src) then inl Shape
  else if all_add_up scale dst add src then inr () else inl Mismatch.

(** ** Residual sites *)

(** Position of a residual point of [layer]. *)
Definition resid_position (ctx : ChainCtx) (resp : ResponseCtx) (layer d0 : Z) : res (Fail + Z) :=
  let n_pos := n_pos resp in
  if cc_trim_last ctx && (wrap 64 (layer + 1) =? cc_n_layers ctx) then
    first ←? ok_or Shape (f ← checked_sub (n_prompt resp) 1; if f <? n_pos then Some f else None);
    Ret (inr (wrap 64 (first + d0 mod (n_pos - first))))
  else if n_pos =? 0 then Panic else Ret (inr (d0 mod n_pos)).

(** [for j in 0..n_sites] from [j] on, with [fuel] sites left. *)
Fixpoint site_loop (fuel : nat) (n_sites j x : Z) : Z :=
  match fuel with
  | O => 0
  | S fuel => if x <? n_sites - j then j else site_loop fuel n_sites (j + 1) (wrap 64 (x - (n_sites - j)))
  end.

(** Residual site drawn from [d1] among [n_sites], site [j] weighted [n_sites - j]. *)
Definition resid_site (d1 n_sites : Z) : Z :=
  site_loop (Z.to_nat n_sites) n_sites 0 (d1 mod Z.max (wrap 64 (n_sites * wrap 64 (n_sites + 1)) / 2) 1).

(** ** Routing *)

Definition EPS_ROUTE : f64 := f64_lit 1 100000.
(** 6.103515625e-5 *)
Definition ROUTE_SUM_FLOOR : f64 := f64_lit 6103515625 100000000000000.

Definition infinity : f64 := S754_infinity false.
(** [f64::min]: the other operand when one is a NaN. *)
Definition f64_min (x y : f64) : f64 :=
  match SFcompare x y with
  | Some Gt => y
  | Some _ => x
  | None => match x with S754_nan => y | _ => x end
  end.

(** The loop over the committed experts: each one new, inside the table, and no better than the one before. *)
Fixpoint route_loop (sel : list f64) (chosen : list bool) (prev : f64) (ids : list Z) : option (list bool) :=
  match ids with
  | [] => Some chosen
  | i :: ids =>
    match get_at sel i, get_at chosen i with
    | Some s, Some false =>
      if SFltb (prev + EPS_ROUTE)%F s then None else route_loop sel (<[Z.to_nat i := true]> chosen) s ids
    | _, _ => None
    end
  end.

Definition gather (l : list f64) (ids : list Z) : list f64 := omap (get_at l) ids.

Section Routing.
Context `{L : Libm}.

Definition sigmoid (x : f32) : f64 := (one / (one + libm_exp (SFopp (f64_of_f32 x))))%F.

(** Mixing weights of the committed experts [ids], or [None] when they are not the top ones. *)
Definition route_weights (scores bias : list f32) (ids : list Z) (w_scale : f64) : option (list f64) :=
  if negb (zlen scores =? zlen bias) || (zlen ids =? 0) || (zlen scores <? zlen ids) then None else
  let p := sigmoid <$> scores in
  if existsb (fun v => negb (is_finite v)) p || existsb (fun b => negb (is_finite b)) bias then None else
  let sel := zip_with (fun a b => a + f64_of_f32 b)%F p bias in
  chosen ← route_loop sel (replicate (length p) false) infinity ids;
  let floor := foldl f64_min infinity (gather sel ids) in
  if existsb (fun '(c, v) => negb c && SFltb (floor + EPS_ROUTE)%F v) (zip chosen sel) then None else
  let sum := f64_max (f64_sum (gather p ids)) ROUTE_SUM_FLOOR in
  Some ((fun v => v / sum * w_scale)%F <$> gather p ids).
End Routing.

(** ** The leaves of a position are numbered once each *)

Inductive ChainLeaf := Leaf_X (rank : Z) | Leaf_Y (rank : Z) | Leaf_Resid (layer : Z) (kind : Resid) | Leaf_Router (layer : Z) | Leaf_Meta.

(** The index the verifier opens a leaf at. *)
Definition chain_leaf (np nl nr : Z) (l : ChainLeaf) : Z :=
  match l with
  | Leaf_X rank => wrap 64 (2 * rank)
  | Leaf_Y rank => wrap 64 (2 * rank + 1)
  | Leaf_Resid layer kind => resid_leaf np layer kind
  | Leaf_Router layer => router_leaf np nl layer
  | Leaf_Meta => meta_leaf np nl nr
  end.

Definition in_layout (np nl nr : Z) (l : ChainLeaf) : Prop :=
  match l with
  | Leaf_X rank | Leaf_Y rank => 0 <= rank < np
  | Leaf_Resid layer _ => 0 <= layer < nl
  | Leaf_Router layer => 0 <= layer < nr
  | Leaf_Meta => True
  end.

Section Layout.
Context (np nl nr : Z) (Hp : 0 <= np) (Hl : 0 <= nl) (Hr : 0 <= nr) (Hfit : 2 * np + 2 * nl + nr + 1 < 2 ^ 64).

(** The index without the wrap-around. *)
Definition plain_index (l : ChainLeaf) : Z :=
  match l with
  | Leaf_X rank => 2 * rank
  | Leaf_Y rank => 2 * rank + 1
  | Leaf_Resid layer Resid_Attn => 2 * np + 2 * layer
  | Leaf_Resid layer Resid_Out => 2 * np + 2 * layer + 1
  | Leaf_Router layer => 2 * np + 2 * nl + layer
  | Leaf_Meta => 2 * np + 2 * nl + nr
  end.

Lemma chain_leaf_plain l : in_layout np nl nr l -> chain_leaf np nl nr l = plain_index l /\ 0 <= plain_index l < 2 * np + 2 * nl + nr + 1.
Proof.
  destruct l as [r|r|r [|]|r|]; cbn [in_layout chain_leaf plain_index]; unfold resid_leaf, router_leaf, meta_leaf; intros H;
    (split; [rewrite wrap_id by (unfold fits; lia)|]; lia).
Qed.

Lemma plain_index_inj l l' : in_layout np nl nr l -> in_layout np nl nr l' -> plain_index l = plain_index l' -> l = l'.
Proof.
  destruct l as [r|r|r [|]|r|], l' as [r'|r'|r' [|]|r'|]; cbn [in_layout plain_index]; intros; try done; try (f_equal; lia); exfalso; lia.
Qed.

Lemma plain_index_covers i : 0 <= i < 2 * np + 2 * nl + nr + 1 -> exists l, in_layout np nl nr l /\ plain_index l = i.
Proof.
  intros Hi. destruct (Z.ltb_spec i (2 * np)).
  { destruct (Z.eqb_spec (i mod 2) 0); [exists (Leaf_X (i / 2))|exists (Leaf_Y (i / 2))]; cbn; dlia. }
  destruct (Z.ltb_spec i (2 * np + 2 * nl)).
  { set (j := i - 2 * np). assert (i = 2 * np + j) by lia. destruct (Z.eqb_spec (j mod 2) 0);
      [exists (Leaf_Resid (j / 2) Resid_Attn)|exists (Leaf_Resid (j / 2) Resid_Out)]; cbn; dlia. }
  destruct (Z.ltb_spec i (2 * np + 2 * nl + nr)); [exists (Leaf_Router (i - 2 * np - 2 * nl))|exists Leaf_Meta]; cbn; lia.
Qed.
End Layout.

(** C35: The leaves of a stage-2 position are numbered once each.  While the counts fit 64 bits, the inputs and
    outputs of the products, the two residuals of each layer, the router scores and the meta leaf have
    pairwise distinct indices below [n_pos_leaves], which they fill. *)
Theorem chain_leaf_numbering (np nl nr : Z) : 0 <= np -> 0 <= nl -> 0 <= nr -> 2 * np + 2 * nl + nr + 1 < 2 ^ 64 ->
  (forall l, in_layout np nl nr l -> 0 <= chain_leaf np nl nr l < n_pos_leaves np nl nr)
  /\ forall i, 0 <= i < n_pos_leaves np nl nr -> exists l, in_layout np nl nr l /\ chain_leaf np nl nr l = i
       /\ forall l', in_layout np nl nr l' -> chain_leaf np nl nr l' = i -> l' = l.
Proof.
  intros Hp Hl Hr Hf. unfold n_pos_leaves. rewrite wrap_id by (unfold fits; lia). split.
  - intros l H. by destruct (chain_leaf_plain np nl nr Hp Hl Hr Hf l H) as [-> ?].
  - intros i Hi. destruct (plain_index_covers np nl nr i Hi) as (l & H & <-). exists l. split; [done|].
    destruct (chain_leaf_plain np nl nr Hp Hl Hr Hf l H) as [-> _]. split; [done|]. intros l' H'.
    destruct (chain_leaf_plain np nl nr Hp Hl Hr Hf l' H') as [-> _]. by apply plain_index_inj.
Qed.

Lemma chain_leaf_numbering_witness : n_pos_leaves 3 2 2 = 13 /\ exists l, in_layout 3 2 2 l /\ chain_leaf 3 2 2 l = 9.
Proof.
  split; [reflexivity|]. destruct (chain_leaf_numbering 3 2 2) as [_ H]; [lia..|].
  destruct (H 9) as (l & Hl & He & _); [vm_compute; split; congruence|]. by exists l.
Defined.

(** ** The draw of a residual site *)

(** The first draw of site [j] among [n]. *)
Definition site_start (n j : Z) : Z := j * n - j * (j - 1) / 2.

Lemma site_start_S n j : site_start n (j + 1) = site_start n j + (n - j).
Proof. unfold site_start. assert ((j + 1) * (j + 1 - 1) / 2 = j * (j - 1) / 2 + j) by (rewrite <- Z.div_add by lia; f_equal; nia). nia. Qed.

Lemma site_start_mono n j i : 0 <= j <= i -> i <= n -> site_start n j <= site_start n i.
Proof.
  intros Hj Hi. replace i with (j + Z.of_nat (Z.to_nat (i - j))) in * by lia. revert Hi. generalize (Z.to_nat (i - j)) as m. clear i Hj.
  induction m as [|m IH]; intros Hi; [rewrite Z.add_0_r; lia|]. rewrite Nat2Z.inj_succ in *. replace (j + Z.succ (Z.of_nat m)) with (j + Z.of_nat m + 1) in * by lia.
  rewrite site_start_S. specialize (IH ltac:(lia)). lia.
Qed.

Lemma site_total n : 0 <= n -> site_start n n = n * (n + 1) / 2.
Proof.
  intros. unfold site_start. assert (exists q, n * (n - 1) = 2 * q) as [q Hq].
  { destruct (Z.Even_or_Odd n) as [[m ->]|[m ->]]; [exists (m * (2 * m - 1))|exists ((2 * m + 1) * m)]; lia. }
  replace (n * (n + 1)) with ((n * n - q) * 2) by lia. replace (n * (n - 1)) with (q * 2) by lia. rewrite !Z.div_mul by lia. done.
Qed.

Lemma site_loop_spec fuel n j x : Z.of_nat fuel = n - j -> 0 <= j -> 0 <= x < site_start n n - site_start n j -> x < 2 ^ 64 ->
  exists i, site_loop fuel n j x = i /\ j <= i < n /\ site_start n i <= site_start n j + x < site_start n (i + 1).
Proof.
  revert j x. induction fuel as [|fuel IH]; intros j x Hf Hj Hx Hfit; [replace n with j in Hx by lia; lia|].
  cbn [site_loop]. destruct (Z.ltb_spec x (n - j)).
  - exists j. rewrite site_start_S. lia.
  - rewrite wrap_id by (unfold fits; lia). destruct (IH (j + 1) (x - (n - j))) as (i & -> & ? & ?); [lia..| |lia|]; rewrite ?site_start_S in *; [lia|].
    exists i. split; [done|]. rewrite site_start_S in *. lia.
Qed.

(** The draw of a residual site is weighted.  While n (n + 1) fits 64 bits, the draw is always one of the
    [n] sites, and site [j] is drawn by exactly the [n - j] residues of its own interval of draws. *)
Theorem resid_site_weighted (n : Z) : 0 < n -> n * (n + 1) < 2 ^ 64 ->
  (forall d, 0 <= resid_site d n < n)
  /\ forall j, 0 <= j < n -> exists start, 0 <= start /\ start + (n - j) <= n * (n + 1) / 2
       /\ forall d, resid_site d n = j <-> start <= d mod (n * (n + 1) / 2) < start + (n - j).
Proof.
  intros Hn Hf. assert (Ht : 0 < n * (n + 1) / 2) by (apply Z.div_str_pos; nia).
  assert (Hle : n * (n + 1) / 2 <= n * (n + 1)) by (apply Z.div_le_upper_bound; nia).
  assert (H0 : site_start n 0 = 0) by (unfold site_start; reflexivity).
  assert (Hs : forall d, exists i, resid_site d n = i /\ 0 <= i < n /\ site_start n i <= d mod (n * (n + 1) / 2) < site_start n (i + 1)).
  { intros d. unfold resid_site. rewrite (wrap_id 64 (n + 1)), wrap_id, Z.max_l by (unfold fits; nia).
    pose proof (Z.mod_pos_bound d (n * (n + 1) / 2) Ht).
    destruct (site_loop_spec (Z.to_nat n) n 0 (d mod (n * (n + 1) / 2))) as (i & -> & Hi & Hb); [lia..| |lia|]; rewrite H0 in *; [rewrite site_total; lia|].
    exists i. split; [done|]. split; [done|]. lia. }
  split; [intros d; by destruct (Hs d) as (i & -> & ? & _)|].
  intros j Hj. exists (site_start n j). pose proof (site_start_mono n 0 j). pose proof (site_start_mono n (j + 1) n). rewrite site_total, site_start_S in * by lia.
  split; [lia|]. split; [lia|]. intros d. destruct (Hs d) as (i & -> & Hi & Hb). split; [intros ->; rewrite site_start_S in Hb; lia|].
  intros Hd. destruct (Z.lt_trichotomy i j) as [Hij|[?|Hij]]; [|done|]; exfalso.
  - pose proof (site_start_mono n (i + 1) j). lia.
  - pose proof (site_start_mono n (j + 1) i). rewrite (site_start_S n j) in *. lia.
Qed.

Lemma resid_site_weighted_witness : resid_site 9 4 = 3 /\ forall d, 0 <= resid_site d 4 < 4.
Proof. split; [reflexivity|]. apply (resid_site_weighted 4); lia. Defined.

(** ** The committed experts are the best ones *)

Definition selection `{L : Libm} (scores bias : list f32) : list f64 := zip_with (fun a b => a + f64_of_f32 b)%F (sigmoid <$> scores) bias.
Definition floor_of (sel : list f64) (ids : list Z) : f64 := foldl f64_min infinity (gather sel ids).

(** Each expert is in the table and does not beat the one before by more than the tolerance. *)
Fixpoint descending (sel : list f64) (prev : f64) (ids : list Z) : Prop :=
  match ids with
  | [] => True
  | i :: ids => exists s, get_at sel i = Some s /\ SFltb (prev + EPS_ROUTE)%F s = false /\ descending sel s ids
  end.

(** The experts [ids] are a correct routing for the scores. *)
Definition top_routed `{L : Libm} (scores bias : list f32) (ids : list Z) : Prop :=
  zlen scores = zlen bias /\ ids <> [] /\ forallb is_finite (sigmoid <$> scores) = true /\ forallb is_finite bias = true
  /\ NoDup ids /\ descending (selection scores bias) infinity ids
  /\ forall j s, j ∉ ids -> get_at (selection scores bias) j = Some s ->
       SFltb (floor_of (selection scores bias) ids + EPS_ROUTE)%F s = false.

#[export] Instance spec_float_eq_dec : EqDecision spec_float.
Proof. solve_decision. Defined.

Section RouteOrder.

Lemma SFleb_trans x y z : SFleb x y = true -> SFleb y z = true -> SFleb x z = true.
Proof.
  unfold SFleb, SFcompare. destruct x as [[]|[]| |[] m e], y as [[]|[]| |[] m' e'], z as [[]|[]| |[] m'' e'']; try done; cbv beta iota;
    repeat match goal with |- context [Z.compare ?a ?b] => destruct (Z.compare_spec a b) end; try done; try lia;
    repeat match goal with |- context [Pos.compare_cont Eq ?a ?b] => change (Pos.compare_cont Eq a b) with (Pos.compare a b); destruct (Pos.compare_spec a b) end;
    cbn; try done; try lia.
Qed.

Lemma SFcompare_swap x y : SFcompare y x = CompOpp <$> SFcompare x y.
Proof.
  unfold SFcompare. destruct x as [[]|[]| |[] m e], y as [[]|[]| |[] m' e']; try done; cbn [fmap option_fmap option_map];
    rewrite (Z.compare_antisym e' e); destruct (Z.compare e' e); cbn; try done;
    change (Pos.compare_cont Eq m m') with (Pos.compare m m'); change (Pos.compare_cont Eq m' m) with (Pos.compare m' m);
    rewrite (Pos.compare_antisym m' m); by destruct (Pos.compare m' m).
Qed.

Lemma not_SFltb x y : SFleb y x = true -> SFltb x y = false.
Proof. unfold SFltb, SFleb. rewrite (SFcompare_swap x y). by destruct (SFcompare x y) as [[]|]. Qed.

Lemma SFleb_refl x : x <> S754_nan -> SFleb x x = true.
Proof.
  intros Hx. unfold SFleb, SFcompare. destruct x as [[]|[]| |[] m e]; try done; rewrite Z.compare_refl;
    change (Pos.compare_cont Eq m m) with (Pos.compare m m); by rewrite Pos.compare_refl.
Qed.

Lemma SFcompare_None x y : SFcompare x y = None -> x = S754_nan \/ y = S754_nan.
Proof. unfold SFcompare. destruct x as [[]|[]| |[] m e], y as [[]|[]| |[] m' e']; try (intros; by auto); cbn; intros H; repeat case_match; done. Qed.

Lemma f64_min_spec x y : x <> S754_nan ->
  f64_min x y <> S754_nan /\ SFleb (f64_min x y) x = true /\ (y <> S754_nan -> SFleb (f64_min x y) y = true) /\ (f64_min x y = x \/ f64_min x y = y).
Proof.
  intros Hx. unfold f64_min. destruct (SFcompare x y) as [c|] eqn:E.
  - assert (Hy : y <> S754_nan) by (intros ->; by destruct x as [[]|[]| |[] ? ?]). assert (E' := SFcompare_swap x y). rewrite E in E'. cbn in E'.
    destruct c; (split; [done|]); (split; [|split; [intros _|tauto]]); try (by apply SFleb_refl); unfold SFleb; by rewrite ?E, ?E'.
  - apply SFcompare_None in E as [?|Hy]; [done|]. destruct x; try done; (split; [done|]); (split; [by apply SFleb_refl|]); (split; [done|tauto]).
Qed.

(** The fold of the minimum is a lower bound, and one of its members unless it is infinite. *)
Lemma fold_min_spec l acc : acc <> S754_nan ->
  foldl f64_min acc l <> S754_nan /\ SFleb (foldl f64_min acc l) acc = true
  /\ (forall y, y ∈ l -> SFltb y (foldl f64_min acc l) = false) /\ (foldl f64_min acc l = acc \/ foldl f64_min acc l ∈ l).
Proof.
  revert acc. induction l as [|x l IH]; intros acc Ha; cbn [foldl].
  { split; [done|]. split; [by apply SFleb_refl|]. split; [by intros y ?%not_elem_of_nil|tauto]. }
  destruct (f64_min_spec acc x Ha) as (Hm & Hle & Hlx & Hor). destruct (IH _ Hm) as (Hn & Hacc & Hl & Hmem).
  split; [done|]. split; [by eapply SFleb_trans|]. split.
  - intros y [->|Hy]%elem_of_cons; [|by apply Hl]. destruct (decide (x = S754_nan)) as [->|Hx]; [by unfold SFltb|].
    apply not_SFltb. eapply SFleb_trans; [exact Hacc|by apply Hlx].
  - destruct Hmem as [E|?]; [|right; by right]. rewrite E in *. destruct Hor as [Eo|Eo]; rewrite Eo in *; [by left|right; by left].
Qed.
End RouteOrder.

Section RouteWeights.
Context `{L : Libm}.

Lemma get_at_insert {A} (l : list A) i j x : 0 <= i < zlen l -> 0 <= j -> get_at (<[Z.to_nat i := x]> l) j = if i =? j then Some x else get_at l j.
Proof.
  intros Hi Hj. unfold get_at, zlen in *. destruct (Z.leb_spec 0 j); [|lia]. destruct (Z.eqb_spec i j) as [->|].
  - by rewrite list_lookup_insert_eq by lia.
  - by rewrite list_lookup_insert_ne by lia.
Qed.

Lemma get_at_is_Some {A} (l : list A) i : 0 <= i < zlen l -> is_Some (get_at l i).
Proof. intros Hi. unfold get_at, zlen in *. destruct (Z.leb_spec 0 i); [|lia]. apply lookup_lt_is_Some_2. lia. Qed.

Lemma route_loop_spec sel chosen prev ids : zlen chosen = zlen sel ->
  match route_loop sel chosen prev ids with
  | Some ch => NoDup ids /\ (forall i, i ∈ ids -> get_at chosen i = Some false) /\ descending sel prev ids
      /\ zlen ch = zlen sel /\ forall j, get_at ch j = if bool_decide (j ∈ ids) then Some true else get_at chosen j
  | None => ~ (NoDup ids /\ (forall i, i ∈ ids -> get_at chosen i = Some false) /\ descending sel prev ids)
  end.
Proof.
  revert chosen prev. induction ids as [|i ids IH]; intros chosen prev Hz; cbn [route_loop].
  { split; [constructor|]. split; [by intros i ?%not_elem_of_nil|]. split; [done|]. split; [done|]. intros j. by rewrite bool_decide_false by apply not_elem_of_nil. }
  destruct (get_at sel i) as [s|] eqn:Es; [|intros (_ & _ & s & E & _); congruence].
  destruct (get_at chosen i) as [[]|] eqn:Ec; [intros (_ & H & _); specialize (H i (list_elem_of_here _ _)); congruence| |intros (_ & H & _); specialize (H i (list_elem_of_here _ _)); congruence].
  destruct (SFltb _ s) eqn:Ef; [intros (_ & _ & s' & E & Ef' & _); congruence|].
  assert (Hi : 0 <= i < zlen chosen) by by eapply get_at_Some_lt.
  assert (Hg : forall j, j <> i -> get_at (<[Z.to_nat i := true]> chosen) j = get_at chosen j).
  { intros j Hj. destruct (Z.ltb_spec j 0); [unfold get_at; by destruct (Z.leb_spec 0 j); [lia|]|]. rewrite get_at_insert by lia. by destruct (Z.eqb_spec i j); [lia|]. }
  assert (Hg' : get_at (<[Z.to_nat i := true]> chosen) i = Some true) by (rewrite get_at_insert, Z.eqb_refl by lia; done).
  specialize (IH (<[Z.to_nat i := true]> chosen) s). destruct (route_loop _ _ s ids) as [ch|].
  - destruct IH as (Hnd & Hall & Hd & Hch & Hj); [unfold zlen in *; by rewrite length_insert|].
    assert (Hni : i ∉ ids) by (intros Hin; specialize (Hall i Hin); congruence).
    split; [by constructor|]. split; [|split; [by exists s|split; [done|]]].
    + intros j [->|Hin]%elem_of_cons; [done|]. rewrite <- Hg by congruence. by apply Hall.
    + intros j. rewrite Hj. destruct (decide (j = i)) as [->|Hne].
      * rewrite (bool_decide_true (i ∈ i :: ids)) by left. by case_bool_decide.
      * rewrite Hg by done. assert (Hiff : j ∈ ids <-> j ∈ i :: ids) by (rewrite elem_of_cons; tauto). by rewrite (bool_decide_ext _ _ Hiff).
  - intros (Hnd & Hall & s' & E & _ & Hd). apply NoDup_cons in Hnd as [Hni Hnd]. rewrite Es in E. injection E as <-.
    apply IH; [unfold zlen in *; by rewrite length_insert|]. split; [done|]. split; [|done]. intros j Hin. rewrite Hg by congruence. apply Hall. by right.
Qed.

Lemma descending_range sel prev ids i : descending sel prev ids -> i ∈ ids -> 0 <= i < zlen sel.
Proof.
  revert prev. induction ids as [|j ids IH]; intros prev; cbn [descending]; [by intros _ ?%not_elem_of_nil|].
  intros (s & E & _ & Hd) [->|Hi]%elem_of_cons; [by eapply get_at_Some_lt|]. by eapply IH.
Qed.

Lemma distinct_in_range (ids : list Z) n : NoDup ids -> (forall i, i ∈ ids -> 0 <= i < n) -> zlen ids <= Z.max n 0.
Proof.
  intros Hnd H. assert (Hs : ids ⊆+ seqZ 0 n) by (apply NoDup_submseteq; [done|]; intros i Hi; apply elem_of_seqZ; specialize (H i Hi); lia).
  apply submseteq_length in Hs. rewrite length_seqZ in Hs. unfold zlen. lia.
Qed.

Lemma gather_len l ids : (forall i, i ∈ ids -> 0 <= i < zlen l) -> zlen (gather l ids) = zlen ids.
Proof.
  induction ids as [|i ids IH]; intros H; [done|]. unfold gather in *. destruct (get_at_is_Some l i (H i (list_elem_of_here _ _))) as [x Hx]. cbn. rewrite Hx, !zlen_cons, IH; [done|].
  intros j Hj. apply H. by right.
Qed.

Lemma elem_of_gather l ids i x : i ∈ ids -> get_at l i = Some x -> x ∈ gather l ids.
Proof. intros Hi Hx. apply list_elem_of_omap. by exists i. Qed.
Lemma existsb_negb {A} (f : A -> bool) l : existsb (fun v => negb (f v)) l = negb (forallb f l).
Proof. induction l as [|x l IH]; [done|]. cbn. rewrite IH. by destruct (f x). Qed.

Lemma unchosen_spec ch sel bound : zlen ch = zlen sel ->
  existsb (fun '(c, v) => negb c && SFltb bound v) (zip ch sel) = false
  <-> forall j s, get_at ch j = Some false -> get_at sel j = Some s -> SFltb bound s = false.
Proof.
  intros Hz. rewrite <- not_true_iff_false, existsb_exists. split.
  - intros H j s Hc Hs. apply not_true_iff_false. intros Hb. apply H. exists (false, s). split; [|by rewrite Hb].
    apply list_elem_of_In. unfold get_at in *. destruct (0 <=? j); [|done]. apply list_elem_of_lookup. exists (Z.to_nat j). by apply lookup_zip_Some.
  - intros H ([c v] & Hin & Hb). apply list_elem_of_In, list_elem_of_lookup in Hin as (j & Hj%lookup_zip_Some). cbn in Hj. destruct Hj as [Hc Hv].
    apply andb_true_iff in Hb as [Hc' Hb]. destruct c; [done|]. rewrite <- (get_at_of_nat ch), <- (get_at_of_nat sel) in *. by rewrite (H _ _ Hc Hv) in Hb.
Qed.

Lemma get_at_replicate {A} n (x : A) i : 0 <= i < n -> get_at (replicate (Z.to_nat n) x) i = Some x.
Proof. intros. unfold get_at. destruct (Z.leb_spec 0 i); [|lia]. apply lookup_replicate. split; [done|lia]. Qed.

Lemma route_weights_spec scores bias ids w_scale :
  match route_weights scores bias ids w_scale with
  | Some w => top_routed scores bias ids /\ zlen w = zlen ids
  | None => ~ top_routed scores bias ids
  end.
Proof.
  unfold route_weights, top_routed. destruct (Z.eqb_spec (zlen scores) (zlen bias)) as [Hb|Hb]; [|by intros [? _]]. cbn [negb orb].
  destruct (Z.eqb_spec (zlen ids) 0) as [Hi|Hi]; cbn [orb]; [intros (_ & Hn & _); by destruct ids|].
  assert (Hsel : zlen (selection scores bias) = zlen scores) by (unfold selection, zlen in *; rewrite length_zip_with, length_fmap; lia).
  destruct (Z.ltb_spec (zlen scores) (zlen ids)) as [Hlt|_].
  { intros (_ & _ & _ & _ & Hnd & Hd & _). pose proof (distinct_in_range ids (zlen scores) Hnd) as H. pose proof (zlen_nonneg scores).
    ospecialize (H _); [intros i Hin; rewrite <- Hsel; by eapply descending_range|]. lia. }
  rewrite !existsb_negb. destruct (forallb is_finite (sigmoid <$> scores)) eqn:Ep; cbn [negb orb]; [|by intros (_ & _ & ? & _)].
  destruct (forallb is_finite bias); cbn [negb orb]; [|by intros (_ & _ & _ & ? & _)]. cbv zeta. fold (selection scores bias).
  pose proof (route_loop_spec (selection scores bias) (replicate (length (sigmoid <$> scores)) false) infinity ids) as Hloop.
  rewrite length_fmap in *. replace (length scores) with (Z.to_nat (zlen scores)) in * by (unfold zlen; lia).
  assert (Hfree : forall j, 0 <= j < zlen scores -> get_at (replicate (Z.to_nat (zlen scores)) false) j = Some false) by (intros; by apply get_at_replicate).
  destruct (route_loop _ _ _ ids) as [ch|]; cbn [mbind option_bind].
  - destruct Hloop as (Hnd & Hall & Hd & Hch & Hj); [rewrite Hsel; unfold zlen at 1; rewrite length_replicate; unfold zlen; lia|].
    fold (floor_of (selection scores bias) ids).
    assert (Hiff : forall j s, get_at (selection scores bias) j = Some s -> get_at ch j = Some false <-> j ∉ ids).
    { intros j s Hs. apply get_at_Some_lt in Hs as Hr. rewrite Hj. case_bool_decide; [by split|]. rewrite Hfree by lia. done. }
    pose proof (unchosen_spec ch (selection scores bias) (floor_of (selection scores bias) ids + EPS_ROUTE)%F Hch) as Hun.
    destruct (existsb _ _).
    + intros (_ & _ & _ & _ & _ & _ & Htop). assert (false = true); [|done]. symmetry. apply Hun. intros j s Hc Hs. apply (Htop j s); [by eapply Hiff|done].
    + split.
      * split; [done|]. split; [by intros ->|]. split; [done|]. split; [done|]. split; [done|]. split; [done|].
        intros j s Hni Hs. apply (proj1 Hun eq_refl j s); [by eapply Hiff|done].
      * rewrite zlen_fmap. apply gather_len. intros i Hin. rewrite zlen_fmap, <- Hsel. by eapply descending_range.
  - intros (_ & _ & _ & _ & Hnd & Hd & _). apply Hloop; [rewrite Hsel; unfold zlen at 1; rewrite length_replicate; unfold zlen; lia|].
    split; [done|]. split; [|done]. intros i Hin. apply Hfree. rewrite <- Hsel. by eapply descending_range.
Qed.
End RouteWeights.

(** C36: Routing is checked exactly.  [route_weights] returns weights, one per committed expert, exactly when the
    scores are finite, the committed experts are distinct experts of the table in order of selection score up
    to [EPS_ROUTE], and no expert left out beats their lowest score by more than that; the lowest score is a
    lower bound of the committed ones. *)
Theorem route_weights_exact `{L : Libm} (scores bias : list f32) (ids : list Z) (w_scale : f64) :
  (is_Some (route_weights scores bias ids w_scale) <-> top_routed scores bias ids)
  /\ forall w, route_weights scores bias ids w_scale = Some w -> zlen w = zlen ids
       /\ forall i s, i ∈ ids -> get_at (selection scores bias) i = Some s -> SFltb s (floor_of (selection scores bias) ids) = false.
Proof.
  pose proof (route_weights_spec scores bias ids w_scale) as H. destruct (route_weights _ _ _ _) as [w|].
  - destruct H as [Ht Hz]. split; [by split; eauto|]. intros _ [= <-]. split; [done|]. intros i s Hi Hs.
    destruct (fold_min_spec (gather (selection scores bias) ids) infinity) as (_ & _ & Hl & _); [done|]. by apply Hl, (elem_of_gather _ _ i).
  - split; [|done]. split; [by intros []|done].
Qed.

Lemma route_weights_exact_witness : let L := {| libm_exp x := S754_zero false; libm_tanh x := x; libm_sqrt x := x |} in
  exists w, route_weights [zero; zero; zero] [one; zero; f64_of_Z 2] [2; 0] one = Some w /\ zlen w = 2.
Proof.
  intros L. assert (H : exists w, route_weights [zero; zero; zero] [one; zero; f64_of_Z 2] [2; 0] one = Some w) by (eexists; vm_compute; reflexivity).
  destruct H as [w E]. exists w. split; [exact E|]. exact (proj1 (proj2 (route_weights_exact _ _ _ _) w E)).
Defined.

(** ** The draw of a linked block never panics *)

Lemma as_u64_below t x : 0 <= t -> below t x -> 0 <= f64_as_u64 x <= 2 ^ t.
Proof.
  intros Ht. destruct x as [s|s| |[] m e]; cbn [below f64_as_u64]; try done; try lia. intros Hb.
  pose proof (digits_bounds (Zpos m) ltac:(lia)) as [_ Hm]. pose proof (digits_nonneg (Zpos m) ltac:(lia)) as Hd.
  assert (0 <= Z.shiftl (Zpos m) e <= 2 ^ t); [|lia]. destruct (Z.leb_spec 0 e).
  - rewrite Z.shiftl_mul_pow2 by done. split; [lia|]. apply Z.le_trans with (2 ^ Zdigits2 (Zpos m) * 2 ^ e); [nia|].
    rewrite <- Z.pow_add_r by done. apply Z.pow_le_mono_r; lia.
  - rewrite Z.shiftl_div_pow2 by lia. split; [apply Z.div_pos; lia|]. apply Z.div_le_upper_bound; [lia|].
    apply Z.le_trans with (2 ^ Zdigits2 (Zpos m)); [lia|]. rewrite <- Z.pow_add_r by lia. apply Z.pow_le_mono_r; lia.
Qed.

Section LinkBlock.

Lemma peak_covers (d : list f32) : Forall single d -> is_finite (peak_scale d) = true ->
  normal (peak_scale d) /\ Forall (fun x => normal x /\ covers (peak_scale d) x) d.
Proof.
  intros Hd Hf. destruct (fold_max_covers (SFabs <$> d) zero) as (_ & Hn & Hc); [done|done| |].
  { apply Forall_fmap. eapply Forall_impl; [exact Hd|]. intros x Hx%single_normal. split; [by apply normal_abs|]. destruct x; cbn; tauto. }
  split; [done|]. destruct (Hc Hf) as [_ HF]. rewrite Forall_fmap in HF. apply Forall_and. split; [eapply Forall_impl; [exact Hd|apply single_normal]|].
  eapply Forall_impl; [exact HF|]. intros x. unfold compose. by destruct x.
Qed.

Lemma block_weight_small peak d : normal peak -> normal d -> covers peak d -> is_finite peak = true -> 1 <= block_weight peak d <= 2 ^ 20.
Proof.
  intros Np Nd Hc Hf. unfold block_weight. destruct (SFltb zero peak) eqn:Hpos; [|vm_compute; split; congruence].
  assert (Hx : 0 <= f64_as_u64 (f64_of_f32 (SFabs d) / f64_of_f32 peak * f64_of_Z 65535)%F <= 2 ^ 19).
  { destruct (ratio_below peak d Np Nd Hc Hf Hpos) as [-> | Hb]; [vm_compute; split; congruence|].
    apply as_u64_below; [done|]. apply (mul_below 53 1024 ltac:(lia) ltac:(lia) 2 16 18); try done; lia. }
  rewrite wrap_id by (unfold fits; lia). lia.
Qed.

Lemma sum_bounds (w : list Z) c : Forall (fun x => 1 <= x <= c) w -> zlen w <= foldr Z.add 0 w <= zlen w * c.
Proof. induction 1 as [|x w Hx _ IH]; [done|]. rewrite zlen_cons. cbn [foldr]. lia. Qed.

Lemma pick_spec target b (w : list Z) : 0 <= target < foldr Z.add 0 w -> exists i, pick target b w = Some (b + i) /\ 0 <= i < zlen w.
Proof.
  revert target b. induction w as [|x w IH]; intros target b Ht; cbn [foldr] in Ht; [lia|]. cbn [pick]. rewrite zlen_cons. pose proof (zlen_nonneg w).
  destruct (Z.ltb_spec target x); [exists 0; split; [f_equal; lia|lia]|]. destruct (IH (target - x) (b + 1)) as (i & -> & Hi); [lia|].
  exists (i + 1). split; [f_equal; lia|lia].
Qed.

Context `{B3 : Blake3}.

Lemma link_block_spec seed i x layout k : 0 <= k < 2 ^ 40 ->
  returns (fun o => match o with
    | Some b => 0 <= b < k / 32 /\ k mod 32 = 0 /\ x_fits layout x k
    | None => k mod 32 <> 0 \/ k = 0 \/ ~ x_fits layout x k \/ exists bl, blocks x layout k = Ret (Some bl) /\ is_finite (peak_scale bl.*1) = false
    end) (link_block seed i x layout k).
Proof.
  intros Hk. unfold link_block. destruct (Z.eqb_spec (k mod 32) 0) as [Hk0|]; [|apply returns_ret; by left]. cbn [negb].
  destruct (blocks_spec x layout k) as [[Hx (o & E & bl & -> & Hn & HF)]|[Hx ->]]; [lia| |cbn [mbind res_bind]; apply returns_ret; tauto].
  rewrite E. cbn [mbind res_bind]. assert (Hc : div_ceil k 32 = k / 32) by (unfold div_ceil; dlia). rewrite Hc in Hn.
  destruct (Z.eqb_spec (zlen bl) 0); [apply returns_ret; right; left; dlia|]. assert (0 <= k / 32) by dlia. cbv zeta.
  set (r := draw seed (wrap 32 (FRAGMENT_DRAW + i))). destruct (Z.land (r 1) 1 =? 0).
  { apply returns_ret. rewrite <- Hn. split; [|done]. apply Z.mod_pos_bound. lia. }
  destruct (is_finite (peak_scale bl.*1)) eqn:Ef; cbn [negb]; [|apply returns_ret; right; right; right; eauto].
  assert (Hw : Forall (fun z => 1 <= z <= 2 ^ 20) (block_weight (peak_scale bl.*1) <$> bl.*1)).
  { destruct (peak_covers bl.*1) as [Np Hd]; [|done|].
    - apply Forall_fmap. eapply Forall_impl; [exact HF|]. by intros [] [? _].
    - apply Forall_fmap. eapply Forall_impl; [exact Hd|]. intros d [Nd Hcv]. by apply block_weight_small. }
  apply sum_bounds in Hw as Hs. rewrite !zlen_fmap, Hn in Hs. assert (k / 32 < 2 ^ 40) by dlia.
  rewrite wrap_id by (unfold fits; nia). destruct (Z.eqb_spec (foldr Z.add 0 (block_weight (peak_scale bl.*1) <$> bl.*1)) 0); [lia|].
  destruct (pick_spec (r 2 mod foldr Z.add 0 (block_weight (peak_scale bl.*1) <$> bl.*1)) 0 (block_weight (peak_scale bl.*1) <$> bl.*1)) as (b & -> & Hb); [apply Z.mod_pos_bound; lia|].
  rewrite !zlen_fmap, Hn in Hb. apply returns_ret. split; [lia|]. by split.
Qed.
End LinkBlock.

(** ** What an accepted deviation means *)

(** The values [vals] agree with a canonical block of finite scale: within [THRESHOLD] quantization steps, or
    negligible against the largest value where the scale is zero. *)
Definition block_close (vmax : f64) (blk : f32 * list Z) (vals : list f64) : Prop :=
  is_finite blk.1 = true /\ canonical blk.1 blk.2 = true /\ forallb is_finite vals = true
  /\ if SFeqb blk.1 zero then Forall (fun a => SFltb (f64_lit 1 1000000 * vmax)%F (SFabs a) = false) vals
     else forall j qj a, blk.2 !! j = Some qj -> vals !! j = Some a -> SFltb THRESHOLD (SFabs (f64_of_Z qj - a / f64_of_f32 blk.1))%F = false.

(** The blocks of [x] from [first] on agree with [v]. *)
Definition row_close (x : list byte) (layout k first : Z) (v : list f64) : Prop :=
  exists bl, blocks x layout k = Ret (Some bl) /\ first + div_ceil (zlen v) 32 <= zlen bl
    /\ Forall2 (block_close (abs_max v)) (slice bl first (first + div_ceil (zlen v) 32)) (chunks 32 v).

Section MaxOrder.

Lemma f64_max_spec x y : x <> S754_nan ->
  f64_max x y <> S754_nan /\ SFleb x (f64_max x y) = true /\ (y <> S754_nan -> SFleb y (f64_max x y) = true) /\ (f64_max x y = x \/ f64_max x y = y).
Proof.
  intros Hx. unfold f64_max. destruct (SFcompare x y) as [c|] eqn:E.
  - assert (Hy : y <> S754_nan) by (intros ->; by destruct x as [[]|[]| |[] ? ?]). assert (E' := SFcompare_swap x y). rewrite E in E'. cbn in E'.
    destruct c; (split; [done|]); (split; [|split; [intros _|tauto]]); try (by apply SFleb_refl); unfold SFleb; by rewrite ?E, ?E'.
  - apply SFcompare_None in E as [?|Hy]; [done|]. destruct x; try done; (split; [done|]); (split; [by apply SFleb_refl|]); (split; [done|tauto]).
Qed.

(** The fold of the maximum is within a bound exactly when every value is. *)
Lemma fold_max_within l acc t : t <> S754_nan -> acc <> S754_nan ->
  SFleb (foldl f64_max acc l) t = true <-> SFleb acc t = true /\ Forall (fun y => SFltb t y = false) l.
Proof.
  intros Ht. revert acc. induction l as [|x l IH]; intros acc Ha; cbn [foldl]; [split; [by split|by intros []]|].
  destruct (f64_max_spec acc x Ha) as (Hm & Hlx & Hly & Hor). rewrite (IH _ Hm), Forall_cons. split.
  - intros [Hle HF]. split; [by eapply SFleb_trans|]. split; [|done]. destruct (decide (x = S754_nan)) as [->|Hx]; [by destruct t as [[]|[]| |[] ? ?]|].
    apply not_SFltb. eapply SFleb_trans; [by apply Hly|done].
  - intros (Hle & Hx & HF). split; [|done]. destruct Hor as [->|E]; [done|]. rewrite E in *. unfold SFltb in Hx. unfold SFleb.
    rewrite (SFcompare_swap t x). destruct (SFcompare t x) as [[]|] eqn:Ec; try done. by apply SFcompare_None in Ec as [?|?].
Qed.
End MaxOrder.

Section Deviations.

Lemma all_devs_mapM vmax v b bl : 0 <= b -> b + zlen bl = Z.max b (div_ceil (zlen v) 32) ->
  all_devs vmax v b bl = Ret (mapM (M := option) (fun '((d, q), vals) => block_devs vmax d q vals) (zip bl (drop (Z.to_nat b) (chunks 32 v)))).
Proof.
  revert b. induction bl as [|[d q] bl IH]; intros b Hb Hl; [done|]. cbn [all_devs]. rewrite zlen_cons in Hl. pose proof (zlen_nonneg bl).
  assert (Hbv : b * 32 < zlen v /\ (Z.to_nat b * 32 < length v)%nat) by (unfold div_ceil, zlen in *; dlia). destruct Hbv as [Hbv Hbn].
  pose proof (chunks_lookup 32 (Z.to_nat b) v ltac:(lia) Hbn) as Hc. rewrite (drop_S _ _ _ Hc).
  assert (Hs : index_range v (b * 32) (Z.min ((b + 1) * 32) (zlen v)) = Ret (take 32 (drop (Z.to_nat b * 32) v))).
  { rewrite index_range_Ret by lia. f_equal. unfold slice. replace (Z.to_nat (b * 32)) with (Z.to_nat b * 32)%nat by lia.
    destruct (Z.leb_spec ((b + 1) * 32) (zlen v)); [f_equal; lia|]. unfold zlen in *. rewrite !take_ge; [done|rewrite length_drop; lia|rewrite length_drop; lia]. }
  rewrite Hs. cbn [mbind res_bind zip zip_with mapM]. destruct (block_devs vmax d q _) as [ds|]; [|done]. cbn [mbind option_bind].
  rewrite IH by lia. replace (S (Z.to_nat b)) with (Z.to_nat (b + 1)) by lia. cbn [mbind res_bind]. by destruct (mapM _ _).
Qed.

Lemma block_devs_close vmax d q vals : block_close vmax (d, q) vals
  <-> exists ds, block_devs vmax d q vals = Some ds /\ Forall (fun y => SFltb THRESHOLD y = false) ds.
Proof.
  unfold block_close, block_devs. cbn [fst snd]. rewrite existsb_negb.
  destruct (is_finite d); cbn [negb orb]; [|split; [by intros [? _]|by intros (? & ? & _)]].
  destruct (canonical d q); cbn [negb orb]; [|split; [by intros (_ & ? & _)|by intros (? & ? & _)]].
  destruct (forallb is_finite vals); cbn [negb orb]; [|split; [by intros (_ & _ & ? & _)|by intros (? & ? & _)]].
  destruct (SFeqb d zero).
  - rewrite Forall_forall. destruct (existsb (fun a => SFltb (f64_lit 1 1000000 * vmax)%F (SFabs a)) vals) eqn:E.
    + split; [|by intros (? & ? & _)]. intros (_ & _ & _ & H). apply existsb_exists in E as (a & Ha%list_elem_of_In & Hb). rewrite H in Hb; done.
    + split; [intros _; by exists []|]. intros _. do 3 (split; [done|]). intros a Ha. apply not_true_iff_false. intros Hb.
      assert (existsb (fun a => SFltb (f64_lit 1 1000000 * vmax)%F (SFabs a)) vals = true); [|congruence]. apply existsb_exists. exists a. split; [by apply list_elem_of_In|done].
  - split.
    + intros (_ & _ & _ & H). eexists. split; [done|]. apply Forall_lookup. intros j y Hy.
      rewrite lookup_zip_with in Hy. destruct (q !! j) as [qj|] eqn:Eq; [|done]. destruct (vals !! j) as [a|] eqn:Ea; [|done]. cbn in Hy. injection Hy as <-. by apply (H j).
    + intros (ds & [= <-] & H). do 3 (split; [done|]). intros j qj a Hq Ha. rewrite Forall_lookup in H. apply (H j). rewrite lookup_zip_with, Hq. cbn. by rewrite Ha.
Qed.

Lemma devs_close vmax (bl : list (f32 * list Z)) (vs : list (list f64)) : length bl = length vs ->
  (exists devs, mapM (M := option) (fun '((d, q), vals) => block_devs vmax d q vals) (zip bl vs) = Some devs
    /\ SFleb (worst_of devs) THRESHOLD = true) <-> Forall2 (block_close vmax) bl vs.
Proof.
  intros Hlen. assert (Hw : forall devs, SFleb (worst_of devs) THRESHOLD = true <-> Forall (Forall (fun y => SFltb THRESHOLD y = false)) devs).
  { intros devs. unfold worst_of. rewrite fold_max_within by done. rewrite Forall_concat. split; [by intros []|]. intros H. split; [by vm_compute|done]. }
  setoid_rewrite Hw. clear Hw. revert vs Hlen. induction bl as [|[d q] bl IH]; intros [|v vs] Hlen; try done.
  - split; [intros _; constructor|]. intros _. exists []. split; [done|constructor].
  - cbn [zip zip_with mapM]. rewrite Forall2_cons, block_devs_close, <- IH by (cbn in Hlen; lia). split.
    + intros (devs & E & HF). destruct (block_devs vmax d q v) as [ds|]; [|done]. cbn [mbind option_bind] in E.
      change (zip_with pair bl vs) with (zip bl vs) in E. destruct (mapM _ (zip bl vs)) as [rest|]; [|done]. cbn in E. injection E as <-. apply Forall_cons in HF as [? ?]. split; [by exists ds|by exists rest].
    + intros [(ds & -> & Hd) (rest & E & HF)]. exists (ds :: rest). cbn [mbind option_bind]. change (zip_with pair bl vs) with (zip bl vs). rewrite E. split; [done|]. by constructor.
Qed.

Lemma zlen_chunks {A} (n : nat) (v : list A) : (0 < n)%nat -> zlen (chunks n v) = div_ceil (zlen v) (Z.of_nat n).
Proof. intros. unfold zlen at 1. by apply length_chunks. Qed.

Lemma block_deviation_spec x layout k first v : 0 <= k < 2 ^ 61 -> 0 <= first ->
  exists dev, block_deviation x layout k first v = Ret dev /\ (dev_within dev = inr () <-> row_close x layout k first v).
Proof.
  intros Hk Hf. unfold block_deviation, devs_from, row_close.
  destruct (blocks_spec x layout k Hk) as [[_ (o & -> & bl & -> & Hn & _)]|[_ ->]]; cbn [mbind res_bind].
  2: { exists None. split; [done|]. split; [done|]. by intros (? & ? & _). }
  assert (Hd : 0 <= div_ceil (zlen v) 32) by (pose proof (zlen_nonneg v); unfold div_ceil; dlia). set (n := div_ceil (zlen v) 32) in *.
  assert (Hbig : zlen bl < 2 ^ 64) by (rewrite Hn; unfold div_ceil; dlia).
  destruct (Z.leb_spec (first + n) (zlen bl)) as [Hle|Hgt].
  - assert (Hadd : checked_add 64 first n = Some (first + n)) by (unfold checked_add; by destruct (Z.ltb_spec (first + n) (2 ^ 64)); [|lia]).
    rewrite Hadd. cbn [mbind option_bind]. rewrite (proj2 (get_range_Some bl (slice bl first (first + n)) _ _)) by (split; [lia|split; [lia|done]]).
    rewrite all_devs_mapM by (rewrite ?zlen_slice by lia; fold n; lia). cbn [Z.to_nat drop mbind res_bind].
    eexists. split; [reflexivity|]. transitivity (Forall2 (block_close (abs_max v)) (slice bl first (first + n)) (chunks 32 v)); [|split; [intros H; by exists bl|by intros (bl' & [= <-] & _ & H)]].
    assert (Hc : zlen (chunks 32 v) = n) by (by apply zlen_chunks; lia). pose proof (zlen_slice bl first (first + n) ltac:(lia) ltac:(lia) Hle) as Hs.
    rewrite <- devs_close by (unfold zlen in Hc, Hs; lia).
    destruct (mapM _ _) as [devs|]; cbn [option_map dev_within]; [|split; [done|by intros (? & ? & _)]].
    destruct (SFleb _ _) eqn:E; (split; [done||eauto|]); [done|]. intros (? & [= <-] & ?). congruence.
  - exists None. split.
    + destruct (checked_add _ _ _) as [l|] eqn:E; cbn [mbind option_bind]; [|done]. unfold checked_add in E. destruct (first + n <? 2 ^ 64); [|done]. injection E as <-.
      unfold get_range. destruct (Z.leb_spec (first + n) (zlen bl)); [lia|]. by rewrite andb_false_r.
    + split; [done|]. intros (bl' & [= <-] & ? & _). lia.
Qed.

(** The check of a whole row is the block check from its first block. *)
Lemma deviation_is_block_deviation x layout v : zlen v < 2 ^ 61 -> deviation x layout v = block_deviation x layout (zlen v) 0 v.
Proof.
  intros Hv. pose proof (zlen_nonneg v). unfold deviation, block_deviation, devs_from.
  destruct (blocks_spec x layout (zlen v)) as [[_ (o & -> & bl & -> & Hn & _)]|[_ ->]]; [lia| |done]. cbn [mbind res_bind].
  assert (Hadd : checked_add 64 0 (div_ceil (zlen v) 32) = Some (zlen bl)) by (unfold checked_add; rewrite Hn; by destruct (Z.ltb_spec (0 + div_ceil (zlen v) 32) (2 ^ 64)); [|unfold div_ceil in *; dlia]).
  rewrite Hadd. cbn [mbind option_bind]. rewrite (proj2 (get_range_Some bl bl 0 (zlen bl))); [done|]. pose proof (zlen_nonneg bl). split; [lia|]. split; [lia|]. by rewrite slice_to_end by lia.
Qed.
End Deviations.

(** The fragment of a drawn block: up to eight blocks of the row, the drawn one among them. *)
Lemma norm_fragment_spec block k : 0 <= block < k / 32 -> k mod 32 = 0 ->
  let '(b0, n) := norm_fragment block k in 0 <= b0 <= block /\ block < b0 + n /\ 0 < n <= 8 /\ b0 + n <= k / 32 /\ div_ceil k 32 = k / 32.
Proof.
  intros Hb Hk. unfold norm_fragment, NORM_FRAGMENT_BLOCKS. assert (Hc : div_ceil k 32 = k / 32) by (unfold div_ceil; dlia). rewrite Hc. lia.
Qed.

(** The draw of a linked block is total and lands on the row.  For rows of fewer than 2^40 values nothing in
    [link_block] panics: the weights of the blocks sum to a positive number below 2^64, and the target always
    falls in one of them.  A drawn block is one of the [k / 32] blocks of the row, and no block is drawn
    exactly when [k] is not a positive multiple of 32, the row is too short for its layout, or a block scale
    is infinite. *)
Theorem link_block_drawn `{B3 : Blake3} (seed : Hash) (i : Z) (x : list byte) (layout k : Z) : 0 <= k < 2 ^ 40 ->
  exists o, link_block seed i x layout k = Ret o /\ match o with
    | Some b => 0 <= b < k / 32 /\ k mod 32 = 0 /\ x_fits layout x k
    | None => k mod 32 <> 0 \/ k = 0 \/ ~ x_fits layout x k \/ exists bl, blocks x layout k = Ret (Some bl) /\ is_finite (peak_scale bl.*1) = false
    end.
Proof. intros Hk. by apply link_block_spec. Qed.

(** C37: A link accepts exactly the rows that agree with their source.  The deviation of [v] from the blocks of
    [x] starting at [first] is at most [THRESHOLD] exactly when the row holds those blocks, each one is
    canonical with a finite scale, and each value is finite and within [THRESHOLD] quantization steps of the
    committed one, or negligible in a block of scale zero; the check never panics. *)
Theorem block_deviation_exact (x : list byte) (layout k first : Z) (v : list f64) : 0 <= k < 2 ^ 61 -> 0 <= first ->
  exists dev, block_deviation x layout k first v = Ret dev /\ (dev_within dev = inr () <-> row_close x layout k first v).
Proof. intros Hk Hf. by apply block_deviation_spec. Qed.

(** ** Concrete inputs *)

Section Witnesses.
Import Toy.

(** A block of scale 1.0 with the quants 127, 0, ... 0. *)
Definition toy_row : list byte := to_le 2 0x3c00 ++ to_le 2 0 ++ to_le 32 127.

Lemma link_block_drawn_witness : exists o, link_block (to_le 32 7) 0 toy_row MMVQ 32 = Ret o.
Proof. destruct (link_block_drawn (to_le 32 7) 0 toy_row MMVQ 32) as (o & E & _); [lia|]. by exists o. Defined.

Lemma block_deviation_exact_witness : row_close toy_row MMVQ 32 0 (f64_of_Z 127 :: replicate 31 zero).
Proof.
  destruct (block_deviation_exact toy_row MMVQ 32 0 (f64_of_Z 127 :: replicate 31 zero)) as (dev & E & H); [lia..|].
  apply H. assert (Hd : block_deviation toy_row MMVQ 32 0 (f64_of_Z 127 :: replicate 31 zero) = Ret (Some zero)) by (vm_compute; reflexivity).
  rewrite Hd in E. injection E as <-. vm_compute. reflexivity.
Defined.
End Witnesses.
