(* ===== verification/Prefix.v ===== *)
(** * The request-bound prefix ([verifiable-inference/src/prefix.rs])

    The prompt of a traced response holds one token per byte of the request id.  The
    prefix point of an opening checks the input of the first product at a drawn
    position of that prefix against the normed embedding of the token the request id
    puts there; it is modelled whole, in its stage-1 and stage-2 forms. *)
From S2P Require Import Prelude Float Magnitude Merkle Seq Wire Opening Quant Manifest VerifyPoint Commitment Links.
#[local] Open Scope Z_scope.

Definition PREFIX_LEN : Z := 32.
Definition PREFIX_POINT : Z := POINTS.

(** Consensus data of a tier's prefix; [px_table] has 256 entries by its type. *)
Record PrefixCtx := {
  px_table : list Z;
  px_offset : Z;
  px_embd_entry : Z;
  px_norm_entry : Z;
  px_eps : f64;
  px_embd_scale : f64;
}.

(** [fits]: whether a prompt of [n_prompt] positions holds the whole prefix. *)
Definition prefix_fits (n_prompt offset : Z) : bool := saturating_add 32 offset PREFIX_LEN <=? n_prompt.

(** The token the request id puts at prefix position [t]. *)
Definition expected_token (ctx : PrefixCtx) (request_txid : Hash) (t : Z) : res (option Z) :=
  match checked_sub t (px_offset ctx) with
  | None => Ret None
  | Some i =>
    if i <? PREFIX_LEN then b ← index request_txid i; tok ← index (px_table ctx) (u8_of_byte b); Ret (Some tok)
    else Ret None
  end.

(** [b.chunks_exact(4).map(f32::from_le_bytes)] *)
Definition f32s (b : list byte) : list f32 := f32_from_le <$> chunks_exact 4 b.

Section Prefix.
Context `{B3 : Blake3, L : Libm}.

(** The prefix position a seed draws. *)
Definition position (seed : Hash) (offset : Z) : Z := wrap 64 (offset + draw seed PREFIX_POINT 0 mod PREFIX_LEN).

(** The entries of the first product, the embedding table and the layer-0 norm. *)
Definition prefix_entries (tier : TierCtx) (ctx : PrefixCtx) (p : PrefixPoint) : res (Fail + (Entry * Entry * Entry)) :=
  first ←? open_entry tier (pre_entry p) 0;
  bail Manifest_ if negb (role first =? ROLE_PRODUCT) || negb (n_exp first =? 1);
  embd ←? open_entry tier (pre_embd p).1 (px_embd_entry ctx);
  norm ←? open_entry tier (pre_norm p).1 (px_norm_entry ctx);
  bail Manifest_ if negb (role embd =? ROLE_EMBD) || negb (role norm =? ROLE_NORM) || negb (wtype norm =? 0);
  bail Manifest_ if negb (e_k embd =? e_k first) || negb (e_k norm =? e_k first) || negb (n_exp embd =? 1) || negb (n_exp norm =? 1);
  Ret (inr (first, embd, norm)).

(** The committed input of the first product at position [t]. *)
Definition prefix_input (resp : ResponseCtx) (p : PrefixPoint) (first : Entry) (shape : PosShape) (t : Z) : res (Fail + Z) :=
  let layout := layout_for (pre_n_ubatch p) (wtype first) in
  bail Shape if negb (zlen (pre_x p) =? x_len (e_k first) layout);
  pos_root ←? ok_or Trace (b3_fold (ps_n_leaves shape) 0 (blake3_hash (pre_x p)) (pre_x_path p));
  bail Trace if negb (b3_verify (resp_trace_root resp) (n_pos resp) t pos_root (pre_pos_path p));
  bail Mismatch if negb (pre_n_ubatch p =? expected_ubatch t (n_prompt resp));
  bail Trace if negb (b3_verify pos_root (ps_n_leaves shape) (ps_meta_index shape) (meta_hash shape t (pre_n_ubatch p)) (pre_meta_path p));
  Ret (inr layout).

(** The blocks of the input that are checked: all of them, or a drawn fragment. *)
Definition prefix_blocks (seed : Hash) (x : list byte) (layout k : Z) (fragment : bool) : res (Fail + (Z * Z)) :=
  if fragment then
    ob ← link_block seed PREFIX_POINT x layout k;
    b ←? ok_or Shape ob;
    Ret (inr (norm_fragment b k))
  else Ret (inr (0, div_ceil k 32)).

Definition verify_prefix_point_at (tier : TierCtx) (ctx : PrefixCtx) (resp : ResponseCtx) (seed request_txid : Hash) (p : PrefixPoint)
    (shape_for : Z -> PosShape) (fragment : bool) : res (Fail + Z) :=
  bail Shape if (n_pos resp =? 0) || (n_prompt resp =? 0) || (n_pos resp <? n_prompt resp) || negb (prefix_fits (n_prompt resp) (px_offset ctx));
  bail Shape if (n_products tier =? 0) || (n_entries tier <? n_products tier);
  let t := position seed (px_offset ctx) in
  o ← expected_token ctx request_txid t;
  tok ←? ok_or Shape o;
  '(first, embd, norm) ←? prefix_entries tier ctx p;
  layout ←? prefix_input resp p first (shape_for tok) t;
  let k := e_k first in
  row ←? open_row tier embd (pre_embd p).2 tok;
  oe ← dequant_row (wtype embd) row k;
  e ←? ok_or Unsupported oe;
  '(b0, nb) ←? prefix_blocks seed (pre_x p) layout k fragment;
  let lo := wrap 64 (b0 * 32) in let len := Z.min (wrap 64 (nb * 32)) (wrap 64 (k - lo)) in
  w_bytes ←? open_bytes tier norm (pre_norm p).2 (wrap 64 (4 * lo)) (wrap 64 (4 * len));
  let w := f32s w_bytes in
  dev ← (if fragment then
           s ← index_range (rms_scaled e (px_eps ctx) (px_embd_scale ctx)) lo (wrap 64 (lo + len));
           block_deviation (pre_x p) layout k b0 (zip_with (fun a b => a * f64_of_f32 b)%F s w)
         else deviation (pre_x p) layout (expected_input e w (px_eps ctx) (px_embd_scale ctx)));
  Ret (match dev_within dev with inr _ => inr t | inl f => inl f end).

(** Verify the prefix point of an opening. *)
Definition verify_prefix_point (tier : TierCtx) (ctx : PrefixCtx) (resp : ResponseCtx) (seed request_txid : Hash) (p : PrefixPoint) : res (Fail + Z) :=
  verify_prefix_point_at tier ctx resp seed request_txid p (fun _ => stage1 (n_products tier)) false.

(** [chain::verify_chain_prefix_point] *)
Definition verify_chain_prefix_point (tier : TierCtx) (chain : ChainCtx) (ctx : PrefixCtx) (resp : ResponseCtx) (seed request_txid : Hash)
    (p : PrefixPoint) : res (Fail + Z) :=
  verify_prefix_point_at tier ctx resp seed request_txid p (fun tok => shape tier chain tok) true.
End Prefix.

(** ** No prefix opening makes the verifier panic *)

(** The consensus data of a prefix: a token for each byte value. *)
Definition prefix_ctx_ok (ctx : PrefixCtx) : Prop :=
  zlen (px_table ctx) = 256 /\ Forall is_u32 (px_table ctx) /\ (0 <= px_offset ctx /\ px_offset ctx + PREFIX_LEN < 2 ^ 32) /\ is_u32 (px_embd_entry ctx) /\ is_u32 (px_norm_entry ctx).

Section Total.
Context `{B3 : Blake3, L : Libm}.

Lemma position_range seed offset : 0 <= offset /\ offset + PREFIX_LEN < 2 ^ 32 -> position seed offset = offset + draw seed PREFIX_POINT 0 mod 32
  /\ offset <= position seed offset < offset + 32.
Proof.
  intros Ho. pose proof (Z.mod_pos_bound (draw seed PREFIX_POINT 0) 32 ltac:(lia)). unfold position, PREFIX_LEN in *. rewrite wrap_id by (unfold fits; lia). lia.
Qed.

Lemma expected_token_spec ctx txid t : prefix_ctx_ok ctx -> is_hash txid -> 0 <= t ->
  returns (fun o => match o with
    | Some tok => px_offset ctx <= t < px_offset ctx + 32 /\ is_u32 tok
        /\ exists b, get_at txid (t - px_offset ctx) = Some b /\ get_at (px_table ctx) (u8_of_byte b) = Some tok
    | None => t < px_offset ctx \/ px_offset ctx + 32 <= t end) (expected_token ctx txid t).
Proof.
  intros (Ht & Htok & Ho & _) Hx Htp. unfold expected_token, checked_sub, PREFIX_LEN. destruct (Z.leb_spec (px_offset ctx) t); [|apply returns_ret; lia].
  destruct (Z.ltb_spec (t - px_offset ctx) 32); [|apply returns_ret; lia]. unfold is_hash in Hx.
  eapply returns_bind; [apply returns_index; unfold zlen; lia|]. intros b Hb. pose proof (u8_of_byte_range b).
  eapply returns_bind; [apply returns_index; lia|]. intros tok Htk. apply returns_ret. split; [lia|]. split; [exact (Forall_lookup_1 _ _ _ _ Htok Htk)|].
  exists b. unfold get_at. destruct (Z.leb_spec 0 (t - px_offset ctx)); [|lia]. destruct (Z.leb_spec 0 (u8_of_byte b)); [|lia]. done.
Qed.

(** The blocks checked are blocks of the row. *)
Definition blocks_in (k : Z) (b : Z * Z) : Prop := 0 <= b.1 /\ 0 <= b.2 /\ b.1 * 32 <= k /\ b.1 + b.2 <= div_ceil k 32.

Lemma prefix_blocks_yields seed x layout k fragment : 0 <= k < 2 ^ 30 -> yields (blocks_in k) (prefix_blocks seed x layout k fragment).
Proof.
  intros Hk. unfold prefix_blocks. destruct fragment; [|apply yields_ret; unfold blocks_in, div_ceil; cbn; dlia].
  eapply yields_bind; [by apply link_block_spec; lia|]. intros ob Hob. eapply yields_try; [apply yields_ok_or; intros b Eb; rewrite Eb in Hob; exact Hob|].
  intros b (Hb & Hk32 & _). apply yields_ret. pose proof (norm_fragment_spec b k Hb Hk32) as Hf. destruct (norm_fragment b k) as [b0 n]. unfold blocks_in. cbn. dlia.
Qed.

(** The range of norm weights of the checked blocks. *)
Lemma fragment_range k b0 nb : 0 <= k < 2 ^ 30 -> blocks_in k (b0, nb) ->
  let lo := wrap 64 (b0 * 32) in let len := Z.min (wrap 64 (nb * 32)) (wrap 64 (k - lo)) in
  lo = b0 * 32 /\ len = Z.min (nb * 32) (k - b0 * 32) /\ 0 <= lo /\ 0 <= len /\ lo + len <= k
  /\ wrap 64 (4 * lo) = 4 * lo /\ wrap 64 (4 * len) = 4 * len /\ wrap 64 (lo + len) = lo + len.
Proof.
  intros Hk (H1 & H2 & H3 & H4). cbn in *. assert (Hd : div_ceil k 32 < 2 ^ 30) by (unfold div_ceil; dlia). cbv zeta.
  rewrite !(wrap_id 64 (b0 * 32)), !(wrap_id 64 (nb * 32)), !(wrap_id 64 (k - b0 * 32)) by (unfold fits; lia). rewrite !wrap_id by (unfold fits; lia). lia.
Qed.

Lemma zlen_f32s b n : zlen b = 4 * n -> zlen (f32s b) = n.
Proof.
  intros Hb. unfold f32s. pose proof (zlen_nonneg b). rewrite zlen_fmap, chunks_exact_all by (rewrite ?Hb; try lia; rewrite Z.mul_comm; apply Z_mod_mult).
  unfold zlen at 1. rewrite length_chunks, Hb by lia. unfold div_ceil. dlia.
Qed.

Lemma zlen_rms_scaled v eps scale : zlen (rms_scaled v eps scale) = zlen v.
Proof. unfold rms_scaled. cbv zeta. by rewrite !zlen_fmap. Qed.

Context {BL : Blake3Lengths} {BC : Blake3Chunks}.
Context (tier : TierCtx) (M : Model) (HM : model_commits tier M) (HS : model_sane M).

Lemma prefix_point_returns ctx resp seed txid p shape_for fragment : prefix_ctx_ok ctx -> is_hash txid -> prefix_ok p ->
  unless_collision (exists r, verify_prefix_point_at tier ctx resp seed txid p shape_for fragment = Ret r).
Proof.
  intros Hctx Htx (_ & _ & _ & He & _ & _ & [Hem Hrm] & [Hno Hrn]).
  eapply unless_bind; [exact (entry_yields tier M HM HS _ He)|]. intros Ye. eapply unless_bind; [exact (entry_yields tier M HM HS _ Hem)|]. intros Ym.
  eapply unless_mono; [exact (entry_yields tier M HM HS _ Hno)|]. intros Yn. pose proof Hctx as (_ & _ & Ho & Hei & Hni).
  enough (yields (fun _ => True) (verify_prefix_point_at tier ctx resp seed txid p shape_for fragment)) as (r & -> & _) by (by exists r).
  unfold verify_prefix_point_at. apply yields_bail. intros _. apply yields_bail. intros _. cbv zeta.
  eapply yields_bind; [apply expected_token_spec; [done|done|apply (wrap_fits 64); lia]|]. intros o Hot.
  eapply yields_try; [apply yields_ok_or; intros tok Et; rewrite Et in Hot; exact Hot|]. intros tok (_ & Htok & _).
  eapply (yields_try (fun '(first, embd, norm) => usable first /\ usable embd /\ usable norm)).
  { unfold prefix_entries. eapply yields_try; [by apply Ye|]. intros first Hf. apply yields_bail. intros _.
    eapply yields_try; [apply Ym, Hei|]. intros embd Hem'. eapply yields_try; [apply Yn, Hni|]. intros norm Hno'. do 2 (apply yields_bail; intros _). by apply yields_ret. }
  intros [[first embd] norm] (Hf & Hme & Hnm). eapply (yields_try (fun _ => True)).
  { unfold prefix_input. cbv zeta. apply yields_bail. intros _. eapply yields_try; [by apply (yields_ok_or (fun _ => True))|]. intros root _.
    do 3 (apply yields_bail; intros _). by apply yields_ret. }
  intros layout _. destruct Hf as [(_ & [Hk0 _] & _) (Hk & _)].
  eapply yields_try; [by apply (open_row_ok tier M HM); [|apply Htok]|]. intros row _.
  eapply yields_bind; [instantiate (1 := fun o => forall e, o = Some e -> zlen e = e_k first)|].
  { destruct (dequant_row_spec (wtype embd) row (e_k first)) as [[_ (o' & -> & w & -> & Hw)]|[_ ->]]; [lia|apply returns_ret; by intros e [= <-]|by apply returns_ret]. }
  intros oe Hoe. eapply yields_try; [apply yields_ok_or; exact Hoe|]. intros e Hel. cbn beta in Hel.
  eapply yields_try; [by apply prefix_blocks_yields|]. intros [b0 nb] Hb.
  destruct (fragment_range (e_k first) b0 nb ltac:(lia) Hb) as (_ & _ & Hlo & Hlen & Hsum & E1 & E2 & E3). rewrite E1, E2, E3. clear E1 E2 E3.
  set (lo := wrap 64 (b0 * 32)) in *. set (len := Z.min _ _) in *.
  eapply yields_try; [destruct Hnm as [(_ & _ & _ & _ & Hcb & Hnb & _) _]; destruct HM as (_ & _ & Hnc & _); apply open_bytes_ok; try done; lia|]. intros wb _.
  assert (Hdev : forall b v, 0 <= b -> returns (fun _ => True) (block_deviation (pre_x p) layout (e_k first) b v)).
  { intros b v Hb0. destruct (block_deviation_spec (pre_x p) layout (e_k first) b v) as (dev & -> & _); [lia|done|]. by exists dev. }
  eapply (yields_bind (fun _ => True)); [|intros dev _; apply returns_ret; by destruct (dev_within dev)].
  destruct fragment.
  - eapply returns_bind; [apply returns_index_range; rewrite ?zlen_rms_scaled; lia|]. intros s _. apply Hdev. apply Hb.
  - assert (Hz : zlen (expected_input e (f32s wb) (px_eps ctx) (px_embd_scale ctx)) <= zlen e).
    { unfold expected_input, zlen. cbv zeta. rewrite length_zip_with, length_fmap. lia. }
    pose proof (zlen_nonneg (expected_input e (f32s wb) (px_eps ctx) (px_embd_scale ctx))).
    rewrite deviation_is_block_deviation by lia. destruct (block_deviation_spec (pre_x p) layout (zlen (expected_input e (f32s wb) (px_eps ctx) (px_embd_scale ctx))) 0 (expected_input e (f32s wb) (px_eps ctx) (px_embd_scale ctx))) as (dev & -> & _); [lia|done|].
    by exists dev.
Qed.
End Total.

(** ** What an accepted prefix opening shows *)

(** Position [t] of the trace consumes the token the request id puts there: the committed input of the first
    product is, on the blocks checked, the normed embedding of that token. *)
Definition prefix_bound `{B3 : Blake3, L : Libm} (M : Model) (T : TraceData) (ctx : PrefixCtx) (resp : ResponseCtx) (seed request_txid : Hash)
    (shape_for : Z -> PosShape) (fragment : bool) (t : Z) : Prop :=
  px_offset ctx <= t < px_offset ctx + 32 /\ t < n_prompt resp /\ exists b tok first embd norm x e b0 nb,
    get_at request_txid (t - px_offset ctx) = Some b /\ get_at (px_table ctx) (u8_of_byte b) = Some tok
    /\ leaf_at T t (ps_meta_index (shape_for tok)) = Some (meta_bytes (shape_for tok) t (expected_ubatch t (n_prompt resp)))
    /\ entry_of M 0 = Some first /\ entry_of M (px_embd_entry ctx) = Some embd /\ entry_of M (px_norm_entry ctx) = Some norm
    /\ leaf_at T t 0 = Some x
    /\ dequant_row (wtype embd) (tensor_bytes M embd (tok * row_bytes embd) (row_bytes embd)) (e_k first) = Ret (Some e)
    /\ let k := e_k first in let layout := layout_for (expected_ubatch t (n_prompt resp)) (wtype first) in
       let len := Z.min (nb * 32) (k - b0 * 32) in
       let w := f32s (tensor_bytes M norm (4 * (b0 * 32)) (4 * len)) in
       prefix_blocks seed x layout k fragment = Ret (inr (b0, nb))
       /\ row_close x layout k b0
            (if fragment then zip_with (fun a b => a * f64_of_f32 b)%F (slice (rms_scaled e (px_eps ctx) (px_embd_scale ctx)) (b0 * 32) (b0 * 32 + len)) w
             else expected_input e w (px_eps ctx) (px_embd_scale ctx)).

Section Sound.
Context `{B3 : Blake3, L : Libm} {BL : Blake3Lengths} {BC : Blake3Chunks}.
Context (tier : TierCtx) (M : Model) (HM : model_commits tier M) (HS : model_sane M).

Lemma prefix_entries_bind ctx p first embd norm : prefix_ctx_ok ctx -> prefix_ok p -> prefix_entries tier ctx p = Ret (inr (first, embd, norm)) ->
  unless_collision (entry_of M 0 = Some first /\ entry_of M (px_embd_entry ctx) = Some embd /\ entry_of M (px_norm_entry ctx) = Some norm
    /\ usable first /\ usable embd /\ usable norm).
Proof.
  intros (_ & _ & _ & [Hei _] & [Hni _]) (_ & _ & _ & He & _ & _ & [Hem _] & [Hno _]) H. unfold prefix_entries in H. accepted H. injection H as -> -> ->.
  eapply unless_bind; [by eapply (opened_entry tier M HM HS _ 0); [..|exact E]|]. intros [H1 U1].
  eapply unless_bind; [by eapply (opened_entry tier M HM HS _ (px_embd_entry ctx)); [..|exact E0]|]. intros [H2 U2].
  eapply unless_mono; [by eapply (opened_entry tier M HM HS _ (px_norm_entry ctx)); [..|exact E1]|]. by intros [H3 U3].
Qed.

Lemma prefix_input_binds resp n T p first shape t layout : trace_commits resp n T -> ps_n_leaves shape = n -> 0 <= ps_meta_index shape -> 0 <= t -> prefix_ok p ->
  prefix_input resp p first shape t = Ret (inr layout) ->
  unless_collision (layout = layout_for (expected_ubatch t (n_prompt resp)) (wtype first) /\ leaf_at T t 0 = Some (pre_x p)
    /\ leaf_at T t (ps_meta_index shape) = Some (meta_bytes shape t (expected_ubatch t (n_prompt resp)))).
Proof.
  intros HT Hn Hmi Ht (_ & [_ Hpp] & [_ Hmp] & _ & _ & [_ Hxp] & _) H. unfold prefix_input in H. cbv zeta in H. accepted H. subst layout.
  rewrite !negb_false_iff in *. apply Z.eqb_eq in G1. rewrite G1 in *. apply ok_or_inr in E. pose proof HT as (_ & _ & Hn64 & _). rewrite Hn in *.
  assert (Hh : is_hash a) by exact (b3_fold_hash _ _ _ _ _ (blake3_hash_len _) Hxp E).
  eapply unless_bind; [exact (position_binds resp n T HT t a _ Ht Hh Hpp G0)|]. intros (ls & Hls & Hz & Hr).
  assert (Hv : b3_verify a n 0 (blake3_hash (pre_x p)) (pre_x_path p) = true) by (unfold b3_verify; by rewrite bool_decide_eq_true).
  eapply unless_bind; [exact (trace_leaf_binds ls n a 0 _ _ Hr Hz Hn64 ltac:(done) (blake3_hash_len _) Hxp Hv)|]. intros (d & Hd & Hhd).
  eapply unless_bind; [exact (trace_leaf_binds ls n a (ps_meta_index shape) _ _ Hr Hz Hn64 Hmi (blake3_hash_len _) Hmp G2)|]. intros (m & Hm & Hhm).
  eapply unless_bind; [exact (hash_binds _ _ Hhd)|]. intros ->. eapply unless_mono; [exact (hash_binds _ _ Hhm)|]. intros ->.
  unfold leaf_at. rewrite Hls. by split_and!.
Qed.

Lemma prefix_point_bound ctx resp n T seed txid p shape_for fragment t : prefix_ctx_ok ctx -> is_hash txid -> prefix_ok p -> trace_commits resp n T ->
  (forall tok, ps_n_leaves (shape_for tok) = n /\ 0 <= ps_meta_index (shape_for tok)) ->
  verify_prefix_point_at tier ctx resp seed txid p shape_for fragment = Ret (inr t) ->
  unless_collision (prefix_bound M T ctx resp seed txid shape_for fragment t).
Proof.
  intros Hctx Htx Hp HT Hsh H. pose proof Hctx as (_ & _ & Ho & _). unfold verify_prefix_point_at in H. apply bail_inr in H as [G H]. apply bail_inr in H as [_ H]. cbv zeta in H.
  destruct (position_range seed (px_offset ctx) Ho) as [_ Ht]. set (t0 := position seed (px_offset ctx)) in *. pose proof (proj1 Ho) as Ho0.
  destruct (expected_token_spec ctx txid t0 Hctx Htx ltac:(lia)) as (o & Eo & Hot). rewrite Eo in H. cbn [mbind res_bind] in H.
  apply try_inr in H as (tok & Et & H). apply ok_or_inr in Et. subst o. destruct Hot as (_ & Htok & b & Hb & Hbt).
  apply try_inr in H as ([[first embd] norm] & Ee & H). apply try_inr in H as (layout & El & H). destruct (Hsh tok) as [Hn Hmi].
  eapply unless_bind; [by eapply prefix_entries_bind|]. intros (E1 & E2 & E3 & U1 & U2 & U3).
  eapply unless_bind; [eapply prefix_input_binds; [exact HT|exact Hn|exact Hmi| |exact Hp|exact El]; lia|]. intros (-> & Hx & Hm).
  apply try_inr in H as (row & Er & H). pose proof Hp as (_ & _ & _ & _ & _ & _ & [_ Hrm] & [_ Hrn]).
  eapply unless_bind; [eapply (opened_row tier M HM embd); [exact U2|exact Hrm|apply Htok|exact Er]|]. intros (_ & _ & Hrow).
  apply bind_inr in H as (oe & Ed & H). apply try_inr in H as (e & Ee' & H). apply ok_or_inr in Ee'. subst oe.
  apply try_inr in H as ([b0 nb] & Eb & H). pose proof U1 as [(_ & [Hk0 _] & _) (Hk & _)].
  assert (Hin : blocks_in (e_k first) (b0, nb)).
  { destruct (prefix_blocks_yields seed (pre_x p) (layout_for (expected_ubatch t0 (n_prompt resp)) (wtype first)) (e_k first) fragment ltac:(lia)) as (r & Er' & Hr). rewrite Eb in Er'. by injection Er' as <-. }
  destruct (fragment_range (e_k first) b0 nb ltac:(lia) Hin) as (F1 & F2 & Hlo & Hlen & Hsum & F4 & F5 & F6). cbv zeta in H. rewrite F4, F5, F6, F2, F1 in H. rewrite F2, F1 in *. clear F1 F2 F4 F5 F6.
  apply try_inr in H as (wb & Ew & H).
  assert (Hwb : zlen wb = 4 * Z.min (nb * 32) (e_k first - b0 * 32)).
  { destruct U3 as [(_ & _ & _ & _ & Hcb & Hnb & _) _]. pose proof HM as (_ & _ & Hnc & _).
    destruct (open_bytes_ok tier norm (pre_norm p).2 (4 * (b0 * 32)) (4 * Z.min (nb * 32) (e_k first - b0 * 32))) as (r & Er' & Hr); [done|done|done|lia..|]. rewrite Ew in Er'. by injection Er' as <-. }
  eapply unless_mono; [eapply (open_bytes_binds tier M HM norm); [exact Hrn| | | |exact Ew]; lia|]. intros ->.
  apply bind_inr in H as (dev & Edev & H). assert (Hdev : dev_within dev = inr () /\ t0 = t) by (destruct (dev_within dev) as [|[]]; [done|by injection H as ->]). destruct Hdev as [Hdev <-].
  split; [done|]. split.
  { rewrite !orb_false_iff, negb_false_iff in G. destruct G as [_ G]. unfold prefix_fits, saturating_add, PREFIX_LEN in G. apply Z.leb_le in G. unfold PREFIX_LEN in Ho. lia. }
  exists b, tok, first, embd, norm, (pre_x p), e, b0, nb. split; [done|]. split; [done|]. split; [done|]. split; [done|]. split; [done|]. split; [done|]. split; [done|].
  split; [by rewrite <- Hrow|]. cbv zeta. split; [done|].
  destruct (dequant_row_spec (wtype embd) row (e_k first)) as [[_ (o' & Eo' & w & -> & Hw)]|[_ Eo']]; [lia| |congruence]. rewrite Ed in Eo'. injection Eo' as <-.
  destruct fragment.
  - rewrite index_range_Ret in Edev by (rewrite ?zlen_rms_scaled; lia). cbn [mbind res_bind] in Edev.
    edestruct (block_deviation_spec (pre_x p) (layout_for (expected_ubatch t0 (n_prompt resp)) (wtype first)) (e_k first) b0) as (dev' & E' & Hiff); [lia|apply Hin|].
    rewrite Edev in E'. injection E' as <-. by apply Hiff.
  - set (v := expected_input e _ _ _) in *. assert (Hz : zlen v <= zlen e) by (unfold v, expected_input, zlen; cbv zeta; rewrite length_zip_with, length_fmap; lia).
    injection Eb as <- <-. assert (Hzv : zlen v = e_k first).
    { apply zlen_f32s in Hwb. assert (Hd : e_k first <= div_ceil (e_k first) 32 * 32) by (unfold div_ceil; dlia). rewrite Z.min_r in Hwb by lia.
      unfold v, expected_input. cbv zeta. unfold zlen in Hwb, Hw |- *. rewrite length_zip_with, length_fmap. rewrite Z.min_r in * by lia. lia. }
    rewrite deviation_is_block_deviation, Hzv in Edev by lia.
    destruct (block_deviation_spec (pre_x p) (layout_for (expected_ubatch t0 (n_prompt resp)) (wtype first)) (e_k first) 0 v) as (dev' & E' & Hiff); [lia|done|].
    rewrite Edev in E'. injection E' as <-. by apply Hiff.
Qed.
End Sound.

(** The prefix check is total.  Under a committed manifest of sane sizes it returns a verdict on every prefix
    opening, in its stage-1 and its stage-2 form: no index of the token table, of a chunk or of a row is out
    of range and nothing overflows, or two inputs of BLAKE3 with one digest are exhibited. *)
Theorem prefix_point_total `{B3 : Blake3, L : Libm} {BL : Blake3Lengths} {BC : Blake3Chunks} (tier : TierCtx) (M : Model)
    (ctx : PrefixCtx) (resp : ResponseCtx) (seed request_txid : Hash) (p : PrefixPoint) (shape_for : Z -> PosShape) (fragment : bool) :
  model_commits tier M -> model_sane M -> prefix_ctx_ok ctx -> is_hash request_txid -> prefix_ok p ->
  (exists r, verify_prefix_point_at tier ctx resp seed request_txid p shape_for fragment = Ret r) \/ opening_collision.
Proof. intros HM HS Hc Hx Hp. by apply (prefix_point_returns tier M). Qed.


(** ** A concrete request

    A model of one Q8_0 product of 32 values, an embedding of one row and its norm, traced over 32 positions
    whose input is the normed embedding of token 0. *)

Module Sample.
Import Toy.

#[export] Instance exact_sqrt : Libm := {| libm_exp x := x; libm_tanh x := x; libm_sqrt := f64_sqrt |}.

Definition entry (wtype role base n_bytes row_bytes : Z) : list byte :=
  to_le 2 1 ++ [byte_of_u8 97] ++ to_le 4 wtype ++ to_le 8 32 ++ to_le 8 1 ++ to_le 4 1 ++ to_le 8 base ++ to_le 8 n_bytes ++ to_le 4 row_bytes
  ++ to_le 1 role ++ to_le 1 0 ++ to_le 1 FORM_NONE ++ to_le 4 NONE ++ to_le 4 NONE.

(** A row of scale 1.0 and quants 127, 0, ... 0, then the norm 22.45, 0, ... 0. *)
Definition M : Model := {|
  md_entries := [entry 8 ROLE_PRODUCT 0 64 34; entry 8 ROLE_EMBD 0 64 34; entry 0 ROLE_NORM 2 128 128];
  md_weights := to_le 2 0x3c00 ++ to_le 62 127 ++ to_le 4 0x41b3999a ++ to_le 124 0;
|}.

(** The MMQ block of scale 1.0 and quants 127, 0, ... 0. *)
Definition x : list byte := to_le 4 0x3f800000 ++ to_le 12 0 ++ to_le 560 127.
Definition y : list byte := to_le 4 0.
Definition leaves (t : Z) : list (list byte) := [x; y; to_le 4 t ++ to_le 4 32].
Definition T : TraceData := leaves <$> seqZ 0 32.
Definition roots : list Hash := (fun ls => root_of (blake3_hash <$> ls)) <$> T.

Definition chunk_hashes : list Hash := blake3_hash <$> chunks 32 (md_weights M).
Definition entry_hashes : list Hash := leaf <$> md_entries M.
Definition tier : TierCtx :=
  {| r_t := rt_root_of chunk_hashes; tier_n_chunks := 6; m_t := rt_root_of entry_hashes; n_entries := 3; n_products := 1 |}.
Definition resp : ResponseCtx := {| resp_trace_root := root_of roots; n_prompt := 32; n_pos := 32 |}.
Definition seed : Hash := to_le 32 7.
Definition ctx : PrefixCtx :=
  {| px_table := replicate 256 0; px_offset := 0; px_embd_entry := 1; px_norm_entry := 2; px_eps := zero; px_embd_scale := one |}.
Definition t : Z := position seed 0.
Definition rt_proof (l : list Hash) (first count : Z) : list Hash := match rt_range_proof l first count with Ret (_, p) => p | Panic => [] end.
Definition entry_opening (i : Z) (b : list byte) : EntryOpening := {| entry_index := i; entry_bytes := b; entry_path := rt_proof entry_hashes i 1 |}.
Definition range (first count : Z) : ChunkRange :=
  {| range_first_chunk := first; range_chunks := slice (md_weights M) (32 * first) (32 * (first + count)); range_proof := rt_proof chunk_hashes first count |}.
Definition opening : PrefixPoint := {|
  pre_n_ubatch := 32; pre_pos_path := the (b3_path roots t); pre_meta_path := the (b3_path (blake3_hash <$> leaves t) 2);
  pre_entry := entry_opening 0 (entry 8 ROLE_PRODUCT 0 64 34);
  pre_x := x; pre_x_path := the (b3_path (blake3_hash <$> leaves t) 0);
  pre_embd := (entry_opening 1 (entry 8 ROLE_EMBD 0 64 34), range 0 2);
  pre_norm := (entry_opening 2 (entry 0 ROLE_NORM 2 128 128), range 2 4);
|}.
Definition shapes (_ : Z) : PosShape := stage1 1.
Notation accepted_at := (verify_prefix_point_at tier ctx resp seed (to_le 32 0) opening shapes false).
Definition verdict := verify_prefix_point tier ctx resp seed (to_le 32 0) opening.

Lemma prompt_model_commits : model_commits tier M.
Proof.
  split; [evaluate|]. split; [split; [reflexivity|eexists; vm_compute; reflexivity]|]. split; [evaluate|]. split; [reflexivity|]. eexists. vm_compute. reflexivity.
Qed.
Lemma prompt_model_sane : model_sane M.
Proof. repeat (apply Forall_cons; split; [intros e len He; vm_compute in He; injection He as <- <-; unfold sane; cbn; lia|]). apply Forall_nil. done. Qed.
Lemma prompt_trace_commits : trace_commits resp 3 T.
Proof.
  split; [evaluate|]. split; [reflexivity|]. split; [evaluate|]. split; [evaluate|]. exists roots. split; vm_compute; reflexivity.
Qed.
Lemma prompt_ctx_fits : prefix_ctx_ok ctx.
Proof. unfold prefix_ctx_ok. evaluate. Qed.
Lemma prompt_opening_fits : prefix_ok opening.
Proof. unfold prefix_ok, weights_ok, entry_ok, range_ok, chunks_ok, bytes_ok, bytes16_ok, hashes_ok, list_ok, is_hash. evaluate. Qed.
Lemma accepted : accepted_at = Ret (inr 14).
Proof. vm_compute. reflexivity. Qed.
End Sample.

Section Witnesses.
Import Toy Sample.

Lemma prefix_point_total_witness : (exists r, verdict = Ret r) \/ opening_collision.
Proof. exact (prefix_point_total tier M ctx resp seed (to_le 32 0) opening _ false prompt_model_commits prompt_model_sane prompt_ctx_fits (length_to_le 32 0) prompt_opening_fits). Defined.

End Witnesses.
