(* ===== verification/Chain.v ===== *)
(** * Stage-2 verification of an opening ([verifiable-inference/src/chain.rs])

    A stage-2 point is a stage-1 point whose input is linked to the committed
    activation it comes from; the residual point checks one chunk of one residual
    addition, dense or routed, and a residual opening also recomputes one output of the
    product it adds and of one routed expert.  Every guard is in the order of the
    source, and what the source indexes without a check panics here. *)
From S2P Require Import Prelude Float Magnitude Merkle Seq Wire Opening Quant Manifest VerifyPoint Links Prefix.
#[local] Open Scope Z_scope.

(** [iter.map(f).collect::<Result<Vec<_>, _>>()]: the first error, or all the values. *)
Fixpoint try_map {E A B} (f : A -> res (E + B)) (l : list A) : res (E + list B) :=
  match l with
  | [] => Ret (inr [])
  | a :: l => b ←? f a; bs ←? try_map f l; Ret (inr (b :: bs))
  end.

Section Chain.
Context `{B3 : Blake3, L : Libm}.

(** ** Committed leaves and weights *)

(** [f32s] of committed activations, which must all be finite. *)
Definition finite_f32s (b : list byte) : res (Fail + list f32) :=
  let v := f32s b in ok_or Mismatch (if forallb is_finite v then Some v else None).

Definition f32_weights (tier : TierCtx) (w : Weights) (index k offset n : Z) : res (Fail + list f32) :=
  e ←? open_entry tier w.1 index;
  bail Manifest_ if negb (role e =? ROLE_NORM) || negb (wtype e =? 0) || negb (e_k e =? k);
  b ←? open_bytes tier e w.2 (wrap 64 (4 * offset)) (wrap 64 (4 * n));
  Ret (inr (f32s b)).

Definition embedding (tier : TierCtx) (ctx : ChainCtx) (w : Weights) (tok k : Z) : res (Fail + list f32) :=
  e ←? open_entry tier w.1 (cc_embd_entry ctx);
  bail Manifest_ if negb (role e =? ROLE_EMBD) || negb (e_k e =? k) || negb (n_exp e =? 1);
  row ←? open_row tier e w.2 tok;
  o ← dequant_row (wtype e) row k;
  ok_or Unsupported o.

Definition whole_leaf (pos_root : Hash) (shape : PosShape) (index : Z) (l : LeafBytes) (len : Z) : res (Fail + list f32) :=
  bail Shape if negb (zlen (lb_bytes l) =? len);
  bail Trace if negb (b3_verify pos_root (ps_n_leaves shape) index (blake3_hash (lb_bytes l)) (lb_leaf_path l));
  finite_f32s (lb_bytes l).

Definition chunk_leaf_raw (c : ExpertIds) (total_len index : Z) : res (Fail + Hash) :=
  ok_or Trace (b3_leaf_from_chunk total_len index (ids_chunk c) (ids_chunk_path c)).

Definition chunk_leaf (c : LeafChunk) (total_len index : Z) : res (Fail + Hash) :=
  bail Shape if negb (lc_total_len c =? total_len) || negb (lc_index c =? index);
  ok_or Trace (b3_leaf_from_chunk total_len index (lc_chunk c) (lc_chunk_path c)).

Definition leaf_chunk (pos_root : Hash) (shape : PosShape) (leaf : Z) (c : LeafChunk) (total_len index : Z) : res (Fail + list f32) :=
  h ←? chunk_leaf c total_len index;
  bail Trace if negb (b3_verify pos_root (ps_n_leaves shape) leaf h (lc_leaf_path c));
  finite_f32s (lc_chunk c).

Definition n_chunks (total_len : Z) : Z := Z.max (div_ceil total_len B3_CHUNK) 1.

(** ** Links of a product input *)

Section Link.
Context (tier : TierCtx) (ctx : ChainCtx) (seed : Hash) (i : Z) (p : Point) (o : Opened) (pl : ProductLink) (shape : PosShape).
Let k : Z := e_k (op_input o).
Let np : Z := n_products tier.
Let n_layers : Z := cc_n_layers ctx.
Let layer : Z := pl_layer pl.
Let x_one : Z := x_len k (op_layout o).

(** The fragment drawn from the row [xs], checked against a normed source: [x = Q8(scaled * w)]. *)
Definition check_fragment (xs : list byte) (norm : Weights) (scaled : res (Fail + list f64)) : res (Fail + unit) :=
  ob ← link_block seed i xs (op_layout o) k;
  b ←? ok_or Shape ob;
  let '(b0, n) := norm_fragment b k in
  w ←? f32_weights tier norm (pl_norm pl) k (wrap 64 (b0 * 32)) (Z.min (wrap 64 (n * 32)) (wrap 64 (k - wrap 64 (b0 * 32))));
  s ←? scaled;
  fragment_link xs (op_layout o) k s w b0 n.

(** The input row of the slot. *)
Definition slot_row : res (Fail + list byte) :=
  ok_or Shape (get_range (p_x p) (wrap 64 (op_slot o * x_one)) (wrap 64 (wrap 64 (op_slot o + 1) * x_one))).

(** The input of the first layer: the scaled, normed embedding of the token. *)
Definition check_token (embd norm : Weights) (tok : Z) : res (Fail + unit) :=
  check_fragment (p_x p) norm (e ←? embedding tier ctx embd tok k; Ret (inr (rms_scaled e (cc_eps ctx) (cc_embd_scale ctx)))).

(** The leaf a normed input comes from. *)
Definition norm_source : option Z :=
  if pl_link pl =? LINK_ATTN_IN then (if 0 <? layer then Some (resid_leaf np (layer - 1) Resid_Out) else None)
  else if pl_link pl =? LINK_FFN_IN then Some (resid_leaf np layer Resid_Attn)
  else if pl_link pl =? LINK_HEAD then (if 0 <? n_layers then Some (resid_leaf np (n_layers - 1) Resid_Out) else None)
  else None.

(** An input normed from a committed residual. *)
Definition check_norm (src : LeafBytes) (norm : Weights) : res (Fail + unit) :=
  leaf ←? ok_or Shape norm_source;
  h ←? whole_leaf (pos_root o) shape leaf src (wrap 64 (4 * k));
  bail Mismatch if negb (contains RESID_RMS_MIN RESID_RMS_MAX (rms h));
  xs ←? (if zlen (p_x p) =? x_one then Ret (inr (p_x p)) else slot_row);
  check_fragment xs norm (Ret (inr (rms_scaled h (cc_eps ctx) one))).

(** An expert's input: the gated output of the same expert slot. *)
Definition check_expert_source (src : EntryOpening) (y : LeafChunk) (ids : ExpertIds) : res (Fail + unit) :=
  se ←? open_entry tier src (pl_src pl);
  bail Manifest_ if negb (glu_form se =? FORM_PAIR_GATE) || negb (n_exp se =? n_exp (op_input o)) || negb (e_m se =? k);
  let n_used := cc_n_used ctx in
  let body := wrap 64 (wrap 64 (n_used * k) * 4) in
  let per_slot := wrap 64 (k * 4) / B3_CHUNK in
  bail Shape if (per_slot =? 0) || negb (wrap 64 (k * 4) mod B3_CHUNK =? 0);
  let total := wrap 64 (body + 4 * n_used) in
  let gate_y := 2 * pl_src pl + 1 in
  ids_leaf ←? chunk_leaf_raw ids total (body / B3_CHUNK);
  bail Trace if negb (b3_verify (pos_root o) (ps_n_leaves shape) gate_y ids_leaf (lc_leaf_path y));
  let s := 4 * op_slot o in
  id ←? ok_or Shape (get_range (ids_chunk ids) s (s + 4));
  bail Mismatch if negb (from_le id =? op_expert o);
  xs ←? slot_row;
  ob ← link_block seed i xs (op_layout o) k;
  b ←? ok_or Shape ob;
  let c := wrap 64 (wrap 64 (op_slot o * per_slot) + b / CHUNK_BLOCKS) in
  h ←? leaf_chunk (pos_root o) shape gate_y y total c;
  glu_link xs (op_layout o) k (wrap 64 (wrap 64 (c - wrap 64 (op_slot o * per_slot)) * B3_CHUNK) / 128) h.

(** The width of the output of the source product of a gated or direct input. *)
Definition source_width (se : Entry) : option Z :=
  if (pl_link pl =? LINK_GLU) && (glu_form se =? FORM_PAIR_GATE) then Some (e_m se)
  else if (pl_link pl =? LINK_GLU) && (glu_form se =? FORM_SPLIT) then Some (e_m se / 2)
  else if (pl_link pl =? LINK_DIRECT) && (glu_form se =? FORM_NONE) && (role se =? ROLE_PRODUCT) then Some (e_m se)
  else if (pl_link pl =? LINK_DIRECT) && (glu_form se =? FORM_NONE) && (role se =? ROLE_HEADS) then Some (wrap 64 (e_m se * n_exp se))
  else None.

(** An input that is the committed output of another product. *)
Definition check_source (src : EntryOpening) (y : LeafChunk) : res (Fail + unit) :=
  se ←? open_entry tier src (pl_src pl);
  m_out ←? ok_or Manifest_ (source_width se);
  bail Manifest_ if negb (m_out =? k) || (negb (n_exp se =? 1) && negb (role se =? ROLE_HEADS));
  let total := wrap 64 (4 * m_out) in
  ob ← link_block seed i (p_x p) (op_layout o) k;
  b ←? ok_or Shape ob;
  let c := b / CHUNK_BLOCKS in
  h ←? leaf_chunk (pos_root o) shape (2 * pl_src pl + 1) y total c;
  glu_link (p_x p) (op_layout o) k (wrap 64 (c * B3_CHUNK) / 128) h.

(** A head's input: its slice of the committed output of another product. *)
Definition check_head_slice (src : EntryOpening) (y : LeafChunk) : res (Fail + unit) :=
  se ←? open_entry tier src (pl_src pl);
  let n_head := n_exp (op_input o) in
  bail Manifest_ if negb (role se =? ROLE_PRODUCT) || negb (n_exp se =? 1) || (n_head <? 2) || negb (e_m se mod n_head =? 0);
  let stride := e_m se / n_head in
  bail Manifest_ if (stride <? k) || negb (k mod 32 =? 0) || negb (stride mod 32 =? 0);
  let per_chunk := B3_CHUNK / 4 in
  let start := wrap 64 (op_slot o * stride) in
  xs ←? slot_row;
  ob ← link_block seed i xs (op_layout o) k;
  b ←? ok_or Shape ob;
  let c := wrap 64 (start + wrap 64 (b * 32)) / per_chunk in
  h ←? leaf_chunk (pos_root o) shape (2 * pl_src pl + 1) y (wrap 64 (4 * e_m se)) c;
  let lo := Z.max (wrap 64 (c * per_chunk)) start in let hi := Z.min (wrap 64 (wrap 64 (c + 1) * per_chunk)) (wrap 64 (start + k)) in
  vals ←? ok_or Shape (get_range h (wrap 64 (lo - wrap 64 (c * per_chunk))) (wrap 64 (hi - wrap 64 (c * per_chunk))));
  glu_link xs (op_layout o) k (wrap 64 (lo - start) / 32) vals.

(** The link of the input, by its kind and the opening's. *)
Definition check_link (link : LinkOpening) (tok : Z) : res (Fail + unit) :=
  let kind := pl_link pl in
  match link with
  | Link_None =>
    if kind =? LINK_NONE then
      ok ← peak_bounded (p_x p) (op_layout o) k (op_slot o);
      bail Mismatch if negb ok; Ret (inr ())
    else Ret (inl Shape)
  | Link_Token embd norm =>
    if (kind =? LINK_ATTN_IN) && (layer =? 0) then check_token embd norm tok else Ret (inl Shape)
  | Link_Norm src norm =>
    if (kind =? LINK_ATTN_IN) || (kind =? LINK_FFN_IN) || (kind =? LINK_HEAD) then check_norm src norm else Ret (inl Shape)
  | Link_Source src y (Some ids) =>
    if (kind =? LINK_GLU) && (1 <? n_exp (op_input o)) then check_expert_source src y ids else Ret (inl Shape)
  | Link_Source src y None =>
    if ((kind =? LINK_GLU) || (kind =? LINK_DIRECT)) && (n_exp (op_input o) =? 1) then check_source src y
    else if (kind =? LINK_HEAD_SLICE) && (role (op_input o) =? ROLE_HEADS) then check_head_slice src y
    else Ret (inl Shape)
  end.
End Link.

(** Verify point [i] of a stage-2 opening and the link of its input. *)
Definition verify_chain_point (tier : TierCtx) (ctx : ChainCtx) (resp : ResponseCtx) (seed : Hash) (i : Z) (p : Point) (tok : Z)
    (link : LinkOpening) (ids : option ExpertIds) : res (Fail + Report) :=
  let shape := shape tier ctx tok in
  '(report, o) ←? verify_point_at tier resp seed i p shape ids;
  match chain (op_input o) with
  | Chain_Product pl =>
    bail Manifest_ if negb (pl_link pl =? LINK_HEAD) && (cc_n_layers ctx <=? pl_layer pl);
    _ ←? check_link tier ctx seed i p o pl shape link tok;
    Ret (inr report)
  | _ => Ret (inl Manifest_)
  end.

(** ** Routed sums *)

Definition EPS_MOE : f64 := f64_lit 1 100000.
Definition EPS_ROUTER : f64 := f64_lit 1 512.

(** [|a - b| <= tol], false on a NaN. *)
Definition close_to (a b tol : f64) : bool := SFleb (SFabs (a - b)%F) tol.

(** The products of two lists in step, summed from 0.0 along with their magnitudes. *)
Definition dot_mag (a : list f32) (b : list f64) : f64 * f64 :=
  foldl (fun '(dot, mag) '(x, y) => ((dot + f64_of_f32 x * y)%F, (mag + SFabs (f64_of_f32 x * y))%F)) (zero, zero) (zip a b).

Record MoeCheck := {
  mc_tier : TierCtx;
  mc_ctx : ChainCtx;
  mc_shape : PosShape;
  mc_pos_root : Hash;
  mc_layer : Z;
  mc_down : Z;
  mc_dim : Z;
  mc_c : Z;
  mc_seed : Hash;
}.

Section Moe.
Context (mc : MoeCheck).
Let tier : TierCtx := mc_tier mc.
Let ctx : ChainCtx := mc_ctx mc.
Let dim : Z := mc_dim mc.
Let np : Z := n_products tier.
Let n_used : Z := cc_n_used ctx.

(** The committed router scores and the mixing weights of the committed experts. *)
Definition moe_routing (moe : MoeLinks) (m : MoeAdd) (re : Entry) : res (Fail + (list f32 * list f64)) :=
  let n_exp := e_m re in
  sc ←? whole_leaf (mc_pos_root mc) (mc_shape mc) (router_leaf np (cc_n_layers ctx) (mc_layer mc)) (scores m) (wrap 64 (4 * n_exp));
  bias ←? f32_weights tier (moe_bias m) (probs_bias moe) n_exp 0 n_exp;
  let body := wrap 64 (wrap 64 (n_used * dim) * 4) in
  bail Shape if negb (body mod B3_CHUNK =? 0) || negb (wrap 64 (dim * 4) mod B3_CHUNK =? 0);
  let total := wrap 64 (body + 4 * n_used) in
  ids_leaf ←? chunk_leaf_raw (ids m) total (body / B3_CHUNK);
  slot0 ← index (slots m) 0;
  bail Trace if negb (b3_verify (mc_pos_root mc) (ps_n_leaves (mc_shape mc)) (2 * down_exps moe + 1) ids_leaf (lc_leaf_path slot0));
  b ←? ok_or Shape (get_range (ids_chunk (ids m)) 0 (4 * n_used));
  w ←? ok_or Mismatch (route_weights sc bias (from_le <$> chunks_exact 4 b) (f64_of_f32 (f32_from_bits (w_scale moe))));
  Ret (inr (sc, w)).

(** The drawn router score, recomputed from the committed residual. *)
Definition moe_router (moe : MoeLinks) (m : MoeAdd) (re : Entry) (sc : list f32) : res (Fail + unit) :=
  h ←? whole_leaf (mc_pos_root mc) (mc_shape mc) (resid_leaf np (mc_layer mc) Resid_Attn) (moe_resid m) (wrap 64 (4 * dim));
  w_norm ←? f32_weights tier (moe_norm m) (ffn_norm moe) dim 0 dim;
  let v := rms_norm h w_norm (cc_eps ctx) in
  if e_m re =? 0 then Panic else
  let row := draw (mc_seed mc) RESID_POINT 3 mod e_m re in
  wr ←? open_bytes tier re (router_row m).2 (wrap 64 (wrap 64 (row * 4) * dim)) (wrap 64 (4 * dim));
  let '(dot, mag) := dot_mag (f32s wr) v in
  s ← index sc row;
  bail Mismatch if negb (close_to (f64_of_f32 s) dot (EPS_ROUTER * mag + MIN_POSITIVE)%F);
  Ret (inr ()).

(** The weighted experts added to a value, with the magnitude of the terms. *)
Definition weighted_sum (s r : f32) (col : list (f64 * f32)) : f64 * f64 :=
  foldl (fun '(sum, mag) '(ws, yj) => ((sum + ws * f64_of_f32 yj)%F, (mag + SFabs (ws * f64_of_f32 yj))%F))
    ((f64_of_f32 s + f64_of_f32 r)%F, (SFabs (f64_of_f32 s) + SFabs (f64_of_f32 r))%F) col.

(** Element [j] of the residual is the shared expert, the source and the weighted experts. *)
Definition moe_element (w : list f64) (ys : list (list f32)) (sh dst src : list f32) (j : Z) : res (Fail + unit) :=
  s ← index sh j; r ← index src j; d ← index dst j;
  col ← mapM (M:=res) (fun '(ws, y) => yj ← index y j; Ret (ws, yj)) (zip w ys);
  let '(sum, mag) := weighted_sum s r col in
  bail Mismatch if negb (is_finite mag) || negb (close_to (f64_of_f32 d) sum (EPS_MOE * mag + MIN_POSITIVE)%F);
  Ret (inr ()).

(** [MoeCheck::verify] *)
Definition moe_verify (moe : MoeLinks) (m : MoeAdd) (dst src : list f32) (off n : Z) : res (Fail + unit) :=
  bail Shape if (n_used =? 0) || negb (zlen (slots m) =? n_used);
  re ←? open_entry tier (router_row m).1 (router moe);
  bail Manifest_ if negb (role re =? ROLE_ROUTER) || negb (wtype re =? 0) || negb (e_k re =? dim);
  '(sc, w) ←? moe_routing moe m re;
  _ ←? moe_router moe m re sc;
  let total := wrap 64 (wrap 64 (wrap 64 (n_used * dim) * 4) + 4 * n_used) in
  let per_slot := wrap 64 (dim * 4) / B3_CHUNK in
  ys ←? try_map (fun s => slot ← index (slots m) s;
          leaf_chunk (mc_pos_root mc) (mc_shape mc) (2 * down_exps moe + 1) slot total (wrap 64 (wrap 64 (s * per_slot) + mc_c mc)))
        (seqZ 0 n_used);
  sh ←? leaf_chunk (mc_pos_root mc) (mc_shape mc) (wrap 64 (2 * mc_down mc + 1)) (shexp m) (wrap 64 (4 * dim)) (mc_c mc);
  bail Shape if existsb (fun y => negb (zlen y =? n)) ys || negb (zlen sh =? n) || negb (zlen dst =? n) || negb (zlen src =? n) || (dim <? wrap 64 (off + n));
  _ ←? try_map (moe_element w ys sh dst src) (seqZ 0 n);
  Ret (inr ()).
End Moe.

(** ** The residual point *)

(** Whether a product of role [role] may feed a residual of a layer. *)
Definition layer_role (role : Z) (trimmed : bool) : bool := (role =? ROLE_PRODUCT) || (trimmed && (role =? ROLE_OUTPUT)).

Definition kind_of (sel : Z) : Resid := if sel mod 2 =? 0 then Resid_Attn else Resid_Out.
Definition is_attn (kind : Resid) : bool := match kind with Resid_Attn => true | Resid_Out => false end.

Section ResidPoint.
Context (tier : TierCtx) (ctx : ChainCtx) (resp : ResponseCtx) (seed : Hash).
Let np : Z := n_products tier.
Let n_layers : Z := cc_n_layers ctx.
Let d (j : Z) : Z := draw seed RESID_POINT j.

(** The drawn residual: its layer, its kind and its position. *)
Definition resid_drawn : res (Fail + (Z * Resid * Z)) :=
  bail Shape if (n_pos resp =? 0) || (n_layers =? 0);
  let sel := resid_site (d 1) (2 * n_layers) in
  let layer := sel / 2 in
  t ←? resid_position ctx resp layer (d 0);
  Ret (inr (layer, kind_of sel, t)).

(** The links of the layer and the entry of the product its residual adds. *)
Definition resid_links (p : ResidPoint) (layer : Z) (kind : Resid) : res (Fail + (LayerLinks * Z * Entry)) :=
  le ←? open_entry tier (r_layer p) (wrap 64 (cc_layer_base ctx + layer));
  ll ←? ok_or Manifest_ (match chain le with
    | Chain_Layer ll => if (role le =? ROLE_LAYER) && (ll_layer ll =? layer) then Some ll else None
    | _ => None end);
  let rank := if is_attn kind then proj ll else down ll in
  pe ←? open_entry tier (r_product p) rank;
  let trimmed := cc_trim_last ctx && (wrap 64 (layer + 1) =? n_layers) in
  bail Manifest_ if negb (layer_role (role pe) trimmed) || negb (glu_form pe =? FORM_NONE) || negb (n_exp pe =? 1);
  Ret (inr (ll, rank, pe)).

(** The committed chunk of the residual and the root of its position. *)
Definition resid_dst (p : ResidPoint) (shape : PosShape) (layer : Z) (kind : Resid) (t total c : Z) : res (Fail + (Hash * list f32)) :=
  dst_leaf ←? chunk_leaf (r_dst p) total c;
  pos_root ←? ok_or Trace (b3_fold (ps_n_leaves shape) (resid_leaf np layer kind) dst_leaf (lc_leaf_path (r_dst p)));
  bail Mismatch if negb (r_n_ubatch p =? expected_ubatch t (n_prompt resp));
  bail Trace if negb (b3_verify (resp_trace_root resp) (n_pos resp) t pos_root (r_pos_path p))
    || negb (b3_verify pos_root (ps_n_leaves shape) (ps_meta_index shape) (meta_hash shape t (r_n_ubatch p)) (r_meta_path p));
  dst ←? finite_f32s (lc_chunk (r_dst p));
  bail Mismatch if negb (contains RESID_CHUNK_RMS_MIN RESID_RMS_MAX (rms dst));
  Ret (inr (pos_root, dst)).

(** [v as f32] *)
Definition f32_of_f64 (x : f64) : f32 := match x with S754_finite s m e => binary_round 24 128 s m e | _ => x end.

(** The same chunk of the residual before the addition. *)
Definition resid_src (p : ResidPoint) (shape : PosShape) (pos_root : Hash) (layer : Z) (kind : Resid) (dim total c off n : Z) : res (Fail + list f32) :=
  match r_src p with
  | Src_Token e r =>
    if is_attn kind && (layer =? 0) then
      row ←? embedding tier ctx (e, r) (r_tok p) dim;
      s ← index_range row off (wrap 64 (off + n));
      Ret (inr (map (fun v => f32_of_f64 (f64_of_f32 v * cc_embd_scale ctx)%F) s))
    else Ret (inl Shape)
  | Src_Chunk sc =>
    if is_attn kind then
      if 0 <? layer then leaf_chunk pos_root shape (resid_leaf np (layer - 1) Resid_Out) sc total c else Ret (inl Shape)
    else leaf_chunk pos_root shape (resid_leaf np layer Resid_Attn) sc total c
  end.

(** What a dense residual adds: the product's output, or its norm. *)
Definition resid_add (p : ResidPoint) (shape : PosShape) (pos_root : Hash) (rank post dim total c off n : Z) : res (Fail + list f64) :=
  match r_add p with
  | Add_Chunk ac =>
    if post =? NONE then v ←? leaf_chunk pos_root shape (wrap 64 (2 * rank + 1)) ac total c; Ret (inr (f64_of_f32 <$> v)) else Ret (inl Shape)
  | Add_Normed y norm =>
    if negb (post =? NONE) then
      yv ←? whole_leaf pos_root shape (wrap 64 (2 * rank + 1)) y total;
      w ←? f32_weights tier norm post dim off n;
      s ← index_range (rms_scaled yv (cc_eps ctx) one) off (wrap 64 (off + n));
      Ret (inr (zip_with (fun a b => a * f64_of_f32 b)%F s w))
    else Ret (inl Shape)
  | Add_Moe _ => Ret (inl Shape)
  end.

Definition resid_scale (ll : LayerLinks) (kind : Resid) : f64 :=
  if (scale ll =? NONE) || is_attn kind then one else f64_of_f32 (f32_from_bits (scale ll)).

(** Verify the residual point of a stage-2 opening. *)
Definition verify_resid_point (p : ResidPoint) : res (Fail + unit) :=
  '(layer, kind, t) ←? resid_drawn;
  let shape := shape tier ctx (r_tok p) in
  '(ll, rank, pe) ←? resid_links p layer kind;
  let dim := e_m pe in
  let total := wrap 64 (4 * dim) in
  let c := d 2 mod n_chunks total in
  '(pos_root, dst) ←? resid_dst p shape layer kind t total c;
  let off := wrap 64 (c * B3_CHUNK) / 4 in let n := zlen dst in
  src ←? resid_src p shape pos_root layer kind dim total c off n;
  let post := if is_attn kind then post_attn ll else post_ffn ll in
  let routed := negb (is_attn kind) && (post =? NONE) in
  bail Shape if bool_decide (is_Some (ll_moe ll)) && routed && match r_add p with Add_Moe _ => false | _ => true end;
  match r_add p with
  | Add_Moe m =>
    moe ←? ok_or Shape (moe ← ll_moe ll; if routed then Some moe else None);
    moe_verify {| mc_tier := tier; mc_ctx := ctx; mc_shape := shape; mc_pos_root := pos_root; mc_layer := layer; mc_down := rank;
                  mc_dim := dim; mc_c := c; mc_seed := seed |} moe m dst src off n
  | _ =>
    add ←? resid_add p shape pos_root rank post dim total c off n;
    bail Manifest_ if negb (is_finite (resid_scale ll kind));
    Ret (residual_link dst add src (resid_scale ll kind))
  end.

(** ** Residual openings *)

(** Checks [y] against row [row] of expert [exp] of product [e] over its committed input. *)
Definition feed_row (shape : PosShape) (pos_root : Hash) (n_ubatch : Z) (e : Entry) (rank exp slot n_slots row : Z) (y : f64)
    (x : list byte) (x_path : list Hash) (w : ChunkRange) (bias_opening : option Weights) : res (Fail + unit) :=
  let layout := input_layout (role e) n_ubatch (wtype e) in
  let x_one := x_len (e_k e) layout in
  xs ←? (if zlen x =? x_one then Ret (inr x)
         else if (1 <? n_slots) && (zlen x =? wrap 64 (n_slots * x_one)) then
           s ← index_range x (wrap 64 (slot * x_one)) (wrap 64 (wrap 64 (slot + 1) * x_one)); Ret (inr s)
         else Ret (inl Shape));
  bail Trace if negb (b3_verify pos_root (ps_n_leaves shape) (wrap 64 (2 * rank)) (blake3_hash x) x_path);
  consistent ← sums_consistent xs layout (e_k e);
  bail Mismatch if negb consistent;
  bytes ←? open_expert_row tier e w exp row;
  o ← canonical_dot (wtype e) bytes (e_k e) xs layout;
  r ←? ok_or Unsupported o;
  b ←? match bias_opening with
       | None => if bias e =? NONE then Ret (inr zero) else Ret (inl Shape)
       | Some (be, br) =>
         if negb (bias e =? NONE) && (n_slots =? 1) then
           bias_entry ←? open_entry tier be (bias e);
           bail Manifest_ if negb (role bias_entry =? ROLE_BIAS) || negb (wtype bias_entry =? 0) || negb (e_k bias_entry =? e_m e);
           v ←? open_bytes tier bias_entry br (wrap 64 (row * 4)) 4;
           Ret (inr (f64_of_f32 (f32_from_le v)))
         else Ret (inl Shape)
       end;
  bail Mismatch if negb (VerifyPoint.within y (y_hat r + b)%F (EPS * (Quant.scale r + SFabs b))%F);
  Ret (inr ()).

(** [y_at] *)
Definition y_at (b : list byte) (i : Z) : res (Fail + f64) :=
  let i := wrap 64 (4 * i) in
  v ←? ok_or Shape (get_range b i (wrap 64 (i + 4)));
  Ret (inr (f64_of_f32 (f32_from_le v))).

(** The drawn output row and the committed value there. *)
Definition feed_target (p : ResidPoint) (dim lo : Z) : res (Fail + (Z * f64)) :=
  left ←? ok_or Shape (n ← checked_sub dim lo; if 0 <? n then Some n else None);
  let row := wrap 64 (lo + Z.shiftr (d 3) 32 mod Z.min (B3_CHUNK / 4) left) in
  y ←? match r_add p with
       | Add_Chunk ac => y_at (lc_chunk ac) (row - lo)
       | Add_Normed y _ => y_at (lb_bytes y) row
       | Add_Moe m => y_at (lc_chunk (shexp m)) (row - lo)
       end;
  Ret (inr (row, y)).

(** The drawn row of the drawn expert of a routed residual. *)
Definition feed_expert (p : ResidPoint) (ll : LayerLinks) (m : MoeAdd) (er : ExpertRow) (shape : PosShape) (pos_root : Hash) (layer dim lo row : Z)
  : res (Fail + unit) :=
  moe ←? ok_or Shape (ll_moe ll);
  de ←? open_entry tier (expert_entry er) (down_exps moe);
  let trimmed := cc_trim_last ctx && (wrap 64 (layer + 1) =? n_layers) in
  bail Manifest_ if negb (layer_role (role de) trimmed) || negb (glu_form de =? FORM_NONE) || (n_exp de <? 2) || negb (e_m de =? dim);
  let n_used := cc_n_used ctx in
  let slot := Z.shiftr (d 3) 48 mod Z.max n_used 1 in
  let s := 4 * slot in
  id ←? ok_or Shape (get_range (ids_chunk (ids m)) s (s + 4));
  sl ←? ok_or Shape (get_at (slots m) slot);
  y ←? y_at (lc_chunk sl) (row - lo);
  feed_row shape pos_root (r_n_ubatch p) de (down_exps moe) (from_le id) slot n_used row y (expert_x er) (expert_x_path er) (expert_row er) None.

(** Verify a residual opening: its residual point, then one row of the product whose output the residual adds
    and, on a routed layer, one row of a routed expert. *)
Definition verify_resid_opening (op : ResidOpening) : res (Fail + unit) :=
  let p := ro_resid op in
  _ ←? verify_resid_point p;
  let sel := resid_site (d 1) (2 * n_layers) in
  let layer := sel / 2 in let kind := kind_of sel in
  let shape := shape tier ctx (r_tok p) in
  le ←? open_entry tier (r_layer p) (wrap 64 (cc_layer_base ctx + layer));
  ll ←? ok_or Manifest_ (match chain le with Chain_Layer ll => Some ll | _ => None end);
  let rank := if is_attn kind then proj ll else down ll in
  pe ←? open_entry tier (r_product p) rank;
  let dim := e_m pe in
  let c := d 2 mod n_chunks (wrap 64 (4 * dim)) in
  dst_leaf ←? chunk_leaf (r_dst p) (wrap 64 (4 * dim)) c;
  pos_root ←? ok_or Trace (b3_fold (ps_n_leaves shape) (resid_leaf np layer kind) dst_leaf (lc_leaf_path (r_dst p)));
  let lo := wrap 64 (c * (B3_CHUNK / 4)) in
  '(row, y) ←? feed_target p dim lo;
  let f := ro_feed op in
  _ ←? feed_row shape pos_root (r_n_ubatch p) pe rank 0 0 1 row y (feed_x f) (feed_x_path f) (Opening.feed_row f) (feed_bias f);
  match r_add p, ro_expert op with
  | Add_Moe m, Some er => feed_expert p ll m er shape pos_root layer dim lo row
  | Add_Moe _, None | _, Some _ => Ret (inl Shape)
  | _, None => Ret (inr ())
  end.
End ResidPoint.
End Chain.

(** The consensus data of a tier's chain, at their widths. *)
Definition chain_ctx_ok (ctx : ChainCtx) : Prop :=
  is_u32 (cc_n_layers ctx) /\ is_u32 (cc_layer_base ctx) /\ is_u32 (cc_embd_entry ctx) /\ is_u32 (cc_n_used ctx).
