(* ===== verification/SampleTrace.v ===== *)
(** * A concrete committed model and trace

    A model of one layer and one product, traced over the 32 positions of a block task,
    with the openings an honest prover gives; the theorems about the stage-2 verifier are
    applied to it.  The product is a Q8_0 matrix of 32 rows whose first row has the weight
    2 on its first value, the embedding of token 0 has its first value 127, so every
    position has the normed embedding as the input of the product, the product's output
    254, 0, ... 0, and the residuals 381, 0, ... 0 and 635, 0, ... 0. *)
From S2P Require Import Prelude Float Magnitude Merkle Seq Wire Opening Quant Manifest VerifyPoint Commitment Links Prefix Chain.
#[local] Open Scope Z_scope.

Module Sample.
Import Toy.

#[export] Instance exact_sqrt : Libm := {| libm_exp x := x; libm_tanh x := x; libm_sqrt := f64_sqrt |}.

(** ** The model *)

Definition entry (wtype role m base n_bytes row_bytes : Z) (c : Chain) : list byte :=
  to_le 2 1 ++ [byte_of_u8 97] ++ to_le 4 wtype ++ to_le 8 32 ++ to_le 8 m ++ to_le 4 1 ++ to_le 8 base ++ to_le 8 n_bytes ++ to_le 4 row_bytes
  ++ to_le 1 role ++ to_le 1 0 ++ to_le 1 FORM_NONE ++ to_le 4 NONE ++ to_le 4 NONE ++ chain_bytes c.

Definition links : LayerLinks := {|
  ll_layer := 0; proj := 0; down := 0; post_attn := NONE; post_ffn := NONE; scale := NONE; ll_moe := None; ll_attn := None; ll_recur := None;
|}.

Definition M : Model := {|
  md_entries := [
    entry 8 ROLE_PRODUCT 32 0 1088 34 (Chain_Product {| pl_layer := 0; pl_link := LINK_ATTN_IN; pl_norm := 2; pl_src := NONE |});
    entry 8 ROLE_EMBD 1 34 64 34 Chain_None;
    entry 0 ROLE_NORM 1 36 128 128 Chain_None;
    entry 0 ROLE_LAYER 1 40 0 0 (Chain_Layer links)];
  md_weights := to_le 2 0x3c00 ++ to_le 1086 2 ++ to_le 2 0x3c00 ++ to_le 62 127 ++ to_le 4 0x41b3999a ++ to_le 124 0;
|}.

Definition chunk_hashes : list Hash := blake3_hash <$> chunks 32 (md_weights M).
Definition entry_hashes : list Hash := leaf <$> md_entries M.
Definition tier : TierCtx :=
  {| r_t := rt_root_of chunk_hashes; tier_n_chunks := 40; m_t := rt_root_of entry_hashes; n_entries := 4; n_products := 1 |}.
Definition ctx : ChainCtx := {|
  cc_n_layers := 1; cc_layer_base := 3; cc_embd_entry := 1; cc_eps := zero; cc_embd_scale := one; cc_trim_last := false;
  cc_n_used := 0; cc_n_attn := 0; cc_n_recur := 0; cc_seq_heads := 0;
|}.
Definition prefix_ctx : PrefixCtx :=
  {| px_table := replicate 256 0; px_offset := 5; px_embd_entry := 1; px_norm_entry := 2; px_eps := zero; px_embd_scale := one |}.

(** ** The trace *)

(** The MMQ block of scale 1.0 and quants 127, 0, ... 0. *)
Definition x : list byte := to_le 4 0x3f800000 ++ to_le 12 0 ++ to_le 560 127.
Definition y : list byte := to_le 4 0x437e0000 ++ to_le 124 0.
Definition resid_attn : list byte := to_le 4 0x43be8000 ++ to_le 124 0.
Definition resid_out : list byte := to_le 4 0x441ec000 ++ to_le 124 0.
Definition leaves (t : Z) : list (list byte) := [x; y; resid_attn; resid_out; meta_bytes (shape tier ctx 0) t 32].
Definition leaf_hashes (t : Z) : list Hash := blake3_hash <$> leaves t.
Definition T : TraceData := leaves <$> seqZ 0 32.
Definition roots : list Hash := (fun ls => root_of (blake3_hash <$> ls)) <$> T.
Definition resp : ResponseCtx := {| resp_trace_root := root_of roots; n_prompt := 32; n_pos := 32 |}.

(** ** Honest openings *)

Definition rt_proof (l : list Hash) (first count : Z) : list Hash := match rt_range_proof l first count with Ret (_, p) => p | Panic => [] end.
Definition path (l : list Hash) (i : Z) : list Hash := the (b3_path l i).
Definition open_e (i : Z) : EntryOpening :=
  {| entry_index := i; entry_bytes := default [] (md_entries M !! Z.to_nat i); entry_path := rt_proof entry_hashes i 1 |}.
(** Bytes [off..off + len] of the tensor at chunk [base]. *)
Definition open_r (base off len : Z) : ChunkRange :=
  let first := base + off / 32 in let count := base + (off + len - 1) / 32 - first + 1 in
  {| range_first_chunk := first; range_chunks := slice (md_weights M) (32 * first) (32 * (first + count)); range_proof := rt_proof chunk_hashes first count |}.
Definition embd : Weights := (open_e 1, open_r 34 0 34).
Definition norm : Weights := (open_e 2, open_r 36 0 128).

Definition point (seed : Hash) (i : Z) : Point :=
  let t := draw seed i 0 mod 32 in {|
  p_n_ubatch := 32; p_pos_path := path roots t; p_meta_path := path (leaf_hashes t) 4; p_entry := open_e 0; p_partner := None; p_bias := None;
  p_rows := [open_r 0 (draw seed i 2 mod 32 * 34) 34];
  p_x := x; p_x_path := path (leaf_hashes t) 0;
  p_y_total_len := 128; p_y_chunk_index := 0; p_y_chunk := y; p_y_chunk_path := []; p_y_path := path (leaf_hashes t) 1;
|}.
Definition link : LinkOpening := Link_Token embd norm.

Definition prefix_point (seed : Hash) (offset : Z) : PrefixPoint :=
  let t := position seed offset in {|
  pre_n_ubatch := 32; pre_pos_path := path roots t; pre_meta_path := path (leaf_hashes t) 4;
  pre_entry := open_e 0; pre_x := x; pre_x_path := path (leaf_hashes t) 0; pre_embd := embd; pre_norm := norm;
|}.

Definition chunk_of_leaf (t i : Z) (data : list byte) : LeafChunk :=
  {| lc_total_len := 128; lc_index := 0; lc_chunk := data; lc_chunk_path := []; lc_leaf_path := path (leaf_hashes t) i |}.
Definition resid_point (seed : Hash) : ResidPoint :=
  let t := draw seed RESID_POINT 0 mod 32 in
  let attn := resid_site (draw seed RESID_POINT 1) 2 =? 0 in {|
  r_n_ubatch := 32; r_tok := 0; r_pos_path := path roots t; r_meta_path := path (leaf_hashes t) 4; r_layer := open_e 3; r_product := open_e 0;
  r_dst := if attn then chunk_of_leaf t 2 resid_attn else chunk_of_leaf t 3 resid_out;
  r_src := if attn then Src_Token embd.1 embd.2 else Src_Chunk (chunk_of_leaf t 2 resid_attn);
  r_add := Add_Chunk (chunk_of_leaf t 1 y);
|}.
Definition resid_opening (seed : Hash) : ResidOpening :=
  let t := draw seed RESID_POINT 0 mod 32 in {|
  ro_response_txid := to_le 32 0; ro_roots := None; ro_resid := resid_point seed;
  ro_feed := {| feed_x := x; feed_x_path := path (leaf_hashes t) 0;
                Opening.feed_row := open_r 0 (Z.shiftr (draw seed RESID_POINT 3) 32 mod 32 * 34) 34; feed_bias := None |};
  ro_expert := None;
|}.

(** ** The commitments hold *)

Lemma M_commits : model_commits tier M.
Proof.
  split; [evaluate|]. split; [split; [reflexivity|eexists; vm_compute; reflexivity]|]. split; [evaluate|]. split; [reflexivity|]. eexists. vm_compute. reflexivity.
Qed.
Lemma M_sane : model_sane M.
Proof. repeat (apply Forall_cons; split; [intros e len He; vm_compute in He; injection He as <- <-; unfold sane; cbn; lia|]). apply Forall_nil. done. Qed.
Lemma T_commits : trace_commits resp 5 T.
Proof.
  split; [evaluate|]. split; [reflexivity|]. split; [evaluate|]. split; [evaluate|]. exists roots. split; vm_compute; reflexivity.
Qed.
Lemma ctx_fits : chain_ctx_ok ctx.
Proof. unfold chain_ctx_ok. evaluate. Qed.
End Sample.
