(* ===== verification/ChainTotal.v ===== *)
(** * No stage-2 opening makes the verifier panic

    Under a committed manifest of sane sizes the stage-2 verifier of [Chain.v] returns a
    verdict on every point, residual point and residual opening, or two inputs of BLAKE3
    with one digest are exhibited. *)
From S2P Require Import Prelude Float Magnitude Merkle Seq Wire Opening Quant Manifest VerifyPoint Commitment Links Prefix Chain SampleTrace.
#[local] Open Scope Z_scope.

(** ** Entries that open to usable products *)

Definition opens `{B3 : Blake3} (tier : TierCtx) (eo : EntryOpening) : Prop := forall idx, 0 <= idx -> yields usable (open_entry tier eo idx).

Lemma all_open `{B3 : Blake3} {BL : Blake3Lengths} {BC : Blake3Chunks} tier M l : model_commits tier M -> model_sane M ->
  Forall entry_ok l -> unless_collision (Forall (opens tier) l).
Proof.
  intros HM HS. induction 1 as [|eo l He _ IH]; [by apply unless_ret, Forall_nil|].
  eapply unless_bind; [exact (entry_yields tier M HM HS eo He)|]. intros Ho. eapply unless_mono; [exact IH|]. intros HF. by constructor.
Qed.

(** The entries an opening carries. *)
Definition option_entry (w : option Weights) : list EntryOpening := match w with Some w => [w.1] | None => [] end.
Definition link_entries (l : LinkOpening) : list EntryOpening :=
  match l with
  | Link_None => []
  | Link_Norm _ norm => [norm.1]
  | Link_Token embd norm => [embd.1; norm.1]
  | Link_Source src _ _ => [src]
  end.
Definition src_entries (s : ResidSrc) : list EntryOpening := match s with Src_Chunk _ => [] | Src_Token e _ => [e] end.
Definition add_entries (a : ResidAdd) : list EntryOpening :=
  match a with
  | Add_Chunk _ => []
  | Add_Normed _ norm => [norm.1]
  | Add_Moe m => [(moe_bias m).1; (router_row m).1; (moe_norm m).1]
  end.
Definition resid_entries (p : ResidPoint) : list EntryOpening := r_layer p :: r_product p :: src_entries (r_src p) ++ add_entries (r_add p).
Definition opening_entries (o : ResidOpening) : list EntryOpening :=
  option_entry (feed_bias (ro_feed o)) ++ match ro_expert o with Some er => [expert_entry er] | None => [] end.

Lemma point_entries_ok p : point_ok p -> Forall entry_ok (point_entries p).
Proof.
  intros (_ & _ & _ & He & Hp & Hb & _). unfold point_entries. constructor; [done|]. apply Forall_app. split.
  - destruct (p_partner p); cbn in *; [by apply Forall_singleton|by apply Forall_nil].
  - destruct (p_bias p); cbn in *; [by apply Forall_singleton, Hb|by apply Forall_nil].
Qed.

Lemma link_entries_ok l : link_ok l -> Forall entry_ok (link_entries l).
Proof. unfold link_ok, weights_ok. destruct l; cbn; rewrite ?Forall_cons; intuition; by apply Forall_nil. Qed.

Lemma resid_entries_ok p : resid_ok p -> Forall entry_ok (resid_entries p).
Proof.
  intros (_ & _ & _ & _ & Hl & Hp & _ & Hs & Ha). unfold resid_entries. do 2 (constructor; [done|]). apply Forall_app. split.
  - destruct (r_src p); cbn in *; [by apply Forall_nil|apply Forall_singleton; tauto].
  - destruct (r_add p); cbn in *; unfold weights_ok in *; rewrite ?Forall_cons; intuition; by apply Forall_nil.
Qed.

Lemma opening_entries_ok o : resid_opening_ok o -> Forall entry_ok (opening_entries o).
Proof.
  intros (_ & _ & _ & (_ & _ & _ & Hb) & He). unfold opening_entries. apply Forall_app. split.
  - destruct (feed_bias _); cbn in *; [by apply Forall_singleton, Hb|by apply Forall_nil].
  - destruct (ro_expert o); cbn in *; [by apply Forall_singleton, He|by apply Forall_nil].
Qed.

(** [yielding]: the steps of a fallible call that cannot fail to return. *)
Ltac yielding := repeat match goal with
  | |- yields _ (Ret (inl _)) => apply yields_err
  | |- yields _ (if _ then Ret (inl _) else _) => let G := fresh "G" in apply yields_bail; intros G
  | |- yields (fun _ => True) (ok_or _ _) => by apply yields_ok_or
  | |- yields (fun _ => True) (Ret (inr _)) => by apply yields_ret
  | |- yields _ (try_bind (ok_or _ _) _) => eapply (yields_try (fun _ => True)); [by apply yields_ok_or|intros ? _]
  end.

Section Total.
Context `{B3 : Blake3, L : Libm}.
Context (tier : TierCtx) (Hn : is_u64 (n_entries tier)) (Hc : is_u64 (tier_n_chunks tier)).

(** ** Leaves and weights *)

Lemma finite_f32s_yields b : yields (fun v => v = f32s b) (finite_f32s b).
Proof. apply yields_ok_or. intros v. destruct (forallb _ _); [by intros [= <-]|done]. Qed.

Lemma f32_weights_yields w idx k off n : opens tier w.1 -> 0 <= idx -> 0 <= off < 2 ^ 60 -> 0 <= n < 2 ^ 60 ->
  yields (fun v => zlen v = n) (f32_weights tier w idx k off n).
Proof.
  intros Ho Hi Hoff Hn0. unfold f32_weights. eapply yields_try; [by apply Ho|]. intros e [(_ & _ & _ & _ & Hcb & Hnb & _) _]. apply yields_bail. intros _.
  rewrite !wrap_id by (unfold fits; lia). eapply yields_try; [apply open_bytes_ok; try done; lia|]. intros b Hb. apply yields_ret. by apply zlen_f32s.
Qed.

Lemma plain_row_yields e r row : usable e -> 0 <= row -> yields (fun b => zlen b = row_bytes e) (open_row tier e r row).
Proof.
  intros [(_ & _ & Hm & Hx & Hcb & Hb & Hrb & _) (_ & _ & Hsz)] Hrow. unfold open_row. apply yields_bail. intros G. cbv zeta.
  rewrite orb_false_iff, Z.leb_gt, negb_false_iff, Z.eqb_eq in G. destruct G as [G1 G2]. unfold fits in Hrb. rewrite G2 in *.
  pose proof (row_in_bounds 0 1 row (e_m e) (row_bytes e)). assert (0 <= row * row_bytes e) by nia. rewrite wrap_id by (unfold fits; lia). apply open_bytes_ok; try done; lia.
Qed.

Lemma embedding_yields ctx w tok k : opens tier w.1 -> chain_ctx_ok ctx -> 0 <= tok -> 0 <= k < 2 ^ 61 -> yields (fun v => zlen v = k) (embedding tier ctx w tok k).
Proof.
  intros Ho (_ & _ & [He _] & _) Ht Hk. unfold embedding. eapply yields_try; [by apply Ho|]. intros e He'. apply yields_bail. intros _.
  eapply yields_try; [by apply plain_row_yields|]. intros row _.
  eapply yields_bind; [instantiate (1 := fun o => forall e, o = Some e -> zlen e = k)|].
  { destruct (dequant_row_spec (wtype e) row k Hk) as [[_ (o' & -> & v & -> & Hv)]|[_ ->]]; apply returns_ret; by intros ? [= <-]. }
  intros o Ho'. by apply yields_ok_or.
Qed.

Lemma whole_leaf_yields pr shape i l n : 0 <= n < 2 ^ 61 -> yields (fun v => zlen v = n) (whole_leaf pr shape i l (wrap 64 (4 * n))).
Proof.
  intros Hn0. unfold whole_leaf. rewrite wrap_id by (unfold fits; lia). apply yields_bail. intros G. rewrite negb_false_iff, Z.eqb_eq in G. apply yields_bail. intros _.
  eapply yields_impl; [apply finite_f32s_yields|]. intros v ->. by apply zlen_f32s.
Qed.

(** A chunk of a leaf of [n] values holds those from its offset on. *)
Lemma chunk_leaf_yields c n idx : 0 <= n < 2 ^ 60 -> 0 <= idx < n_chunks (4 * n) -> 
  yields (fun _ => zlen (f32s (lc_chunk c)) = Z.min n ((idx + 1) * 256) - idx * 256) (chunk_leaf c (4 * n) idx).
Proof.
  intros Hn0 Hi. unfold chunk_leaf. apply yields_bail. intros _. apply yields_ok_or. intros h Hh. apply zlen_f32s. unfold n_chunks, B3_CHUNK in *.
  destruct (Z.eqb_spec n 0) as [->|].
  - change (div_ceil (4 * 0) 1024) with 0 in Hi. assert (idx = 0) as -> by lia. unfold b3_leaf_from_chunk in Hh. vm_compute (Z.max _ 1) in Hh. cbn in Hh.
    change (if wrap 64 (0 + 1) <? 1 then Some B3_CHUNK else checked_sub (4 * 0) (wrap 64 (0 * B3_CHUNK))) with (Some 0) in Hh. cbn [mbind option_bind] in Hh.
    destruct (Z.eqb_spec (zlen (lc_chunk c)) 0) as [->|]; [lia|done].
  - apply b3_leaf_from_chunk_chunks in Hh as [_ ->]; [|lia..]. unfold B3_CHUNK. lia.
Qed.

Lemma leaf_chunk_yields pr shape leaf c total idx : yields (fun _ => True) (leaf_chunk pr shape leaf c total idx).
Proof.
  unfold leaf_chunk. eapply (yields_try (fun _ => True)); [unfold chunk_leaf; by yielding|]. intros h _. yielding.
  eapply yields_impl; [apply finite_f32s_yields|done].
Qed.

(** ** Links *)

Lemma block_deviation_returns x layout k first v : 0 <= k < 2 ^ 61 -> 0 <= first -> returns (fun _ => True) (block_deviation x layout k first v).
Proof. intros Hk Hf. destruct (block_deviation_spec x layout k first v Hk Hf) as (dev & -> & _). by apply returns_ret. Qed.

Lemma dev_within_yields dev : yields (fun _ => True) (Ret (dev_within dev)).
Proof. apply returns_ret. by destruct (dev_within dev). Qed.

Lemma glu_link_yields x layout k first h : 0 <= k < 2 ^ 61 -> 0 <= first -> yields (fun _ => True) (glu_link x layout k first h).
Proof. intros Hk Hf. unfold glu_link. yielding. eapply yields_bind; [by apply block_deviation_returns|]. intros dev _. apply dev_within_yields. Qed.

Lemma fragment_link_yields x layout k scaled w b0 n : 0 <= k < 2 ^ 61 -> 0 <= b0 -> 0 < n -> (b0 + n) * 32 <= k -> yields (fun _ => True) (fragment_link x layout k scaled w b0 n).
Proof.
  intros Hk Hb Hn0 Hle. unfold fragment_link. cbv zeta. rewrite (wrap_id 64 (b0 * 32)), (wrap_id 64 ((b0 + n) * 32)), Z.min_l by (unfold fits; lia). yielding.
  rewrite orb_false_iff, !negb_false_iff, !Z.eqb_eq in G. destruct G as [Gs _].
  eapply yields_bind; [apply returns_index_range; lia|]. intros s _. eapply yields_bind; [by apply block_deviation_returns|]. intros dev _. apply dev_within_yields.
Qed.

Section Link.
Context (ctx : ChainCtx) (seed : Hash) (i : Z) (p : Point) (o : Opened) (pl : ProductLink) (shape : PosShape).
Context (Hctx : chain_ctx_ok ctx) (Ho : usable (op_input o)) (Hslot : 0 <= op_slot o < 2 ^ 32) (Hpl : chain_ok (Chain_Product pl)).

Lemma input_small : 0 <= e_k (op_input o) < 2 ^ 30.
Proof. destruct Ho as [(_ & [Hk0 _] & _) (Hk & _)]. lia. Qed.

Lemma link_block_yields xs : yields (fun b => 0 <= b < e_k (op_input o) / 32 /\ e_k (op_input o) mod 32 = 0)
  (ob ← link_block seed i xs (op_layout o) (e_k (op_input o)); ok_or Shape ob).
Proof.
  pose proof input_small. eapply yields_bind; [by apply link_block_spec; lia|]. intros ob Hob. apply yields_ok_or. intros b Eb. rewrite Eb in Hob. tauto.
Qed.

(** The draw of a block, ahead of the rest of a check. *)
Lemma with_block {A} xs (P : A -> Prop) (cont : Z -> res (Fail + A)) :
  (forall b, 0 <= b < e_k (op_input o) / 32 -> e_k (op_input o) mod 32 = 0 -> yields P (cont b)) ->
  yields P (ob ← link_block seed i xs (op_layout o) (e_k (op_input o)); b ←? ok_or Shape ob; cont b).
Proof.
  intros HP. pose proof input_small. eapply yields_bind; [by apply link_block_spec; lia|]. intros ob Hob.
  eapply yields_try; [apply yields_ok_or; intros b Eb; rewrite Eb in Hob; exact Hob|]. intros b (Hb & Hm & _). by apply HP.
Qed.

Lemma slot_row_yields : yields (fun _ => True) (slot_row p o).
Proof. by apply yields_ok_or. Qed.

Lemma check_fragment_yields xs norm scaled : opens tier norm.1 -> yields (fun _ => True) scaled -> yields (fun _ => True) (check_fragment tier seed i o pl xs norm scaled).
Proof.
  intros Hno Hs. pose proof input_small as Hk. unfold check_fragment. apply with_block. intros b Hb Hm. pose proof (norm_fragment_spec b _ Hb Hm) as Hf.
  destruct (norm_fragment b (e_k (op_input o))) as [b0 n]. destruct Hf as (Hb0 & _ & Hn0 & Hle & _). assert ((b0 + n) * 32 <= e_k (op_input o)) by dlia.
  destruct Hpl as (_ & _ & [Hnm _] & _). rewrite !(wrap_id 64 (b0 * 32)), (wrap_id 64 (n * 32)), (wrap_id 64 (_ - b0 * 32)) by (unfold fits; lia).
  eapply yields_try; [apply f32_weights_yields; [done|done|lia|lia]|]. intros w _. eapply yields_try; [exact Hs|]. intros s _. apply fragment_link_yields; lia.
Qed.

Lemma check_token_yields embd norm tok : opens tier embd.1 -> opens tier norm.1 -> 0 <= tok -> yields (fun _ => True) (check_token tier ctx seed i p o pl embd norm tok).
Proof.
  intros He Hno Ht. pose proof input_small. apply check_fragment_yields; [done|]. eapply yields_try; [apply embedding_yields; try done; lia|]. intros e _. by apply yields_ret.
Qed.

Lemma check_norm_yields src norm : opens tier norm.1 -> yields (fun _ => True) (check_norm tier ctx seed i p o pl shape src norm).
Proof.
  intros Hno. pose proof input_small. unfold check_norm. yielding. eapply yields_try; [apply whole_leaf_yields; lia|]. intros h _. yielding.
  eapply (yields_try (fun _ => True)); [destruct (_ =? _); [by apply yields_ret|apply slot_row_yields]|]. intros xs _. apply check_fragment_yields; [done|by apply yields_ret].
Qed.

Lemma check_expert_source_yields src y ids : opens tier src -> yields (fun _ => True) (check_expert_source tier ctx seed i p o pl shape src y ids).
Proof.
  intros Hs. pose proof input_small. destruct Hpl as (_ & _ & _ & [Hsrc _]). unfold check_expert_source. eapply yields_try; [by apply Hs|]. intros se _. yielding. cbv zeta. yielding.
  eapply (yields_try (fun _ => True)); [unfold chunk_leaf_raw; yielding|]. intros h _. yielding. eapply yields_try; [apply slot_row_yields|]. intros xs _.
  apply with_block. intros b Hb Hm. eapply yields_try; [apply leaf_chunk_yields|]. intros v _. apply glu_link_yields; [lia|]. apply Z.div_pos; [by apply (wrap_fits 64)|done].
Qed.

Lemma check_source_yields src y : opens tier src -> yields (fun _ => True) (check_source tier seed i p o pl shape src y).
Proof.
  intros Hs. pose proof input_small. destruct Hpl as (_ & _ & _ & [Hsrc _]). unfold check_source. eapply yields_try; [by apply Hs|]. intros se _. yielding. cbv zeta.
  apply with_block. intros b Hb Hm. eapply yields_try; [apply leaf_chunk_yields|]. intros v _. apply glu_link_yields; [lia|]. apply Z.div_pos; [by apply (wrap_fits 64)|done].
Qed.

Lemma check_head_slice_yields src y : opens tier src -> yields (fun _ => True) (check_head_slice tier seed i p o pl shape src y).
Proof.
  intros Hs. pose proof input_small. destruct Hpl as (_ & _ & _ & [Hsrc _]). unfold check_head_slice. eapply yields_try; [by apply Hs|]. intros se _. cbv zeta. yielding.
  eapply yields_try; [apply slot_row_yields|]. intros xs _. apply with_block. intros b Hb Hm. eapply yields_try; [apply leaf_chunk_yields|]. intros v _. yielding.
  apply glu_link_yields; [lia|]. apply Z.div_pos; [by apply (wrap_fits 64)|done].
Qed.

Lemma peak_bounded_returns : returns (fun _ => True) (peak_bounded (p_x p) (op_layout o) (e_k (op_input o)) (op_slot o)).
Proof.
  pose proof input_small as Hk. set (k := e_k (op_input o)) in *. unfold peak_bounded. cbv zeta. destruct (_ || _ || _ || _) eqn:G; [by apply returns_ret|].
  rewrite !orb_false_iff, !negb_false_iff, !Z.eqb_eq, !Z.eqb_neq in G. destruct G as [[[Gk Gx] _] _].
  destruct (get_at _ _) as [row|]; [|by apply returns_ret].
  destruct (blocks_spec row (op_layout o) k ltac:(lia)) as [[_ (b & -> & bl & -> & Hbl & _)]|[_ ->]]; cbn [mbind res_bind]; [|by apply returns_ret].
  destruct (existsb _ _); [by apply returns_ret|]. set (d := SFabs <$> bl.*1).
  assert (Hd : zlen d = div_ceil k 32) by (unfold d; by rewrite !zlen_fmap).
  assert (Hk0 : k <> 0). { intros E. apply Gx. unfold x_len. rewrite E. by destruct (_ =? MMVQ). }
  eapply returns_bind; [apply (returns_index (merge_sort total_le d) (zlen d / 2))|].
  - assert (zlen (merge_sort total_le d) = zlen d) as -> by (unfold zlen; by rewrite (Permutation_length (merge_sort_Permutation total_le d))).
    rewrite Hd. unfold div_ceil. dlia.
  - intros m _. by apply returns_ret.
Qed.

Lemma check_link_yields link tok : Forall (opens tier) (link_entries link) -> 0 <= tok -> yields (fun _ => True) (check_link tier ctx seed i p o pl shape link tok).
Proof.
  intros Hl Ht. unfold check_link. cbv zeta. destruct link as [|src norm|embd norm|src y [ids|]]; cbn in Hl; rewrite ?Forall_cons in Hl.
  - destruct (_ =? LINK_NONE); [|yielding]. eapply yields_bind; [apply peak_bounded_returns|]. intros ok _. yielding.
  - destruct (_ || _); [|yielding]. apply check_norm_yields; tauto.
  - destruct (_ && _); [|yielding]. apply check_token_yields; tauto.
  - destruct (_ && _); [|yielding]. apply check_expert_source_yields; tauto.
  - destruct ((_ || _) && _); [apply check_source_yields; tauto|]. destruct (_ && _); [|yielding]. apply check_head_slice_yields; tauto.
Qed.
End Link.

Lemma chain_point_yields ctx resp seed i p tok link ids : chain_ctx_ok ctx -> is_u64 (n_products tier) -> is_u32 (n_pos resp) -> 0 <= tok ->
  Forall entry_ok (point_entries p) -> Forall (opens tier) (point_entries p) -> Forall (opens tier) (link_entries link) ->
  yields (fun rep => 0 <= rep_t rep) (verify_chain_point tier ctx resp seed i p tok link ids).
Proof.
  intros Hctx Hp Hr Ht Hok Hpe Hle. unfold verify_chain_point. cbv zeta. pose proof Hctx as (_ & _ & _ & Hu).
  assert (Hs : Forall (fun eo => forall e, open_entry tier eo (entry_index eo) = Ret (inr e) -> sane e) (point_entries p)).
  { apply Forall_forall. intros eo Heo e He. rewrite Forall_forall in Hok, Hpe. destruct (Hok _ Heo) as ([Hi _] & _).
    destruct (Hpe _ Heo _ Hi) as (r & Er & Hus). rewrite He in Er. injection Er as <-. apply Hus. }
  eapply yields_try; [by apply (verify_point_yields tier p Hn Hc Hs)|]. intros [report o] (Ho & Hslot & Ht0).
  destruct (chain (op_input o)) as [|pl|ll] eqn:Ec; [apply yields_err| |apply yields_err]. yielding.
  eapply yields_try; [apply check_link_yields; try done|]. { destruct Ho as [Hw _]. unfold widths in Hw. rewrite Ec in Hw. tauto. }
  intros _ _. by apply yields_ret.
Qed.
End Total.

(** ** The residual point *)

Section ResidTotal.
Context `{B3 : Blake3, L : Libm}.
Context (tier : TierCtx) (Hc : is_u64 (tier_n_chunks tier)).
Context (ctx : ChainCtx) (Hctx : chain_ctx_ok ctx).

Lemma try_map_yields {E A C} (P : C -> Prop) (f : A -> res (E + C)) l : (forall a, a ∈ l -> yields P (f a)) -> yields (Forall P) (try_map f l).
Proof.
  induction l as [|a l IH]; intros H; cbn; [by apply yields_ret, Forall_nil|]. eapply yields_try; [apply H; left|]. intros c Hpc.
  eapply yields_try; [apply IH; intros; apply H; by right|]. intros cs Hcs. apply yields_ret. by constructor.
Qed.

(** An empty range of weights is refused. *)
Lemma some_weights_yields w idx k n : opens tier w.1 -> 0 <= idx -> 0 <= n < 2 ^ 60 -> yields (fun v => zlen v = n /\ 0 < n) (f32_weights tier w idx k 0 n).
Proof.
  intros Ho Hi Hn0. destruct (Z.eqb_spec n 0) as [->|].
  - unfold f32_weights. eapply yields_try; [by apply Ho|]. intros e _. apply yields_bail. intros _. unfold open_bytes. change (wrap 64 (4 * 0)) with 0. apply yields_err.
  - eapply yields_impl; [by apply f32_weights_yields|]. intros v Hv. split; [exact Hv|lia].
Qed.

Section MoeTotal.
Context (mc : MoeCheck) (Htier : mc_tier mc = tier) (Hmctx : mc_ctx mc = ctx) (Hdim : 0 <= mc_dim mc < 2 ^ 29) (Hmc : 0 <= mc_c mc).
Context (moe : MoeLinks) (Hmoe : Forall is_u32 (moe_words moe)) (m : MoeAdd).
Context (Hbias : opens tier (moe_bias m).1) (Hrow : opens tier (router_row m).1) (Hnorm : opens tier (moe_norm m).1).
Context (Hslots : zlen (slots m) = cc_n_used ctx) (Hused : 0 < cc_n_used ctx).

Lemma moe_fields : 0 <= down_exps moe /\ 0 <= router moe /\ 0 <= probs_bias moe /\ 0 <= ffn_norm moe.
Proof. unfold moe_words, is_u32, fits in Hmoe. rewrite !Forall_cons in Hmoe. lia. Qed.

Lemma moe_routing_yields re : usable re -> yields (fun '(sc, _) => zlen sc = e_m re /\ 0 < e_m re) (moe_routing mc moe m re).
Proof.
  intros [(_ & _ & [Hm0 _] & _) (_ & Hm & _)]. pose proof moe_fields as (_ & _ & Hpb & _). unfold moe_routing. cbv zeta. rewrite Htier, Hmctx.
  eapply yields_try; [apply whole_leaf_yields; lia|]. intros sc Hsc. eapply yields_try; [apply some_weights_yields; try done; lia|]. intros b [_ Hpos]. yielding.
  eapply (yields_try (fun _ => True)); [unfold chunk_leaf_raw; yielding|]. intros h _.
  eapply yields_bind; [apply (returns_index (slots m) 0); lia|]. intros s0 _. yielding. by apply yields_ret.
Qed.

Lemma moe_router_yields re sc : usable re -> zlen sc = e_m re -> 0 < e_m re -> yields (fun _ => True) (moe_router mc moe m re sc).
Proof.
  intros [(_ & _ & _ & _ & Hcb & Hnb & _) (_ & Hm & _)] Hsc Hpos. pose proof moe_fields as (_ & _ & _ & Hf). unfold moe_router. cbv zeta. rewrite Htier, Hmctx.
  eapply yields_try; [apply whole_leaf_yields; lia|]. intros h _. eapply yields_try; [apply f32_weights_yields; try done; lia|]. intros w _.
  destruct (Z.eqb_spec (e_m re) 0); [lia|]. set (row := draw (mc_seed mc) RESID_POINT 3 mod e_m re). assert (Hr : 0 <= row < e_m re) by (apply Z.mod_pos_bound; lia).
  assert (Hoff : 0 <= row * 4 * mc_dim mc <= 2 ^ 31 * 2 ^ 29) by (split; [nia|apply Z.mul_le_mono_nonneg; lia]).
  rewrite !wrap_id by (rewrite ?(wrap_id 64 (row * 4)) by (unfold fits; lia); unfold fits; lia). eapply yields_try; [apply open_bytes_ok; try done; lia|]. intros wr _. destruct (dot_mag _ _) as [dot mag].
  eapply yields_bind; [apply (returns_index sc row); lia|]. intros s _. yielding.
Qed.

Lemma moe_element_yields w ys sh dst src n j : Forall (fun y => zlen y = n) ys -> zlen sh = n -> zlen dst = n -> zlen src = n -> 0 <= j < n ->
  yields (fun _ => True) (moe_element w ys sh dst src j).
Proof.
  intros Hys H1 H2 H3 Hj. unfold moe_element. eapply yields_bind; [apply (returns_index sh j); lia|]. intros s _. eapply yields_bind; [apply (returns_index src j); lia|]. intros r _.
  eapply yields_bind; [apply (returns_index dst j); lia|]. intros d _. eapply yields_bind; [eapply (returns_impl _ (fun _ => True)); [apply (returns_mapM (fun _ _ => True))|done]|].
  - intros [ws y] Hy. apply elem_of_zip_r in Hy. rewrite Forall_forall in Hys. apply Hys in Hy. eapply returns_bind; [apply (returns_index y j); lia|]. intros yj _. by apply returns_ret.
  - intros col _. destruct (weighted_sum _ _ _) as [sum mag]. yielding.
Qed.

Lemma moe_verify_yields dst src off n : yields (fun _ => True) (moe_verify mc moe m dst src off n).
Proof.
  unfold moe_verify. cbv zeta. rewrite Htier, Hmctx. apply yields_bail. intros _. pose proof moe_fields as (_ & Hr & _).
  eapply yields_try; [by apply Hrow|]. intros re Hre. yielding. eapply yields_try; [by apply moe_routing_yields|]. intros [sc w] [Hsc Hpos].
  eapply yields_try; [by apply moe_router_yields|]. intros _ _. eapply (yields_try (fun _ => True)).
  { eapply yields_impl; [apply (try_map_yields (fun _ => True))|done]. intros s Hs%elem_of_seqZ. eapply yields_bind; [apply (returns_index (slots m) s); lia|].
    intros slot _. apply leaf_chunk_yields. }
  intros ys _. eapply yields_try; [apply leaf_chunk_yields|]. intros sh _. yielding. rewrite !orb_false_iff, !negb_false_iff, !Z.eqb_eq in G0. destruct G0 as [[[[Gy Gs] Gd] Gr] _].
  eapply (yields_try (fun _ => True)); [|intros _ _; by apply yields_ret]. eapply yields_impl; [apply (try_map_yields (fun _ => True))|done].
  intros j Hj%elem_of_seqZ. apply (moe_element_yields w ys sh dst src n); try lia.
  rewrite existsb_negb, negb_false_iff, forallb_forall in Gy. apply Forall_forall. intros y Hy%list_elem_of_In. by apply Z.eqb_eq, Gy.
Qed.
End MoeTotal.

(** ** Dense and routed residuals *)

Definition links_fit (ll : LayerLinks) (rank : Z) : Prop := Forall is_u32 (chain_words ll) /\ 0 <= rank.

Lemma layer_words ll : Forall is_u32 (chain_words ll) ->
  0 <= proj ll /\ 0 <= down ll /\ 0 <= post_attn ll /\ 0 <= post_ffn ll /\ forall moe, ll_moe ll = Some moe -> Forall is_u32 (moe_words moe).
Proof.
  intros H. unfold chain_words in H. apply Forall_app in H as [Hl H]. apply Forall_app in H as [Hm _].
  unfold is_u32, fits in Hl. rewrite !Forall_cons in Hl. split_and!; try lia. intros moe E. by rewrite E in Hm.
Qed.

Lemma resid_links_yields p layer kind : opens tier (r_layer p) -> opens tier (r_product p) -> 
  yields (fun '(ll, rank, pe) => Forall is_u32 (chain_words ll) /\ 0 <= rank /\ usable pe) (resid_links tier ctx p layer kind).
Proof.
  intros Hl Hp. unfold resid_links. eapply yields_try; [apply Hl, (wrap_fits 64); lia|]. intros le Hle.
  eapply (yields_try (fun ll => chain le = Chain_Layer ll)).
  { apply yields_ok_or. intros ll. destruct (chain le); try done. destruct (_ && _); [by intros [= <-]|done]. }
  intros ll Ell. cbv zeta. assert (Hw : Forall is_u32 (chain_words ll)).
  { destruct Hle as [Hw _]. unfold widths in Hw. rewrite Ell in Hw. cbn in Hw. tauto. }
  destruct (layer_words ll Hw) as (H1 & H2 & _). eapply yields_try; [apply Hp; destruct (is_attn kind); lia|]. intros pe Hpe. yielding. apply yields_ret.
  split; [done|]. split; [destruct (is_attn kind); lia|done].
Qed.

Lemma n_chunks_pos n : 0 < n_chunks n.
Proof. unfold n_chunks. lia. Qed.

Lemma chunk_values dim c : 0 <= dim -> 0 <= c < n_chunks (4 * dim) -> 0 <= c * 256 <= dim /\ 0 <= Z.min dim ((c + 1) * 256) - c * 256.
Proof. unfold n_chunks, div_ceil, B3_CHUNK. intros. assert (c = 0 \/ c * 1024 < 4 * dim) by (destruct (Z.eqb_spec c 0); [by left|right; dlia]). lia. Qed.

Lemma resid_dst_yields resp p shape layer kind t dim c : 0 <= dim < 2 ^ 29 -> 0 <= c < n_chunks (4 * dim) ->
  yields (fun '(_, dst) => zlen dst = Z.min dim ((c + 1) * 256) - c * 256) (resid_dst tier resp p shape layer kind t (4 * dim) c).
Proof.
  intros Hd Hcc. unfold resid_dst. eapply yields_try; [apply chunk_leaf_yields; [lia|done]|]. intros h Hz. cbv beta in Hz. yielding.
  eapply yields_try; [apply finite_f32s_yields|]. intros dst ->. yielding. by apply yields_ret.
Qed.

Lemma resid_src_yields p shape pr layer kind dim total c off n : Forall (opens tier) (src_entries (r_src p)) -> 0 <= r_tok p -> 0 <= dim < 2 ^ 29 -> 0 <= off -> 0 <= n -> off + n <= dim ->
  yields (fun _ => True) (resid_src tier ctx p shape pr layer kind dim total c off n).
Proof.
  intros Ho Ht Hd Hoff Hn0 Hle. unfold resid_src. destruct (r_src p) as [sc|e r]; cbn in Ho.
  - destruct (is_attn kind); [destruct (0 <? layer); [|yielding]|]; apply leaf_chunk_yields.
  - destruct (_ && _); [|yielding]. apply Forall_cons in Ho as [Ho _]. eapply yields_try; [by apply embedding_yields; try done; lia|]. intros row Hrow. cbv beta in Hrow.
    rewrite wrap_id by (unfold fits; lia). eapply yields_bind; [apply returns_index_range; lia|]. intros s _. by apply yields_ret.
Qed.

Lemma resid_add_yields p shape pr rank post dim c off n : Forall (opens tier) (add_entries (r_add p)) -> 0 <= post -> 0 <= dim < 2 ^ 29 -> 0 <= off -> 0 <= n -> off + n <= dim ->
  yields (fun _ => True) (resid_add tier ctx p shape pr rank post dim (wrap 64 (4 * dim)) c off n).
Proof.
  intros Ho Hp Hd Hoff Hn0 Hle. unfold resid_add. destruct (r_add p) as [ac|y norm|m]; cbn in Ho; [| |yielding].
  - destruct (_ =? NONE); [|yielding]. eapply yields_try; [apply leaf_chunk_yields|]. intros v _. by apply yields_ret.
  - destruct (negb _); [|yielding]. eapply yields_try; [apply whole_leaf_yields; lia|]. intros yv Hy. cbv beta in Hy. apply Forall_cons in Ho as [Ho _].
    eapply yields_try; [apply f32_weights_yields; try done; lia|]. intros w _. rewrite wrap_id by (unfold fits; lia).
    eapply yields_bind; [apply returns_index_range; rewrite ?zlen_rms_scaled; lia|]. intros s _. by apply yields_ret.
Qed.

Lemma resid_position_yields resp layer d0 : n_pos resp <> 0 -> yields (fun _ => True) (resid_position ctx resp layer d0).
Proof.
  intros Hz. unfold resid_position. destruct (_ && _); [yielding; by apply yields_ret|]. destruct (Z.eqb_spec (n_pos resp) 0); [done|]. by apply yields_ret.
Qed.

Lemma resid_point_yields resp seed p : Forall (opens tier) (resid_entries p) -> 0 <= r_tok p -> yields (fun _ => True) (verify_resid_point tier ctx resp seed p).
Proof.
  intros Ho Ht. apply Forall_cons in Ho as [Hl Ho]. apply Forall_cons in Ho as [Hp [Hs Ha]%Forall_app]. pose proof Hctx as (_ & _ & _ & [Hu0 Hu]).
  unfold verify_resid_point. cbv zeta. eapply (yields_try (fun _ => True)).
  { unfold resid_drawn. yielding. cbv zeta. rewrite orb_false_iff, !Z.eqb_neq in G. eapply yields_try; [apply resid_position_yields; tauto|]. intros t _. by apply yields_ret. }
  intros [[layer kind] t] _. eapply yields_try; [by apply resid_links_yields|]. intros [[ll rank] pe] (Hw & Hr & Hpe).
  pose proof Hpe as [(_ & _ & [Hm0 _] & _) (_ & Hm & _)]. destruct (layer_words ll Hw) as (_ & _ & Hpa & Hpf & Hmoe). set (dim := e_m pe) in *.
  assert (Hc0 := Z.mod_pos_bound (draw seed RESID_POINT 2) _ (n_chunks_pos (4 * dim))). assert (Htot : wrap 64 (4 * dim) = 4 * dim) by (apply wrap_id; unfold fits; lia).
  rewrite Htot. set (c := draw seed RESID_POINT 2 mod n_chunks (4 * dim)) in *. destruct (chunk_values dim c Hm0 Hc0) as [Hco Hz].
  eapply yields_try; [by apply resid_dst_yields|]. intros [pr dst] Hdst. cbn beta iota in Hdst.
  assert (Hoff : wrap 64 (c * B3_CHUNK) / 4 = c * 256) by (rewrite wrap_id by (unfold fits, B3_CHUNK; lia); unfold B3_CHUNK; dlia). rewrite Hoff.
  eapply yields_try; [apply resid_src_yields; try done; lia|]. intros src _. yielding.
  assert (Hdense : forall post, 0 <= post -> yields (fun _ => True)
    (add ←? resid_add tier ctx p (shape tier ctx (r_tok p)) pr rank post dim (4 * dim) c (c * 256) (zlen dst);
     bail Manifest_ if negb (is_finite (resid_scale ll kind)); Ret (residual_link dst add src (resid_scale ll kind)))).
  { intros post Hpost. rewrite <- Htot. eapply yields_try; [apply resid_add_yields; try done; lia|]. intros add _. yielding. apply returns_ret. by destruct (residual_link _ _ _ _). }
  destruct (r_add p) as [ac|y norm|m] eqn:Ea; [apply Hdense; destruct (is_attn kind); lia..|]. clear Hdense.
  cbn in Ha. rewrite !Forall_cons in Ha. eapply (yields_try (fun moe => ll_moe ll = Some moe)).
  { apply yields_ok_or. intros moe. destruct (ll_moe ll) as [x|]; [|done]. cbn. repeat case_match; congruence. }
  intros moe Emoe. destruct (Z.eqb_spec (cc_n_used ctx) 0) as [Hz0|Hz0].
  { unfold moe_verify. cbn [mc_ctx]. rewrite Hz0. apply yields_err. }
  destruct (Z.eqb_spec (zlen (slots m)) (cc_n_used ctx)) as [Hsl|Hsl].
  - apply moe_verify_yields; try done; cbn; try tauto; try lia. by apply Hmoe.
  - unfold moe_verify. cbn [mc_ctx]. apply Z.eqb_neq in Hsl. rewrite Hsl. cbn [negb]. rewrite orb_true_r. apply yields_err.
Qed.

(** ** Residual openings *)

Lemma y_at_yields b i : yields (fun _ => True) (y_at b i).
Proof. unfold y_at. cbv zeta. yielding. Qed.

Lemma feed_row_yields shape pr n_ubatch e rank exp slot n_slots row y x x_path w bo : usable e -> 0 <= exp -> 0 <= row < 2 ^ 29 -> 0 <= slot < Z.max n_slots 1 -> n_slots < 2 ^ 32 ->
  Forall (opens tier) (option_entry bo) -> yields (fun _ => True) (Chain.feed_row tier shape pr n_ubatch e rank exp slot n_slots row y x x_path w bo).
Proof.
  intros He Hx Hrow Hsl Hns Hb. pose proof He as [(_ & [Hk0 _] & _ & _ & _ & _ & _ & _ & [Hbi _] & _) (Hk & _)]. unfold Chain.feed_row. cbv zeta.
  set (x_one := x_len (e_k e) _). assert (Hone : 0 <= x_one < 2 ^ 31) by (apply x_len_small; lia).
  eapply (yields_try (fun _ => True)).
  { destruct (_ =? x_one); [by apply yields_ret|]. destruct (_ && _) eqn:G; [|yielding]. rewrite andb_true_iff, Z.ltb_lt, Z.eqb_eq in G. destruct G as [G1 G2].
    assert (Hb1 : (slot + 1) * x_one <= n_slots * x_one < 2 ^ 64) by nia. rewrite (wrap_id 64 (n_slots * x_one)) in G2 by (unfold fits; nia).
    rewrite (wrap_id 64 (slot + 1)), !wrap_id by (unfold fits; nia). eapply yields_bind; [apply returns_index_range; nia|]. intros s _. by apply yields_ret. }
  intros xs _. yielding. destruct (sums_consistent_returns xs (input_layout (role e) n_ubatch (wtype e)) (e_k e)) as [v ->]; [lia|]. cbn [mbind res_bind]. yielding.
  eapply yields_try; [apply open_expert_row_ok; try done; lia|]. intros bytes _.
  destruct (dot_returns (wtype e) bytes (e_k e) xs (input_layout (role e) n_ubatch (wtype e))) as [o ->]; [lia|]. cbn [mbind res_bind]. yielding.
  eapply (yields_try (fun _ => True)); [|intros b _; yielding]. destruct bo as [[be br]|]; cbn in Hb.
  - destruct (_ && _); [|yielding]. apply Forall_cons in Hb as [Hb _]. eapply yields_try; [by apply Hb|]. intros entry [(_ & _ & _ & _ & Hcb & Hnb & _) _]. yielding.
    rewrite wrap_id by (unfold fits; lia). eapply yields_try; [apply open_bytes_ok; try done; lia|]. intros v0 _. by apply yields_ret.
  - destruct (_ =? NONE); [by apply yields_ret|yielding].
Qed.

Lemma feed_target_yields seed p dim lo : 0 <= lo -> dim < 2 ^ 29 -> yields (fun '(row, _) => lo <= row < dim) (feed_target seed p dim lo).
Proof.
  intros Hlo Hd. unfold feed_target. cbv zeta. eapply (yields_try (fun left => left = dim - lo /\ 0 < left)).
  { apply yields_ok_or. intros left. unfold checked_sub. destruct (lo <=? dim); [|done]. cbn. destruct (Z.ltb_spec 0 (dim - lo)); [intros [= <-]; lia|done]. }
  intros left [-> Hpos]. set (r := Z.shiftr _ _ mod _). assert (Hr : 0 <= r < Z.min (B3_CHUNK / 4) (dim - lo)) by (apply Z.mod_pos_bound; unfold B3_CHUNK; dlia).
  rewrite wrap_id by (unfold fits; lia). eapply (yields_try (fun _ => True)); [destruct (r_add p); apply y_at_yields|]. intros y _. apply yields_ret. lia.
Qed.

Lemma resid_opening_yields resp seed op : Forall (opens tier) (resid_entries (ro_resid op)) -> Forall (opens tier) (opening_entries op) -> 0 <= r_tok (ro_resid op) ->
  yields (fun _ => True) (verify_resid_opening tier ctx resp seed op).
Proof.
  intros Ho Hf Ht. apply Forall_app in Hf as [Hf He]. pose proof Hctx as (_ & _ & _ & [Hu0 Hu]).
  unfold verify_resid_opening. cbv zeta. eapply yields_try; [by apply resid_point_yields|]. intros _ _.
  apply Forall_cons in Ho as [Hl Ho]. apply Forall_cons in Ho as [Hp _]. set (p := ro_resid op) in *.
  eapply yields_try; [apply Hl, (wrap_fits 64); lia|]. intros le Hle. eapply (yields_try (fun ll => chain le = Chain_Layer ll)).
  { apply yields_ok_or. intros ll. by destruct (chain le); try done; intros [= <-]. }
  intros ll Ell. assert (Hw : Forall is_u32 (chain_words ll)). { destruct Hle as [Hw _]. unfold widths in Hw. rewrite Ell in Hw. cbn in Hw. tauto. }
  destruct (layer_words ll Hw) as (H1 & H2 & _ & _ & Hmoe). set (kind := kind_of _). eapply yields_try; [apply Hp; destruct (is_attn kind); lia|]. intros pe Hpe.
  pose proof Hpe as [(_ & _ & [Hm0 _] & _) (_ & Hm & _)]. rewrite (wrap_id 64 (4 * e_m pe)) by (unfold fits; lia).
  assert (Hc0 := Z.mod_pos_bound (draw seed RESID_POINT 2) _ (n_chunks_pos (4 * e_m pe))). set (c := _ mod n_chunks _) in *.
  destruct (chunk_values (e_m pe) c Hm0 Hc0) as [Hco _]. eapply (yields_try (fun _ => True)); [eapply yields_impl; [apply chunk_leaf_yields; [lia|exact Hc0]|done]|]. intros h _. yielding.
  assert (Hlo : wrap 64 (c * (B3_CHUNK / 4)) = c * 256) by (change (B3_CHUNK / 4) with 256; apply wrap_id; unfold fits; lia). rewrite Hlo.
  eapply yields_try; [apply feed_target_yields; lia|]. intros [row y] Hrow. cbn beta iota in Hrow.
  eapply yields_try; [apply feed_row_yields; try done; lia|]. intros _ _.
  destruct (r_add p) as [ac|yl norm|m], (ro_expert op) as [er|]; try (by apply yields_ret); try yielding.
  unfold feed_expert. cbv zeta. eapply (yields_try (fun moe => ll_moe ll = Some moe)); [by apply yields_ok_or|]. intros moe Emoe. cbn in He. apply Forall_cons in He as [He _].
  assert (Hd : 0 <= down_exps moe). { specialize (Hmoe moe Emoe). unfold moe_words, is_u32, fits in Hmoe. rewrite !Forall_cons in Hmoe. lia. }
  eapply yields_try; [by apply He|]. intros de Hde. yielding. eapply (yields_try (fun _ => True)); [apply y_at_yields|]. intros ys _.
  assert (Hslot : 0 <= Z.shiftr (draw seed RESID_POINT 3) 48 mod Z.max (cc_n_used ctx) 1 < Z.max (cc_n_used ctx) 1) by (apply Z.mod_pos_bound; lia).
  rewrite !orb_false_iff, !negb_false_iff, !Z.eqb_eq in G. destruct G as [_ G].
  apply feed_row_yields; try done; try lia; apply from_le_fits.
Qed.
End ResidTotal.


(** A stage-2 point is always judged: its product, its element and the link of its input, of every kind. *)
Lemma chain_point_total `{B3 : Blake3, L : Libm} {BL : Blake3Lengths} {BC : Blake3Chunks} (tier : TierCtx) (M : Model)
    (ctx : ChainCtx) (resp : ResponseCtx) (seed : Hash) (i : Z) (p : Point) (tok : Z) (link : LinkOpening) (ids : option ExpertIds) :
  model_commits tier M -> model_sane M -> chain_ctx_ok ctx -> is_u64 (n_products tier) -> is_u32 (n_pos resp) -> point_ok p -> link_ok link -> 0 <= tok ->
  unless_collision (exists r, verify_chain_point tier ctx resp seed i p tok link ids = Ret r).
Proof.
  intros HM HS Hctx Hnp Hpos Hp Hl Ht. pose proof HM as (Hn & _ & Hc & _).
  eapply unless_bind; [exact (all_open tier M _ HM HS (point_entries_ok _ Hp))|]. intros Ho.
  eapply unless_mono; [exact (all_open tier M _ HM HS (link_entries_ok _ Hl))|]. intros Hf.
  destruct (chain_point_yields tier Hn Hc ctx resp seed i p tok link ids) as (r & -> & _); try done; [by apply point_entries_ok|]. by exists r.
Qed.

Section Witnesses.
Import Toy Sample.

Definition seed : Hash := to_le 32 5.

Lemma opening_fits : resid_opening_ok (resid_opening seed).
Proof. unfold resid_opening_ok, resid_ok, feed_ok, entry_ok, range_ok, chunks_ok, bytes_ok, bytes16_ok, hashes_ok, list_ok, is_hash. evaluate. Qed.

End Witnesses.
