(* ===== verification/ChainSound.v ===== *)
(** * What an accepted stage-2 opening shows

    Against a committed model and a committed trace, whatever a residual opening carries
    and the verifier accepts shows that the committed residual is the sum the layer's
    links prescribe, of committed activations, and that the product it adds is recomputed
    from committed weights - or two inputs of BLAKE3 with one digest are exhibited. *)
From S2P Require Import Prelude Float Magnitude Merkle Seq Wire Opening Quant Manifest VerifyPoint Commitment Links Prefix Chain SampleTrace ChainTotal.
#[local] Open Scope Z_scope.

(** ** Committed values *)

(** The whole leaf [i] of a position, of [len] bytes, holds the finite values [v]. *)
Definition leaf_value (ls : list (list byte)) (i len : Z) (v : list f32) : Prop :=
  exists data, get_at ls i = Some data /\ zlen data = len /\ v = f32s data /\ forallb is_finite v = true.

(** Chunk [c] of leaf [i] of a position holds the finite values [v], when the leaf has [total] bytes. *)
Definition chunk_value (ls : list (list byte)) (i total c : Z) (v : list f32) : Prop :=
  forallb is_finite v = true /\ exists data, get_at ls i = Some data /\ (zlen data = total -> v = f32s (chunk_of data c)).

(** Values [off..off + n] of the f32 tensor of entry [idx] are [v]. *)
Definition weights_value (M : Model) (idx k off n : Z) (v : list f32) : Prop :=
  exists e, entry_of M idx = Some e /\ role e = ROLE_NORM /\ wtype e = 0 /\ e_k e = k /\ v = f32s (tensor_bytes M e (4 * off) (4 * n)).

(** The embedding of [tok] is [v]. *)
Definition embedded (M : Model) (ctx : ChainCtx) (tok k : Z) (v : list f32) : Prop :=
  exists e, entry_of M (cc_embd_entry ctx) = Some e /\ role e = ROLE_EMBD /\ e_k e = k /\ n_exp e = 1 /\ tok < e_m e
    /\ dequant_row (wtype e) (tensor_bytes M e (tok * row_bytes e) (row_bytes e)) k = Ret (Some v).

Section Binds.
Context `{B3 : Blake3, L : Libm} {BL : Blake3Lengths} {BC : Blake3Chunks}.

Lemma finite_f32s_inr b v : finite_f32s b = Ret (inr v) -> v = f32s b /\ forallb is_finite v = true.
Proof. unfold finite_f32s. intros H%ok_or_inr. destruct (forallb _ _) eqn:E; [|done]. by injection H as <-. Qed.

Section OfPosition.
Context (pr : Hash) (ls : list (list byte)) (shape : PosShape).
Context (Hr : position_root ls = Ret pr) (Hz : zlen ls = ps_n_leaves shape) (Hn : is_u64 (ps_n_leaves shape)).

Lemma whole_leaf_binds i l len v : 0 <= i -> leaf_bytes_ok l -> whole_leaf pr shape i l len = Ret (inr v) -> unless_collision (leaf_value ls i len v).
Proof.
  intros Hi [_ [_ Hp]] H. unfold whole_leaf in H. accepted H. rewrite negb_false_iff in *. apply Z.eqb_eq in G. apply finite_f32s_inr in H as [-> Hf].
  eapply unless_bind; [exact (trace_leaf_binds ls _ pr i _ _ Hr Hz Hn Hi (blake3_hash_len _) Hp G0)|]. intros (d & Hd & Hh).
  eapply unless_mono; [exact (hash_binds _ _ Hh)|]. intros ->. by exists (lb_bytes l).
Qed.

(** The bytes of an accepted chunk are those of the committed leaf. *)
Lemma leaf_chunk_raw i c total idx v : 0 <= i -> leaf_chunk_ok c -> 0 <= idx -> total < 2 ^ 63 ->
  leaf_chunk pr shape i c total idx = Ret (inr v) -> unless_collision (raw_chunk ls i total idx (lc_chunk c)).
Proof.
  intros Hi (_ & _ & _ & [_ Hcp] & [_ Hlp]) Hx Ht H. unfold leaf_chunk, chunk_leaf in H. accepted H. rewrite negb_false_iff in G.
  accepted E. apply ok_or_inr in E. assert (Hh : is_hash a) by exact (b3_leaf_from_chunk_hash _ _ _ _ _ Hcp E).
  eapply unless_bind; [exact (trace_leaf_binds ls _ pr i _ _ Hr Hz Hn Hi Hh Hlp G)|]. intros (d & Hd & <-).
  exact (raw_chunk_binds ls d idx _ _ _ i Hd Ht Hx Hcp E).
Qed.

Lemma leaf_chunk_binds i c total idx v : 0 <= i -> leaf_chunk_ok c -> 0 <= idx -> total < 2 ^ 63 ->
  leaf_chunk pr shape i c total idx = Ret (inr v) -> unless_collision (chunk_value ls i total idx v).
Proof.
  intros Hi Hc Hx Ht H. eapply unless_mono; [exact (leaf_chunk_raw i c total idx v Hi Hc Hx Ht H)|]. intros (d & Hd & Hb).
  unfold leaf_chunk in H. accepted H. apply finite_f32s_inr in H as [-> Hf]. split; [done|]. exists d. split; [done|]. intros Hz'. by rewrite (Hb Hz').
Qed.
End OfPosition.

Section OfModel.
Context (tier : TierCtx) (M : Model) (HM : model_commits tier M) (HS : model_sane M).

Lemma f32_weights_binds w idx k off n v : weights_ok w -> 0 <= idx -> 0 <= off < 2 ^ 60 -> 0 <= n < 2 ^ 60 ->
  f32_weights tier w idx k off n = Ret (inr v) -> unless_collision (weights_value M idx k off n v).
Proof.
  intros [He Hr] Hi Ho Hn H. unfold f32_weights in H. accepted H. subst v. rewrite !orb_false_iff, !negb_false_iff, !Z.eqb_eq in G. destruct G as [[G1 G2] G3].
  rewrite !wrap_id in E0 by (unfold fits; lia). eapply unless_bind; [exact (opened_entry tier M HM HS _ idx a Hi He E)|]. intros [Ha _].
  eapply unless_mono; [eapply (open_bytes_binds tier M HM a _ _ _ a0 Hr); [| | |exact E0]; lia|]. intros ->. by exists a.
Qed.

Lemma embedding_binds ctx w tok k v : weights_ok w -> chain_ctx_ok ctx -> 0 <= tok -> embedding tier ctx w tok k = Ret (inr v) -> unless_collision (embedded M ctx tok k v).
Proof.
  intros [He Hr] (_ & _ & [Hi _] & _) Ht H. unfold embedding in H. accepted H. rewrite !orb_false_iff, !negb_false_iff, !Z.eqb_eq in G. destruct G as [[G1 G2] G3]. apply ok_or_inr in H. subst a1.
  eapply unless_bind; [exact (opened_entry tier M HM HS _ _ a Hi He E)|]. intros [Ha Hu].
  eapply unless_mono; [exact (opened_row tier M HM a _ tok a0 Hu Hr Ht E0)|]. intros (Hm & _ & ->). by exists a.
Qed.
End OfModel.
End Binds.

(** ** Residual additions *)

(** A residual addition is accepted exactly when the lists have one positive length and every element adds up. *)
Lemma residual_link_exact dst add src scale : residual_link dst add src scale = inr () <->
  0 < zlen dst /\ zlen add = zlen dst /\ zlen src = zlen dst
  /\ forall j d a s, get_at dst j = Some d -> get_at add j = Some a -> get_at src j = Some s -> adds_up scale d a s = true.
Proof.
  unfold residual_link. pose proof (zlen_nonneg dst). destruct (_ || _ || _) eqn:G.
  - split; [done|]. intros (H1 & H2 & H3 & _). rewrite !orb_true_iff, !negb_true_iff, !Z.eqb_neq, Z.eqb_eq in G. lia.
  - rewrite !orb_false_iff, !negb_false_iff, !Z.eqb_eq, Z.eqb_neq in G. destruct G as [[G1 G2] G3].
    assert (Hall : all_add_up scale dst add src = true <-> forall j d a s, get_at dst j = Some d -> get_at add j = Some a -> get_at src j = Some s -> adds_up scale d a s = true).
    { clear G1. revert add src G2 G3. clear. induction dst as [|d dst IH]; intros [|a add] [|s src] G2 G3; cbn [all_add_up]; try (unfold zlen in *; cbn [length] in *; lia).
      - split; [|done]. intros _ j d a s Hd. unfold get_at in Hd. by destruct (0 <=? j).
      - assert (zlen dst = zlen add /\ zlen dst = zlen src) as [Hza Hzs] by (unfold zlen in *; cbn [length] in *; lia). rewrite andb_true_iff, IH by done. split.
        + intros [H1 H2] j d' a' s'. destruct (Z.eqb_spec j 0) as [->|Hj]; [by intros [= <-] [= <-] [= <-]|].
          intros E1 E2 E3. apply (H2 (j - 1) d' a' s'); revert E1 E2 E3; unfold get_at; destruct (Z.leb_spec 0 j); try done;
            (destruct (Z.leb_spec 0 (j - 1)); [|lia]); replace (Z.to_nat j) with (S (Z.to_nat (j - 1))) by lia; done.
        + intros H. split; [by apply (H 0)|]. intros j d' a' s' E1 E2 E3. apply get_at_Some_lt in E1 as Hj.
          apply (H (j + 1) d' a' s'); unfold get_at in *; (destruct (Z.leb_spec 0 j); [|lia]); (destruct (Z.leb_spec 0 (j + 1)); [|lia]);
            replace (Z.to_nat (j + 1)) with (S (Z.to_nat j)) by lia; done. }
    destruct (all_add_up scale dst add src); split; try done; [intros _; split; [lia|]; split; [lia|]; split; [lia|]; by apply Hall|].
    intros (_ & _ & _ & H'). apply Hall in H'. done.
Qed.

(** What a residual adds to: the embedding of the token, or the residual before it. *)
Definition resid_source (M : Model) (ctx : ChainCtx) (np : Z) (ls : list (list byte)) (tok layer : Z) (kind : Resid) (dim c off n : Z) (src : list f32) : Prop :=
  if is_attn kind && (layer =? 0) then
    exists e, embedded M ctx tok dim e /\ src = map (fun v => f32_of_f64 (f64_of_f32 v * cc_embd_scale ctx)%F) (slice e off (off + n))
  else chunk_value ls (if is_attn kind then resid_leaf np (layer - 1) Resid_Out else resid_leaf np layer Resid_Attn) (4 * dim) c src.

(** What a dense residual adds: the output of product [rank], or its norm. *)
Definition dense_term `{L : Libm} (M : Model) (ctx : ChainCtx) (ls : list (list byte)) (rank post dim c off n : Z) (add : list f64) : Prop :=
  if post =? NONE then exists v, chunk_value ls (2 * rank + 1) (4 * dim) c v /\ add = f64_of_f32 <$> v
  else exists y w, leaf_value ls (2 * rank + 1) (4 * dim) y /\ weights_value M post dim off n w
    /\ add = zip_with (fun a b => a * f64_of_f32 b)%F (slice (rms_scaled y (cc_eps ctx) one) off (off + n)) w.

(** The router scores row drawn by [seed], recomputed from the committed residual [h]. *)
Definition router_recomputed `{B3 : Blake3, L : Libm} (M : Model) (ctx : ChainCtx) (seed : Hash) (re : Entry) (dim : Z) (h wn sc : list f32) : Prop :=
  let row := draw seed RESID_POINT 3 mod e_m re in
  let '(dot, mag) := dot_mag (f32s (tensor_bytes M re (row * 4 * dim) (4 * dim))) (rms_norm h wn (cc_eps ctx)) in
  exists s, get_at sc row = Some s /\ close_to (f64_of_f32 s) dot (EPS_ROUTER * mag + MIN_POSITIVE)%F = true.

(** Element [j] is the shared expert, the source and the weighted outputs of the experts. *)
Definition element_routed (w : list f64) (ys : list (list f32)) (sh dst src : list f32) (j : Z) : Prop :=
  exists s r d col, get_at sh j = Some s /\ get_at src j = Some r /\ get_at dst j = Some d
    /\ Forall2 (fun '(ws, y) '(ws', yj) => ws' = ws /\ get_at y j = Some yj) (zip w ys) col
    /\ let '(sum, mag) := weighted_sum s r col in is_finite mag = true /\ close_to (f64_of_f32 d) sum (EPS_MOE * mag + MIN_POSITIVE)%F = true.

(** A routed residual: the experts are the top ones of the committed scores, whose drawn row is recomputed, and every
    element is the sum of the shared expert, the source and the experts weighted by [route_weights]. *)
Definition routed_sum `{B3 : Blake3, L : Libm} (M : Model) (ctx : ChainCtx) (np : Z) (seed : Hash) (ls : list (list byte)) (layer down dim c : Z)
    (moe : MoeLinks) (dst src : list f32) : Prop :=
  let n_used := cc_n_used ctx in
  let body := n_used * dim * 4 in let total := body + 4 * n_used in let experts := 2 * down_exps moe + 1 in
  exists re sc b idb w h wn ys sh,
    entry_of M (router moe) = Some re /\ role re = ROLE_ROUTER /\ wtype re = 0 /\ e_k re = dim
    /\ leaf_value ls (router_leaf np (cc_n_layers ctx) layer) (4 * e_m re) sc
    /\ weights_value M (probs_bias moe) (e_m re) 0 (e_m re) b
    /\ (exists data, get_at ls experts = Some data /\ (zlen data = total -> idb = slice (chunk_of data (body / B3_CHUNK)) 0 (4 * n_used)))
    /\ route_weights sc b (from_le <$> chunks_exact 4 idb) (f64_of_f32 (f32_from_bits (w_scale moe))) = Some w
    /\ leaf_value ls (resid_leaf np layer Resid_Attn) (4 * dim) h /\ weights_value M (ffn_norm moe) dim 0 dim wn
    /\ router_recomputed M ctx seed re dim h wn sc
    /\ zlen ys = n_used
    /\ (forall s y, get_at ys s = Some y -> chunk_value ls experts total (s * (dim * 4 / B3_CHUNK) + c) y)
    /\ chunk_value ls (2 * down + 1) (4 * dim) c sh
    /\ forall j, 0 <= j < zlen dst -> element_routed w ys sh dst src j.

Section Position.
Context `{B3 : Blake3, L : Libm} {BL : Blake3Lengths} {BC : Blake3Chunks}.
Context (tier : TierCtx) (M : Model) (HM : model_commits tier M) (HS : model_sane M) (ctx : ChainCtx) (Hctx : chain_ctx_ok ctx).
Context (pr : Hash) (ls : list (list byte)) (shape : PosShape).
Context (Hr : position_root ls = Ret pr) (Hz : zlen ls = ps_n_leaves shape) (Hn : is_u64 (ps_n_leaves shape)).

Lemma resid_leaf_nonneg np layer kind : 0 <= resid_leaf np layer kind.
Proof. apply (wrap_fits 64). lia. Qed.

Lemma resid_src_binds p layer kind dim c off n src : resid_src_ok (r_src p) -> is_u32 (r_tok p) -> 0 <= dim < 2 ^ 29 -> 0 <= c -> 0 <= off -> 0 <= n -> off + n <= dim ->
  resid_src tier ctx p shape pr layer kind dim (4 * dim) c off n = Ret (inr src) ->
  unless_collision (resid_source M ctx (n_products tier) ls (r_tok p) layer kind dim c off n src).
Proof.
  intros Hs [Ht _] Hd Hc Ho Hn0 Hle H. unfold resid_src in H. unfold resid_source. destruct (r_src p) as [sc|e r]; cbn in Hs.
  - destruct (is_attn kind); cbn [andb] in *.
    + destruct (Z.ltb_spec 0 layer); [|done]. destruct (Z.eqb_spec layer 0); [lia|]. eapply leaf_chunk_binds; [done|done|done|apply resid_leaf_nonneg|exact Hs|done| |exact H]. lia.
    + eapply leaf_chunk_binds; [done|done|done|apply resid_leaf_nonneg|exact Hs|done| |exact H]. lia.
  - destruct (_ && _); [|done]. accepted H. subst src. eapply unless_mono; [exact (embedding_binds tier M HM HS ctx (e, r) _ dim a Hs Hctx Ht E)|]. intros He. exists a. split; [done|].
    pose proof He as (en & _ & _ & _ & _ & _ & Hdq). destruct (dequant_row_spec (wtype en) (tensor_bytes M en (r_tok p * row_bytes en) (row_bytes en)) dim) as [[_ (o & Eo & v & -> & Hv)]|[_ Eo]]; [lia| |congruence].
    rewrite Hdq in Eo. injection Eo as <-. rewrite wrap_id, index_range_Ret in E0 by (unfold fits; lia). by injection E0 as <-.
Qed.

Lemma resid_add_binds p rank post dim c off n add : resid_add_ok (r_add p) -> is_u32 rank -> is_u32 post -> 0 <= dim < 2 ^ 29 -> 0 <= c -> 0 <= off -> 0 <= n -> off + n <= dim ->
  resid_add tier ctx p shape pr rank post dim (4 * dim) c off n = Ret (inr add) -> unless_collision (dense_term M ctx ls rank post dim c off n add).
Proof.
  intros Ha Hrk Hp Hd Hc Ho Hn0 Hle H. unfold fits in Hrk, Hp. unfold resid_add in H. unfold dense_term. destruct (r_add p) as [ac|yl norm|m]; cbn in Ha; [| |done].
  - destruct (_ =? NONE); [|done]. accepted H. subst add. rewrite wrap_id in E by (unfold fits; lia).
    eapply unless_mono; [eapply (leaf_chunk_binds pr ls shape Hr Hz Hn (2 * rank + 1) ac (4 * dim) c a); [lia|exact Ha|done|lia|exact E]|]. intros Hv. by exists a.
  - destruct (_ =? NONE); cbn [negb] in H; [done|]. accepted H. subst add. rewrite wrap_id in E by (unfold fits; lia). rewrite wrap_id in E1 by (unfold fits; lia). destruct Ha as [Hy Hnm].
    eapply unless_bind; [exact (whole_leaf_binds pr ls shape Hr Hz Hn (2 * rank + 1) yl _ a ltac:(lia) Hy E)|]. intros Hv.
    eapply unless_mono; [eapply (f32_weights_binds tier M HM HS norm post dim off n a0 Hnm); [..|exact E0]; lia|]. intros Hw.
    exists a, a0. split; [done|]. split; [done|]. pose proof Hv as (data & _ & Hdl & -> & _). apply zlen_f32s in Hdl. rewrite index_range_Ret in E1 by (rewrite ?zlen_rms_scaled; lia). by injection E1 as <-.
Qed.

(** ** The routed sum *)

Lemma try_map_inr {E A C} (f : A -> res (E + C)) l r : try_map f l = Ret (inr r) -> Forall2 (fun a c => f a = Ret (inr c)) l r.
Proof.
  revert r. induction l as [|a l IH]; intros r H; cbn in H; [injection H as <-; constructor|]. accepted H. subst r. constructor; [done|by apply IH].
Qed.

Lemma try_map_collides {A C} (f : A -> res (Fail + C)) (P : A -> C -> Prop) l r : (forall a c, a ∈ l -> f a = Ret (inr c) -> unless_collision (P a c)) ->
  try_map f l = Ret (inr r) -> unless_collision (Forall2 P l r).
Proof.
  intros HP H. apply try_map_inr in H. induction H as [|a c l r Hac H IH]; [apply unless_ret; constructor|].
  eapply unless_bind; [apply HP; [left|exact Hac]|]. intros Hp. eapply unless_mono; [apply IH; intros; apply HP; [by right|done]|]. intros. by constructor.
Qed.

Lemma index_get {A} (l : list A) i x : index l i = Ret x -> get_at l i = Some x.
Proof. unfold index. destruct (get_at l i); [|done]. congruence. Qed.

Lemma mapM_inr {A C} (f : A -> res C) l r : mapM (M := res) f l = Ret r -> Forall2 (fun a c => f a = Ret c) l r.
Proof.
  revert r. induction l as [|a l IH]; intros r H; cbn in H; [injection H as <-; constructor|]. destruct (f a) eqn:Ea; [|done]. cbn in H.
  destruct (mapM f l); [|done]. injection H as <-. constructor; [done|by apply IH].
Qed.

Lemma moe_element_routed w ys sh dst src j : moe_element w ys sh dst src j = Ret (inr ()) -> element_routed w ys sh dst src j.
Proof.
  intros H. unfold moe_element in H. accepted H. apply index_get in E, E0, E1. destruct (weighted_sum a a0 a2) as [sum mag] eqn:Ew. apply bail_inr in H as [G _].
  rewrite orb_false_iff, !negb_false_iff in G. exists a, a0, a1, a2. split; [done|]. split; [done|]. split; [done|]. split; [|by rewrite Ew].
  apply mapM_inr in E2. eapply Forall2_impl; [exact E2|]. intros [ws y] [ws' yj] H. cbn beta iota in H. destruct (index y j) as [v|] eqn:Hv; [|done]. injection H as -> ->. split; [done|by apply index_get].
Qed.

Lemma seqZ_get (n i : Z) : 0 <= i < n -> seqZ 0 n !! Z.to_nat i = Some i.
Proof. intros. apply lookup_seqZ. lia. Qed.

Section Routed.
Context (layer down dim c : Z) (seed : Hash) (Hdim : 0 <= dim < 2 ^ 29) (Hc : 0 <= c < 2 ^ 32) (Hdown : is_u32 down).
Context (moe : MoeLinks) (Hmoe : Forall is_u32 (moe_words moe)) (m : MoeAdd) (Hm : resid_add_ok (Add_Moe m)).
Abbreviation mc := ({| mc_tier := tier; mc_ctx := ctx; mc_shape := shape; mc_pos_root := pr; mc_layer := layer; mc_down := down; mc_dim := dim; mc_c := c; mc_seed := seed |}).

Lemma routed_sizes : let n_used := cc_n_used ctx in 0 <= n_used < 2 ^ 32 /\ 0 <= n_used * dim * 4 /\ n_used * dim * 4 + 4 * n_used < 2 ^ 63
  /\ wrap 64 (wrap 64 (n_used * dim) * 4) = n_used * dim * 4 /\ wrap 64 (n_used * dim * 4 + 4 * n_used) = n_used * dim * 4 + 4 * n_used /\ wrap 64 (dim * 4) = dim * 4.
Proof.
  destruct Hctx as (_ & _ & _ & [H0 Hu]). cbv zeta. set (u := cc_n_used ctx) in *.
  assert (Hb : 0 <= u * dim <= (2 ^ 32 - 1) * (2 ^ 29 - 1)) by (split; [nia|apply Z.mul_le_mono_nonneg; lia]).
  rewrite (wrap_id 64 (u * dim)) by (unfold fits; lia). rewrite !wrap_id by (unfold fits; lia). lia.
Qed.

Lemma moe_words_fit : is_u32 (down_exps moe) /\ is_u32 (router moe) /\ is_u32 (probs_bias moe) /\ is_u32 (ffn_norm moe).
Proof. unfold moe_words in Hmoe. rewrite !Forall_cons in Hmoe. tauto. Qed.

Lemma moe_routing_binds re sc w : usable re -> moe_routing mc moe m re = Ret (inr (sc, w)) ->
  unless_collision (let n_used := cc_n_used ctx in let body := n_used * dim * 4 in exists b idb,
    leaf_value ls (router_leaf (n_products tier) (cc_n_layers ctx) layer) (4 * e_m re) sc
    /\ weights_value M (probs_bias moe) (e_m re) 0 (e_m re) b
    /\ (exists data, get_at ls (2 * down_exps moe + 1) = Some data
        /\ (zlen data = body + 4 * n_used -> idb = slice (chunk_of data (body / B3_CHUNK)) 0 (4 * n_used)))
    /\ route_weights sc b (from_le <$> chunks_exact 4 idb) (f64_of_f32 (f32_from_bits (w_scale moe))) = Some w).
Proof.
  intros [(_ & _ & [Hm0 _] & _) (_ & Hmm & _)] H. destruct Hm as (Hsc & Hbias & [_ [_ Hip]] & [_ Hsl] & _). destruct moe_words_fit as ([Hd0 _] & _ & [Hpb _] & _).
  pose proof routed_sizes as Hs. cbv zeta in Hs. destruct Hs as (Hu & Hb0 & Hs63 & Eb & Et & Ed). unfold moe_routing in H. cbn [mc_tier mc_ctx mc_shape mc_pos_root mc_layer mc_dim mc_c mc_seed mc_down] in H. cbv zeta in H.
  rewrite Eb, Et, Ed in H. rewrite wrap_id in H by (unfold fits; lia). accepted H. injection H as <- ->. apply ok_or_inr in E1, E3, E4. apply get_range_Some in E3 as (_ & _ & ->). apply index_get in E2. rewrite negb_false_iff in G0.
  cbv zeta. set (body := cc_n_used ctx * dim * 4) in *. assert (Hbc : 0 <= body / B3_CHUNK) by (apply Z.div_pos; [done|done]).
  eapply unless_bind; [exact (whole_leaf_binds pr ls shape Hr Hz Hn _ (scores m) _ a ltac:(apply (wrap_fits 64); lia) Hsc E)|]. intros Hsv.
  eapply unless_bind; [eapply (f32_weights_binds tier M HM HS (moe_bias m) (probs_bias moe) (e_m re) 0 (e_m re) a0 Hbias); [..|exact E0]; lia|]. intros Hbv.
  assert (Hlc : leaf_chunk_ok a2). { unfold get_at in E2. cbn in E2. by eapply (Forall_lookup_1 _ _ _ _ Hsl). } destruct Hlc as (_ & _ & _ & _ & [_ Hlp]).
  assert (Hh : is_hash a1) by exact (b3_leaf_from_chunk_hash _ _ _ _ _ Hip E1).
  eapply unless_bind; [exact (trace_leaf_binds ls _ pr (2 * down_exps moe + 1) _ _ Hr Hz Hn ltac:(lia) Hh Hlp G0)|]. intros (d & Hd & <-).
  eapply unless_mono; [exact (raw_chunk_binds ls d _ _ _ _ _ Hd Hs63 Hbc Hip E1)|]. intros (d' & Hd' & Hch).
  exists a0, (slice (ids_chunk (ids m)) 0 (4 * cc_n_used ctx)). split; [done|]. split; [done|]. split; [|done].
  exists d'. split; [done|]. intros Hdl. by rewrite (Hch Hdl).
Qed.

Lemma moe_router_binds re sc : usable re -> e_m re <> 0 -> moe_router mc moe m re sc = Ret (inr ()) ->
  unless_collision (exists h wn, leaf_value ls (resid_leaf (n_products tier) layer Resid_Attn) (4 * dim) h /\ weights_value M (ffn_norm moe) dim 0 dim wn
    /\ router_recomputed M ctx seed re dim h wn sc).
Proof.
  intros [(_ & _ & [Hm0 _] & _) (_ & Hmm & _)] Hpos H. destruct Hm as (_ & _ & _ & _ & _ & [_ Hrr] & Hres & Hno). destruct moe_words_fit as (_ & _ & _ & [Hf _]).
  unfold moe_router in H. cbn [mc_tier mc_ctx mc_shape mc_pos_root mc_layer mc_dim mc_c mc_seed mc_down] in H. cbv zeta in H.
  apply try_inr in H as (h & E & H). apply try_inr in H as (wn & E0 & H). destruct (Z.eqb_spec (e_m re) 0); [done|].
  set (row := draw seed RESID_POINT 3 mod e_m re) in *. assert (Hrow : 0 <= row < e_m re) by (apply Z.mod_pos_bound; lia).
  assert (Hoff : 0 <= row * 4 * dim <= 2 ^ 31 * 2 ^ 29) by (split; [nia|apply Z.mul_le_mono_nonneg; lia]).
  rewrite !wrap_id in H by (rewrite ?(wrap_id 64 (row * 4)) by (unfold fits; lia); unfold fits; lia).
  apply try_inr in H as (wr & E1 & H). rewrite wrap_id in E by (unfold fits; lia).
  eapply unless_bind; [exact (whole_leaf_binds pr ls shape Hr Hz Hn _ (moe_resid m) _ h (resid_leaf_nonneg _ _ _) Hres E)|]. intros Hhv.
  eapply unless_bind; [eapply (f32_weights_binds tier M HM HS (moe_norm m) (ffn_norm moe) dim 0 dim wn Hno); [..|exact E0]; lia|]. intros Hwv.
  eapply unless_mono; [eapply (open_bytes_binds tier M HM re _ _ _ wr Hrr); [| | |exact E1]; lia|]. intros ->.
  exists h, wn. split; [done|]. split; [done|]. unfold router_recomputed. cbv zeta. fold row. destruct (dot_mag _ _) as [dot mag].
  accepted H. apply index_get in E2. rewrite negb_false_iff in G. by exists a.
Qed.

Lemma moe_verify_binds dst src off : moe_verify mc moe m dst src off (zlen dst) = Ret (inr ()) ->
  unless_collision (routed_sum M ctx (n_products tier) seed ls layer down dim c moe dst src).
Proof.
  intros H. unfold moe_verify in H. cbn [mc_tier mc_ctx mc_shape mc_pos_root mc_layer mc_dim mc_c mc_seed mc_down] in H. cbv zeta in H. apply bail_inr in H as [G H].
  rewrite orb_false_iff, Z.eqb_neq, negb_false_iff, Z.eqb_eq in G. destruct G as [Hu0 Hsl].
  pose proof routed_sizes as Hs. cbv zeta in Hs. destruct Hs as (Hu & Hb0 & Hs63 & Eb & Et & Ed). rewrite Eb, Et, Ed in H.
  apply try_inr in H as (re & E & H). apply bail_inr in H as [G H]. rewrite !orb_false_iff, !negb_false_iff, !Z.eqb_eq in G. destruct G as [[G1 G2] G3].
  apply try_inr in H as ([sc w] & E0 & H). apply try_inr in H as ([] & E1 & H). apply try_inr in H as (ys & E2 & H). apply try_inr in H as (sh & E3 & H). apply bail_inr in H as [G H].
  apply try_inr in H as (us & E4 & _). rewrite !orb_false_iff, !negb_false_iff, !Z.eqb_eq in G. pose proof Hm as (_ & _ & _ & [_ Hslots] & Hshe & [Hre _] & _).
  destruct moe_words_fit as ([Hd0 _] & [Hr0 _] & _). rewrite (wrap_id 64 (4 * dim)) in E3 by (unfold fits; lia).
  eapply unless_bind; [exact (opened_entry tier M HM HS _ (router moe) re Hr0 Hre E)|]. intros [Hent Hus].
  eapply unless_bind; [exact (moe_routing_binds re sc w Hus E0)|]. cbv zeta. intros (b & idb & Hsc & Hb & Hid & Hw).
  assert (Hm0 : e_m re <> 0). { intros Hz0. unfold moe_router in E1. cbn [mc_tier mc_ctx mc_shape mc_pos_root mc_layer mc_dim mc_c mc_seed mc_down] in E1. rewrite Hz0 in E1. cbv zeta in E1. accepted E1. done. }
  eapply unless_bind; [exact (moe_router_binds re sc Hus Hm0 E1)|]. intros (h & wn & Hh & Hwn & Hrec).
  refine (unless_bind _ _ (try_map_collides _ (fun s y => chunk_value ls (2 * down_exps moe + 1) (cc_n_used ctx * dim * 4 + 4 * cc_n_used ctx) (s * (dim * 4 / B3_CHUNK) + c) y) _ _ _ E2) _).
  { intros s y Hs%elem_of_seqZ Hy. cbn beta in Hy. accepted Hy. apply index_get in E5. assert (0 <= dim * 4 / B3_CHUNK < 2 ^ 22) by (unfold B3_CHUNK; dlia).
assert (0 <= s * (dim * 4 / B3_CHUNK) <= 2 ^ 32 * 2 ^ 22) by (split; [nia|apply Z.mul_le_mono_nonneg; lia]).
    rewrite (wrap_id 64 (s * _)), wrap_id in Hy by (unfold fits; lia). assert (Hlc : leaf_chunk_ok a).
    { unfold get_at in E5. destruct (0 <=? s); [|done]. by eapply (Forall_lookup_1 _ _ _ _ Hslots). }
    eapply leaf_chunk_binds; [done|done|done|lia|exact Hlc|lia|exact Hs63|exact Hy]. }
  intros Hys. rewrite (wrap_id 64 (2 * down + 1)) in E3 by (unfold fits in *; lia).
  eapply unless_mono; [eapply (leaf_chunk_binds pr ls shape Hr Hz Hn (2 * down + 1) (shexp m) (4 * dim) c sh); [unfold fits in *; lia|exact Hshe|lia|lia|exact E3]|]. intros Hsh.
  exists re, sc, b, idb, w, h, wn, ys, sh. do 10 (split; [done|]). split; [done|].
  assert (Hyl : zlen ys = cc_n_used ctx). { apply Forall2_length in Hys. rewrite length_seqZ in Hys. unfold zlen. lia. } split; [done|]. split; [|split; [done|]].
  - intros s y Hy. apply get_at_Some_lt in Hy as Hlt. rewrite Hyl in Hlt. unfold get_at in Hy. destruct (0 <=? s); [|done].
    by apply (Forall2_lookup_lr _ _ _ _ _ _ Hys (seqZ_get _ s Hlt) Hy).
  - intros j Hj. apply try_map_inr in E4. apply moe_element_routed. pose proof (seqZ_get (zlen dst) j Hj) as Hjj.
    destruct (Forall2_lookup_l _ _ _ _ _ E4 Hjj) as ([] & _ & Hel). done.
Qed.
(** The chunks a routed residual carries are those of the committed outputs of the experts. *)
Definition moe_chunks : Prop :=
  let n_used := cc_n_used ctx in let body := n_used * dim * 4 in let total := body + 4 * n_used in
  raw_chunk ls (2 * down + 1) (4 * dim) c (lc_chunk (shexp m)) /\ raw_chunk ls (2 * down_exps moe + 1) total (body / B3_CHUNK) (ids_chunk (ids m))
  /\ zlen (slots m) = n_used
  /\ forall s slot, get_at (slots m) s = Some slot -> raw_chunk ls (2 * down_exps moe + 1) total (s * (dim * 4 / B3_CHUNK) + c) (lc_chunk slot).

Lemma moe_verify_chunks dst src off : moe_verify mc moe m dst src off (zlen dst) = Ret (inr ()) -> unless_collision moe_chunks.
Proof.
  intros H. unfold moe_verify in H. cbn [mc_tier mc_ctx mc_shape mc_pos_root mc_layer mc_dim mc_c mc_seed mc_down] in H. cbv zeta in H. apply bail_inr in H as [G H].
  rewrite orb_false_iff, Z.eqb_neq, negb_false_iff, Z.eqb_eq in G. destruct G as [Hu0 Hsl].
  pose proof routed_sizes as Hs. cbv zeta in Hs. destruct Hs as (Hu & Hb0 & Hs63 & Eb & Et & Ed). rewrite Eb, Et, Ed in H.
  apply try_inr in H as (re & _ & H). apply bail_inr in H as [_ H]. apply try_inr in H as ([sc w] & E0 & H). apply try_inr in H as ([] & _ & H).
  apply try_inr in H as (ys & E2 & H). apply try_inr in H as (sh & E3 & _). pose proof Hm as (_ & _ & [_ [_ Hip]] & [_ Hslots] & Hshe & _).
  destruct moe_words_fit as ([Hd0 _] & _). rewrite (wrap_id 64 (4 * dim)) in E3 by (unfold fits; lia). rewrite (wrap_id 64 (2 * down + 1)) in E3 by (unfold fits in *; lia).
  eapply unless_bind; [eapply (leaf_chunk_raw pr ls shape Hr Hz Hn (2 * down + 1) (shexp m) (4 * dim) c sh); [unfold fits in *; lia|exact Hshe|lia|lia|exact E3]|]. intros Hsh.
  unfold moe_routing in E0. cbn [mc_tier mc_ctx mc_shape mc_pos_root mc_layer mc_dim mc_c mc_seed mc_down] in E0. cbv zeta in E0. rewrite Eb, Et, Ed in E0.
  apply try_inr in E0 as (sc' & _ & E0). apply try_inr in E0 as (b' & _ & E0). apply bail_inr in E0 as [_ E0]. apply try_inr in E0 as (a1 & E1 & E0).
  apply bind_inr in E0 as (slot0 & E4 & E0). apply bail_inr in E0 as [G0 _]. rewrite negb_false_iff in G0. apply ok_or_inr in E1. apply index_get in E4.
  assert (Hlc : forall s slot, get_at (slots m) s = Some slot -> leaf_chunk_ok slot). { intros s slot Hs. unfold get_at in Hs. destruct (0 <=? s); [|done]. by eapply (Forall_lookup_1 _ _ _ _ Hslots). }
  destruct (Hlc _ _ E4) as (_ & _ & _ & _ & [_ Hlp]). assert (Hh : is_hash a1) by exact (b3_leaf_from_chunk_hash _ _ _ _ _ Hip E1).
  eapply unless_bind; [exact (trace_leaf_binds ls _ pr (2 * down_exps moe + 1) _ _ Hr Hz Hn ltac:(lia) Hh Hlp G0)|]. intros (d & Hd & <-).
  assert (Hbc : 0 <= cc_n_used ctx * dim * 4 / B3_CHUNK) by (by apply Z.div_pos).
  eapply unless_bind; [exact (raw_chunk_binds ls d _ _ _ _ _ Hd Hs63 Hbc Hip E1)|]. intros Hids.
  refine (unless_mono _ _ (try_map_collides _ (fun s _ => forall slot, get_at (slots m) s = Some slot -> raw_chunk ls (2 * down_exps moe + 1) (cc_n_used ctx * dim * 4 + 4 * cc_n_used ctx) (s * (dim * 4 / B3_CHUNK) + c) (lc_chunk slot)) _ _ _ E2) _).
  { intros s y Hs%elem_of_seqZ Hy. cbn beta in Hy. apply bind_inr in Hy as (a4 & E5 & Hy). apply index_get in E5. assert (0 <= dim * 4 / B3_CHUNK < 2 ^ 22) by (unfold B3_CHUNK; dlia).
    assert (0 <= s * (dim * 4 / B3_CHUNK) <= 2 ^ 32 * 2 ^ 22) by (split; [nia|apply Z.mul_le_mono_nonneg; lia]).
    rewrite (wrap_id 64 (s * _)), wrap_id in Hy by (unfold fits; lia).
    eapply unless_mono; [eapply (leaf_chunk_raw pr ls shape Hr Hz Hn _ a4); [|exact (Hlc _ _ E5)| | |exact Hy]; lia|]. intros Hraw slot Hslot. by replace slot with a4 by congruence. }
  intros Hys. split; [done|]. split; [done|]. split; [done|]. intros s slot Hs. apply get_at_Some_lt in Hs as Hlt. rewrite Hsl in Hlt.
  destruct (Forall2_lookup_l _ _ _ _ _ Hys (seqZ_get _ s Hlt)) as (y & _ & Hy). by apply Hy.
Qed.
End Routed.
End Position.

(** ** The residual point *)

(** Element by element, [dst] is [scale * (add + src)] within the tolerance of the addition. *)
Definition sums_to (scale : f64) (dst : list f32) (add : list f64) (src : list f32) : Prop :=
  0 < zlen dst /\ zlen add = zlen dst /\ zlen src = zlen dst
  /\ forall j d a s, get_at dst j = Some d -> get_at add j = Some a -> get_at src j = Some s -> adds_up scale d a s = true.

(** What the committed model prescribes for the residual a seed draws: the layer's links and the product it adds. *)
Definition prescribed (M : Model) (ctx : ChainCtx) (layer : Z) (kind : Resid) (ll : LayerLinks) (rank : Z) (pe : Entry) : Prop :=
  (exists le, entry_of M (wrap 64 (cc_layer_base ctx + layer)) = Some le /\ role le = ROLE_LAYER /\ chain le = Chain_Layer ll /\ ll_layer ll = layer)
  /\ rank = (if is_attn kind then proj ll else down ll) /\ entry_of M rank = Some pe
  /\ layer_role (role pe) (cc_trim_last ctx && (wrap 64 (layer + 1) =? cc_n_layers ctx)) = true /\ glu_form pe = FORM_NONE /\ n_exp pe = 1.

(** The chunk of the residual the seed draws. *)
Definition drawn_chunk `{B3 : Blake3} (seed : Hash) (dim : Z) : Z := draw seed RESID_POINT 2 mod n_chunks (4 * dim).

Definition post_of (ll : LayerLinks) (kind : Resid) : Z := if is_attn kind then post_attn ll else post_ffn ll.

(** Chunk [c] of the committed residual is the sum the layer prescribes. *)
Definition resid_sums `{B3 : Blake3, L : Libm} (M : Model) (ctx : ChainCtx) (np : Z) (seed : Hash) (ls : list (list byte)) (tok layer : Z) (kind : Resid)
    (ll : LayerLinks) (rank dim c : Z) : Prop :=
  exists dst src, chunk_value ls (resid_leaf np layer kind) (4 * dim) c dst /\ contains RESID_CHUNK_RMS_MIN RESID_RMS_MAX (rms dst) = true
    /\ resid_source M ctx np ls tok layer kind dim c (c * 256) (zlen dst) src
    /\ match ll_moe ll with
       | Some moe => if negb (is_attn kind) && (post_ffn ll =? NONE) then routed_sum M ctx np seed ls layer rank dim c moe dst src
                     else exists add, dense_term M ctx ls rank (post_of ll kind) dim c (c * 256) (zlen dst) add /\ sums_to (resid_scale ll kind) dst add src
       | None => exists add, dense_term M ctx ls rank (post_of ll kind) dim c (c * 256) (zlen dst) add /\ sums_to (resid_scale ll kind) dst add src
       end.

(** The committed trace has, at the position the seed draws, the residual of a position consuming [tok]. *)
Definition resid_bound `{B3 : Blake3, L : Libm} (M : Model) (T : TraceData) (tier : TierCtx) (ctx : ChainCtx) (resp : ResponseCtx) (seed : Hash) (tok : Z) : Prop :=
  exists layer kind t ll rank pe ls, resid_drawn ctx resp seed = Ret (inr (layer, kind, t)) /\ prescribed M ctx layer kind ll rank pe
    /\ get_at T t = Some ls
    /\ get_at ls (ps_meta_index (shape tier ctx tok)) = Some (meta_bytes (shape tier ctx tok) t (expected_ubatch t (n_prompt resp)))
    /\ resid_sums M ctx (n_products tier) seed ls tok layer kind ll rank (e_m pe) (drawn_chunk seed (e_m pe)).

Section Point.
Context `{B3 : Blake3, L : Libm} {BL : Blake3Lengths} {BC : Blake3Chunks}.
Context (tier : TierCtx) (M : Model) (HM : model_commits tier M) (HS : model_sane M) (ctx : ChainCtx) (Hctx : chain_ctx_ok ctx).
Context (resp : ResponseCtx) (seed : Hash).

(** The steps of an accepted residual point. *)
Lemma resid_point_steps p : verify_resid_point tier ctx resp seed p = Ret (inr ()) ->
  exists layer kind t ll rank pe pr dst src, resid_drawn ctx resp seed = Ret (inr (layer, kind, t))
    /\ resid_links tier ctx p layer kind = Ret (inr (ll, rank, pe))
    /\ let shape := shape tier ctx (r_tok p) in let total := wrap 64 (4 * e_m pe) in let c := draw seed RESID_POINT 2 mod n_chunks total in
       let off := wrap 64 (c * B3_CHUNK) / 4 in let n := zlen dst in
       let routed := negb (is_attn kind) && (post_of ll kind =? NONE) in
       resid_dst tier resp p shape layer kind t total c = Ret (inr (pr, dst))
       /\ resid_src tier ctx p shape pr layer kind (e_m pe) total c off n = Ret (inr src)
       /\ match r_add p with
          | Add_Moe m => routed = true /\ exists moe, ll_moe ll = Some moe
              /\ moe_verify {| mc_tier := tier; mc_ctx := ctx; mc_shape := shape; mc_pos_root := pr; mc_layer := layer; mc_down := rank;
                               mc_dim := e_m pe; mc_c := c; mc_seed := seed |} moe m dst src off n = Ret (inr ())
          | _ => (ll_moe ll = None \/ routed = false) /\ exists add, resid_add tier ctx p shape pr rank (post_of ll kind) (e_m pe) total c off n = Ret (inr add)
              /\ residual_link dst add src (resid_scale ll kind) = inr ()
          end.
Proof.
  intros H. unfold verify_resid_point in H. cbv zeta in H. apply try_inr in H as ([[layer kind] t] & E & H). apply try_inr in H as ([[ll rank] pe] & E0 & H).
  apply try_inr in H as ([pr dst] & E1 & H). apply try_inr in H as (src & E2 & H). apply bail_inr in H as [G H].
  exists layer, kind, t, ll, rank, pe, pr, dst, src. do 2 (split; [done|]). cbv zeta. do 2 (split; [done|]). fold (post_of ll kind) in *.
  assert (Hd : forall a, r_add p = a -> match a with Add_Moe _ => false | _ => true end = true -> ll_moe ll = None \/ negb (is_attn kind) && (post_of ll kind =? NONE) = false).
  { intros a <- Ha. destruct (ll_moe ll) as [moe|]; [right|by left]. rewrite Ha, andb_true_r in G. exact G. }
  destruct (r_add p) as [ac|yl norm|m] eqn:Ea; [| |].
  - split; [by apply (Hd (Add_Chunk ac))|]. accepted H. exists a. split; [done|]. congruence.
  - split; [by apply (Hd (Add_Normed yl norm))|]. accepted H. exists a. split; [done|]. congruence.
  - apply try_inr in H as (moe & Em & H). apply ok_or_inr in Em. destruct (ll_moe ll) as [x|]; [|done]. cbn [mbind option_bind] in Em.
    destruct (negb (is_attn kind) && _) eqn:Er; [|done]. injection Em as ->. split; [done|]. by exists moe.
Qed.

Lemma resid_links_bind p layer kind ll rank pe : resid_ok p -> resid_links tier ctx p layer kind = Ret (inr (ll, rank, pe)) ->
  unless_collision (prescribed M ctx layer kind ll rank pe /\ Forall is_u32 (chain_words ll) /\ usable pe).
Proof.
  intros (_ & _ & _ & _ & Hl & Hp & _) H. unfold resid_links in H. apply try_inr in H as (le & E & H). apply try_inr in H as (l & El & H). apply ok_or_inr in El.
  cbv zeta in H. apply try_inr in H as (pe' & E0 & H). apply bail_inr in H as [G H]. injection H as -> <- ->.
  assert (Hle : chain le = Chain_Layer ll /\ role le = ROLE_LAYER /\ ll_layer ll = layer).
  { destruct (chain le); try done. destruct (_ && _) eqn:Er; [|done]. injection El as ->. rewrite andb_true_iff, !Z.eqb_eq in Er. tauto. }
  destruct Hle as (Ec & Er & Ell). eapply unless_bind; [exact (opened_entry tier M HM HS _ _ le ltac:(apply (wrap_fits 64); lia) Hl E)|]. intros [Hent Hu].
  assert (Hw : Forall is_u32 (chain_words ll)). { destruct Hu as [Hw _]. unfold widths in Hw. rewrite Ec in Hw. cbn in Hw. tauto. }
  destruct (layer_words ll Hw) as (H1 & H2 & _). set (rank := if is_attn kind then proj ll else down ll) in *. assert (Hr0 : 0 <= rank) by (unfold rank; destruct (is_attn kind); lia).
  eapply unless_mono; [exact (opened_entry tier M HM HS _ rank pe Hr0 Hp E0)|]. intros [Hpe Hup].
  rewrite !orb_false_iff, !negb_false_iff, !Z.eqb_eq in G. destruct G as [[G1 G2] G3]. split; [|by split]. split; [by exists le|]. split; [done|]. split; [done|]. by split.
Qed.

Section Trace.
Context (T : TraceData) (n : Z) (HT : trace_commits resp n T) (p : ResidPoint) (Hp : resid_ok p) (Hn : ps_n_leaves (shape tier ctx (r_tok p)) = n).

(** The position an accepted point reads, with its meta leaf and the drawn chunk of the residual. *)
Lemma resid_dst_binds layer kind t dim c pr dst : 0 <= t -> 0 <= dim < 2 ^ 29 -> 0 <= c ->
  resid_dst tier resp p (shape tier ctx (r_tok p)) layer kind t (4 * dim) c = Ret (inr (pr, dst)) ->
  unless_collision (exists ls, get_at T t = Some ls /\ position_root ls = Ret pr /\ zlen ls = n
    /\ get_at ls (ps_meta_index (shape tier ctx (r_tok p))) = Some (meta_bytes (shape tier ctx (r_tok p)) t (expected_ubatch t (n_prompt resp)))
    /\ chunk_value ls (resid_leaf (n_products tier) layer kind) (4 * dim) c dst /\ contains RESID_CHUNK_RMS_MIN RESID_RMS_MAX (rms dst) = true
    /\ r_n_ubatch p = expected_ubatch t (n_prompt resp)).
Proof.
  intros Ht Hd Hc H. destruct Hp as (_ & _ & [_ Hpp] & [_ Hmp] & _ & _ & (_ & _ & _ & [_ Hcp] & [_ Hlp]) & _). unfold resid_dst in H. rewrite Hn in H. accepted H.
  injection H as <- ->. rewrite orb_false_iff, !negb_false_iff in G0. destruct G0 as [G0 G2]. rewrite negb_false_iff in *. apply Z.eqb_eq in G. rewrite G in *. apply ok_or_inr in E0.
  apply finite_f32s_inr in E1 as [-> Hfin]. unfold chunk_leaf in E. accepted E. apply ok_or_inr in E.
  assert (Hh : is_hash a) by exact (b3_leaf_from_chunk_hash _ _ _ _ _ Hcp E). assert (Hpr : is_hash a0) by exact (b3_fold_hash _ _ _ _ _ Hh Hlp E0). pose proof HT as (_ & _ & Hn64 & _).
  eapply unless_bind; [exact (position_binds resp n T HT t a0 _ Ht Hpr Hpp G0)|]. intros (ls & Hls & Hz & Hr).
  assert (Hv : b3_verify a0 n (resid_leaf (n_products tier) layer kind) a (lc_leaf_path (r_dst p)) = true) by (unfold b3_verify; by rewrite bool_decide_eq_true).
  eapply unless_bind; [exact (trace_leaf_binds ls n a0 _ _ _ Hr Hz Hn64 (resid_leaf_nonneg _ _ _) Hh Hlp Hv)|]. intros (d & Hd' & <-).
  eapply unless_bind; [exact (trace_leaf_binds ls n a0 _ _ _ Hr Hz Hn64 ltac:(apply (wrap_fits 64); lia) (blake3_hash_len _) Hmp G2)|]. intros (m & Hm & Hhm).
  eapply unless_bind; [exact (hash_binds _ _ Hhm)|]. intros ->.
  assert (Hch : unless_collision (zlen d = 4 * dim -> lc_chunk (r_dst p) = chunk_of d c)).
  { destruct (decide (zlen d = 4 * dim)) as [Hz4|]; [|by apply unless_ret]. eapply unless_mono; [exact (opened_chunk_binds d c _ _ _ Hz4 ltac:(lia) Hc Hcp E)|]. intros E' _. exact E'. }
  eapply unless_mono; [exact Hch|]. intros Hcd. exists ls. split; [done|]. split; [done|]. split; [done|]. split; [done|]. split; [|by split]. split; [done|]. exists d. split; [done|].
  intros Hz4. by rewrite (Hcd Hz4).
Qed.

(** The output of the product the residual adds, as the opening carries it. *)
Definition unrouted (ll : LayerLinks) (kind : Resid) : Prop := ll_moe ll = None \/ negb (is_attn kind) && (post_of ll kind =? NONE) = false.
Definition add_chunks (ls : list (list byte)) (ll : LayerLinks) (kind : Resid) (rank dim c : Z) (a : ResidAdd) : Prop :=
  match a with
  | Add_Chunk ac => unrouted ll kind /\ raw_chunk ls (2 * rank + 1) (4 * dim) c (lc_chunk ac)
  | Add_Normed y _ => unrouted ll kind /\ get_at ls (2 * rank + 1) = Some (lb_bytes y) /\ zlen (lb_bytes y) = 4 * dim
  | Add_Moe m => exists moe, ll_moe ll = Some moe /\ moe_chunks ctx ls rank dim c moe m
  end.

Lemma resid_drawn_t layer kind t : resid_drawn ctx resp seed = Ret (inr (layer, kind, t)) -> 0 <= t.
Proof.
  intros H. unfold resid_drawn in H. apply bail_inr in H as [G H]. cbv zeta in H. apply try_inr in H as (t' & E & [= _ _ <-]). unfold resid_position in E.
  destruct (_ && _); [accepted E; subst t'; apply (wrap_fits 64); lia|]. destruct HT as ([Hn0 _] & _). destruct (Z.eqb_spec (n_pos resp) 0); [done|]. apply ret_inr in E as <-.
  apply Z.mod_pos_bound. lia.
Qed.

Lemma resid_point_binds : verify_resid_point tier ctx resp seed p = Ret (inr ()) ->
  unless_collision (exists layer kind t ll rank pe ls pr dst, resid_drawn ctx resp seed = Ret (inr (layer, kind, t))
    /\ resid_links tier ctx p layer kind = Ret (inr (ll, rank, pe)) /\ prescribed M ctx layer kind ll rank pe /\ Forall is_u32 (chain_words ll) /\ usable pe
    /\ get_at T t = Some ls /\ position_root ls = Ret pr /\ zlen ls = n
    /\ get_at ls (ps_meta_index (shape tier ctx (r_tok p))) = Some (meta_bytes (shape tier ctx (r_tok p)) t (expected_ubatch t (n_prompt resp)))
    /\ r_n_ubatch p = expected_ubatch t (n_prompt resp)
    /\ let dim := e_m pe in let c := drawn_chunk seed dim in
       resid_dst tier resp p (shape tier ctx (r_tok p)) layer kind t (4 * dim) c = Ret (inr (pr, dst))
       /\ resid_sums M ctx (n_products tier) seed ls (r_tok p) layer kind ll rank dim c /\ add_chunks ls ll kind rank dim c (r_add p)).
Proof.
  intros H. apply resid_point_steps in H as (layer & kind & t & ll & rank & pe & pr & dst & src & Ed & El & Hrest). cbv zeta in Hrest.
  eapply unless_bind; [by eapply resid_links_bind|]. intros (Hpre & Hw & Hu). pose proof Hu as [(_ & _ & [Hm0 _] & _) (_ & Hm & _)].
  pose proof (resid_drawn_t _ _ _ Ed) as Ht. rewrite (wrap_id 64 (4 * e_m pe)) in Hrest by (unfold fits; lia). fold (drawn_chunk seed (e_m pe)) in Hrest.
  assert (Hc := Z.mod_pos_bound (draw seed RESID_POINT 2) _ (n_chunks_pos (4 * e_m pe))). fold (drawn_chunk seed (e_m pe)) in Hc. set (dim := e_m pe) in *. set (c := drawn_chunk seed dim) in *.
  destruct (chunk_values dim c Hm0 Hc) as [Hco Hcz]. assert (Hoff : wrap 64 (c * B3_CHUNK) / 4 = c * 256) by (rewrite wrap_id by (unfold fits, B3_CHUNK; lia); unfold B3_CHUNK; dlia).
  rewrite Hoff in Hrest. destruct Hrest as (Edst & Esrc & Eadd). assert (Hc0 : 0 <= c < 2 ^ 32) by (destruct Hc; lia).
  eapply unless_bind; [exact (resid_dst_binds layer kind t dim c pr dst Ht ltac:(lia) (proj1 Hc0) Edst)|]. intros (ls & Hls & Hr & Hz & Hmeta & Hdst & Hrms & Hub).
  assert (Hdl : zlen dst = Z.min dim ((c + 1) * 256) - c * 256).
  { destruct (resid_dst_yields tier resp p (shape tier ctx (r_tok p)) layer kind t dim c ltac:(lia) Hc) as (r & Er & Hv). rewrite Edst in Er. by injection Er as <-. }
  pose proof HT as (_ & _ & Hn64 & _). pose proof Hp as (_ & Htok & _ & _ & _ & _ & _ & Hsok & Haok). rewrite <- Hn in Hz, Hn64.
  eapply unless_bind; [eapply (resid_src_binds tier M HM HS ctx Hctx pr ls _ Hr Hz Hn64 p layer kind dim c (c * 256) (zlen dst) src Hsok Htok); [..|exact Esrc]; lia|]. intros Hsrc.
  destruct Hpre as (Hlay & Hrank & Hent & Hrole). destruct (layer_words ll Hw) as (H1 & H2 & H3 & H4 & Hmoe).
  assert (Hw32 : is_u32 (proj ll) /\ is_u32 (down ll) /\ is_u32 (post_attn ll) /\ is_u32 (post_ffn ll)).
  { pose proof Hw as Hw'. unfold chain_words in Hw'. apply Forall_app in Hw' as [Hw' _]. rewrite !Forall_cons in Hw'. tauto. }
  assert (Hrk : is_u32 rank) by (rewrite Hrank; destruct (is_attn kind); tauto). assert (Hpost : is_u32 (post_of ll kind)) by (unfold post_of; destruct (is_attn kind); tauto).
  assert (Hwrap : 2 * rank + 1 < 2 ^ 64 /\ 0 <= rank) by (unfold fits in Hrk; lia).
  refine (unless_mono (resid_sums M ctx (n_products tier) seed ls (r_tok p) layer kind ll rank dim c /\ add_chunks ls ll kind rank dim c (r_add p)) _ _ _).
  2: { intros [Hsum Hadd]. rewrite Hn in Hz. exists layer, kind, t, ll, rank, pe, ls, pr, dst. split_and!; try done. }
  assert (Hdense : (ll_moe ll = None \/ negb (is_attn kind) && (post_of ll kind =? NONE) = false) ->
    (exists add, resid_add tier ctx p (shape tier ctx (r_tok p)) pr rank (post_of ll kind) dim (4 * dim) c (c * 256) (zlen dst) = Ret (inr add) /\ residual_link dst add src (resid_scale ll kind) = inr ()) ->
    unless_collision (resid_sums M ctx (n_products tier) seed ls (r_tok p) layer kind ll rank dim c)).
  { intros Hno (add & Ea & Hlink). eapply unless_mono; [eapply (resid_add_binds tier M HM HS ctx pr ls _ Hr Hz Hn64 p rank (post_of ll kind) dim c (c * 256) (zlen dst) add Haok Hrk Hpost); [..|exact Ea]; lia|].
    intros Hterm. apply residual_link_exact in Hlink. exists dst, src. split; [done|]. split; [done|]. split; [done|]. unfold post_of in Hno.
    destruct (ll_moe ll) as [moe|]; [|by exists add]. destruct Hno as [|Hno]; [done|]. assert (negb (is_attn kind) && (post_ffn ll =? NONE) = false) as -> by (destruct (is_attn kind); [done|exact Hno]). by exists add. }
  destruct (r_add p) as [ac|yl norm|m] eqn:Ea.
  - destruct Eadd as [Hno Hadd]. pose proof (Hno : unrouted ll kind) as Hun. apply unless_and; [by apply Hdense|]. destruct Hadd as (add & Er & _). unfold resid_add in Er. rewrite Ea in Er. destruct (_ =? NONE); [|done].
    apply try_inr in Er as (v & Er & _). rewrite wrap_id in Er by (unfold fits; lia). cbn in Haok.
    eapply unless_mono; [eapply (leaf_chunk_raw pr ls _ Hr Hz Hn64 (2 * rank + 1) ac (4 * dim) c v); [lia|exact Haok|lia|lia|exact Er]|]. intros Hraw. exact (conj Hun Hraw).
  - destruct Eadd as [Hno Hadd]. pose proof (Hno : unrouted ll kind) as Hun. apply unless_and; [by apply Hdense|]. destruct Hadd as (add & Er & _). unfold resid_add in Er. rewrite Ea in Er. destruct (_ =? NONE); [done|]. cbn [negb] in Er.
    apply try_inr in Er as (v & Er & _). rewrite wrap_id in Er by (unfold fits; lia). destruct Haok as [[_ [_ Hyp]] _]. unfold whole_leaf in Er. accepted Er. rewrite negb_false_iff in *. apply Z.eqb_eq in G.
    eapply unless_bind; [exact (trace_leaf_binds ls _ pr (2 * rank + 1) _ _ Hr Hz Hn64 ltac:(lia) (blake3_hash_len _) Hyp G0)|]. intros (d & Hd & Hh).
    eapply unless_mono; [exact (hash_binds _ _ Hh)|]. intros ->. exact (conj Hun (conj Hd G)).
  - destruct Eadd as (Hrt & moe & Em & Hv). specialize (Hmoe moe Em). apply unless_and.
    + eapply unless_mono; [exact (moe_verify_binds tier M HM HS ctx Hctx pr ls _ Hr Hz Hn64 layer rank dim c seed ltac:(lia) Hc0 Hrk moe Hmoe m Haok dst src _ Hv)|]. intros Hsum.
      exists dst, src. split; [done|]. split; [done|]. split; [done|]. rewrite Em. unfold post_of in Hrt. destruct (is_attn kind); [done|]. cbn [negb andb] in *. by rewrite Hrt.
    + eapply unless_mono; [exact (moe_verify_chunks tier ctx Hctx pr ls _ Hr Hz Hn64 layer rank dim c seed ltac:(lia) Hc0 Hrk moe Hmoe m Haok dst src _ Hv)|]. intros Hch. by exists moe.
Qed.
End Trace.
End Point.

(** ** Recomputed rows *)

(** [y] is row [row] of expert [exp] of product [e] over the committed input of slot [slot], up to the tolerance of its dot
    product, with the bias of the product. *)
Definition row_recomputed (M : Model) (ls : list (list byte)) (n_ubatch : Z) (e : Entry) (rank exp slot n_slots row : Z) (y : f64) : Prop :=
  let layout := input_layout (role e) n_ubatch (wtype e) in
  let x_one := x_len (e_k e) layout in
  row < e_m e /\ exp < n_exp e /\ exists x xs r b,
    get_at ls (2 * rank) = Some x
    /\ (zlen x = x_one /\ xs = x \/ 1 < n_slots /\ zlen x = n_slots * x_one /\ xs = slice x (slot * x_one) ((slot + 1) * x_one))
    /\ sums_consistent xs layout (e_k e) = Ret true
    /\ canonical_dot (wtype e) (tensor_bytes M e ((exp * e_m e + row) * row_bytes e) (row_bytes e)) (e_k e) xs layout = Ret (Some r)
    /\ (bias e = NONE /\ b = zero
        \/ n_slots = 1 /\ exists be, entry_of M (bias e) = Some be /\ role be = ROLE_BIAS /\ wtype be = 0 /\ e_k be = e_m e
             /\ b = f64_of_f32 (f32_from_le (tensor_bytes M be (4 * row) 4)))
    /\ VerifyPoint.within y (y_hat r + b)%F (EPS * (Quant.scale r + SFabs b))%F = true.

(** The row a seed draws in the chunk of a residual. *)
Definition drawn_row `{B3 : Blake3} (seed : Hash) (dim c : Z) : Z := c * 256 + Z.shiftr (draw seed RESID_POINT 3) 32 mod Z.min 256 (dim - c * 256).

(** One row of the product the residual adds and, on a routed layer, one row of the expert of the slot a seed draws, are recomputed
    from committed weights and the committed input. *)
Definition feed_bound `{B3 : Blake3} (M : Model) (ctx : ChainCtx) (seed : Hash) (ls : list (list byte)) (n_ubatch : Z) (kind : Resid) (ll : LayerLinks) (rank : Z) (pe : Entry) : Prop :=
  let dim := e_m pe in let c := drawn_chunk seed dim in let row := drawn_row seed dim c in
  c * 256 <= row < dim
  /\ (exists y, chunk_element ls (2 * rank + 1) (4 * dim) c (row - c * 256) y /\ row_recomputed M ls n_ubatch pe rank 0 0 1 row y)
  /\ match ll_moe ll with
     | Some moe => if negb (is_attn kind) && (post_ffn ll =? NONE) then
         let n_used := cc_n_used ctx in let body := n_used * dim * 4 in let total := body + 4 * n_used in
         let slot := Z.shiftr (draw seed RESID_POINT 3) 48 mod Z.max n_used 1 in
         exists de idb y, entry_of M (down_exps moe) = Some de /\ e_m de = dim /\ 2 <= n_exp de
           /\ raw_chunk ls (2 * down_exps moe + 1) total (body / B3_CHUNK) idb
           /\ chunk_element ls (2 * down_exps moe + 1) total (slot * (dim * 4 / B3_CHUNK) + c) (row - c * 256) y
           /\ row_recomputed M ls n_ubatch de (down_exps moe) (from_le (slice idb (4 * slot) (4 * slot + 4))) slot n_used row y
       else True
     | None => True
     end.

Section Feed.
Context `{B3 : Blake3, L : Libm} {BL : Blake3Lengths} {BC : Blake3Chunks}.
Context (tier : TierCtx) (M : Model) (HM : model_commits tier M) (HS : model_sane M) (ctx : ChainCtx) (Hctx : chain_ctx_ok ctx).
Context (pr : Hash) (ls : list (list byte)) (shape : PosShape).
Context (Hr : position_root ls = Ret pr) (Hz : zlen ls = ps_n_leaves shape) (Hn : is_u64 (ps_n_leaves shape)).

Lemma feed_row_binds n_ubatch e rank exp slot n_slots row y x x_path w bo : usable e -> 0 <= rank < 2 ^ 32 -> 0 <= exp -> 0 <= row < 2 ^ 29 -> 0 <= slot < Z.max n_slots 1 -> n_slots < 2 ^ 32 ->
  Forall is_hash x_path -> range_ok w -> option_ok weights_ok bo ->
  Chain.feed_row tier shape pr n_ubatch e rank exp slot n_slots row y x x_path w bo = Ret (inr ()) -> unless_collision (row_recomputed M ls n_ubatch e rank exp slot n_slots row y).
Proof.
  intros He Hrk Hx Hrow Hsl Hns Hxp Hw Hb H. pose proof He as [(_ & [Hk0 _] & _ & _ & _ & _ & _ & _ & [Hbi _] & _) (Hk & _)]. unfold Chain.feed_row in H. cbv zeta in H.
  set (layout := input_layout (role e) n_ubatch (wtype e)) in *. set (x_one := x_len (e_k e) layout) in *. assert (Hone : 0 <= x_one < 2 ^ 31) by (apply x_len_small; lia).
  apply try_inr in H as (xs & Exs & H). apply bail_inr in H as [G H]. rewrite negb_false_iff, wrap_id in G by (unfold fits; lia).
  assert (Hxs : zlen x = x_one /\ xs = x \/ 1 < n_slots /\ zlen x = n_slots * x_one /\ xs = slice x (slot * x_one) ((slot + 1) * x_one)).
  { destruct (Z.eqb_spec (zlen x) x_one); [left; split; [done|congruence]|]. destruct (_ && _) eqn:Gs; [|done]. rewrite andb_true_iff, Z.ltb_lt, Z.eqb_eq in Gs. destruct Gs as [Gs1 Gs2].
    assert ((slot + 1) * x_one <= n_slots * x_one < 2 ^ 64) by nia. rewrite (wrap_id 64 (n_slots * x_one)) in Gs2 by (unfold fits; nia). right. split; [done|]. split; [done|].
    rewrite (wrap_id 64 (slot + 1)), !wrap_id, index_range_Ret in Exs by (unfold fits; nia). by injection Exs as <-. }
  apply bind_inr in H as (cons & Econs & H). apply bail_inr in H as [Gc H]. rewrite negb_false_iff in Gc. subst cons.
  apply try_inr in H as (bytes & Ebytes & H). apply bind_inr in H as (o & Edot & H). apply try_inr in H as (r & Er & H). apply ok_or_inr in Er. subst o.
  apply try_inr in H as (b & Eb & H). apply bail_inr in H as [Gw _]. rewrite negb_false_iff in Gw.
  eapply unless_bind; [exact (trace_leaf_binds ls _ pr (2 * rank) _ _ Hr Hz Hn ltac:(lia) (blake3_hash_len _) Hxp G)|]. intros (d & Hd & Hh).
  eapply unless_bind; [exact (hash_binds _ _ Hh)|]. intros ->.
  eapply unless_bind; [exact (opened_expert_row tier M HM e w exp row bytes He Hw Hx (proj1 Hrow) Ebytes)|]. intros (Hrm & Hxn & ->).
  refine (unless_mono (bias e = NONE /\ b = zero \/ n_slots = 1 /\ exists be, entry_of M (bias e) = Some be /\ role be = ROLE_BIAS /\ wtype be = 0 /\ e_k be = e_m e
             /\ b = f64_of_f32 (f32_from_le (tensor_bytes M be (4 * row) 4))) _ _ _).
  - destruct bo as [[be br]|]; [|destruct (Z.eqb_spec (bias e) NONE); [apply unless_ret; left; split; [done|congruence]|done]].
    destruct (negb (bias e =? NONE) && (n_slots =? 1)) eqn:Gs; [|done]. rewrite andb_true_iff, Z.eqb_eq in Gs. destruct Gs as [_ Gs]. destruct Hb as [Hbe Hbr]. accepted Eb. subst b. rewrite !orb_false_iff, !negb_false_iff, !Z.eqb_eq in G0. destruct G0 as [[G1 G2] G3].
    eapply unless_bind; [exact (opened_entry tier M HM HS _ _ a Hbi Hbe E)|]. intros [Ha _]. rewrite wrap_id in E0 by (unfold fits; lia).
    eapply unless_mono; [eapply (open_bytes_binds tier M HM a _ _ _ a0 Hbr); [| | |exact E0]; lia|]. intros ->. right. split; [done|]. exists a. do 4 (split; [done|]). by rewrite (Z.mul_comm 4 row).
  - intros Hbias. split; [done|]. split; [done|]. exists x, xs, r, b. split_and!; done.
Qed.

Lemma y_at_inr b j y : 0 <= j < 2 ^ 60 -> y_at b j = Ret (inr y) -> y = f64_of_f32 (f32_from_le (slice b (4 * j) (4 * j + 4))).
Proof. intros Hj H. unfold y_at in H. cbv zeta in H. rewrite (wrap_id 64 (4 * j)), wrap_id in H by (unfold fits; lia). accepted H. apply ok_or_inr, get_range_Some in E as (_ & _ & ->). done. Qed.
End Feed.

(** ** Residual openings *)

(** A residual opening's position: the residual of [resid_bound], and the rows recomputed at the same position. *)
Definition opening_bound `{B3 : Blake3, L : Libm} (M : Model) (T : TraceData) (tier : TierCtx) (ctx : ChainCtx) (resp : ResponseCtx) (seed : Hash) (tok : Z) : Prop :=
  exists layer kind t ll rank pe ls, resid_drawn ctx resp seed = Ret (inr (layer, kind, t)) /\ prescribed M ctx layer kind ll rank pe
    /\ get_at T t = Some ls
    /\ get_at ls (ps_meta_index (shape tier ctx tok)) = Some (meta_bytes (shape tier ctx tok) t (expected_ubatch t (n_prompt resp)))
    /\ resid_sums M ctx (n_products tier) seed ls tok layer kind ll rank (e_m pe) (drawn_chunk seed (e_m pe))
    /\ feed_bound M ctx seed ls (expected_ubatch t (n_prompt resp)) kind ll rank pe.

Lemma try_known {E A C} (a : A) (k : A -> res (E + C)) : try_bind (Ret (inr a)) k = k a.
Proof. done. Qed.
Lemma ok_or_known {E A} (e : E) (a : A) : ok_or e (Some a) = Ret (inr a).
Proof. done. Qed.

Section Opening.
Context `{B3 : Blake3, L : Libm} {BL : Blake3Lengths} {BC : Blake3Chunks}.
Context (tier : TierCtx) (M : Model) (HM : model_commits tier M) (HS : model_sane M) (ctx : ChainCtx) (Hctx : chain_ctx_ok ctx).
Context (resp : ResponseCtx) (seed : Hash) (T : TraceData) (n : Z) (HT : trace_commits resp n T).

(** The drawn row and the committed value there. *)
Lemma feed_target_inr p dim c row y ls ll kind rank : 0 <= dim < 2 ^ 29 -> 0 <= c < n_chunks (4 * dim) -> add_chunks ctx ls ll kind rank dim c (r_add p) ->
  feed_target seed p dim (c * 256) = Ret (inr (row, y)) ->
  c * 256 <= row < dim /\ row < c * 256 + 256 /\ row = drawn_row seed dim c /\ chunk_element ls (2 * rank + 1) (4 * dim) c (row - c * 256) y.
Proof.
  intros Hd Hc Hadd H. unfold feed_target in H. cbv zeta in H. apply try_inr in H as (left & El & H). apply ok_or_inr in El. unfold checked_sub in El.
  destruct (Z.leb_spec (c * 256) dim); [|done]. cbn in El. destruct (Z.ltb_spec 0 (dim - c * 256)); [|done]. injection El as <-. change (B3_CHUNK / 4) with 256 in H.
  destruct (chunk_values dim c ltac:(lia) Hc) as [Hco _]. set (r := Z.shiftr (draw seed RESID_POINT 3) 32 mod Z.min 256 (dim - c * 256)) in *.
  assert (Hr : 0 <= r < Z.min 256 (dim - c * 256)) by (apply Z.mod_pos_bound; lia). rewrite wrap_id in H by (unfold fits; lia).
  apply try_inr in H as (y' & Ey & H). injection H as <- <-. replace (c * 256 + r - c * 256) with r by lia. split; [lia|]. split; [lia|]. split; [done|].
  destruct (r_add p) as [ac|yl norm|m]; cbn in Hadd.
  - destruct Hadd as [_ Hadd]. apply y_at_inr in Ey; [|lia]. replace (c * 256 + r - c * 256) with r in Ey by lia. by exists (lc_chunk ac).
  - apply y_at_inr in Ey; [|lia]. destruct Hadd as (_ & Hg & Hz). exists (chunk_of (lb_bytes yl) c). split; [exists (lb_bytes yl); by split|].
    subst y'. do 2 f_equal. unfold chunk_of, B3_CHUNK. rewrite slice_slice by lia. f_equal; lia.
  - destruct Hadd as (moe & _ & Hsh & _). apply y_at_inr in Ey; [|lia]. replace (c * 256 + r - c * 256) with r in Ey by lia. by exists (lc_chunk (shexp m)).
Qed.

(** What an opening draws and opens a second time is what its residual point drew and opened. *)
Lemma reopened op layer kind t ll rank pe pr dst : let p := ro_resid op in let dim := e_m pe in let c := drawn_chunk seed dim in let sh := shape tier ctx (r_tok p) in
  resid_drawn ctx resp seed = Ret (inr (layer, kind, t)) -> resid_links tier ctx p layer kind = Ret (inr (ll, rank, pe)) -> usable pe ->
  resid_dst tier resp p sh layer kind t (4 * dim) c = Ret (inr (pr, dst)) -> verify_resid_opening tier ctx resp seed op = Ret (inr ()) ->
  exists row y, feed_target seed p dim (c * 256) = Ret (inr (row, y))
    /\ Chain.feed_row tier sh pr (r_n_ubatch p) pe rank 0 0 1 row y (feed_x (ro_feed op)) (feed_x_path (ro_feed op)) (Opening.feed_row (ro_feed op)) (feed_bias (ro_feed op)) = Ret (inr ())
    /\ match r_add p, ro_expert op with
       | Add_Moe m, Some er => feed_expert tier ctx seed p ll m er sh pr layer dim (c * 256) row = Ret (inr ())
       | Add_Moe _, None => False
       | _, _ => True
       end.
Proof.
  intros p dim c sh Ed El Hu Edst H. unfold verify_resid_opening in H. cbv zeta in H. fold p in H. apply try_inr in H as (_ & _ & H).
  assert (Hsel : resid_site (draw seed RESID_POINT 1) (2 * cc_n_layers ctx) / 2 = layer /\ kind_of (resid_site (draw seed RESID_POINT 1) (2 * cc_n_layers ctx)) = kind).
  { unfold resid_drawn in Ed. apply bail_inr in Ed as [_ Ed]. cbv zeta in Ed. apply try_inr in Ed as (t' & _ & [= <- <- _]). done. }
  destruct Hsel as [Hs1 Hs2]. rewrite Hs1, Hs2 in H.
  unfold resid_links in El. apply try_inr in El as (le & Ele & El). apply try_inr in El as (l & Echain & El). apply ok_or_inr in Echain. cbv zeta in El.
  apply try_inr in El as (pe' & Epe & El). apply bail_inr in El as [_ El]. injection El as -> Hrank ->. rewrite Ele, try_known in H.
  assert (Hchain : chain le = Chain_Layer ll) by (destruct (chain le); try done; destruct (_ && _); [by injection Echain as ->|done]). rewrite Hchain, ok_or_known, try_known in H.
  rewrite Hrank in *. rewrite Epe, try_known in H. destruct Hu as [(_ & _ & [Hm0 _] & _) (_ & Hm & _)].
  rewrite (wrap_id 64 (4 * e_m pe)) in H by (unfold fits; lia). fold dim in H. fold (drawn_chunk seed dim) in H. fold c in H.
  assert (Hc := Z.mod_pos_bound (draw seed RESID_POINT 2) _ (n_chunks_pos (4 * dim))). fold (drawn_chunk seed dim) c in Hc. destruct (chunk_values dim c Hm0 Hc) as [Hco _].
  change (B3_CHUNK / 4) with 256 in H. rewrite (wrap_id 64 (c * 256)) in H by (unfold fits, dim in *; lia).
  apply try_inr in H as (h & Eh & H). apply try_inr in H as (pr' & Epr & H). apply try_inr in H as ([row y] & Ey & H). apply try_inr in H as ([] & Ef & H).
  assert (Hpr : pr' = pr). { unfold resid_dst in Edst. apply try_inr in Edst as (h' & Eh' & Edst). rewrite Eh in Eh'. injection Eh' as <-. apply try_inr in Edst as (pr0 & Epr0 & Edst). fold sh in Epr. rewrite Epr in Epr0.
    injection Epr0 as <-. by accepted Edst; injection Edst. }
  subst pr'. exists row, y. split; [done|]. split; [done|]. destruct (r_add p), (ro_expert op); done.
Qed.

Lemma feed_expert_binds p ll m er moe pr ls layer rank pe row : let dim := e_m pe in let c := drawn_chunk seed dim in usable pe -> ll_moe ll = Some moe -> Forall is_u32 (moe_words moe) ->
  position_root ls = Ret pr -> zlen ls = ps_n_leaves (shape tier ctx (r_tok p)) -> is_u64 (ps_n_leaves (shape tier ctx (r_tok p))) ->
  expert_row_ok er -> c * 256 <= row < dim -> moe_chunks ctx ls rank dim c moe m ->
  feed_expert tier ctx seed p ll m er (shape tier ctx (r_tok p)) pr layer dim (c * 256) row = Ret (inr ()) ->
  unless_collision (let n_used := cc_n_used ctx in let body := n_used * dim * 4 in let total := body + 4 * n_used in
         let slot := Z.shiftr (draw seed RESID_POINT 3) 48 mod Z.max n_used 1 in
         exists de idb y, entry_of M (down_exps moe) = Some de /\ e_m de = dim /\ 2 <= n_exp de
           /\ raw_chunk ls (2 * down_exps moe + 1) total (body / B3_CHUNK) idb
           /\ chunk_element ls (2 * down_exps moe + 1) total (slot * (dim * 4 / B3_CHUNK) + c) (row - c * 256) y
           /\ row_recomputed M ls (r_n_ubatch p) de (down_exps moe) (from_le (slice idb (4 * slot) (4 * slot + 4))) slot n_used row y).
Proof.
  intros dim c [(_ & _ & [Hm0 _] & _) (_ & Hm & _)] Emoe Hmoe Hr Hz Hn64 (Hee & _ & [_ Hexp] & Her) Hrow (_ & Hids & Hsl & Hslots) H.
  unfold feed_expert in H. rewrite Emoe, ok_or_known, try_known in H. cbv zeta in H. pose proof Hctx as (_ & _ & _ & [Hu0 Hu]).
  assert (Hd : 0 <= down_exps moe < 2 ^ 32) by (unfold moe_words, is_u32, fits in Hmoe; rewrite !Forall_cons in Hmoe; lia).
  apply try_inr in H as (de & Ede & H). apply bail_inr in H as [G H]. rewrite !orb_false_iff, !negb_false_iff, !Z.eqb_eq, Z.ltb_ge in G. destruct G as [[[_ _] G2] G3].
  apply try_inr in H as (idb & Eid & H). apply ok_or_inr, get_range_Some in Eid as (_ & _ & ->). apply try_inr in H as (sl & Esl & H). apply ok_or_inr in Esl.
  assert (Hc := Z.mod_pos_bound (draw seed RESID_POINT 2) _ (n_chunks_pos (4 * dim))). fold (drawn_chunk seed dim) c in Hc. fold dim in Hm0, Hm.
  apply try_inr in H as (y & Ey & H). apply y_at_inr in Ey; [|clear - Hrow Hm Hc; lia].
  assert (Hslot : 0 <= Z.shiftr (draw seed RESID_POINT 3) 48 mod Z.max (cc_n_used ctx) 1 < Z.max (cc_n_used ctx) 1) by (apply Z.mod_pos_bound; clear; lia). set (slot := _ mod Z.max _ 1) in *.
  eapply unless_bind; [exact (opened_entry tier M HM HS _ _ de (proj1 Hd) Hee Ede)|]. intros [Hde Hu'].
  assert (Hrow29 : 0 <= row < 2 ^ 29) by (clear - Hrow Hm Hc; lia).
  eapply unless_mono; [eapply (feed_row_binds tier M HM HS pr ls _ Hr Hz Hn64); [exact Hu'|exact Hd| | |exact Hslot|exact Hu|exact Hexp|exact Her| |exact H]; [apply from_le_fits|exact Hrow29|exact I]|].
  intros Hrec. cbv zeta. exists de, (ids_chunk (ids m)), y. split_and!; try done. exists (lc_chunk sl). split; [by apply Hslots|done].
Qed.

Lemma resid_opening_binds op : ps_n_leaves (shape tier ctx (r_tok (ro_resid op))) = n -> resid_opening_ok op -> verify_resid_opening tier ctx resp seed op = Ret (inr ()) ->
  unless_collision (opening_bound M T tier ctx resp seed (r_tok (ro_resid op))).
Proof.
  intros Hn Hop H. pose proof Hop as (_ & _ & Hp & (_ & [_ Hfx] & Hfr & Hfb) & Hex). set (p := ro_resid op) in *.
  assert (Hpt : verify_resid_point tier ctx resp seed p = Ret (inr ())). { pose proof H as H'. unfold verify_resid_opening in H'. cbv zeta in H'. by apply try_inr in H' as ([] & Hpt & _). }
  eapply unless_bind; [exact (resid_point_binds tier M HM HS ctx Hctx resp seed T n HT p Hp Hn Hpt)|].
  intros (layer & kind & t & ll & rank & pe & ls & pr & dst & Ed & El & Hpre & Hw & Hu & Hls & Hr & Hz & Hmeta & Hub & Hrest). cbv zeta in Hrest. destruct Hrest as (Edst & Hsum & Hadd).
  destruct (reopened op layer kind t ll rank pe pr dst Ed El Hu Edst H) as (row & y & Ey & Ef & Hexpert). fold p in Ey, Ef, Hexpert.
  pose proof Hu as [(_ & _ & [Hm0 _] & _) (_ & Hm & _)]. set (dim := e_m pe) in *. assert (Hc := Z.mod_pos_bound (draw seed RESID_POINT 2) _ (n_chunks_pos (4 * dim))). fold (drawn_chunk seed dim) in Hc. set (c := drawn_chunk seed dim) in *.
  destruct (feed_target_inr p dim c row y ls ll kind rank ltac:(lia) Hc Hadd Ey) as (Hrow & _ & Hdr & Hel). destruct (chunk_values dim c Hm0 Hc) as [Hco _].
  destruct Hpre as (Hlay & Hrank & Hent & Hrole). assert (Hrk : 0 <= rank < 2 ^ 32).
  { pose proof Hw as Hw'. unfold chain_words in Hw'. apply Forall_app in Hw' as [Hw' _]. unfold is_u32, fits in Hw'. rewrite !Forall_cons in Hw'. rewrite Hrank. destruct (is_attn kind); lia. }
  pose proof HT as (_ & _ & Hn64 & _). rewrite <- Hn in Hz, Hn64. rewrite Hub in *.
  eapply unless_bind; [eapply (feed_row_binds tier M HM HS pr ls _ Hr Hz Hn64); [exact Hu|exact Hrk| | | | |exact Hfx|exact Hfr|exact Hfb|exact Ef]; [done|lia|done|done]|]. intros Hrec.
  assert (Hfin : feed_bound M ctx seed ls (expected_ubatch t (n_prompt resp)) kind ll rank pe -> opening_bound M T tier ctx resp seed (r_tok p)).
  { intros Hfeed. exists layer, kind, t, ll, rank, pe, ls. do 5 (split; [done|]). exact Hfeed. }
  assert (Hbase : unrouted ll kind -> feed_bound M ctx seed ls (expected_ubatch t (n_prompt resp)) kind ll rank pe).
  { intros Hun. unfold feed_bound. cbv zeta. fold dim c. rewrite <- Hdr. split; [done|]. split; [by exists y|]. destruct (ll_moe ll) as [moe|] eqn:Em; [|done]. unfold unrouted in Hun. rewrite Em in Hun. destruct Hun as [|Hun]; [done|]. unfold post_of in Hun.
    destruct (is_attn kind); [done|]. cbn [negb andb] in Hun |- *. by rewrite Hun. }
  destruct (r_add p) as [ac|yl norm|m] eqn:Ea; [apply unless_ret, Hfin, Hbase, Hadd|apply unless_ret, Hfin, Hbase, Hadd|].
  destruct Hadd as (moe & Em & Hch). destruct (ro_expert op) as [er|]; [|done]. cbn in Hex. destruct (layer_words ll Hw) as (_ & _ & _ & _ & Hmoe). specialize (Hmoe moe Em).
  eapply unless_mono; [exact (feed_expert_binds p ll m er moe pr ls layer rank pe row Hu Em Hmoe Hr Hz Hn64 Hex Hrow Hch Hexpert)|]. rewrite Hub. intros Hexp.
  apply Hfin. unfold feed_bound. cbv zeta. fold dim c. rewrite <- Hdr. split; [done|]. split; [by exists y|]. rewrite Em. destruct (negb (is_attn kind) && (post_ffn ll =? NONE)); [exact Hexp|done].
Qed.
End Opening.

Section Positions.
Context `{B3 : Blake3, L : Libm} {BL : Blake3Lengths} {BC : Blake3Chunks}.

(** What an accepted residual point shows, of its residual alone. *)
Lemma resid_point_bound (tier : TierCtx) (M : Model) (T : TraceData) (ctx : ChainCtx) (resp : ResponseCtx) (seed : Hash) (p : ResidPoint) :
  model_commits tier M -> model_sane M -> chain_ctx_ok ctx ->
  trace_commits resp (n_pos_leaves (n_products tier) (cc_n_layers ctx) (n_router ctx)) T -> resid_ok p ->
  verify_resid_point tier ctx resp seed p = Ret (inr ()) -> unless_collision (resid_bound M T tier ctx resp seed (r_tok p)).
Proof.
  intros HM HS Hctx HT Hp H. eapply unless_mono; [exact (resid_point_binds tier M HM HS ctx Hctx resp seed T _ HT p Hp eq_refl H)|].
  intros (layer & kind & t & ll & rank & pe & ls & pr & dst & Ed & _ & Hpre & _ & _ & Hls & _ & _ & Hmeta & _ & Hrest). destruct Hrest as (_ & Hsum & _).
  by exists layer, kind, t, ll, rank, pe, ls.
Qed.
End Positions.


Section Witnesses.
Import Toy Sample.

Lemma sample_opening_accepted : verify_resid_opening tier ctx resp ChainTotal.seed (resid_opening ChainTotal.seed) = Ret (inr ()).
Proof. vm_compute. reflexivity. Qed.

End Witnesses.
