(* ===== verification/LinkSound.v ===== *)
(** * What an accepted link shows

    Against a committed model and a committed trace, an accepted stage-2 point shows that
    the input of its product is, on the blocks the seed draws, the quantization of the
    committed activation its link names: the normed embedding of the token, a normed
    residual, the output of another product, or a slice of one - or two inputs of BLAKE3
    with one digest are exhibited. *)
From S2P Require Import Prelude Float Magnitude Merkle Seq Wire Opening Quant Manifest VerifyPoint Commitment PointSound Links Prefix Chain SampleTrace ChainTotal ChainSound.
#[local] Open Scope Z_scope.

(** ** Links of a committed input *)

Section Linked.
Context `{B3 : Blake3, L : Libm}.
Context (M : Model) (tier : TierCtx) (ctx : ChainCtx) (ls : list (list byte)) (seed : Hash) (i : Z) (o : Opened) (pl : ProductLink) (tok : Z) (x : list byte).
Abbreviation k := (e_k (op_input o)).
Abbreviation layout := (op_layout o).
Abbreviation slot := (op_slot o).
Abbreviation y_leaf := (2 * pl_src pl + 1).

(** The fragment the seed draws in [xs] is the quantization of [scaled] times the weights of the link's norm. *)
Definition fragment_close (xs : list byte) (scaled : list f64) : Prop :=
  exists b b0 n w, link_block seed i xs layout k = Ret (Some b) /\ norm_fragment b k = (b0, n) /\ weights_value M (pl_norm pl) k (b0 * 32) (n * 32) w
    /\ row_close xs layout k b0 (zip_with (fun a b => a * f64_of_f32 b)%F (slice scaled (b0 * 32) ((b0 + n) * 32)) w).

(** The blocks of [xs] from [first] on are the quantization of [h]. *)
Definition source_close (xs : list byte) (first : Z) (h : list f32) : Prop := 0 < zlen h /\ row_close xs layout k first (f64_of_f32 <$> h).

(** The input of the slot. *)
Definition slot_input (xs : list byte) : Prop := get_range x (slot * x_len k layout) ((slot + 1) * x_len k layout) = Some xs.

(** The committed input [x] comes from where the link of its product says. *)
Inductive linked : Prop :=
| Linked_None : pl_link pl = LINK_NONE -> peak_bounded x layout k slot = Ret true -> linked
| Linked_Token e : pl_link pl = LINK_ATTN_IN -> pl_layer pl = 0 -> embedded M ctx tok k e ->
    fragment_close x (rms_scaled e (cc_eps ctx) (cc_embd_scale ctx)) -> linked
| Linked_Norm leaf h xs : norm_source tier ctx pl = Some leaf -> leaf_value ls leaf (4 * k) h -> contains RESID_RMS_MIN RESID_RMS_MAX (rms h) = true ->
    (zlen x = x_len k layout /\ xs = x \/ slot_input xs) -> fragment_close xs (rms_scaled h (cc_eps ctx) one) -> linked
| Linked_Expert se idb xs b h : let total := cc_n_used ctx * k * 4 + 4 * cc_n_used ctx in
    pl_link pl = LINK_GLU -> 1 < n_exp (op_input o) -> entry_of M (pl_src pl) = Some se -> glu_form se = FORM_PAIR_GATE -> n_exp se = n_exp (op_input o) -> e_m se = k ->
    raw_chunk ls y_leaf total (cc_n_used ctx * k * 4 / B3_CHUNK) idb -> from_le (slice idb (4 * slot) (4 * slot + 4)) = op_expert o ->
    slot_input xs -> link_block seed i xs layout k = Ret (Some b) ->
    chunk_value ls y_leaf total (slot * (k * 4 / B3_CHUNK) + b / CHUNK_BLOCKS) h -> source_close xs (b / CHUNK_BLOCKS * CHUNK_BLOCKS) h -> linked
| Linked_Source se b h : pl_link pl = LINK_GLU \/ pl_link pl = LINK_DIRECT -> n_exp (op_input o) = 1 -> entry_of M (pl_src pl) = Some se -> source_width pl se = Some k ->
    link_block seed i x layout k = Ret (Some b) -> chunk_value ls y_leaf (4 * k) (b / CHUNK_BLOCKS) h -> source_close x (b / CHUNK_BLOCKS * CHUNK_BLOCKS) h -> linked
| Linked_Head se xs b h : let stride := e_m se / n_exp (op_input o) in let start := slot * stride in let c := (start + b * 32) / 256 in
    let lo := Z.max (c * 256) start in let hi := Z.min ((c + 1) * 256) (start + k) in
    pl_link pl = LINK_HEAD_SLICE -> role (op_input o) = ROLE_HEADS -> entry_of M (pl_src pl) = Some se -> role se = ROLE_PRODUCT -> e_m se = n_exp (op_input o) * stride -> k <= stride ->
    slot_input xs -> link_block seed i xs layout k = Ret (Some b) ->
    chunk_value ls y_leaf (4 * e_m se) c h -> source_close xs ((lo - start) / 32) (slice h (lo - c * 256) (hi - c * 256)) -> linked.
End Linked.

Section Sound.
Context `{B3 : Blake3, L : Libm} {BL : Blake3Lengths} {BC : Blake3Chunks}.
Context (tier : TierCtx) (M : Model) (HM : model_commits tier M) (HS : model_sane M) (ctx : ChainCtx) (Hctx : chain_ctx_ok ctx).
Context (seed : Hash) (i : Z) (p : Point) (o : Opened) (pl : ProductLink) (Ho : usable (op_input o)) (Hslot : 0 <= op_slot o < 2 ^ 32) (Hpl : chain_ok (Chain_Product pl)).
Context (ls : list (list byte)) (shape : PosShape) (Hr : position_root ls = Ret (pos_root o)) (Hz : zlen ls = ps_n_leaves shape) (Hn : is_u64 (ps_n_leaves shape)).
Context (tok : Z) (Htok : 0 <= tok).
Abbreviation k := (e_k (op_input o)).
Abbreviation bound := (linked M tier ctx ls seed i o pl tok (p_x p)).

Lemma k_small : 0 <= k < 2 ^ 30.
Proof. destruct Ho as [(_ & [Hk0 _] & _) (Hk & _)]. lia. Qed.

Lemma x_one_small : 0 <= x_len k (op_layout o) < 2 ^ 31.
Proof. apply x_len_small, k_small. Qed.

Lemma dev_close xs first v dev : 0 <= first -> block_deviation xs (op_layout o) k first v = Ret dev -> dev_within dev = inr () -> row_close xs (op_layout o) k first v.
Proof.
  intros Hf Hd Hw. destruct (block_deviation_spec xs (op_layout o) k first v) as (dev' & Hd' & Hiff); [pose proof k_small; lia|done|].
  rewrite Hd in Hd'. injection Hd' as <-. by apply Hiff.
Qed.

Lemma glu_link_close xs first h : 0 <= first -> glu_link xs (op_layout o) k first h = Ret (inr ()) -> source_close o xs first h.
Proof.
  intros Hf H. unfold glu_link in H. apply bail_inr in H as [G H]. apply Z.eqb_neq in G. apply bind_inr in H as (dev & Hd & H).
  assert (Hw : dev_within dev = inr ()) by (destruct (dev_within dev) as [|[]]; [done|done]). pose proof (zlen_nonneg h). split; [lia|]. by eapply dev_close.
Qed.

(** The drawn block of an accepted check. *)
Lemma block_drawn {A} xs (cont : Z -> res (Fail + A)) r : (ob ← link_block seed i xs (op_layout o) k; b ←? ok_or Shape ob; cont b) = Ret (inr r) ->
  exists b, link_block seed i xs (op_layout o) k = Ret (Some b) /\ 0 <= b < k / 32 /\ k mod 32 = 0 /\ cont b = Ret (inr r).
Proof.
  intros H. apply bind_inr in H as (ob & Hb & H). apply try_inr in H as (b & Eb & H). apply ok_or_inr in Eb. subst ob. exists b. split; [done|].
  pose proof k_small. destruct (link_block_spec seed i xs (op_layout o) k) as (o' & Eo' & Hspec); [lia|]. rewrite Hb in Eo'. injection Eo' as <-. by destruct Hspec as (? & ? & _).
Qed.

Lemma check_fragment_binds xs norm scaled : weights_ok norm -> check_fragment tier seed i o pl xs norm scaled = Ret (inr ()) ->
  exists s, scaled = Ret (inr s) /\ unless_collision (fragment_close M seed i o pl xs s).
Proof.
  intros Hno H. pose proof k_small as Hk. unfold check_fragment in H. apply block_drawn in H as (b & Hb & Hbr & Hm & H).
  pose proof (norm_fragment_spec b _ Hbr Hm) as Hf. destruct (norm_fragment b k) as [b0 n] eqn:En. destruct Hf as (Hb0 & _ & Hn0 & Hle & _). assert ((b0 + n) * 32 <= k) by dlia.
  apply try_inr in H as (w & Ew & H). apply try_inr in H as (s & Es & H). exists s. split; [done|]. destruct Hpl as (_ & _ & [Hnm _] & _).
  rewrite !(wrap_id 64 (b0 * 32)), (wrap_id 64 (n * 32)), (wrap_id 64 (k - b0 * 32)), Z.min_l in Ew by (unfold fits; lia).
  eapply unless_mono; [eapply (f32_weights_binds tier M HM HS norm _ _ _ _ w Hno); [..|exact Ew]; lia|]. intros Hw.
  exists b, b0, n, w. split; [done|]. split; [done|]. split; [done|].
  unfold fragment_link in H. cbv zeta in H. rewrite (wrap_id 64 (b0 * 32)), (wrap_id 64 ((b0 + n) * 32)), Z.min_l in H by (unfold fits; lia). apply bail_inr in H as [G H].
  rewrite orb_false_iff, !negb_false_iff, !Z.eqb_eq in G. destruct G as [Gs _]. rewrite index_range_Ret in H by lia. cbn [mbind res_bind] in H.
  apply bind_inr in H as (dev & Hd & H). eapply dev_close; [|exact Hd|]; [lia|]. by destruct (dev_within dev) as [|[]]; [|].
Qed.

Lemma slot_row_input xs : slot_row p o = Ret (inr xs) -> slot_input o (p_x p) xs.
Proof.
  intros H. unfold slot_row in H. apply ok_or_inr in H. pose proof x_one_small. assert ((op_slot o + 1) * x_len k (op_layout o) <= 2 ^ 32 * 2 ^ 31) by (apply Z.mul_le_mono_nonneg; lia).
  rewrite (wrap_id 64 (op_slot o + 1)) in H by (unfold fits; lia). rewrite !wrap_id in H by (unfold fits; nia). exact H.
Qed.

Lemma check_token_binds embd norm : weights_ok embd -> weights_ok norm -> pl_link pl = LINK_ATTN_IN -> pl_layer pl = 0 ->
  check_token tier ctx seed i p o pl embd norm tok = Ret (inr ()) -> unless_collision bound.
Proof.
  intros He Hno Hl Hl0 H. apply check_fragment_binds in H as (s & Es & Hfr); [|done]. accepted Es. subst s.
  eapply unless_bind; [exact (embedding_binds tier M HM HS ctx embd tok k a He Hctx Htok E)|]. intros Hemb. eapply unless_mono; [exact Hfr|]. intros Hc. by apply (Linked_Token _ _ _ _ _ _ _ _ _ _ a).
Qed.

Lemma check_norm_binds src norm : leaf_bytes_ok src -> weights_ok norm -> check_norm tier ctx seed i p o pl shape src norm = Ret (inr ()) -> unless_collision bound.
Proof.
  intros Hs Hno H. pose proof k_small. unfold check_norm in H. apply try_inr in H as (leaf & El & H). apply ok_or_inr in El. apply try_inr in H as (h & Eh & H). apply bail_inr in H as [G H].
  rewrite negb_false_iff in G. apply try_inr in H as (xs & Exs & H). rewrite wrap_id in Eh by (unfold fits; lia). apply check_fragment_binds in H as (s & [= <-] & Hfr); [|done].
  assert (Hleaf : 0 <= leaf).
  { unfold norm_source in El. destruct (_ =? LINK_ATTN_IN); [destruct (0 <? _); [|done]; injection El as <-; apply resid_leaf_nonneg|].
    destruct (_ =? LINK_FFN_IN); [injection El as <-; apply resid_leaf_nonneg|]. destruct (_ =? LINK_HEAD); [|done]. destruct (0 <? _); [|done]. injection El as <-. apply resid_leaf_nonneg. }
  eapply unless_bind; [exact (whole_leaf_binds (pos_root o) ls shape Hr Hz Hn leaf src _ h Hleaf Hs Eh)|]. intros Hh. eapply unless_mono; [exact Hfr|]. intros Hc.
  apply (Linked_Norm _ _ _ _ _ _ _ _ _ _ leaf h xs); try done. destruct (Z.eqb_spec (zlen (p_x p)) (x_len k (op_layout o))); [left; split; [done|congruence]|right; by apply slot_row_input].
Qed.

(** ** Inputs that are committed outputs *)

Lemma first_block b : b / CHUNK_BLOCKS * B3_CHUNK / 128 = b / CHUNK_BLOCKS * CHUNK_BLOCKS.
Proof. change CHUNK_BLOCKS with 8. unfold B3_CHUNK. dlia. Qed.

Lemma check_source_binds src y : entry_ok src -> leaf_chunk_ok y -> pl_link pl = LINK_GLU \/ pl_link pl = LINK_DIRECT -> n_exp (op_input o) = 1 ->
  check_source tier seed i p o pl shape src y = Ret (inr ()) -> unless_collision bound.
Proof.
  intros Hs Hy Hl H1 H. pose proof k_small as Hk. destruct Hpl as (_ & _ & _ & [Hsrc Hsrc32]). unfold check_source in H. cbv zeta in H.
  apply try_inr in H as (se & E & H). apply try_inr in H as (m_out & Em & H). apply ok_or_inr in Em. apply bail_inr in H as [G H]. rewrite orb_false_iff, negb_false_iff, Z.eqb_eq in G. destruct G as [-> _].
  apply block_drawn in H as (b & Hb & Hbr & Hm & H). apply try_inr in H as (h & Eh & H). rewrite (wrap_id 64 (4 * k)) in Eh by (unfold fits; lia). assert (Hcb : 0 <= b / CHUNK_BLOCKS < 2 ^ 25) by (change CHUNK_BLOCKS with 8; dlia).
  rewrite wrap_id in H by (unfold fits, B3_CHUNK; lia). rewrite first_block in H.
  apply glu_link_close in H; [|change CHUNK_BLOCKS with 8 in *; lia].
  eapply unless_bind; [exact (opened_entry tier M HM HS _ _ se Hsrc Hs E)|]. intros [Hse _].
  eapply unless_mono; [eapply (leaf_chunk_binds (pos_root o) ls shape Hr Hz Hn (2 * pl_src pl + 1) y (4 * k) (b / CHUNK_BLOCKS) h); [lia|exact Hy|lia|lia|exact Eh]|]. intros Hh.
  by apply (Linked_Source _ _ _ _ _ _ _ _ _ _ se b h).
Qed.

Lemma check_head_slice_binds src y : entry_ok src -> leaf_chunk_ok y -> pl_link pl = LINK_HEAD_SLICE -> role (op_input o) = ROLE_HEADS ->
  check_head_slice tier seed i p o pl shape src y = Ret (inr ()) -> unless_collision bound.
Proof.
  intros Hs Hy Hl Hrole H. pose proof k_small as Hk. destruct Hpl as (_ & _ & _ & [Hsrc Hsrc32]). unfold check_head_slice in H. cbv zeta in H.
  apply try_inr in H as (se & E & H). apply bail_inr in H as [G H]. apply bail_inr in H as [G2 H]. rewrite !orb_false_iff, !negb_false_iff, !Z.eqb_eq, Z.ltb_ge in G. destruct G as [[[G1 Gx] Gh] Gm].
  rewrite !orb_false_iff, !negb_false_iff, !Z.eqb_eq, Z.ltb_ge in G2. destruct G2 as [[Gk _] _]. apply try_inr in H as (xs & Exs & H). apply slot_row_input in Exs.
  apply block_drawn in H as (b & Hb & Hbr & Hm & H). apply try_inr in H as (h & Eh & H). apply try_inr in H as (vals & Ev & H). apply ok_or_inr in Ev.
  eapply unless_bind; [exact (opened_entry tier M HM HS _ _ se Hsrc Hs E)|]. intros [Hse [(_ & _ & [Hm0 _] & _) (_ & Hm29 & _)]].
  assert (Hem : e_m se = n_exp (op_input o) * (e_m se / n_exp (op_input o))) by (pose proof (Z.div_mod (e_m se) (n_exp (op_input o)) ltac:(lia)); lia).
  set (stride := e_m se / n_exp (op_input o)) in *. assert (Hst : 0 <= stride < 2 ^ 29) by (clear - Hem Hm29 Hm0 Gh; nia).
  assert (Hstart : 0 <= op_slot o * stride < 2 ^ 61) by (clear - Hst Hslot; nia). assert (Hb32 : 0 <= b * 32 < 2 ^ 30) by (clear - Hbr Hk; dlia).
  assert (W1 : wrap 64 (op_slot o * stride) = op_slot o * stride) by (apply wrap_id; clear - Hstart; unfold fits; lia).
  assert (W2 : wrap 64 (b * 32) = b * 32) by (apply wrap_id; clear - Hb32; unfold fits; lia).
  assert (W3 : wrap 64 (op_slot o * stride + b * 32) = op_slot o * stride + b * 32) by (apply wrap_id; clear - Hstart Hb32; unfold fits; lia).
  rewrite W1, W2, W3 in Eh, Ev, H. clear W1 W2 W3.
  change (B3_CHUNK / 4) with 256 in *. assert (Hcd : forall s : Z, 0 <= s -> 0 <= (s + b * 32) / 256 <= s + b * 32 /\ (s + b * 32) / 256 * 256 <= s + b * 32 < ((s + b * 32) / 256 + 1) * 256) by (clear - Hb32; intros; dlia).
  specialize (Hcd (op_slot o * stride) (proj1 Hstart)). assert (Hbk : b * 32 < k) by (clear - Hbr; dlia).
  set (start := op_slot o * stride) in *. set (c := (start + b * 32) / 256) in *. assert (Hc : 0 <= c < 2 ^ 62) by lia. assert (Es : start = op_slot o * stride) by done. assert (Ec : c = (start + b * 32) / 256) by done. clearbody c start.
  rewrite (wrap_id 64 (c * 256)), (wrap_id 64 (c + 1)), (wrap_id 64 ((c + 1) * 256)), (wrap_id 64 (start + k)) in Ev by (unfold fits; lia). rewrite (wrap_id 64 (c * 256)) in H by (unfold fits; lia).
  set (lo := Z.max (c * 256) start) in *. set (hi := Z.min ((c + 1) * 256) (start + k)) in *. assert (Hhi : c * 256 <= hi) by (unfold hi; lia).
  rewrite (wrap_id 64 (lo - c * 256)), (wrap_id 64 (hi - c * 256)) in Ev by (unfold fits, lo, hi in *; lia). rewrite (wrap_id 64 (lo - start)) in H by (unfold fits, lo; lia).
  apply get_range_Some in Ev as (_ & _ & ->). apply glu_link_close in H; [|apply Z.div_pos; unfold lo; lia]. rewrite wrap_id in Eh by (unfold fits; lia).
  eapply unless_mono; [eapply (leaf_chunk_binds (pos_root o) ls shape Hr Hz Hn (2 * pl_src pl + 1) y (4 * e_m se) c h); [lia|exact Hy|lia|lia|exact Eh]|]. intros Hh.
  subst c start. by apply (Linked_Head _ _ _ _ _ _ _ _ _ _ se xs b h).
Qed.

Lemma check_expert_source_binds src y ids : entry_ok src -> leaf_chunk_ok y -> expert_ids_ok ids -> pl_link pl = LINK_GLU -> 1 < n_exp (op_input o) ->
  check_expert_source tier ctx seed i p o pl shape src y ids = Ret (inr ()) -> unless_collision bound.
Proof.
  intros Hs Hy [_ [_ Hip]] Hl Hx H. pose proof k_small as Hk. destruct Hpl as (_ & _ & _ & [Hsrc Hsrc32]). pose proof Hctx as (_ & _ & _ & [Hu0 Hu]). unfold check_expert_source in H. cbv zeta in H.
  apply try_inr in H as (se & E & H). apply bail_inr in H as [G H]. rewrite !orb_false_iff, !negb_false_iff, !Z.eqb_eq in G. destruct G as [[G1 G2] G3].
  assert (Hk4 : wrap 64 (k * 4) = k * 4) by (apply wrap_id; unfold fits; lia). rewrite Hk4 in H. apply bail_inr in H as [Gp H].
  eapply unless_bind; [exact (opened_entry tier M HM HS _ _ se Hsrc Hs E)|]. intros [Hse [(_ & _ & [Hm0 _] & _) (_ & Hm29 & _)]]. rewrite G3 in Hm29.
  assert (Hbody : 0 <= cc_n_used ctx * k <= (2 ^ 32 - 1) * (2 ^ 29 - 1)) by (split; [clear - Hu0 Hk; nia|apply Z.mul_le_mono_nonneg; lia]).
  rewrite (wrap_id 64 (cc_n_used ctx * k)) in H by (unfold fits; lia). rewrite (wrap_id 64 (cc_n_used ctx * k * 4)) in H by (unfold fits; lia). rewrite (wrap_id 64 (_ + 4 * cc_n_used ctx)) in H by (unfold fits; lia).
  set (total := cc_n_used ctx * k * 4 + 4 * cc_n_used ctx) in *. assert (Ht63 : total < 2 ^ 63) by (unfold total; lia).
  apply try_inr in H as (hh & Eh & H). apply ok_or_inr in Eh. apply bail_inr in H as [Gv H]. rewrite negb_false_iff in Gv. apply try_inr in H as (id & Eid & H). apply ok_or_inr, get_range_Some in Eid as (_ & _ & ->).
  apply bail_inr in H as [Gid H]. rewrite negb_false_iff, Z.eqb_eq in Gid. apply try_inr in H as (xs & Exs & H). apply slot_row_input in Exs. apply block_drawn in H as (b & Hb & Hbr & Hm & H).
  apply try_inr in H as (h & Ehv & H). assert (Hps : 0 <= k * 4 / B3_CHUNK < 2 ^ 22) by (clear - Hk; unfold B3_CHUNK; dlia). assert (Hsp : 0 <= op_slot o * (k * 4 / B3_CHUNK) <= 2 ^ 32 * 2 ^ 22) by (split; [clear - Hslot Hps; nia|clear - Hslot Hps; apply Z.mul_le_mono_nonneg; lia]).
  assert (Hcb : 0 <= b / CHUNK_BLOCKS < 2 ^ 25) by (clear - Hbr Hk; change CHUNK_BLOCKS with 8; dlia). set (sp := op_slot o * (k * 4 / B3_CHUNK)) in *.
  assert (W1 : wrap 64 sp = sp) by (apply wrap_id; clear - Hsp; unfold fits; lia). assert (W2 : wrap 64 (sp + b / CHUNK_BLOCKS) = sp + b / CHUNK_BLOCKS) by (apply wrap_id; clear - Hsp Hcb; unfold fits; lia).
  assert (W3 : wrap 64 (sp + b / CHUNK_BLOCKS - sp) = b / CHUNK_BLOCKS) by (rewrite wrap_id; clear - Hcb; unfold fits; lia).
  assert (W4 : wrap 64 (b / CHUNK_BLOCKS * B3_CHUNK) = b / CHUNK_BLOCKS * B3_CHUNK) by (apply wrap_id; clear - Hcb; unfold fits, B3_CHUNK; lia).
  rewrite W1, W2 in Ehv. rewrite W1, W2, W3, W4 in H. clear W1 W2 W3 W4. assert (Hidx : 0 <= sp + b / CHUNK_BLOCKS) by (clear - Hsp Hcb; lia). rewrite first_block in H.
  apply glu_link_close in H; [|clear - Hcb; change CHUNK_BLOCKS with 8 in *; lia]. assert (Hh : is_hash hh) by exact (b3_leaf_from_chunk_hash _ _ _ _ _ Hip Eh). pose proof Hy as (_ & _ & _ & _ & [_ Hlp]).
  eapply unless_bind; [exact (trace_leaf_binds ls _ (pos_root o) (2 * pl_src pl + 1) _ _ Hr Hz Hn ltac:(clear - Hsrc; lia) Hh Hlp Gv)|]. intros (d & Hd & <-).
  assert (Hbc : 0 <= cc_n_used ctx * k * 4 / B3_CHUNK) by (apply Z.div_pos; [clear - Hbody; lia|done]).
  eapply unless_bind; [exact (raw_chunk_binds ls d _ _ _ _ _ Hd Ht63 Hbc Hip Eh)|]. intros Hraw.
  eapply unless_mono; [eapply (leaf_chunk_binds (pos_root o) ls shape Hr Hz Hn (2 * pl_src pl + 1) y total (sp + b / CHUNK_BLOCKS) h); [clear - Hsrc; lia|exact Hy|exact Hidx|exact Ht63|exact Ehv]|]. intros Hval.
  by apply (Linked_Expert _ _ _ _ _ _ _ _ _ _ se (ids_chunk ids) xs b h).
Qed.

Lemma check_link_binds link : link_ok link -> check_link tier ctx seed i p o pl shape link tok = Ret (inr ()) -> unless_collision bound.
Proof.
  intros Hl H. unfold check_link in H. cbv zeta in H. destruct link as [|src norm|embd norm|src y [ids|]]; cbn in Hl.
  - destruct (Z.eqb_spec (pl_link pl) LINK_NONE); [|done]. apply bind_inr in H as (ok & Hp & H). apply bail_inr in H as [G _]. rewrite negb_false_iff in G. subst ok. apply unless_ret. by apply Linked_None.
  - destruct (_ || _); [|done]. destruct Hl. by apply (check_norm_binds src norm).
  - destruct (Z.eqb_spec (pl_link pl) LINK_ATTN_IN), (Z.eqb_spec (pl_layer pl) 0); try done. destruct Hl. by apply (check_token_binds embd norm).
  - destruct (Z.eqb_spec (pl_link pl) LINK_GLU), (Z.ltb_spec 1 (n_exp (op_input o))); try done. destruct Hl as (Hs & Hy & Hids). by apply (check_expert_source_binds src y ids).
  - destruct Hl as (Hs & Hy & _). destruct ((_ || _) && _) eqn:G.
    + rewrite andb_true_iff, orb_true_iff, !Z.eqb_eq in G. destruct G as [G1 G2]. by apply (check_source_binds src y).
    + destruct (Z.eqb_spec (pl_link pl) LINK_HEAD_SLICE), (Z.eqb_spec (role (op_input o)) ROLE_HEADS); try done. by apply (check_head_slice_binds src y).
Qed.
End Sound.

(** ** The point and its link *)

(** A stage-2 point: the element of [point_bound], whose product has a link, at a layer of the model, that its committed input obeys. *)
Definition chain_point_bound `{B3 : Blake3, L : Libm} (M : Model) (T : TraceData) (tier : TierCtx) (ctx : ChainCtx) (resp : ResponseCtx) (seed : Hash) (i tok : Z) (rep : Report) : Prop :=
  exists o pl ls x, point_bound M T tier resp seed i (shape tier ctx tok) rep o ls x
    /\ chain (op_input o) = Chain_Product pl /\ (pl_link pl = LINK_HEAD \/ pl_layer pl < cc_n_layers ctx)
    /\ linked M tier ctx ls seed i o pl tok x.

Lemma chain_point_bound_of `{B3 : Blake3, L : Libm} {BL : Blake3Lengths} {BC : Blake3Chunks} (tier : TierCtx) (M : Model) (T : TraceData)
    (ctx : ChainCtx) (resp : ResponseCtx) (seed : Hash) (i : Z) (p : Point) (tok : Z) (link : LinkOpening) (ids : option ExpertIds) (rep : Report) :
  model_commits tier M -> model_sane M -> 0 <= n_products tier < 2 ^ 32 -> chain_ctx_ok ctx ->
  trace_commits resp (n_pos_leaves (n_products tier) (cc_n_layers ctx) (n_router ctx)) T -> is_u32 (n_pos resp) ->
  point_ok p -> link_ok link -> option_ok expert_ids_ok ids -> 0 <= tok ->
  verify_chain_point tier ctx resp seed i p tok link ids = Ret (inr rep) ->
  unless_collision (chain_point_bound M T tier ctx resp seed i tok rep).
Proof.
  intros HM HS Hnp Hctx HT Hpos Hp Hl Hids Htok H. pose proof HM as (Hn & Hcm & Hnc & _). assert (Hnp64 : is_u64 (n_products tier)) by (unfold fits; lia).
  unfold verify_chain_point in H. cbv zeta in H. apply try_inr in H as ([report o] & Ep & H). pose proof Hctx as (_ & _ & _ & Hu).
  eapply unless_bind; [exact (committed_point_sane tier (md_entries M) p Hn Hcm Hp HS)|]. intros Hsane.
  destruct (verify_point_yields tier p Hn Hnc Hsane resp seed i (shape tier ctx tok) ids Hnp64 Hpos Hu) as (r & Er & Hr). rewrite Ep in Er. injection Er as <-. destruct Hr as (Ho & Hslot & _).
  eapply unless_bind; [exact (point_binds tier M HM HS Hnp64 (proj2 Hnp) resp T (shape tier ctx tok) HT ltac:(apply (wrap_fits 64); lia) Hu seed i p ids report o Hp Hids Ep)|]. intros (ls & Hb).
  destruct (chain (op_input o)) as [|pl|ll] eqn:Ec; [done| |done]. apply bail_inr in H as [G H]. apply try_inr in H as ([] & Elink & H). injection H as <-.
  assert (Hpl : chain_ok (Chain_Product pl)) by (destruct Ho as [Hw _]; unfold widths in Hw; rewrite Ec in Hw; tauto). pose proof HT as (_ & _ & Hn64 & _).
  pose proof Hb as (d & e & hi & xs & _ & _ & _ & Hroot & Hz & _).
  eapply unless_mono; [exact (check_link_binds tier M HM HS ctx Hctx seed i p o pl Ho Hslot Hpl ls (shape tier ctx tok) Hroot Hz Hn64 tok Htok link Hl Elink)|]. intros Hlinked.
  exists o, pl, ls, (p_x p). split; [exact Hb|]. split; [done|]. split; [|exact Hlinked]. rewrite andb_false_iff, negb_false_iff, Z.eqb_eq, Z.leb_gt in G. tauto.
Qed.


(** ** A concrete point *)

Section Witnesses.
Import Toy SampleTrace.Sample.

Lemma chain_point_fits : point_ok (point ChainTotal.seed 0) /\ link_ok link.
Proof. unfold point_ok, link_ok, link, weights_ok, entry_ok, range_ok, chunks_ok, bytes_ok, bytes16_ok, hashes_ok, list_ok, option_ok, is_hash. split; evaluate. Qed.
Lemma chain_point_accepted : exists rep, verify_chain_point tier ctx resp ChainTotal.seed 0 (point ChainTotal.seed 0) 0 link None = Ret (inr rep).
Proof. eexists. vm_compute. reflexivity. Qed.

End Witnesses.
