(* ===== verification/BlockTask.v ===== *)
(** * The task of a block ([verifiable-inference/src/block_task.rs])

    From activation on, a block carries the trace root of a short pass of the tier
    model over 32 tokens drawn from a recent chain block.  The seed block of a task
    window, the tokens of the task and the verification of a block's task opening: the
    chain points, the prefix point and the residual point of the same trace, each at a
    position whose token is the one the task puts there. *)
From S2P Require Import Prelude Float Magnitude Merkle Seq Wire Opening Quant Manifest VerifyPoint Commitment PointSound Links Prefix Chain SampleTrace ChainTotal ChainSound LinkSound.
From stdpp Require Import strings.
#[local] Open Scope Z_scope.

Definition WINDOW_DAA : Z := 64.
Definition LAG_DAA : Z := 16.
Definition TASK_LEN : Z := PREFIX_LEN.
Definition INPUT_DOMAIN : list byte := String.list_byte_of_string "KeryxBlockTaskV1".
Definition DRAW_DOMAIN : list byte := String.list_byte_of_string "KeryxBlockTaskDrawV1".

(** Task window of a block at [daa]. *)
Definition window (daa : Z) : option Z := d ← checked_sub daa LAG_DAA; Some (d / WINDOW_DAA).
(** First DAA of window [w]. *)
Definition window_start (w : Z) : Z := wrap 64 (w * WINDOW_DAA).

(** Seed block of the window starting at [start]: the first block of the chain, walked back from the selected
    parent, whose DAA score is at most [start]. *)
Fixpoint window_seed (start : Z) (chain : list (Hash * Z)) : option Hash :=
  match chain with
  | [] => None
  | (h, daa) :: chain => if daa <=? start then Some h else window_seed start chain
  end.

Section Task.
Context `{B3 : Blake3, L : Libm}.

(** The 32 bytes that select the task tokens of a window. *)
Definition task_bytes (window_seed : Hash) : Hash := blake3_hash (INPUT_DOMAIN ++ window_seed).

(** Token ids of the task. *)
Definition task_tokens (table : list Z) (window_seed : Hash) : res (list Z) :=
  mapM (M:=res) (fun b => index table (u8_of_byte b)) (task_bytes window_seed).

(** Draw seed of a block's task opening. *)
Definition draw_seed (block_hash : Hash) : Hash := blake3_hash (DRAW_DOMAIN ++ block_hash).

(** The tier's prefix context with the task at position 0. *)
Definition task_prefix (prefix : PrefixCtx) : PrefixCtx := {|
  px_table := px_table prefix; px_offset := 0; px_embd_entry := px_embd_entry prefix; px_norm_entry := px_norm_entry prefix;
  px_eps := px_eps prefix; px_embd_scale := px_embd_scale prefix;
|}.

(** The token of the task at position [t]. *)
Definition tok_at (pc : PrefixCtx) (bytes : Hash) (t : Z) : res (Fail + Z) :=
  o ← expected_token pc bytes t; ok_or Shape o.

(** The points of the opening with their links, from number [i] on. *)
Fixpoint verify_task_points (tier : TierCtx) (ctx : ChainCtx) (pc : PrefixCtx) (resp : ResponseCtx) (seed bytes : Hash)
    (experts : list (option ExpertIds)) (i : Z) (steps : list (Point * (Z * LinkOpening))) : res (Fail + unit) :=
  match steps with
  | [] => Ret (inr ())
  | (p, (tok, link)) :: steps =>
    ids ← index experts i;
    r ←? verify_chain_point tier ctx resp seed i p tok link ids;
    tok' ←? tok_at pc bytes (rep_t r);
    bail Mismatch if negb (tok =? tok');
    verify_task_points tier ctx pc resp seed bytes experts (i + 1) steps
  end.

(** Verify a block's task opening against the task root in its header. *)
Definition verify_block_task (tier : TierCtx) (ctx : ChainCtx) (prefix : PrefixCtx) (task_root window_seed block_hash : Hash) (opening : Opening)
  : res (Fail + unit) :=
  match Opening.prefix opening, resid opening with
  | Some pp, Some rp =>
    bail Shape if negb (zlen (points opening) =? POINTS) || negb (zlen (links opening) =? zlen (points opening))
      || negb (zlen (experts opening) =? zlen (points opening));
    let pc := task_prefix prefix in
    let bytes := task_bytes window_seed in
    let resp := {| resp_trace_root := task_root; n_prompt := TASK_LEN; n_pos := TASK_LEN |} in
    let seed := draw_seed block_hash in
    _ ←? verify_task_points tier ctx pc resp seed bytes (experts opening) 0 (zip (points opening) (links opening));
    _ ←? verify_chain_prefix_point tier ctx pc resp seed bytes pp;
    _ ←? verify_resid_point tier ctx resp seed rp;
    let layer := resid_site (draw seed RESID_POINT 1) (2 * cc_n_layers ctx) / 2 in
    t ←? resid_position ctx resp layer (draw seed RESID_POINT 0);
    tok ←? tok_at pc bytes t;
    bail Mismatch if negb (r_tok rp =? tok);
    Ret (inr ())
  | _, _ => Ret (inl Shape)
  end.
End Task.

(** ** The seed block of a window *)

Lemma window_exact daa w : is_u64 daa -> window daa = Some w <-> LAG_DAA <= daa /\ window_start w <= daa - LAG_DAA < window_start w + WINDOW_DAA /\ 0 <= w < 2 ^ 58.
Proof.
  intros [Hd0 Hd]. unfold window, window_start, checked_sub, LAG_DAA, WINDOW_DAA. destruct (Z.leb_spec 16 daa); cbn [mbind option_bind]; [|split; [done|lia]].
  split; [intros [= <-]; rewrite wrap_id by (unfold fits; dlia); split; [lia|]; split; dlia|]. intros (_ & Hw & Hwr). rewrite wrap_id in Hw by (unfold fits; lia). f_equal. dlia.
Qed.

(** The seed is the first block at or below the start. *)
Lemma window_seed_first start chain h : window_seed start chain = Some h <->
  exists k d, chain !! k = Some (h, d) /\ d <= start /\ forall j h' d', (j < k)%nat -> chain !! j = Some (h', d') -> start < d'.
Proof.
  induction chain as [|[h0 d0] chain IH]; cbn [window_seed]; [split; [done|by intros (k & d & ? & _)]|]. destruct (Z.leb_spec d0 start).
  - split; [intros [= ->]; exists O, d0; split; [done|]; split; [done|]; lia|]. intros ([|k] & d & Hk & _ & Hj); [cbn in Hk; congruence|]. specialize (Hj O h0 d0 ltac:(lia) eq_refl). lia.
  - rewrite IH. split; intros (k & d & Hk & Hle & Hj).
    + exists (S k), d. split; [done|]. split; [done|]. intros [|j] h' d' Hlt; [by intros [= <- <-]|]. apply Hj. lia.
    + destruct k as [|k]; [injection Hk as -> ->; lia|]. exists k, d. split; [done|]. split; [done|]. intros j h' d' Hlt. apply (Hj (S j)). lia.
Qed.

(** Along a chain of falling scores, a later block has a smaller one. *)
Lemma scores_fall (chain : list (Hash * Z)) j k h d h' d' : StronglySorted (fun a b => b.2 < a.2) chain ->
  (k < j)%nat -> chain !! k = Some (h, d) -> chain !! j = Some (h', d') -> d' < d.
Proof.
  revert j k. induction chain as [|[h0 d0] chain IH]; intros [|j] [|k] Hs Hlt Hk Hj; try done; try lia; apply StronglySorted_inv in Hs as [Hs Hf].
  - injection Hk as -> ->. rewrite Forall_forall in Hf. exact (Hf (h', d') (list_elem_of_lookup_2 chain j _ Hj)).
  - apply (IH j k Hs); [lia|done..].
Qed.

(** C34: The window of a block and its seed are those of every block that builds on the same chain.  A block at [daa] has
    the window whose start is at most [daa - 16] and less than a window earlier, and none before DAA 16; the
    seed is the first block of the chain at or below the window's start, the one of greatest DAA when scores
    fall along the chain, and blocks above the window's start added in front never change it. *)
Theorem window_seed_exact (daa start : Z) (chain : list (Hash * Z)) : is_u64 daa ->
  (forall w, window daa = Some w <-> LAG_DAA <= daa /\ window_start w <= daa - LAG_DAA < window_start w + WINDOW_DAA /\ 0 <= w < 2 ^ 58)
  /\ (forall h, window_seed start chain = Some h <-> exists k d, chain !! k = Some (h, d) /\ d <= start /\ forall j h' d', (j < k)%nat -> chain !! j = Some (h', d') -> start < d')
  /\ (StronglySorted (fun a b => b.2 < a.2) chain -> forall h, window_seed start chain = Some h ->
       exists d, (h, d) ∈ chain /\ d <= start /\ forall h' d', (h', d') ∈ chain -> d' <= start -> d' <= d)
  /\ (forall above, Forall (fun b => start < b.2) above -> window_seed start (above ++ chain) = window_seed start chain).
Proof.
  intros Hd. split; [intros w; by apply window_exact|]. split; [intros h; apply window_seed_first|]. split.
  - intros Hs h Hh. apply window_seed_first in Hh as (k & d & Hk & Hle & Hj). exists d. split; [by eapply list_elem_of_lookup_2|]. split; [done|]. intros h' d' (j & Hin)%list_elem_of_lookup Hle'.
    destruct (Nat.lt_trichotomy j k) as [Hlt|[->|Hlt]]; [specialize (Hj j h' d' Hlt Hin); lia|rewrite Hk in Hin; by injection Hin as <- <-|].
    pose proof (scores_fall chain j k h d h' d' Hs Hlt Hk Hin). lia.
  - intros above. induction above as [|[h0 d0] above IH]; [done|]. intros [H0 HF]%Forall_cons. cbn in H0. cbn [app window_seed]. destruct (Z.leb_spec d0 start); [lia|]. by apply IH.
Qed.

(** ** What an accepted task shows *)

(** The token the task puts at position [t]. *)
Definition task_token `{B3 : Blake3} (table : list Z) (wseed : Hash) (t tok : Z) : Prop :=
  0 <= t < TASK_LEN /\ exists b, get_at (task_bytes wseed) t = Some b /\ get_at table (u8_of_byte b) = Some tok.

Definition task_resp (task_root : Hash) : ResponseCtx := {| resp_trace_root := task_root; n_prompt := TASK_LEN; n_pos := TASK_LEN |}.

(** The trace committed in the header is, at every place the block's hash draws, a pass of the tier model over the task. *)
Definition task_bound `{B3 : Blake3, L : Libm} (M : Model) (T : TraceData) (tier : TierCtx) (ctx : ChainCtx) (prefix : PrefixCtx) (task_root wseed block : Hash) : Prop :=
  let resp := task_resp task_root in let seed := draw_seed block in
  (forall i, 0 <= i < POINTS -> exists tok rep, chain_point_bound M T tier ctx resp seed i tok rep /\ task_token (px_table prefix) wseed (rep_t rep) tok)
  /\ (exists t, prefix_bound M T (task_prefix prefix) resp seed (task_bytes wseed) (fun tok => shape tier ctx tok) true t)
  /\ exists layer kind t tok, resid_drawn ctx resp seed = Ret (inr (layer, kind, t)) /\ task_token (px_table prefix) wseed t tok
       /\ resid_bound M T tier ctx resp seed tok.

Section TaskTokens.
Context `{B3 : Blake3} {BL : Blake3Lengths} (prefix : PrefixCtx) (Hprefix : prefix_ctx_ok prefix).
Lemma task_prefix_ok : prefix_ctx_ok (task_prefix prefix).
Proof. destruct Hprefix as (H1 & H2 & _ & H4 & H5). split; [done|]. split; [done|]. split; [unfold PREFIX_LEN; cbn; lia|]. by split. Qed.

Lemma task_bytes_hash wseed : is_hash (task_bytes wseed).
Proof. apply blake3_hash_len. Qed.

Lemma tok_at_spec wseed t : 0 <= t -> yields (task_token (px_table prefix) wseed t) (tok_at (task_prefix prefix) (task_bytes wseed) t).
Proof.
  intros Ht. unfold tok_at. eapply yields_bind; [exact (expected_token_spec (task_prefix prefix) (task_bytes wseed) t task_prefix_ok (task_bytes_hash wseed) Ht)|].
  intros o Ho. apply yields_ok_or. intros tok ->. destruct Ho as (Hr & _ & b & Hb & Htok). cbn in Hr, Hb, Htok. replace (t - 0) with t in Hb by lia. split; [unfold TASK_LEN, PREFIX_LEN; lia|by exists b].
Qed.

Lemma tok_at_inr wseed t tok : 0 <= t -> tok_at (task_prefix prefix) (task_bytes wseed) t = Ret (inr tok) -> task_token (px_table prefix) wseed t tok.
Proof. intros Ht H. destruct (tok_at_spec wseed t Ht) as (r & Er & Hr). rewrite H in Er. by injection Er as <-. Qed.
End TaskTokens.

Section TaskProofs.
Context `{B3 : Blake3, L : Libm} {BL : Blake3Lengths} {BC : Blake3Chunks}.
Context (tier : TierCtx) (M : Model) (HM : model_commits tier M) (HS : model_sane M) (Hnp : 0 <= n_products tier < 2 ^ 32).
Context (ctx : ChainCtx) (Hctx : chain_ctx_ok ctx) (prefix : PrefixCtx) (Hprefix : prefix_ctx_ok prefix).

(** The points of an accepted task, from number [i] on. *)
Lemma task_points_bound T root wseed block xs i steps : 0 <= i ->
  trace_commits (task_resp root) (n_pos_leaves (n_products tier) (cc_n_layers ctx) (n_router ctx)) T ->
  Forall (fun s : Point * (Z * LinkOpening) => point_ok s.1 /\ is_u32 s.2.1 /\ link_ok s.2.2) steps -> Forall (option_ok expert_ids_ok) xs ->
  verify_task_points tier ctx (task_prefix prefix) (task_resp root) (draw_seed block) (task_bytes wseed) xs i steps = Ret (inr ()) ->
  unless_collision (forall j, i <= j < i + zlen steps -> exists tok rep, chain_point_bound M T tier ctx (task_resp root) (draw_seed block) j tok rep
    /\ task_token (px_table prefix) wseed (rep_t rep) tok).
Proof.
  intros Hi HT Hs Hxs H. revert i Hi H. induction Hs as [|[p [tok link]] steps (Hp & [Htok _] & Hl) Hs IH]; intros i Hi H; [apply unless_ret; intros j Hj; unfold zlen in Hj; cbn in Hj; lia|].
  cbn [verify_task_points] in H. apply bind_inr in H as (ids & Eids & H). apply try_inr in H as (rep & Erep & H). apply try_inr in H as (tok' & Etok & H). apply bail_inr in H as [G H].
  rewrite negb_false_iff, Z.eqb_eq in G. subst tok'. apply index_get in Eids. cbn [fst snd] in *.
  assert (Hids : option_ok expert_ids_ok ids). { unfold get_at in Eids. destruct (0 <=? i); [|done]. by eapply (Forall_lookup_1 _ _ _ _ Hxs). }
  eapply unless_bind; [exact (chain_point_bound_of tier M T ctx (task_resp root) (draw_seed block) i p tok link ids rep HM HS Hnp Hctx HT ltac:(unfold fits; cbn; unfold TASK_LEN, PREFIX_LEN; lia) Hp Hl Hids Htok Erep)|]. intros Hb.
  assert (Ht : 0 <= rep_t rep). { destruct Hb as (o & pl & ls & x & (d & e & hi & xs' & _ & _ & Hg & _ & _ & _ & _ & Hrest) & _). cbv zeta in Hrest. destruct Hrest as (_ & _ & _ & _ & _ & _ & -> & _).
    unfold get_at in Hg. by destruct (Z.leb_spec 0 (dr_t d)). }
  apply (tok_at_inr prefix Hprefix) in Etok; [|done]. eapply unless_mono; [exact (IH (i + 1) ltac:(lia) H)|]. intros Hrest j Hj. rewrite zlen_cons in Hj.
  destruct (Z.eqb_spec j i) as [->|]; [by exists tok, rep|]. apply Hrest. lia.
Qed.
End TaskProofs.

(** ** The task opening *)

(** The points of a task opening go with their links. *)
Lemma opening_steps op : opening_ok op -> zlen (links op) = zlen (points op) -> zlen (experts op) = zlen (points op) ->
  Forall (fun s : Point * (Z * LinkOpening) => point_ok s.1 /\ is_u32 s.2.1 /\ link_ok s.2.2) (zip (points op) (links op)) /\ Forall (option_ok expert_ids_ok) (experts op).
Proof.
  intros (_ & [_ Hp] & Hle & Hs & _) Hl He. split.
  - apply Forall_lookup. intros j [p [tok link]] Hj. apply lookup_zip_Some in Hj as [Hpj Hlj]. split; [by apply (Forall_lookup_1 _ _ _ _ Hp Hpj)|].
    destruct (lookup_lt_is_Some_2 (experts op) j) as [x Hx]; [apply lookup_lt_Some in Hlj; lia|].
    destruct (Forall_lookup_1 _ _ j ((tok, link), x) Hs) as (H1 & H2 & _); [by apply lookup_zip_Some|]. by split.
  - apply Forall_lookup. intros j x Hx. destruct (lookup_lt_is_Some_2 (links op) j) as [l Hlj]; [apply lookup_lt_Some in Hx; lia|].
    by destruct (Forall_lookup_1 _ _ j (l, x) Hs) as (_ & _ & H); [by apply lookup_zip_Some|].
Qed.

Section TaskVerdict.
Context `{B3 : Blake3, L : Libm} {BL : Blake3Lengths} {BC : Blake3Chunks}.
Context (tier : TierCtx) (M : Model) (HM : model_commits tier M) (HS : model_sane M) (Hnp : 0 <= n_products tier < 2 ^ 32).
Context (ctx : ChainCtx) (Hctx : chain_ctx_ok ctx) (prefix : PrefixCtx) (Hprefix : prefix_ctx_ok prefix).

Lemma block_task_bound T root wseed block op :
  trace_commits (task_resp root) (n_pos_leaves (n_products tier) (cc_n_layers ctx) (n_router ctx)) T -> opening_ok op ->
  verify_block_task tier ctx prefix root wseed block op = Ret (inr ()) -> unless_collision (task_bound M T tier ctx prefix root wseed block).
Proof.
  intros HT Hop H. unfold verify_block_task in H. destruct (Opening.prefix op) as [pp|] eqn:Epp; [|done]. destruct (resid op) as [rp|] eqn:Erp; [|done].
  cbv zeta in H. fold (task_resp root) in H. apply bail_inr in H as [G H]. rewrite !orb_false_iff, !negb_false_iff, !Z.eqb_eq in G. destruct G as [[Gp Gl] Gx].
  pose proof Hop as (_ & _ & _ & _ & Hpp & Hrp & _). rewrite Epp in Hpp. rewrite Erp in Hrp. cbn in Hpp, Hrp. destruct (opening_steps op Hop Gl Gx) as [Hsteps Hids].
  apply try_inr in H as ([] & Epts & H). apply try_inr in H as (pt & Epre & H). apply try_inr in H as ([] & Eres & H). apply try_inr in H as (t & Et & H).
  apply try_inr in H as (tok & Etok & H). apply bail_inr in H as [G _]. rewrite negb_false_iff, Z.eqb_eq in G. subst tok.
  eapply unless_bind; [exact (task_points_bound tier M HM HS Hnp ctx Hctx prefix Hprefix T root wseed block _ 0 _ ltac:(lia) HT Hsteps Hids Epts)|]. intros Hpts.
  eapply unless_bind; [refine (prefix_point_bound tier M HM HS (task_prefix prefix) (task_resp root) _ T _ (task_bytes wseed) pp _ true pt (task_prefix_ok prefix Hprefix) (task_bytes_hash wseed) Hpp HT _ Epre)|].
  { intros tok. split; [done|apply (wrap_fits 64); lia]. }
  intros Hpre. eapply unless_mono; [exact (resid_point_bound tier M T ctx (task_resp root) (draw_seed block) rp HM HS Hctx HT Hrp Eres)|]. intros Hres.
  split; [|split; [by exists pt|]].
  - intros i Hi. apply Hpts. assert (Hz : zlen (zip (points op) (links op)) = POINTS) by (unfold zlen in *; rewrite length_zip_with; lia). lia.
  - pose proof Hres as (layer & kind & t' & ll & rank & pe & ls & Ed & _). assert (Ett : t' = t).
    { unfold resid_drawn in Ed. apply bail_inr in Ed as [_ Ed]. cbv zeta in Ed. apply try_inr in Ed as (t0 & Et0 & [= _ _ <-]). cbn [n_pos task_resp] in *. rewrite Et in Et0. by injection Et0 as <-. }
    subst t'. exists layer, kind, t, (r_tok rp). split; [exact Ed|]. split; [|exact Hres]. apply (tok_at_inr prefix Hprefix); [exact (resid_drawn_t ctx (task_resp root) (draw_seed block) T _ HT _ _ _ Ed)|exact Etok].
Qed.

(** A point is judged, and the position of its report is one of the trace. *)
Lemma task_points_returns root wseed block xs i steps : 0 <= i -> i + zlen steps <= zlen xs ->
  Forall (fun s : Point * (Z * LinkOpening) => point_ok s.1 /\ is_u32 s.2.1 /\ link_ok s.2.2) steps ->
  unless_collision (yields (fun _ => True) (verify_task_points tier ctx (task_prefix prefix) (task_resp root) (draw_seed block) (task_bytes wseed) xs i steps)).
Proof.
  pose proof HM as (Hn & _ & Hc & _). intros Hi Hle Hs. revert i Hi Hle. induction Hs as [|[p [tok link]] steps (Hp & [Htok _] & Hl) Hs IH]; intros i Hi Hle; [by apply unless_ret, yields_ret|].
  rewrite zlen_cons in Hle. pose proof (zlen_nonneg steps). cbn [fst snd] in *. eapply unless_bind; [exact (all_open tier M _ HM HS (point_entries_ok _ Hp))|]. intros Ho.
  eapply unless_bind; [exact (all_open tier M _ HM HS (link_entries_ok _ Hl))|]. intros Hlo. eapply unless_mono; [exact (IH (i + 1) ltac:(lia) ltac:(lia))|]. intros Hrest.
  cbn [verify_task_points]. eapply yields_bind; [apply (returns_index xs i); lia|]. intros ids _.
  eapply (yields_try (fun rep => 0 <= rep_t rep)).
  { assert (Hnp64 : is_u64 (n_products tier)) by (unfold fits; lia). assert (Hpos : is_u32 (n_pos (task_resp root))) by (unfold fits; cbn; unfold TASK_LEN, PREFIX_LEN; lia).
    eapply yields_impl; [exact (chain_point_yields tier Hn Hc ctx (task_resp root) (draw_seed block) i p tok link ids Hctx Hnp64 Hpos Htok (point_entries_ok _ Hp) Ho Hlo)|].
    intros rep Hrep. exact Hrep. }
  intros rep Hrep. eapply yields_try; [by apply (tok_at_spec prefix Hprefix)|]. intros tok' _. apply yields_bail. intros _. exact Hrest.
Qed.

Lemma block_task_returns root wseed block op : opening_ok op -> unless_collision (exists r, verify_block_task tier ctx prefix root wseed block op = Ret r).
Proof.
  intros Hop. pose proof HM as (Hn & _ & Hc & _). unfold verify_block_task. destruct (Opening.prefix op) as [pp|] eqn:Epp; [|apply unless_ret; eauto]. destruct (resid op) as [rp|] eqn:Erp; [|apply unless_ret; eauto].
  cbv zeta. fold (task_resp root). destruct (_ || _ || _) eqn:G; [apply unless_ret; eauto|]. rewrite !orb_false_iff, !negb_false_iff, !Z.eqb_eq in G. destruct G as [[Gp Gl] Gx].
  pose proof Hop as (_ & _ & _ & _ & Hpp & Hrp & _). rewrite Epp in Hpp. rewrite Erp in Hrp. cbn in Hpp, Hrp. destruct (opening_steps op Hop Gl Gx) as [Hsteps _].
  assert (Hz : zlen (zip (points op) (links op)) <= zlen (experts op)) by (unfold zlen in *; rewrite length_zip_with; lia).
  eapply unless_bind; [exact (task_points_returns root wseed block (experts op) 0 _ ltac:(lia) Hz Hsteps)|]. intros Hpts.
  eapply unless_bind; [exact (prefix_point_returns tier M HM HS (task_prefix prefix) (task_resp root) (draw_seed block) (task_bytes wseed) pp (fun tok => shape tier ctx tok) true (task_prefix_ok prefix Hprefix) (task_bytes_hash wseed) Hpp)|]. intros (rpre & Epre).
  eapply unless_mono; [exact (all_open tier M _ HM HS (resid_entries_ok _ Hrp))|]. intros Ho. pose proof Hrp as (_ & [Htok _] & _).
  enough (Hy : yields (fun _ => True) (_ ←? verify_task_points tier ctx (task_prefix prefix) (task_resp root) (draw_seed block) (task_bytes wseed) (experts op) 0 (zip (points op) (links op));
    _ ←? verify_chain_prefix_point tier ctx (task_prefix prefix) (task_resp root) (draw_seed block) (task_bytes wseed) pp;
    _ ←? verify_resid_point tier ctx (task_resp root) (draw_seed block) rp;
    t ←? resid_position ctx (task_resp root) (resid_site (draw (draw_seed block) RESID_POINT 1) (2 * cc_n_layers ctx) / 2) (draw (draw_seed block) RESID_POINT 0);
    tok ←? tok_at (task_prefix prefix) (task_bytes wseed) t; bail Mismatch if negb (r_tok rp =? tok); Ret (inr ()))) by (destruct Hy as (r & Er & _); by exists r).
  eapply yields_try; [exact Hpts|]. intros _ _. eapply (yields_try (fun _ => True)); [unfold verify_chain_prefix_point; rewrite Epre; apply returns_ret; by destruct rpre|]. intros _ _.
  eapply yields_try; [exact (resid_point_yields tier Hc ctx Hctx (task_resp root) (draw_seed block) rp Ho Htok)|]. intros _ _.
  eapply (yields_try (fun t => 0 <= t)).
  { unfold resid_position. cbn [n_pos n_prompt task_resp]. destruct (_ && _); [yielding; apply yields_ret, (wrap_fits 64); lia|]. apply yields_ret. by apply Z.mod_pos_bound. }
  intros t Ht. eapply yields_try; [by apply (tok_at_spec prefix Hprefix)|]. intros tok _. apply yields_bail. intros _. by apply yields_ret.
Qed.
End TaskVerdict.



(** ** A concrete task *)

Section Witnesses.
Import Toy SampleTrace.Sample.

Definition block : Hash := to_le 32 99.
Definition wseed : Hash := to_le 32 1.
Definition task : Opening := let seed := draw_seed block in {|
  response_txid := to_le 32 0; points := point seed <$> [0; 1]; Opening.prefix := Some (prefix_point seed 0);
  Opening.links := [(0, link); (0, link)]; experts := [None; None]; resid := Some (resid_point seed); Opening.roots := None;
|}.
Definition root : Hash := resp_trace_root resp.

Lemma task_fits : opening_ok task.
Proof.
  unfold opening_ok. split; [evaluate|]. split.
  { unfold list_ok. split; [evaluate|]. unfold point_ok, entry_ok, range_ok, chunks_ok, bytes_ok, bytes16_ok, hashes_ok, list_ok, option_ok, weights_ok, is_hash. evaluate. }
  split; [evaluate|]. split.
  { unfold step_ok, link_ok, weights_ok, leaf_bytes_ok, leaf_chunk_ok, option_ok, expert_ids_ok, entry_ok, range_ok, chunks_ok, bytes_ok, bytes16_ok, hashes_ok, list_ok, is_hash.
    repeat (apply Forall_cons; split; [evaluate|]). by apply Forall_nil. }
  split; [unfold prefix_ok, weights_ok, entry_ok, range_ok, chunks_ok, bytes_ok, bytes16_ok, hashes_ok, list_ok, option_ok, is_hash; evaluate|].
  split; [unfold resid_ok, entry_ok, range_ok, chunks_ok, bytes_ok, bytes16_ok, hashes_ok, list_ok, option_ok, is_hash; evaluate|].
  split; [done|]. split; [evaluate|]. by eexists.
Qed.

Lemma prefix_ctx_fits : prefix_ctx_ok prefix_ctx.
Proof. unfold prefix_ctx_ok. evaluate. Qed.

Lemma task_accepted : verify_block_task tier ctx prefix_ctx root wseed block task = Ret (inr ()).
Proof. vm_compute. reflexivity. Qed.



Lemma window_seed_exact_witness : window 80 = Some 1 /\ window_seed 192 [(to_le 32 1, 300); (to_le 32 2, 250); (to_le 32 3, 190); (to_le 32 4, 120)] = Some (to_le 32 3).
Proof.
  destruct (window_seed_exact 80 192 [(to_le 32 1, 300); (to_le 32 2, 250); (to_le 32 3, 190); (to_le 32 4, 120)]) as (Hw & Hs & _); [unfold fits; lia|].
  split; [apply Hw; by vm_compute|]. apply Hs. exists 2%nat, 190. split; [done|]. split; [lia|]. intros [|[|j]] h' d' Hj; [| |lia]; intros [= _ <-]; lia.
Defined.
End Witnesses.
