(* ===== verification/Attn.v ===== *)
(** * One attention head ([verifiable-inference/src/attn.rs])

    The recomputation of one attention head against the committed key and value cache:
    rotary embeddings, the per-head transforms from the projections, the softmax partial
    of a query over a run of positions under the roundings of the kernels, and the shape
    rules that select them.  Vectors updated in place are lists threaded through the
    loop; an index out of range panics. *)
From S2P Require Import Prelude Float Quant VerifyPoint Links Chain.
#[local] Open Scope Z_scope.

Definition ROPE_NORM : Z := 0.
Definition ROPE_NEOX : Z := 1.

(** The functions of the [libm] crate that only the attention and recurrent points call. *)
Class LibmMore := {
  libm_pow : f64 -> f64 -> f64;
  libm_sin : f64 -> f64;
  libm_cos : f64 -> f64;
  libm_log : f64 -> f64;
  libm_log1p : f64 -> f64;
}.

Definition neg_infinity : f64 := S754_infinity true.

(** A loop over [l] that updates [s]. *)
Fixpoint fold_res {A S} (f : S -> A -> res S) (s : S) (l : list A) : res S :=
  match l with
  | [] => Ret s
  | a :: l => s ← f s a; fold_res f s l
  end.

(** Kernel roundings. *)
Inductive Arith := Exact | Q8Query | F16.
Definition ARITHS : list Arith := [Exact; Q8Query; F16].

(** Softmax partial of one query over a run of positions. *)
Record Partial := { pa_o : list f64; pa_m : f64; pa_l : f64 }.

(** Shape of the attention of a layer. *)
Record AttnShape := {
  as_n_head : Z; as_n_head_kv : Z; as_head_dim : Z; as_rope_kind : Z; as_n_rot : Z; as_rope_base : f64; as_kq_scale : f64;
}.

(** Per-head transforms from the projections to the attended query, key and value. *)
Record Prep := {
  pr_q_norm : option (list f32); pr_k_norm : option (list f32); pr_v_norm : bool; pr_freqs : option (list f32); pr_eps : f64;
}.

(** [x.round()], ties away from zero. *)
Definition f32_round (x : f32) : f32 :=
  match x with
  | S754_finite s m e =>
    if 0 <=? e then x else
    let k := - e in
    let q := Zpos m / 2 ^ k + (if 2 ^ k <=? 2 * (Zpos m mod 2 ^ k) then 1 else 0) in
    match q with Zpos q => binary_round 24 128 s q 0 | _ => S754_zero s end
  | _ => x
  end.

Definition f32_div : f32 -> f32 -> f32 := SFdiv 24 128.

(** [f16_round] of an [f64]: through [f32]. *)
Definition f16_round_f64 (x : f64) : f64 := f64_of_f32 (f16_round (f32_of_f64 x)).

Section Head.
Context `{L : Libm, LM : LibmMore}.

(** ** Rotary embeddings *)

Definition theta (pos i n_rot : Z) (base : f64) (ff : option (list f32)) : res f64 :=
  let a := (f64_of_Z pos * libm_pow base (f64_of_Z (-2) * f64_of_Z i / f64_of_Z n_rot))%F in
  f ← match ff with None => Ret one | Some f => f64_of_f32 <$> index f i end;
  Ret (a / f)%F.

(** Turns the pair of [x] at [ia] and [ib] by the angle of pair [i]. *)
Definition turn_pair (pos n_rot : Z) (base : f64) (ff : option (list f32)) (x : list f64) (i ia ib : Z) : res (list f64) :=
  t ← theta pos i n_rot base ff;
  let s := libm_sin t in let c := libm_cos t in
  a ← index x ia; b ← index x ib;
  Ret (<[Z.to_nat ib := (a * s + b * c)%F]> (<[Z.to_nat ia := (a * c - b * s)%F]> x)).

Definition rope_norm (x : list f64) (pos n_rot : Z) (base : f64) (ff : option (list f32)) : res (list f64) :=
  fold_res (fun x i => turn_pair pos n_rot base ff x i (2 * i) (2 * i + 1)) x (seqZ 0 (n_rot / 2)).

Definition rope_neox (x : list f64) (pos n_rot : Z) (base : f64) (ff : option (list f32)) : res (list f64) :=
  let half := n_rot / 2 in
  fold_res (fun x i => turn_pair pos n_rot base ff x i i (i + half)) x (seqZ 0 half).

(** RMS normalization of [x], scaled by [w] when given. *)
Definition attn_rms_norm (x : list f64) (w : option (list f32)) (eps : f64) : res (list f64) :=
  let ms := (f64_sum ((fun a => a * a)%F <$> x) / f64_of_Z (zlen x))%F in
  let r := (one / libm_sqrt (ms + eps))%F in
  mapM (M:=res) (fun '(i, a) => f ← match w with None => Ret one | Some w => f64_of_f32 <$> index w i end; Ret (a * (r * f))%F)
    (zip (seqZ 0 (zlen x)) x).

(** ** Softmax partials *)

(** [q] after [q * scale] is rounded through Q8_1, divided back by [scale]. *)
Definition q8_1_query (q : list f64) (scale : f64) : option (list f64) :=
  if negb (zlen q mod 32 =? 0) || negb (is_finite scale) || SFeqb scale zero then None else
  Some (concat ((fun b =>
    let xs := (fun x => f32_of_f64 (x * scale)%F) <$> b in
    let d := f32_div (foldl f64_max zero (SFabs <$> xs)) (f32_of_Z 127) in
    (fun x => if SFeqb d zero then zero else (f64_of_f32 (f32_round (f32_div x d)) * f64_of_f32 d / scale)%F) <$> xs)
    <$> chunks_exact 32 q)).

(** A key or value read by the kernel. *)
Definition kernel_value (arith : Arith) (x : f32) : f64 := match arith with F16 => f64_of_f32 (f16_round x) | _ => f64_of_f32 x end.

(** The query and score scale the kernel uses. *)
Definition kernel_query (arith : Arith) (q : list f64) (scale : f64) : option (list f64 * f64) :=
  match arith with
  | Exact => Some (q, scale)
  | Q8Query => qv ← q8_1_query q scale; Some (qv, scale)
  | F16 => let sh := f16_round_f64 scale in Some ((fun x => f16_round_f64 (f16_round_f64 x * sh)%F) <$> q, one)
  end.

(** The weighted sum of the values. *)
Definition weigh (arith : Arith) (d : nat) (w : list f64) (values : list (list f32)) : list f64 :=
  foldl (fun o '(wi, v) =>
    let wi := match arith with F16 => f16_round_f64 wi | _ => wi end in
    zip_with (fun a x => a + wi * kernel_value arith x)%F o v) (replicate d zero) (zip w values).

(** Partial of the query [q] over [keys] and [values]; [None] on a shape mismatch, an empty run or a non-finite value. *)
Definition partial (arith : Arith) (q : list f64) (scale : f64) (keys values : list (list f32)) : option Partial :=
  if (zlen keys =? 0) || negb (zlen keys =? zlen values) || existsb (fun k => negb (zlen k =? zlen q)) keys then None else
  v0 ← head values;
  if existsb (fun v => negb (zlen v =? zlen v0)) values then None else
  '(qv, sc) ← kernel_query arith q scale;
  let scores := (fun k => f64_sum (zip_with (fun a b => a * kernel_value arith b)%F qv k) * sc)%F <$> keys in
  let m := foldl f64_max neg_infinity scores in
  if negb (is_finite m) then None else
  let w := (fun x => libm_exp (x - m)%F) <$> scores in
  let l := f64_sum w in
  let o := (fun a => a / l)%F <$> weigh arith (length v0) w values in
  if forallb is_finite o then Some {| pa_o := o; pa_m := m; pa_l := l |} else None.

Definition head_output (q : list f64) (keys values : list (list f32)) (scale : f64) : option (list f64) :=
  pa_o <$> partial Exact q scale keys values.

(** ** Shapes and transforms *)

(** Query heads per key/value head. *)
Definition group (s : AttnShape) : option Z :=
  if (0 <? as_n_head_kv s) && (as_n_head s mod as_n_head_kv s =? 0) && (as_n_rot s <=? as_head_dim s) && (as_n_rot s mod 2 =? 0)
     && ((as_rope_kind s =? ROPE_NORM) || (as_rope_kind s =? ROPE_NEOX))
  then Some (as_n_head s / as_n_head_kv s) else None.

Definition rope (s : AttnShape) (x : list f64) (pos : Z) (ff : option (list f32)) : res (list f64) :=
  if as_rope_kind s =? ROPE_NORM then rope_norm x pos (as_n_rot s) (as_rope_base s) ff
  else rope_neox x pos (as_n_rot s) (as_rope_base s) ff.

(** Whether the weights fit [s]. *)
Definition prep_fits (p : Prep) (s : AttnShape) : bool :=
  match pr_q_norm p with None => true | Some w => zlen w =? as_head_dim s end
  && match pr_k_norm p with None => true | Some w => zlen w =? as_head_dim s end
  && match pr_freqs p with None => true | Some f => (zlen f =? as_n_rot s / 2) && forallb (fun x => is_finite x && SFltb zero x) f end.

Definition rotated (p : Prep) (s : AttnShape) (raw : list f32) (norm : option (list f32)) (pos : Z) : res (list f64) :=
  let x := f64_of_f32 <$> raw in
  x ← match norm with None => Ret x | Some _ => attn_rms_norm x norm (pr_eps p) end;
  rope s x pos (pr_freqs p).

(** Attended query, cached key and cached value of one head at position [pos]. *)
Definition prep_query (p : Prep) (s : AttnShape) (raw : list f32) (pos : Z) : res (list f64) := rotated p s raw (pr_q_norm p) pos.
Definition prep_key (p : Prep) (s : AttnShape) (raw : list f32) (pos : Z) : res (list f64) := rotated p s raw (pr_k_norm p) pos.
Definition prep_value (p : Prep) (raw : list f32) : res (list f64) :=
  let x := f64_of_f32 <$> raw in if pr_v_norm p then attn_rms_norm x None (pr_eps p) else Ret x.

(** Outputs, end to end, of the query heads sharing key/value head [kv] at position [t]. *)
Definition group_output_in (arith : Arith) (s : AttnShape) (p : Prep) (q_proj : list f32) (kv t : Z) (keys values : list (list f32))
  : res (option (list f64)) :=
  match group s with
  | None => Ret None
  | Some g =>
    let hd := as_head_dim s in
    if (as_n_head_kv s <=? kv) || negb (zlen q_proj =? wrap 64 (as_n_head s * hd)) || negb (prep_fits p s) then Ret None else
    fold_res (fun out qi =>
      match out with
      | None => Ret None
      | Some out =>
        raw ← index_range q_proj (wrap 64 (qi * hd)) (wrap 64 ((qi + 1) * hd));
        q ← prep_query p s raw t;
        Ret (pt ← partial arith q (as_kq_scale s) keys values; Some (out ++ pa_o pt))
      end) (Some []) (seqZ (wrap 64 (kv * g)) (wrap 64 ((kv + 1) * g) - wrap 64 (kv * g)))
  end.

Definition group_output (s : AttnShape) (p : Prep) (q_proj : list f32) (kv t : Z) (keys values : list (list f32)) : res (option (list f64)) :=
  group_output_in Exact s p q_proj kv t keys values.

(** Scales each value of [out] by the sigmoid of its gate. *)
Definition apply_gate (out : list f64) (gate : list f32) : option (list f64) :=
  if negb (zlen out =? zlen gate) then None else
  let o := zip_with (fun o g => o / (one + libm_exp (SFopp (f64_of_f32 g))))%F out gate in
  if forallb is_finite o then Some o else None.

(** Largest deviation, in Q8_1 steps, of a recomputed attention output. *)
Definition ATTN_THRESHOLD : f64 := f64_of_Z 2.

(** Whether the committed attention-output input [x] carries the recomputed outputs [group_out]. *)
Definition check_group (s : AttnShape) (x : list byte) (layout kv : Z) (group_out : list f64) : res bool :=
  match group s with
  | None => Ret false
  | Some g =>
    let hd := as_head_dim s in
    if negb (zlen group_out =? wrap 64 (g * hd)) || negb (hd mod 32 =? 0) then Ret false else
    dev ← block_deviation x layout (wrap 64 (as_n_head s * hd)) (wrap 64 (wrap 64 (kv * g) * hd) / 32) group_out;
    Ret (match dev with Some d => SFleb d ATTN_THRESHOLD | None => false end)
  end.
End Head.
