(* ===== verification/Blocks.v ===== *)
(** * Attention openings by blocks of positions ([verifiable-inference/src/attn_blocks.rs])

    The positions a query attends to are cut into aligned leaves under a tree of
    nodes, each node and leaf carrying the softmax partial of its positions.  One phase
    of an attention opening opens one node: the tree and its paths, the parameters that
    keep a phase inside its byte budget, the codec of partials, their combination, and
    the weighted draw of the child the next phase opens. *)
From S2P Require Import Prelude Float Magnitude Merkle Seq Quant VerifyPoint Links Chain Attn.
From stdpp Require Import strings.
#[local] Open Scope Z_scope.

(** Bytes one phase of an attention opening may spend on cache rows or on partials. *)
Definition BLOCK_BUDGET : Z := 96 * 1024.
Definition LSE_TOL : f64 := f64_lit 1 256.
Definition PARTIAL_STEPS : f64 := f64_lit 1 4.
Definition LEAF_FLOOR : f64 := f64_lit 1 16777216.
Definition NODE_FLOOR : f64 := (f64_of_Z 2 * LEAF_FLOOR)%F.
Definition LSE_ROOT_TOL : f64 := f64_lit 1 64.
Definition ATTN_OUT_MAX : f64 := f64_of_Z 3.
Definition ATTN_OUT_SPARE : Z := 4.
Definition UNIFORM_EIGHTHS : Z := 4.

(** [LSE_ROOT_TOL] widened with the largest score, up to 176. *)
Definition root_lse_tol (m : f64) : f64 := (LSE_ROOT_TOL + f64_min (SFabs m) (f64_of_Z 176) / f64_of_Z 4096)%F.

(** ** Sizes *)

(** [while 2 * n * unit <= budget { n *= 2 }] from [n]; [None] once [fuel] doublings did not end it. *)
Fixpoint fit_loop (fuel : nat) (unit n : Z) : option Z :=
  if BLOCK_BUDGET <? wrap 64 (wrap 64 (2 * n) * unit) then Some n else
  match fuel with O => None | S fuel => fit_loop fuel unit (wrap 64 (n * 2)) end.

(** Units that fit the budget; the loop takes at most 17 doublings when it ends at all. *)
Definition fit (unit : Z) : res (option Z) :=
  match fit_loop 64 unit 1 with
  | None => Panic
  | Some n => Ret (if (0 <? unit) && (wrap 64 (n * unit) <=? BLOCK_BUDGET) then Some n else None)
  end.

(** Positions per leaf and children per node. *)
Definition block_params (row_bytes partial_bytes : Z) : res (option (Z * Z)) :=
  c ← fit row_bytes;
  match c with
  | None => Ret None
  | Some c =>
    b ← fit partial_bytes;
    Ret (match b with Some b => if 2 <=? b then Some (c, b) else None | None => None end)
  end.

(** Encoded length of a partial of [d] values. *)
Definition partial_len (d : Z) : Z := wrap 64 (2 * d + 8).

(** ** The codec of partials *)

(** [p] as f16 values, then [m] and [l] as f32. *)
Definition encode_partial (p : Partial) : list byte :=
  concat ((fun x => to_le 2 (from_f32 (f32_of_f64 x))) <$> pa_o p) ++ to_le 4 (f32_to_bits (f32_of_f64 (pa_m p))) ++ to_le 4 (f32_to_bits (f32_of_f64 (pa_l p))).

Definition encode_partials (parts : list Partial) : list byte := concat (encode_partial <$> parts).

(** [iter.map(f).collect::<Option<Vec<_>>>()] *)
Fixpoint collect_some {A B} (f : A -> res (option B)) (l : list A) : res (option (list B)) :=
  match l with
  | [] => Ret (Some [])
  | a :: l =>
    o ← f a;
    match o with
    | None => Ret None
    | Some b => rest ← collect_some f l; Ret (option_map (cons b) rest)
    end
  end.

(** One encoded partial of [d] values. *)
Definition decode_partial (d : Z) (c : list byte) : res (option Partial) :=
  o ← mapM (M:=res) (fun i => f64_of_f32 <$> f16_read c (2 * i)) (seqZ 0 d);
  m ← index_range c (2 * d) (2 * d + 4);
  l ← index_range c (2 * d + 4) (2 * d + 4 + 4);
  let m := f64_of_f32 (f32_from_le m) in let l := f64_of_f32 (f32_from_le l) in
  Ret (if forallb is_finite o && is_finite m && is_finite l && SFleb one l then Some {| pa_o := o; pa_m := m; pa_l := l |} else None).

(** Partials of [d] values end to end. *)
Definition decode_partials (b : list byte) (d : Z) : res (option (list Partial)) :=
  let n := partial_len d in
  if (d =? 0) || (zlen b =? 0) || negb (zlen b mod n =? 0) then Ret None else
  collect_some (decode_partial d) (chunks_exact (Z.to_nat n) b).

(** ** The tree of positions *)

(** Leaves of [bt_c] positions aligned on multiples of [bt_c], over [bt_lo..bt_hi], under nodes of [bt_b] children;
    only [tree_new] builds one. *)
Record BlockTree := { bt_lo : Z; bt_hi : Z; bt_c : Z; bt_b : Z }.

#[export] Instance BlockTree_eq_dec : EqDecision BlockTree.
Proof. solve_decision. Defined.

(** [BlockTree::new] *)
Definition tree_new (lo hi c b : Z) : option BlockTree :=
  if (lo <? hi) && (1 <=? c) && (2 <=? b) then Some {| bt_lo := lo; bt_hi := hi; bt_c := c; bt_b := b |} else None.

Section Tree.
Context (t : BlockTree).

Definition tree_leaves : Z := wrap 64 ((bt_hi t - 1) / bt_c t - bt_lo t / bt_c t + 1).

(** [while span < n { span = span.saturating_mul(b); d += 1 }]; 64 rounds pass every 64-bit count. *)
Fixpoint depth_loop (fuel : nat) (n span d : Z) : Z :=
  match fuel with
  | O => d
  | S fuel => if span <? n then depth_loop fuel n (saturating_mul 64 span (bt_b t)) (d + 1) else d
  end.

(** Levels of partials above the leaves. *)
Definition depth : Z := depth_loop 64 tree_leaves 1 0.

Definition leaves_per_node (level : Z) : Z := Z.min (bt_b t ^ (depth - level)) (2 ^ 64 - 1).

Definition positions (a z : Z) : Z * Z :=
  let first := bt_lo t / bt_c t in
  (Z.max (bt_lo t) (wrap 64 ((first + a) * bt_c t)), Z.min (bt_hi t) (wrap 64 ((first + z) * bt_c t))).

(** The leaves under the node reached from [a..z] at [level] by [path]. *)
Fixpoint descend (level a z : Z) (path : list Z) : option (Z * Z) :=
  match path with
  | [] => Some (a, z)
  | i :: path =>
    let s := leaves_per_node (level + 1) in
    if div_ceil (z - a) s <=? i then None else
    let a := wrap 64 (a + i * s) in
    descend (level + 1) a (Z.min z (wrap 64 (a + s))) path
  end.

Definition leaf_range (path : list Z) : option (Z * Z) :=
  if depth <? zlen path then None else descend 0 0 tree_leaves path.

(** Positions of the node reached from the root by [path], one child index per level. *)
Definition node (path : list Z) : option (Z * Z) := '(a, z) ← leaf_range path; Some (positions a z).

(** Positions of each child of the node reached by [path]; [None] for a leaf. *)
Definition children (path : list Z) : option (list (Z * Z)) :=
  if depth <=? zlen path then None else
  '(a, z) ← leaf_range path;
  let s := leaves_per_node (zlen path + 1) in
  Some ((fun k => let x := a + k * s in positions x (Z.min z (wrap 64 (x + s)))) <$> seqZ 0 (div_ceil (z - a) s)).
End Tree.

Section Partials.
Context `{L : Libm, LM : LibmMore}.

(** ** Partials *)

(** Partial of the union of the runs of [parts]. *)
Definition combine (parts : list Partial) : option Partial :=
  p0 ← head parts;
  let d := length (pa_o p0) in
  if existsb (fun p => negb (zlen (pa_o p) =? Z.of_nat d)) parts then None else
  let m := foldl f64_max neg_infinity (pa_m <$> parts) in
  let w := (fun p => pa_l p * libm_exp (pa_m p - m))%F <$> parts in
  let l := f64_sum w in
  let o := foldl (fun o '(wi, p) => zip_with (fun a x => a + wi * x)%F o (pa_o p)) (replicate d zero) (zip w parts) in
  let o := (fun a => a / l)%F <$> o in
  if is_finite m && is_finite l && forallb is_finite o then Some {| pa_o := o; pa_m := m; pa_l := l |} else None.

(** [f64::MIN_POSITIVE] *)
Definition F64_MIN_POSITIVE : f64 := S754_finite false (2 ^ 52) (-1074).

(** The largest step of one block of 32 values: [a] against [b], in Q8 steps of [z], beyond [floor]. *)
Definition block_step (floor dev : f64) (a b z : list f64) : f64 :=
  let step := f64_max (foldl f64_max zero (SFabs <$> z) / f64_of_Z 127)%F F64_MIN_POSITIVE in
  foldl (fun dev d => f64_max dev d) dev (zip_with (fun p q => f64_max (SFabs (p - q) - floor) zero / step)%F a b).

(** Largest difference between [a] and [b] beyond [floor] per value, in Q8 steps of each block of [scale]. *)
Definition steps_on (a b scale : list f64) (floor : f64) : option f64 :=
  if negb (zlen a =? zlen b) || negb (zlen a =? zlen scale) || negb (zlen b mod 32 =? 0) then None else
  Some (foldl (fun dev '(a, (b, z)) => block_step floor dev a b z) zero
          (zip (chunks_exact 32 a) (zip (chunks_exact 32 b) (chunks_exact 32 scale)))).

(** Log of the softmax mass of a partial. *)
Definition lse (p : Partial) : f64 := (pa_m p + libm_log (pa_l p))%F.

Definition within_steps (o : option f64) : bool := match o with Some d => SFleb d PARTIAL_STEPS | None => false end.

(** Whether two partials of the same positions agree. *)
Definition same_partial (a b : Partial) : bool :=
  SFleb (SFabs (lse a - lse b)%F) LSE_TOL && within_steps (steps_on (pa_o a) (pa_o b) (pa_o b) LEAF_FLOOR).

(** Whether [children] combine into [parent]. *)
Definition check_node (parent : Partial) (children : list Partial) : res bool :=
  match combine children with
  | None => Ret false
  | Some c =>
    let w := (fun p => pa_l p * libm_exp (pa_m p - pa_m c) / pa_l c)%F <$> children in
    scale ← mapM (M:=res) (fun k =>
      vals ← mapM (M:=res) (fun '(p, wi) => o ← index (pa_o p) k; Ret (wi * SFabs o)%F) (zip children w);
      Ret (f64_max (f64_sum vals) (match get_at (pa_o parent) k with Some x => SFabs x | None => zero end)))
      (seqZ 0 (zlen (pa_o c)));
    Ret (SFleb (SFabs (lse c - lse parent)%F) LSE_TOL && within_steps (steps_on (pa_o c) (pa_o parent) scale NODE_FLOOR))
  end.

(** Whether [o] matches the Q8 blocks of the attention-output input [x] from [first_block]. *)
Definition root_within (x : list byte) (layout n_out first_block : Z) (o : list f64) : res bool :=
  dev ← block_outliers x layout n_out first_block o ATTN_THRESHOLD;
  Ret (match dev with Some (dv, spare) => SFleb dv ATTN_OUT_MAX && (spare <=? ATTN_OUT_SPARE) | None => false end).

(** Whether the attention-output input [x] carries head [head] as [children] combined, gated. *)
Definition check_root (x : list byte) (layout n_out head : Z) (children : list Partial) (gate : option (list f32)) : res bool :=
  match combine children with
  | None => Ret false
  | Some c =>
    let o := pa_o c in
    let d := zlen o in
    if negb (d mod 32 =? 0) || (n_out <? wrap 64 (wrap 64 (head + 1) * d)) then Ret false else
    match (match gate with None => Some o | Some g => apply_gate o g end) with
    | None => Ret false
    | Some o => root_within x layout n_out (wrap 64 (head * d) / 32) o
    end
  end.

(** [check_root] with the softmax mass of [children] matching the committed [lse] of the head. *)
Definition check_root_lse (x : list byte) (layout n_out head : Z) (children : list Partial) (gate : option (list f32)) (committed : f32) : res bool :=
  if negb (is_finite committed) then Ret false else
  match combine children with
  | None => Ret false
  | Some c =>
    if SFleb (SFabs (lse c - f64_of_f32 committed)%F) (root_lse_tol (pa_m c)) then check_root x layout n_out head children gate else Ret false
  end.

(** ** Draws of a child *)

(** Draw weights of [parts]: mass times largest output, floored, quantized to [1..65535]. *)
Definition child_weights (parts : list Partial) : option (list Z) :=
  let m := foldl f64_max neg_infinity (pa_m <$> parts) in
  if (zlen parts =? 0) || negb (is_finite m) then None else
  let mass := (fun p => pa_l p * libm_exp (pa_m p - m))%F <$> parts in
  let peak := (fun p => foldl f64_max zero (SFabs <$> pa_o p)) <$> parts in
  let total_mass := f64_sum mass in
  let tau := (f64_sum (zip_with (fun w o => w * o)%F mass peak) / total_mass / f64_of_Z 1024)%F in
  let c := zip_with (fun w o => w * (o + tau))%F mass peak in
  let total := f64_sum c in
  if negb (is_finite total_mass) || SFleb total_mass zero || negb (is_finite total) then None else
  if SFleb total zero then Some (replicate (length parts) 1) else
  Some ((fun x => Z.min (Z.max (f64_as_u64 (x / total * f64_of_Z 65535)%F) 1) 65535) <$> c).

(** Whether [claimed] is the partial of [q] over the rows of a leaf under one of the kernel roundings. *)
Definition check_leaf (q : list f64) (scale : f64) (keys values : list (list f32)) (claimed : Partial) : bool :=
  existsb (fun a => match partial a q scale keys values with Some p => same_partial p claimed | None => false end) ARITHS.

(** Partials under [arith] of the children of the node at [path]. *)
Definition children_partials (arith : Arith) (q : list f64) (scale : f64) (keys values : list (list f32)) (lo : Z) (tree : BlockTree) (path : list Z)
  : option (list Partial) :=
  ch ← children tree path;
  mapM (M:=option) (fun '(p0, p1) =>
    a ← checked_sub p0 lo; z ← checked_sub p1 lo;
    ks ← get_range keys a z; vs ← get_range values a z; partial arith q scale ks vs) ch.

(** The partials of the children under the first rounding whose decoded partials pass [check]. *)
Fixpoint pick_from (ariths : list Arith) (q : list f64) (scale : f64) (keys values : list (list f32)) (lo : Z) (tree : BlockTree) (path : list Z)
    (d : Z) (check : list Partial -> bool) : res (option (list byte)) :=
  match ariths with
  | [] => Ret None
  | a :: ariths =>
    let others := pick_from ariths q scale keys values lo tree path d check in
    match children_partials a q scale keys values lo tree path with
    | None => others
    | Some ps =>
      let enc := encode_partials ps in
      dec ← decode_partials enc d;
      match dec with Some p => if check p then Ret (Some enc) else others | None => others end
    end
  end.

Definition pick_partials (q : list f64) (scale : f64) (keys values : list (list f32)) (lo : Z) (tree : BlockTree) (path : list Z)
    (check : list Partial -> bool) : res (option (list byte)) :=
  match head values with
  | None => Ret None
  | Some v => pick_from ARITHS q scale keys values lo tree path (zlen v) check
  end.
End Partials.

Section Trees.
Context `{B3 : Blake3}.

(** Child drawn among children of draw [weights]: uniformly with probability 1/2, else in proportion to the weights. *)
Definition draw_weighted_child (rand : Hash) (weights : list Z) : Z :=
  let h := blake3_hash (rand ++ String.list_byte_of_string "attn-child-w") in
  let n := Z.max (zlen weights) 1 in
  let r := from_le (slice h 8 16) in
  if Z.land (from_le (slice h 0 1)) 7 <? UNIFORM_EIGHTHS then r mod n else
  let total := wrap 64 (foldr Z.add 0 weights) in
  default (n - 1) (pick (r mod Z.max total 1) 0 weights).

(** Child drawn among [n]. *)
Definition draw_child (rand : Hash) (n : Z) : Z :=
  from_le (slice (blake3_hash (rand ++ String.list_byte_of_string "attn-child")) 0 8) mod Z.max n 1.

Definition partial_leaves (bytes : list byte) (d : Z) : option (list Hash) :=
  let n := partial_len d in
  if (0 <? d) && negb (zlen bytes =? 0) && (zlen bytes mod n =? 0) then Some (blake3_hash <$> chunks_exact (Z.to_nat n) bytes) else None.

(** Root over the encoded partials [bytes], one leaf per partial. *)
Definition partials_root (bytes : list byte) (d : Z) : res (option Hash) :=
  match partial_leaves bytes d with None => Ret None | Some l => h ← b3_root l; Ret (Some h) end.

(** Encoded partial [i] of [bytes] and its path under [partials_root]. *)
Definition partial_opening (bytes : list byte) (d i : Z) : res (option (list byte * list Hash)) :=
  match partial_leaves bytes d with
  | None => Ret None
  | Some leaves =>
    let n := partial_len d in
    if zlen leaves <=? i then Ret None else
    p ← index_range bytes (i * n) ((i + 1) * n); path ← b3_path leaves i; Ret (Some (p, path))
  end.

(** Partial [i] of the [n] committed under [root], from its encoding and path. *)
Definition open_partial (root : Hash) (n i : Z) (bytes : list byte) (path : list Hash) (d : Z) : res (option Partial) :=
  if negb (zlen bytes =? partial_len d) || negb (b3_verify root n i (blake3_hash bytes) path) then Ret None else
  ps ← decode_partials bytes d;
  Ret (ps ← ps; last ps).
End Trees.

(** ** The tree cuts its positions into nodes

    Every node's children tile its positions, the leaves are aligned blocks, and each position lies in exactly one leaf. *)

(** The ranges of [l] follow each other from [lo] to [hi], none empty. *)
Fixpoint tiles (lo : Z) (l : list (Z * Z)) (hi : Z) : Prop :=
  match l with
  | [] => lo = hi
  | (a, b) :: l => a = lo /\ a < b /\ tiles b l hi
  end.

(** A tree of at most 2^62 positions; [tree_new] builds only trees of this shape. *)
Definition tree_ok (t : BlockTree) : Prop :=
  0 <= bt_lo t < bt_hi t /\ 1 <= bt_c t /\ 2 <= bt_b t /\ bt_hi t + bt_c t < 2 ^ 62.

Section TreeProofs.
Context (t : BlockTree) (Ht : tree_ok t).
#[local] Notation lo := (bt_lo t).
#[local] Notation hi := (bt_hi t).
#[local] Notation c := (bt_c t).
#[local] Notation b := (bt_b t).
#[local] Notation first := (bt_lo t / bt_c t).
#[local] Notation nL := ((bt_hi t - 1) / bt_c t - bt_lo t / bt_c t + 1).

Lemma leaf_bounds : 0 <= first /\ 1 <= nL < 2 ^ 62 /\ first * c <= lo < (first + 1) * c /\ (first + nL - 1) * c <= hi - 1 < (first + nL) * c.
Proof.
  destruct Ht as ([H1 H2] & H3 & H4 & H5).
  assert (Hf : first * c <= lo < (first + 1) * c) by (pose proof (Z.div_mod lo c ltac:(lia)); pose proof (Z.mod_pos_bound lo c ltac:(lia)); nia).
  assert (Hl : (first + nL - 1) * c <= hi - 1 < (first + nL) * c).
  { replace (first + nL - 1) with ((hi - 1) / c) by lia. replace (first + nL) with ((hi - 1) / c + 1) by lia.
    pose proof (Z.div_mod (hi - 1) c ltac:(lia)). pose proof (Z.mod_pos_bound (hi - 1) c ltac:(lia)). nia. }
  assert (0 <= first) by (apply Z.div_pos; lia). assert (first <= (hi - 1) / c) by (apply Z.div_le_mono; lia).
  assert ((hi - 1) / c <= hi - 1) by (apply Z.div_le_upper_bound; nia). split; [done|]. split; [lia|]. done.
Qed.

Lemma tree_leaves_count : tree_leaves t = nL.
Proof. pose proof leaf_bounds. unfold tree_leaves. apply wrap_id. unfold fits. lia. Qed.

(** The depth is the least that covers the leaves. *)
Lemma depth_loop_spec fuel m span d : 0 <= d -> span = Z.min (b ^ d) (2 ^ 64 - 1) -> m < 2 ^ 62 -> m <= span * 2 ^ Z.of_nat fuel ->
  (d = 0 \/ b ^ (d - 1) < m) ->
  let d' := depth_loop t fuel m span d in d <= d' /\ m <= b ^ d' /\ (d' = 0 \/ b ^ (d' - 1) < m).
Proof.
  destruct Ht as (_ & _ & Hb & _). revert span d. induction fuel as [|fuel IH]; intros span d Hd Hs Hm Hf Hl; cbn [depth_loop].
  - change (2 ^ Z.of_nat 0) with 1 in Hf. split; [lia|]. split; [lia|done].
  - destruct (Z.ltb_spec span m) as [Hlt|Hge]; [|split; [lia|]; split; [lia|done]].
    assert (Es : span = b ^ d) by lia. assert (Eb : b ^ (d + 1) = b ^ d * b) by (rewrite Z.pow_add_r, Z.pow_1_r by lia; done).
    assert (0 < b ^ d) by (apply Z.pow_pos_nonneg; lia).
    destruct (IH (saturating_mul 64 span (bt_b t)) (d + 1)) as (H1 & H2 & H3); [lia| |done| | |].
    + unfold saturating_mul. by rewrite Eb, Es.
    + unfold saturating_mul. replace (Z.of_nat (S fuel)) with (1 + Z.of_nat fuel) in Hf by lia. rewrite Z.pow_add_r in Hf by lia.
      assert (0 < 2 ^ Z.of_nat fuel) by (apply Z.pow_pos_nonneg; lia).
      destruct (Z.min_spec (span * b) (2 ^ 64 - 1)) as [[_ ->]|[_ ->]]; nia.
    + right. replace (d + 1 - 1) with d by lia. lia.
    + split; [lia|]. split; [done|]. destruct H3 as [H3|H3]; [lia|by right].
Qed.

Lemma depth_exact : 0 <= depth t /\ nL <= b ^ depth t /\ (depth t = 0 \/ b ^ (depth t - 1) < nL).
Proof.
  pose proof leaf_bounds. unfold depth. rewrite tree_leaves_count. apply depth_loop_spec; [lia|done|lia| |by left].
  change (Z.of_nat 64) with 64. lia.
Qed.

(** Below the root a node holds fewer leaves than the tree, so nothing saturates. *)
Lemma leaves_per_node_pow level : 1 <= level <= depth t -> leaves_per_node t level = b ^ (depth t - level) /\ 1 <= b ^ (depth t - level) < nL.
Proof.
  intros Hl. destruct depth_exact as (Hd & _ & [H0|Hlt]); [lia|]. pose proof leaf_bounds. destruct Ht as (_ & _ & Hb & _).
  assert (b ^ (depth t - level) <= b ^ (depth t - 1)) by (apply Z.pow_le_mono_r; lia). assert (0 < b ^ (depth t - level)) by (apply Z.pow_pos_nonneg; lia).
  split; [|lia]. unfold leaves_per_node. lia.
Qed.

(** The leaves [a..z] under a node at [level]. *)
Definition under (level a z : Z) : Prop := 0 <= a < z /\ z = Z.min nL (a + b ^ (depth t - level)).

Lemma under_root : under 0 0 nL.
Proof. pose proof leaf_bounds. destruct depth_exact as (_ & ? & _). split; [lia|]. rewrite Z.sub_0_r. lia. Qed.

(** Child [i] of a node, when it has one. *)
Lemma under_child level a z i : 0 <= level < depth t -> under level a z -> 0 <= i ->
  let s := b ^ (depth t - (level + 1)) in
  1 <= s /\ div_ceil (z - a) (leaves_per_node t (level + 1)) <= b
  /\ (div_ceil (z - a) (leaves_per_node t (level + 1)) <= i <-> z <= a + i * s)
  /\ (a + i * s < z -> wrap 64 (a + i * leaves_per_node t (level + 1)) = a + i * s
       /\ Z.min z (wrap 64 (a + i * s + leaves_per_node t (level + 1))) = Z.min nL (a + i * s + s)
       /\ Z.min z (a + i * s + s) = Z.min nL (a + i * s + s) /\ under (level + 1) (a + i * s) (Z.min nL (a + i * s + s))).
Proof.
  intros Hl [Ha Hz] Hi s. destruct (leaves_per_node_pow (level + 1) ltac:(lia)) as [-> Hs]. change (b ^ (depth t - (level + 1))) with s in Hs |- *. pose proof leaf_bounds as (_ & Hn & _).
  destruct Ht as (_ & _ & Hb & _).
  assert (Ep : b ^ (depth t - level) = b * s) by (unfold s; replace (depth t - level) with (1 + (depth t - (level + 1))) by lia; rewrite Z.pow_add_r, Z.pow_1_r by lia; done).
  rewrite Ep in Hz. pose proof (div_ceil_spec (z - a) s ltac:(lia)) as Hc. set (N := (hi - 1) / c - lo / c + 1) in *. assert (EN : N = (hi - 1) / c - lo / c + 1) by done. assert (Es : b ^ (depth t - (level + 1)) = s) by done. clearbody N s. clear Ep. set (D := div_ceil (z - a) s) in *. clearbody D.
  split; [lia|]. split; [nia|]. split; [split; nia|].
  intros Hlt. assert (Hib : i < b) by nia. assert (Hle : (i + 1) * s <= b * s) by (apply Z.mul_le_mono_nonneg_r; lia). assert (0 <= i * s) by nia. rewrite !wrap_id by (unfold fits; lia).
  split; [done|]. split; [lia|]. split; [lia|]. unfold under. rewrite Es, <- EN. lia.
Qed.

Lemma descend_under path level a z : 0 <= level -> level + zlen path <= depth t -> under level a z -> Forall (Z.le 0) path ->
  forall a' z', descend t level a z path = Some (a', z') -> under (level + zlen path) a' z' /\ a <= a' /\ z' <= z.
Proof.
  revert level a z. induction path as [|i path IH]; intros level a z Hl Hp Hu HF a' z'; cbn [descend].
  - intros [= <- <-]. rewrite zlen_nil, Z.add_0_r. split; [done|lia].
  - rewrite zlen_cons in *. pose proof (zlen_nonneg path). apply Forall_cons in HF as [Hi HF]. destruct (under_child level a z i ltac:(lia) Hu Hi) as (Hs & _ & Hiff & Hc).
    destruct (Z.leb_spec (div_ceil (z - a) (leaves_per_node t (level + 1))) i) as [Hle|Hgt]; [done|].
    destruct Hc as (E1 & E2 & E3 & Hu'); [lia|]. rewrite E1, E2. intros H'. apply IH in H' as (H1 & H2 & H3); [|lia|lia|done|done].
    replace (level + (1 + zlen path)) with (level + 1 + zlen path) by lia. split; [done|].
    assert (0 <= i * b ^ (depth t - (level + 1))) by (apply Z.mul_nonneg_nonneg; lia). lia.
Qed.

(** ** Positions *)

(** The first position of leaf [m]. *)
Definition cut (m : Z) : Z := Z.max lo (Z.min hi ((first + m) * c)).

Lemma cut_0 : cut 0 = lo.
Proof. pose proof leaf_bounds. unfold cut. lia. Qed.
Lemma cut_n : cut nL = hi.
Proof. pose proof leaf_bounds. destruct Ht as ([??] & _). unfold cut. lia. Qed.

Lemma cut_mid m : 0 < m < nL -> cut m = (first + m) * c /\ lo < (first + m) * c < hi.
Proof.
  pose proof leaf_bounds as (_ & _ & H1 & H2). intros Hm. destruct Ht as (_ & ? & _). unfold cut. set (N := nL) in *. set (F := first) in *. clearbody N F.
  assert ((F + 1) * c <= (F + m) * c) by (apply Z.mul_le_mono_nonneg_r; lia). assert ((F + m) * c <= (F + N - 1) * c) by (apply Z.mul_le_mono_nonneg_r; lia). lia.
Qed.

Lemma cut_lt a z : 0 <= a < z -> z <= nL -> cut a < cut z.
Proof.
  intros H1 H2. destruct Ht as ([??] & ? & _).
  destruct (decide (a = 0)) as [->|]; destruct (decide (z = nL)) as [->|]; rewrite ?cut_0, ?cut_n; [lia|..].
  - destruct (cut_mid z) as [-> ?]; lia.
  - destruct (cut_mid a) as [-> ?]; lia.
  - destruct (cut_mid a) as [-> ?]; [lia|]. destruct (cut_mid z) as [-> ?]; [lia|]. apply Z.mul_lt_mono_pos_r; lia.
Qed.

Lemma positions_cut a z : 0 <= a < z -> z <= nL -> positions t a z = (cut a, cut z).
Proof.
  intros H1 H2. pose proof leaf_bounds as (H0 & Hn & Hlo & Hhi). destruct Ht as ([??] & ? & _ & ?). unfold positions, cut. set (N := nL) in *. set (F := first) in *. clearbody N F.
  assert (0 <= (F + a) * c) by (apply Z.mul_nonneg_nonneg; lia). assert ((F + a) * c <= (F + N - 1) * c) by (apply Z.mul_le_mono_nonneg_r; lia).
  assert ((F + 1) * c <= (F + z) * c) by (apply Z.mul_le_mono_nonneg_r; lia). assert ((F + z) * c <= (F + N) * c) by (apply Z.mul_le_mono_nonneg_r; lia).
  assert ((F + N) * c = (F + N - 1) * c + c) by lia. rewrite !wrap_id by (unfold fits; lia). f_equal; lia.
Qed.

Lemma descend_app p1 p2 level a z : descend t level a z (p1 ++ p2) = '(a', z') ← descend t level a z p1; descend t (level + zlen p1) a' z' p2.
Proof.
  revert level a z. induction p1 as [|i p1 IH]; intros level a z; cbn [app descend]; [by rewrite zlen_nil, Z.add_0_r|].
  destruct (_ <=? i); [done|]. rewrite IH, zlen_cons. by replace (level + 1 + zlen p1) with (level + (1 + zlen p1)) by lia.
Qed.

Lemma leaf_range_under path a z : Forall (Z.le 0) path -> leaf_range t path = Some (a, z) -> zlen path <= depth t /\ under (zlen path) a z.
Proof.
  intros HF. unfold leaf_range. destruct (Z.ltb_spec (depth t) (zlen path)); [done|]. rewrite tree_leaves_count. intros Hd.
  apply descend_under in Hd as (Hu & _); [|lia|lia|apply under_root|done]. done.
Qed.

Lemma node_cut path a z : Forall (Z.le 0) path -> leaf_range t path = Some (a, z) -> node t path = Some (cut a, cut z).
Proof.
  intros HF H. destruct (leaf_range_under path a z HF H) as [_ [H1 H2]]. unfold node. rewrite H. cbn [mbind option_bind]. rewrite positions_cut; [done|lia|lia].
Qed.

(** The leaves per child and the number of children of a node that is not a leaf. *)
Definition child_width (path : list Z) : Z := b ^ (depth t - (zlen path + 1)).

Lemma leaf_range_child path a z i : Forall (Z.le 0) path -> leaf_range t path = Some (a, z) -> zlen path < depth t -> 0 <= i ->
  leaf_range t (path ++ [i]) = if z <=? a + i * child_width path then None
    else Some (a + i * child_width path, Z.min nL (a + i * child_width path + child_width path)).
Proof.
  intros HF H Hl Hi. destruct (leaf_range_under path a z HF H) as [_ Hu]. pose proof (zlen_nonneg path).
  destruct (under_child (zlen path) a z i ltac:(lia) Hu Hi) as (_ & _ & Hiff & Hc). fold (child_width path) in *.
  unfold leaf_range in *. destruct (Z.ltb_spec (depth t) (zlen path)); [done|]. rewrite zlen_app, zlen_cons, zlen_nil.
  destruct (Z.ltb_spec (depth t) (zlen path + (1 + 0))); [lia|]. rewrite descend_app, H. cbn [mbind option_bind descend]. rewrite Z.add_0_l.
  destruct (Z.leb_spec (div_ceil (z - a) (leaves_per_node t (zlen path + 1))) i), (Z.leb_spec z (a + i * child_width path)); [done|lia|lia|].
  destruct Hc as (-> & -> & _); [lia|done].
Qed.

(** Ranges between the values of an increasing function tile. *)
Lemma tiles_steps (E : Z -> Z) k j : (forall i, j <= i < j + Z.of_nat k -> E i < E (i + 1)) ->
  tiles (E j) ((fun i => (E i, E (i + 1))) <$> seqZ j (Z.of_nat k)) (E (j + Z.of_nat k)).
Proof.
  revert j. induction k as [|k IH]; intros j HE; [change (Z.of_nat 0) with 0; by rewrite Z.add_0_r|].
  rewrite seqZ_cons by lia. replace (Z.pred (Z.of_nat (S k))) with (Z.of_nat k) by lia. rewrite fmap_cons. cbn [tiles].
  split; [done|]. split; [apply HE; lia|]. rewrite <- Z.add_1_r. replace (j + Z.of_nat (S k)) with (j + 1 + Z.of_nat k) by lia. apply IH. intros i Hi. apply HE. lia.
Qed.

Lemma children_tile path a z : Forall (Z.le 0) path -> leaf_range t path = Some (a, z) -> zlen path < depth t ->
  exists ch, children t path = Some ch /\ tiles (cut a) ch (cut z) /\ 1 <= zlen ch <= b /\ forall i, 0 <= i -> node t (path ++ [i]) = get_at ch i.
Proof.
  intros HF H Hl. destruct (leaf_range_under path a z HF H) as [_ Hu]. pose proof (zlen_nonneg path) as Hpl.
  pose proof (fun i Hi => under_child (zlen path) a z i ltac:(lia) Hu Hi) as Hch. fold (child_width path) in Hch.
  destruct (Hch 0 ltac:(lia)) as (Hs & Hb & H0 & _). destruct Hu as [Ha Hz].
  unfold children. destruct (Z.leb_spec (depth t) (zlen path)); [lia|]. rewrite H. cbn [mbind option_bind].
  set (m := div_ceil (z - a) (leaves_per_node t (zlen path + 1))) in *. set (s := child_width path) in *.
  assert (Hm : 0 < m) by (destruct (Z.le_gt_cases m 0) as [Hm|]; [apply H0 in Hm; lia|done]).
  assert (Hlt : forall i, 0 <= i < m -> a + i * s < z) by (intros i Hi; destruct (Hch i ltac:(lia)) as (_ & _ & Hiff & _); destruct (Z.lt_ge_cases (a + i * s) z); [done|apply Hiff in H2; lia]).
  assert (Hge : z <= a + m * s) by (destruct (Hch m ltac:(lia)) as (_ & _ & Hiff & _); apply Hiff; lia).
  set (E := fun i => cut (Z.min z (a + i * s))).
  assert (Hf : forall i, 0 <= i < m -> (let x := a + i * leaves_per_node t (zlen path + 1) in positions t x (Z.min z (wrap 64 (x + leaves_per_node t (zlen path + 1))))) = (E i, E (i + 1))).
  { intros i Hi. destruct (leaves_per_node_pow (zlen path + 1) ltac:(lia)) as [Ew _]. change (b ^ (depth t - (zlen path + 1))) with s in Ew.
    destruct (Hch i ltac:(lia)) as (_ & _ & _ & Hc). rewrite Ew in Hc |- *. cbv zeta. destruct Hc as (_ & -> & Emin & [Hp1 Hp2]); [by apply Hlt|]. specialize (Hlt i Hi).
    rewrite positions_cut; [|exact Hp1|apply Z.le_min_l]. unfold E. rewrite (Z.min_r z (a + i * s)) by (clear - Hlt; lia). do 2 f_equal. rewrite <- Emin. f_equal. clear; lia. }
  eexists. split; [done|].
  assert (Hmap : forall g, (forall i, 0 <= i < m -> g i = (E i, E (i + 1))) -> g <$> seqZ 0 m = (fun i => (E i, E (i + 1))) <$> seqZ 0 m).
  { intros g Hg. apply list_fmap_ext. intros k x Hx. apply lookup_seqZ in Hx as [-> ?]. apply Hg. lia. }
  match goal with |- context [?g <$> seqZ 0 m] => rewrite (Hmap g Hf) end. split_and!.
  - replace (cut a) with (E 0) by (unfold E; f_equal; lia). replace (cut z) with (E (0 + Z.of_nat (Z.to_nat m))) by (unfold E; rewrite Z2Nat.id by lia; f_equal; lia).
    replace (seqZ 0 m) with (seqZ 0 (Z.of_nat (Z.to_nat m))) by (by rewrite Z2Nat.id by lia). apply tiles_steps. rewrite Z2Nat.id by lia. intros i Hi. unfold E. apply cut_lt; [|lia]. specialize (Hlt i ltac:(lia)). lia.
  - rewrite zlen_fmap. unfold zlen. rewrite length_seqZ. lia.
  - rewrite zlen_fmap. unfold zlen. rewrite length_seqZ. lia.
  - intros i Hi. unfold get_at. destruct (Z.leb_spec 0 i); [|lia]. rewrite list_lookup_fmap.
    pose proof (leaf_range_child path a z i HF H Hl Hi) as Hr. fold s in Hr.
    destruct (Z.leb_spec z (a + i * s)) as [Hge'|Hlt'].
    + unfold node. rewrite Hr. assert (m <= i) by (destruct (Z.le_gt_cases m i); [done|specialize (Hlt i ltac:(lia)); lia]). rewrite lookup_seqZ_ge by lia. done.
    + assert (i < m) by (destruct (Z.lt_ge_cases i m); [done|destruct (Hch i Hi) as (_ & _ & Hiff & _); lia]).
      rewrite (node_cut _ _ _ ltac:(apply Forall_app; split; [done|by apply Forall_singleton]) Hr). rewrite lookup_seqZ_lt by lia. cbn. rewrite Z2Nat.id by lia. rewrite Z.add_0_l. unfold E.
      destruct (Hch i Hi) as (_ & _ & _ & Hc). destruct Hc as (_ & _ & Emin & _); [done|]. rewrite (Z.min_r z (a + i * s)) by lia. rewrite <- Emin. do 3 f_equal. lia.
Qed.

(** The leaf that holds a position. *)
Lemma cut_holds a z p : 0 <= a < z -> z <= nL -> lo <= p < hi -> cut a <= p < cut z <-> a <= p / c - first < z.
Proof.
  intros Ha Hz Hp. pose proof leaf_bounds as (_ & Hn & Hlo & Hhi). destruct Ht as ([??] & ? & _). unfold cut. set (N := nL) in *. set (F := first) in *. clearbody N F.
  pose proof (Z.div_mod p c ltac:(lia)). pose proof (Z.mod_pos_bound p c ltac:(lia)). set (q := p / c) in *. clearbody q.
  assert (Hq : forall x, (F + x) * c <= p <-> x <= q - F) by (intros x; split; intros; nia). pose proof (Hq a). pose proof (Hq z). lia.
Qed.

(** The path of the leaf that holds leaf number [q] below a node. *)
Lemma path_to k level a z q : 0 <= level -> depth t - level = Z.of_nat k -> under level a z -> a <= q < z ->
  exists path, Forall (Z.le 0) path /\ length path = k /\ descend t level a z path = Some (q, q + 1)
    /\ forall path' a' z', Forall (Z.le 0) path' -> length path' = k -> descend t level a z path' = Some (a', z') -> a' <= q < z' -> path' = path.
Proof.
  revert level a z. induction k as [|k IH]; intros level a z Hl Hk Hu Hq.
  - exists []. split; [done|]. split; [done|]. split.
    + destruct Hu as [Ha Hz]. cbn. replace (depth t - level) with 0 in Hz by lia. change (b ^ 0) with 1 in Hz. do 2 f_equal; lia.
    + intros path' a' z' _ Hp _ _. by destruct path'.
  - assert (Hs0 : 1 <= b ^ (depth t - (level + 1))) by (destruct (under_child level a z 0 ltac:(lia) Hu ltac:(lia)); done).
    set (s := b ^ (depth t - (level + 1))) in *. set (i := (q - a) / s).
    assert (Hi : 0 <= i) by (apply Z.div_pos; lia). assert (Hb : a + i * s <= q < a + i * s + s) by (pose proof (Z.div_mod (q - a) s ltac:(lia)); pose proof (Z.mod_pos_bound (q - a) s ltac:(lia)); unfold i; lia).
    pose proof (fun j Hj => under_child level a z j ltac:(lia) Hu Hj) as Hch. fold s in Hch. clearbody i s.
    assert (Hstep : forall j path, 0 <= j -> descend t level a z (j :: path) = if z <=? a + j * s then None else descend t (level + 1) (a + j * s) (Z.min nL (a + j * s + s)) path).
    { intros j path Hj. cbn [descend]. destruct (Hch j Hj) as (_ & _ & Hiff & Hc).
      destruct (Z.leb_spec (div_ceil (z - a) (leaves_per_node t (level + 1))) j), (Z.leb_spec z (a + j * s)); [done|lia|lia|]. by destruct Hc as (-> & -> & _). }
    destruct (Hch i Hi) as (_ & _ & _ & Hc). destruct Hc as (_ & _ & Em & Hu'); [clear - Hb Hq; lia|].
    destruct (IH (level + 1) (a + i * s) (Z.min nL (a + i * s + s))) as (path & HF & Hlen & Hd & Hun); [clear - Hl; lia|clear - Hk; lia|done|rewrite <- Em; clear - Hb Hq; lia|].
    exists (i :: path). split; [by constructor|]. split; [cbn; lia|]. split.
    + rewrite Hstep by done. destruct (Z.leb_spec z (a + i * s)) as [Hz'|Hz']; [clear - Hb Hq Hz'; lia|done].
    + intros [|j path'] a' z' HF' Hlen'; [done|]. apply Forall_cons in HF' as [Hj HF']. rewrite Hstep by done.
      destruct (Z.leb_spec z (a + j * s)); [done|]. intros Hd' Hq'. destruct (Hch j Hj) as (_ & _ & _ & Hcj). destruct Hcj as (_ & _ & Emj & Huj); [done|].
      destruct (descend_under path' (level + 1) (a + j * s) (Z.min nL (a + j * s + s)) ltac:(clear - Hl; lia) ltac:(clear - Hk Hlen'; unfold zlen; cbn in Hlen'; lia) Huj HF' a' z' Hd') as (_ & H1 & H2).
      assert (j = i) as ->.
      { assert (Hj2 : a + j * s <= q < a + j * s + s) by (rewrite <- Emj in H2; clear - H1 H2 Hq'; lia). clear - Hj2 Hb Hs0. nia. }
      f_equal. apply (Hun path' a' z'); [done|cbn in Hlen'; clear - Hlen'; lia|done|done].
Qed.

(** A position lies in exactly one leaf. *)
Lemma leaf_of p : lo <= p < hi ->
  let holds path := Forall (Z.le 0) path /\ zlen path = depth t /\ exists p0 p1, node t path = Some (p0, p1) /\ p0 <= p < p1 in
  exists path, holds path /\ forall path', holds path' -> path' = path.
Proof.
  intros Hp holds. pose proof leaf_bounds as (_ & Hn & _). destruct depth_exact as (Hd & _).
  assert (H0 : cut 0 <= p < cut nL) by (rewrite cut_0, cut_n; lia). apply (cut_holds 0 nL p) in H0; [|lia|lia|done].
  assert (Hr : forall path, zlen path = depth t -> leaf_range t path = descend t 0 0 nL path) by (intros path Hl; unfold leaf_range; rewrite tree_leaves_count; by destruct (Z.ltb_spec (depth t) (zlen path)); [lia|]).
  destruct (path_to (Z.to_nat (depth t)) 0 0 nL (p / c - first)) as (path & HF & Hlen & Hpath & Hun); [lia|lia|apply under_root|done|].
  assert (Hlen' : zlen path = depth t) by (unfold zlen; lia). exists path. split.
  - split; [done|]. split; [done|]. pose proof Hpath as E. rewrite <- Hr in E by done. rewrite (node_cut _ _ _ HF E). do 2 eexists. split; [done|]. apply cut_holds; lia.
  - intros path' (HF' & Hl' & p0 & p1 & Hnode & Hpp). unfold node in Hnode. destruct (leaf_range t path') as [[a' z']|] eqn:E; [|done].
    destruct (leaf_range_under path' a' z' HF' E) as [_ [Ha' Hz']]. pose proof (node_cut _ _ _ HF' E) as En. unfold node in En. rewrite E in En. cbn in Hnode, En. rewrite Hnode in En. injection En as -> ->.
    rewrite Hr in E by done. apply (Hun path' a' z'); [done|clear - Hl'; unfold zlen in Hl'; lia|done|].
    apply cut_holds in Hpp; [done|exact Ha'|rewrite Hz'; apply Z.le_min_l|done].
Qed.

Lemma cut_range m : lo <= cut m <= hi.
Proof. destruct Ht as ([_ H] & _). unfold cut. generalize ((first + m) * c). intros x. clear - H. lia. Qed.

(** A node without children is a block of aligned positions. *)
Lemma leaf_aligned path a z : Forall (Z.le 0) path -> leaf_range t path = Some (a, z) -> zlen path = depth t -> cut a / c = (cut z - 1) / c /\ cut a < cut z.
Proof.
  intros HF H Hl. destruct (leaf_range_under path a z HF H) as [_ [Ha Hz]]. rewrite Hl, Z.sub_diag in Hz. change (b ^ 0) with 1 in Hz.
  pose proof (cut_lt a z Ha ltac:(lia)) as Hlt. split; [|done].
  assert (Hzn : z <= nL) by (rewrite Hz; apply Z.le_min_l). assert (Hz1 : z <= a + 1) by (rewrite Hz; apply Z.le_min_r).
  assert (Hin : forall p, cut a <= p < cut z -> p / c = first + a).
  { intros p Hp. pose proof (cut_range a) as Ba. pose proof (cut_range z) as Bz. assert (Hr : lo <= p < hi) by (clear - Hp Ba Bz; lia).
    apply (cut_holds a z p Ha Hzn Hr) in Hp. clear - Hp Hz1. lia. }
  rewrite (Hin (cut a)) by (clear - Hlt; lia). rewrite (Hin (cut z - 1)) by (clear - Hlt; lia). done.
Qed.
End TreeProofs.

(** The tree partitions the positions of a query.  The root holds them all; the children of a node tile its
    positions end to end, at least one and at most [bt_b] of them, each reached by its index; a node without
    children is at the bottom and holds positions of one aligned block of [bt_c]; and every position lies in
    exactly one node at the bottom, whose path has the least length that [bt_b]-fold branching allows. *)
Theorem block_tree_partition (t : BlockTree) : tree_ok t ->
  node t [] = Some (bt_lo t, bt_hi t)
  /\ (tree_leaves t <= bt_b t ^ depth t /\ (depth t = 0 \/ bt_b t ^ (depth t - 1) < tree_leaves t))
  /\ (forall path p0 p1, Forall (Z.le 0) path -> node t path = Some (p0, p1) ->
       match children t path with
       | Some ch => tiles p0 ch p1 /\ 1 <= zlen ch <= bt_b t /\ forall i, 0 <= i -> node t (path ++ [i]) = get_at ch i
       | None => zlen path = depth t /\ p0 / bt_c t = (p1 - 1) / bt_c t /\ p0 < p1
       end)
  /\ forall p, bt_lo t <= p < bt_hi t ->
       let holds path := Forall (Z.le 0) path /\ zlen path = depth t /\ exists p0 p1, node t path = Some (p0, p1) /\ p0 <= p < p1 in
       exists path, holds path /\ forall path', holds path' -> path' = path.
Proof.
  intros Ht. destruct (depth_exact t Ht) as (Hd & Hn). rewrite (tree_leaves_count t Ht). split_and!; [|apply Hn|apply Hn| |apply (leaf_of t Ht)].
  - rewrite (node_cut t Ht [] 0 ((bt_hi t - 1) / bt_c t - bt_lo t / bt_c t + 1)); [by rewrite cut_0, cut_n|done|].
    unfold leaf_range. rewrite zlen_nil, (tree_leaves_count t Ht). destruct (Z.ltb_spec (depth t) 0); [lia|done].
  - intros path p0 p1 HF Hnode. unfold node in Hnode. destruct (leaf_range t path) as [[a z]|] eqn:E; [|done].
    pose proof (node_cut t Ht path a z HF E) as En. unfold node in En. rewrite E in En. cbn in Hnode, En. rewrite Hnode in En. injection En as -> ->.
    destruct (leaf_range_under t Ht path a z HF E) as [Hle _]. destruct (Z.eq_dec (zlen path) (depth t)) as [Heq|Hne].
    + unfold children. destruct (Z.leb_spec (depth t) (zlen path)) as [_|Hlt]; [|clear - Heq Hlt; lia]. split; [done|]. by apply (leaf_aligned t Ht path).
    + destruct (children_tile t Ht path a z HF E) as (ch & -> & Hch); [clear - Hle Hne; lia|done].
Qed.

Lemma block_tree_partition_witness : let t := {| bt_lo := 5; bt_hi := 300; bt_c := 64; bt_b := 2 |} in
  depth t = 3 /\ node t [] = Some (5, 300) /\ children t [0] = Some [(5, 128); (128, 256)].
Proof.
  intros t. split; [reflexivity|]. split; [|reflexivity]. assert (Hok : tree_ok t) by (unfold tree_ok; cbn; lia). exact (proj1 (block_tree_partition t Hok)).
Defined.

(** ** A phase fits its budget *)

(** [n] is the largest power of two of units of [unit] bytes inside the budget. *)
Definition largest_fit (n unit : Z) : Prop := exists k, 0 <= k /\ n = 2 ^ k /\ n * unit <= BLOCK_BUDGET < 2 * (n * unit).

Lemma fit_loop_spec fuel unit k : 0 < unit < 2 ^ 40 -> 0 <= k -> (k = 0 \/ 2 ^ k * unit <= BLOCK_BUDGET) -> BLOCK_BUDGET < 2 ^ (k + Z.of_nat fuel + 1) ->
  exists k', k <= k' /\ fit_loop fuel unit (2 ^ k) = Some (2 ^ k') /\ BLOCK_BUDGET < 2 * (2 ^ k' * unit) /\ (k' = 0 \/ 2 ^ k' * unit <= BLOCK_BUDGET).
Proof.
  unfold BLOCK_BUDGET. intros Hu. revert k. induction fuel as [|fuel IH]; intros k Hk Hb Hf; cbn [fit_loop]; unfold BLOCK_BUDGET;
    (assert (Hp : 0 < 2 ^ k) by (apply Z.pow_pos_nonneg; lia)); (assert (H2 : 2 ^ k <= 98304) by (destruct Hb as [->|]; [done|nia])); (assert (2 ^ k * unit < 2 ^ 41) by (destruct Hb as [->|]; [cbn; lia|lia]));
    rewrite (wrap_id 64 (2 * 2 ^ k)) by (unfold fits; lia); rewrite (wrap_id 64 (2 * 2 ^ k * unit)) by (unfold fits; nia); destruct (Z.ltb_spec (96 * 1024) (2 * 2 ^ k * unit)).
  - exists k. split; [lia|]. split; [done|]. split; [lia|done].
  - exfalso. rewrite Z.add_0_r, Z.pow_add_r, Z.pow_1_r in Hf by lia. nia.
  - exists k. split; [lia|]. split; [done|]. split; [lia|done].
  - rewrite (wrap_id 64 (2 ^ k * 2)) by (unfold fits; lia). assert (E : 2 ^ k * 2 = 2 ^ (k + 1)) by (rewrite Z.pow_add_r, Z.pow_1_r by lia; done). rewrite E.
    destruct (IH (k + 1)) as (k' & ? & ? & ? & ?); [lia|right; rewrite <- E; lia|replace (k + 1 + Z.of_nat fuel + 1) with (k + Z.of_nat (S fuel) + 1) by lia; done|].
    exists k'. split; [lia|]. done.
Qed.

Lemma fit_exact unit : 0 < unit < 2 ^ 40 -> exists o, fit unit = Ret o /\ (forall n, o = Some n <-> largest_fit n unit) /\ (o = None <-> BLOCK_BUDGET < unit).
Proof.
  intros Hu. destruct (fit_loop_spec 64 unit 0) as (k & Hk & E & Hlt & Hle); [done|lia|by left|done|]. unfold fit. change (2 ^ 0) with 1 in E. rewrite E.
  assert (Hp : 0 < 2 ^ k) by (apply Z.pow_pos_nonneg; lia). unfold BLOCK_BUDGET in *.
  assert (Hw : 2 ^ k * unit < 2 ^ 64) by (destruct Hle as [->|]; [change (2 ^ 0) with 1|]; lia). rewrite wrap_id by (unfold fits; nia).
  eexists. split; [done|]. destruct (Z.ltb_spec 0 unit); [|lia]. cbn [andb]. unfold largest_fit, BLOCK_BUDGET.
  destruct (Z.leb_spec (2 ^ k * unit) (96 * 1024)) as [Hfit|Hno].
  - split; [|split; [done|nia]]. intros n. split; [intros [= <-]; exists k; repeat split; lia|]. intros (j & Hj & -> & Hj1 & Hj2). f_equal.
    destruct (Z.lt_trichotomy k j) as [Hkj|[->|Hkj]]; [|done|]; exfalso.
    + assert (2 ^ (k + 1) <= 2 ^ j) by (apply Z.pow_le_mono_r; lia). rewrite Z.pow_add_r, Z.pow_1_r in * by lia. nia.
    + assert (2 ^ (j + 1) <= 2 ^ k) by (apply Z.pow_le_mono_r; lia). rewrite Z.pow_add_r, Z.pow_1_r in * by lia. nia.
  - destruct Hle as [->|]; [|lia]. change (2 ^ 0) with 1 in *. split; [|split; [intros; lia|done]]. intros n. split; [done|]. intros (j & Hj & -> & Hj1 & Hj2).
    assert (0 < 2 ^ j) by (apply Z.pow_pos_nonneg; lia). nia.
Qed.

(** A phase stays inside its budget.  For rows and partials of positive size [block_params] returns, and its
    parameters are the largest powers of two of rows and of partials that the budget of a phase holds; it has
    none exactly when one row or two partials do not fit.  For rows of no bytes the search never ends. *)
Theorem block_params_exact :
  (forall row part, 0 < row < 2 ^ 40 -> 0 < part < 2 ^ 40 ->
     exists o, block_params row part = Ret o
       /\ (forall c b, o = Some (c, b) <-> largest_fit c row /\ largest_fit b part /\ 2 <= b)
       /\ (o = None <-> BLOCK_BUDGET < row \/ BLOCK_BUDGET < 2 * part))
  /\ forall fuel, fit_loop fuel 0 1 = None.
Proof.
  split.
  - intros row part Hr Hp. destruct (fit_exact row Hr) as (oc & Ec & Hc & Nc). destruct (fit_exact part Hp) as (ob & Eb & Hb & Nb). unfold block_params. rewrite Ec. cbn [mbind res_bind].
    destruct oc as [c|].
    + rewrite Eb. cbn [mbind res_bind]. eexists. split; [done|]. assert (Hcr : ~ BLOCK_BUDGET < row) by (rewrite <- Nc; done). destruct ob as [b|].
      * destruct (proj1 (Hb b) eq_refl) as (k & Hk & Ek & Hlo & Hhi). assert (Hpr : ~ BLOCK_BUDGET < part) by (rewrite <- Nb; done).
        destruct (Z.leb_spec 2 b) as [H2|H2].
        -- split; [|split; [done|]]; [|nia]. intros c' b'. rewrite <- Hc, <- Hb. split; [by intros [= <- <-]|by intros ([= <-] & [= <-] & _)].
        -- assert (b = 1) by (assert (0 < 2 ^ k) by (apply Z.pow_pos_nonneg; lia); lia). split; [|split; [intros _; right; nia|done]].
           intros c' b'. split; [done|]. intros (_ & Hb' & ?). apply Hb in Hb' as [= <-]. lia.
      * assert (BLOCK_BUDGET < part) by (by apply Nb). split; [|split; [intros _; right; lia|done]]. intros c' b'. split; [done|]. intros (_ & Hb' & _). by apply Hb in Hb'.
    + eexists. split; [done|]. assert (BLOCK_BUDGET < row) by (by apply Nc). split; [|split; [by left|done]]. intros c' b'. split; [done|]. intros (Hc' & _). by apply Hc in Hc'.
  - intros fuel. generalize 1. induction fuel as [|fuel IH]; intros n; cbn [fit_loop]; rewrite Z.mul_0_r; [done|]. apply IH.
Qed.

Lemma block_params_exact_witness : block_params 272 264 = Ret (Some (256, 256)) /\ exists o, block_params 272 264 = Ret o /\ o <> None.
Proof.
  split; [reflexivity|]. destruct (proj1 block_params_exact 272 264) as (o & E & _ & Hn); [lia|lia|]. exists o. split; [exact E|]. intros H. apply Hn in H. unfold BLOCK_BUDGET in H. lia.
Defined.

(** ** The codec of partials *)

Lemma f32_of_f64_widened x : normal x -> f32_of_f64 (f64_of_f32 x) = x.
Proof. destruct x as [s|s| |s m e]; try done. intros H. destruct (narrow_widened s m e H) as (m' & e' & -> & E). exact E. Qed.

Lemma is_finite_widened x : normal x -> is_finite (f64_of_f32 x) = is_finite x.
Proof. destruct x as [s|s| |s m e]; try done. intros H. by destruct (narrow_widened s m e H) as (m' & e' & -> & _). Qed.

Lemma all_finite_widened hs : Forall normal hs -> forallb is_finite (f64_of_f32 <$> hs) = forallb is_finite hs.
Proof. induction 1 as [|x l Hx _ IH]; [done|]. cbn. by rewrite is_finite_widened, IH. Qed.

Lemma half_normal h : fits 16 h -> normal (to_f32 h).
Proof.
  intros Hh. apply single_normal. exists (to_f32_bits h). split; [|done]. rewrite to_f32_bits_widen by done.
  pose proof (widen_range (h mod 2 ^ 15) ltac:(apply Z.mod_pos_bound; lia)). unfold fits in *. assert (0 <= h / 2 ^ 15 < 2) by dlia. lia.
Qed.

Lemma single_from_le_normal c : length c = 4%nat -> normal (f32_from_le c).
Proof. intros Hc. apply single_normal. exists (from_le c). split; [|done]. pose proof (from_le_fits c) as H. unfold zlen in H. rewrite Hc in H. exact H. Qed.

(** A partial as the format stores it: [d] halves, and two singles. *)
Definition stored (d : Z) (p : Partial) : Prop :=
  (exists hs, pa_o p = f64_of_f32 <$> hs /\ zlen hs = d /\ Forall half_precision hs)
  /\ (exists m, pa_m p = f64_of_f32 m /\ single_precision m) /\ (exists l, pa_l p = f64_of_f32 l /\ single_precision l) /\ SFleb one (pa_l p) = true.

Section Codec.
Context (d : Z) (Hd : 0 < d < 2 ^ 32).

Lemma partial_len_exact : partial_len d = 2 * d + 8.
Proof. unfold partial_len. apply wrap_id. unfold fits. lia. Qed.

(** The partial that [c] encodes, if it is one. *)
Definition partial_at (c : list byte) : option Partial :=
  let hs := (fun h => to_f32 (from_le h)) <$> chunks 2 (slice c 0 (2 * d)) in
  let m := f32_from_le (slice c (2 * d) (2 * d + 4)) in let l := f32_from_le (slice c (2 * d + 4) (2 * d + 8)) in
  if forallb is_finite hs && is_finite m && is_finite l && SFleb one (f64_of_f32 l)
  then Some {| pa_o := f64_of_f32 <$> hs; pa_m := f64_of_f32 m; pa_l := f64_of_f32 l |} else None.

Lemma mapM_fmap_res {A B C} (g : B -> C) (f : A -> res B) l r : mapM (M:=res) f l = Ret r -> mapM (M:=res) (fun a => g <$> f a) l = Ret (g <$> r).
Proof.
  revert r. induction l as [|a l IH]; intros r; cbn [mapM]; [by intros [= <-]|]. destruct (f a) as [b|]; [|done]. cbn. destruct (mapM f l) as [bs|]; [|done].
  cbn. intros [= <-]. by rewrite (IH bs eq_refl).
Qed.

Lemma halves_normal s : Forall (fun c => length c = 2%nat) (chunks 2 s) -> Forall normal ((fun h => to_f32 (from_le h)) <$> chunks 2 s).
Proof.
  intros H. apply Forall_fmap. eapply Forall_impl; [exact H|]. intros c Hc. apply half_normal. pose proof (from_le_fits c) as Hf. unfold zlen in Hf. by rewrite Hc in Hf.
Qed.

Lemma slice_len (c : list byte) a e : 0 <= a <= e -> e <= zlen c -> length (slice c a e) = Z.to_nat (e - a).
Proof. intros H1 H2. pose proof (zlen_slice c a e). unfold zlen in *. lia. Qed.

Lemma decode_partial_at c : zlen c = 2 * d + 8 -> decode_partial d c = Ret (partial_at c).
Proof.
  intros Hc. unfold decode_partial. pose proof (halves_spec c 0 d ltac:(lia) ltac:(lia) ltac:(lia)) as Hh. unfold halves in Hh. rewrite Z.add_0_l in Hh.
  pose proof (mapM_fmap_res f64_of_f32 _ _ _ Hh) as Hm. cbn beta in Hm. change (fun a : Z => f64_of_f32 <$> f16_read c (0 + 2 * a)) with (fun a : Z => f64_of_f32 <$> f16_read c (2 * a)) in Hm. rewrite Hm. cbn [mbind res_bind]. rewrite !index_range_Ret by lia. cbn [mbind res_bind].
  replace (2 * d + 4 + 4) with (2 * d + 8) by lia. unfold partial_at.
  assert (HF : Forall normal ((fun h => to_f32 (from_le h)) <$> chunks 2 (slice c 0 (2 * d)))) by (apply halves_normal, (chunks_full 2 (Z.to_nat d)); [lia|rewrite slice_len by lia; lia]).
  set (hs := (fun h => to_f32 (from_le h)) <$> chunks 2 (slice c 0 (2 * d))) in *.
  assert (Ef : forallb is_finite (f64_of_f32 <$> hs) = forallb is_finite hs) by (by apply all_finite_widened).
  rewrite Ef, !is_finite_widened; [done|apply single_from_le_normal; rewrite slice_len by lia; lia..].
Qed.

Lemma partial_at_Some c p : zlen c = 2 * d + 8 -> partial_at c = Some p -> stored d p /\ encode_partial p = c.
Proof.
  intros Hc. unfold partial_at. destruct (_ && _ && _ && _) eqn:E; [|done]. rewrite !andb_true_iff in E. destruct E as [[[Ef Em] El] Ele]. intros Hp. apply (inj Some) in Hp. subst p.
  assert (Hs : length (slice c 0 (2 * d)) = (Z.to_nat d * 2)%nat) by (rewrite slice_len by lia; lia).
  pose proof (chunks_full 2 (Z.to_nat d) (slice c 0 (2 * d)) ltac:(lia) Hs) as HF. pose proof (halves_normal _ HF) as HN. pose proof (half_bytes_read _ _ Hs Ef) as Hb.
  assert (Hsl : forall a, 0 <= a -> a + 4 <= zlen c -> is_finite (f32_from_le (slice c a (a + 4))) = true -> normal (f32_from_le (slice c a (a + 4))) /\ single_bytes (f32_from_le (slice c a (a + 4))) = slice c a (a + 4) /\ single_precision (f32_from_le (slice c a (a + 4)))).
  { intros a Ha Hl Hf. assert (H4 : length (slice c a (a + 4)) = 4%nat) by (rewrite slice_len by lia; lia). split; [by apply single_from_le_normal|]. split; [by apply single_bytes_read|].
    exists (from_le (slice c a (a + 4))). pose proof (from_le_fits (slice c a (a + 4))) as Hft. unfold zlen in Hft. rewrite H4 in Hft. split; [exact Hft|]. split; [|done].
    unfold f32_from_le in Hf. rewrite is_finite_bits in Hf by exact Hft. by apply Z.ltb_lt. }
  destruct (Hsl (2 * d) ltac:(lia) ltac:(lia) Em) as (Nm & Bm & Pm). replace (2 * d + 8) with (2 * d + 4 + 4) in * by lia. destruct (Hsl (2 * d + 4) ltac:(lia) ltac:(lia) El) as (Nl & Bl & Pl).
  split.
  - unfold stored. cbn [pa_o pa_m pa_l]. split; [|split; [eexists; split; [reflexivity|exact Pm]|split; [eexists; split; [reflexivity|exact Pl]|exact Ele]]].
    exists ((fun h => to_f32 (from_le h)) <$> chunks 2 (slice c 0 (2 * d))). split; [reflexivity|]. split.
    + unfold zlen. rewrite length_fmap. pose proof (length_chunks 2 ltac:(lia) (slice c 0 (2 * d))) as Hl. unfold zlen, div_ceil in Hl. rewrite Hs in Hl. lia.
    + apply Forall_forall. intros x Hx. pose proof Hx as Hx'. apply list_elem_of_fmap in Hx as (h & -> & Hh). exists (from_le h).
      rewrite Forall_forall in HF. specialize (HF h Hh). pose proof (from_le_fits h) as Hft. unfold zlen in Hft. rewrite HF in Hft. split; [exact Hft|]. split; [|done].
      rewrite forallb_forall in Ef. specialize (Ef _ (proj1 (list_elem_of_In _ _) Hx')). rewrite to_f32_finite in Ef by exact Hft. by apply Z.ltb_lt.
  - unfold encode_partial. cbn [pa_o pa_m pa_l]. rewrite (f32_of_f64_widened _ Nm), (f32_of_f64_widened _ Nl).
    fold (single_bytes (f32_from_le (slice c (2 * d) (2 * d + 4)))) (single_bytes (f32_from_le (slice c (2 * d + 4) (2 * d + 4 + 4)))). rewrite Bm, Bl.
    assert (Eo : (fun x => to_le 2 (from_f32 (f32_of_f64 x))) <$> (f64_of_f32 <$> ((fun h => to_f32 (from_le h)) <$> chunks 2 (slice c 0 (2 * d)))) = half_bytes <$> ((fun h => to_f32 (from_le h)) <$> chunks 2 (slice c 0 (2 * d)))).
    { rewrite <- list_fmap_compose. clear - HN. induction HN as [|x l Hx _ IH]; [done|]. cbn. rewrite f32_of_f64_widened by done. by rewrite IH. }
    rewrite Eo, Hb, !slice_slice_app by lia. rewrite <- Hc. unfold slice. rewrite Z.sub_0_r. cbn [Z.to_nat]. rewrite drop_0. apply take_ge. unfold zlen. lia.
Qed.

Lemma stored_partial p : stored d p -> zlen (encode_partial p) = 2 * d + 8 /\ partial_at (encode_partial p) = Some p.
Proof.
  intros ((hs & Eo & Hn & HF) & (m & Em & Pm) & (l & El & Pl) & Hle). destruct p as [o pm pl]. cbn [pa_o pa_m pa_l] in *. subst o pm pl.
  assert (HNf : forall x, single_precision x -> normal x) by (intros x (b & Hb & _ & ->); apply single_normal; by exists b).
  assert (Ec : encode_partial {| pa_o := f64_of_f32 <$> hs; pa_m := f64_of_f32 m; pa_l := f64_of_f32 l |} = concat (half_bytes <$> hs) ++ single_bytes m ++ single_bytes l).
  { unfold encode_partial. cbn [pa_o pa_m pa_l]. rewrite !f32_of_f64_widened by auto. f_equal. f_equal. rewrite <- list_fmap_compose.
    clear - HF. induction HF as [|x hs (h & Hh & _ & ->) _ IH]; [done|]. cbn. rewrite f32_of_f64_widened by (by apply half_normal). by rewrite IH. }
  rewrite Ec. destruct (half_bytes_written hs HF) as [Hw Hf]. destruct (single_bytes_written m Pm) as [Wm Fm]. destruct (single_bytes_written l Pl) as [Wl Fl].
  pose proof (zlen_half_bytes hs) as Lh. rewrite Hn in Lh. assert (Lm : zlen (single_bytes m) = 4) by apply zlen_to_le. assert (Ll : zlen (single_bytes l) = 4) by apply zlen_to_le.
  split; [rewrite !zlen_app; lia|]. unfold partial_at.
  replace (slice _ 0 (2 * d)) with (concat (half_bytes <$> hs)) by (rewrite <- Lh; symmetry; apply (slice_app_mid [] _ (single_bytes m ++ single_bytes l))).
  replace (slice _ (2 * d) (2 * d + 4)) with (single_bytes m) by (rewrite <- Lh, <- Lm; symmetry; apply slice_app_mid).
  assert (El : slice (concat (half_bytes <$> hs) ++ single_bytes m ++ single_bytes l) (2 * d + 4) (2 * d + 8) = single_bytes l).
  { pose proof (slice_app_mid (concat (half_bytes <$> hs) ++ single_bytes m) (single_bytes l) []) as Hs. rewrite app_nil_r, <- app_assoc, zlen_app, Lh, Lm, Ll in Hs. replace (2 * d + 4 + 4) with (2 * d + 8) in Hs by lia. exact Hs. }
  rewrite El, Hw, Wm, Wl, Hf, Fm, Fl. rewrite Hle. done.
Qed.

(** When every call returns, collecting options is collecting the values. *)
Lemma collect_some_pure {A B} (f : A -> res (option B)) (g : A -> option B) l : (forall a, a ∈ l -> f a = Ret (g a)) -> collect_some f l = Ret (mapM (M:=option) g l).
Proof.
  induction l as [|a l IH]; intros Hf; [done|]. cbn [collect_some mapM]. rewrite (Hf a ltac:(left)). cbn [mbind res_bind].
  destruct (g a) as [b|]; [|done]. rewrite IH by (intros; apply Hf; by right). cbn [mbind res_bind option_bind]. by destruct (mapM g l).
Qed.

Lemma decode_partials_cut b : zlen b mod (2 * d + 8) = 0 -> zlen b <> 0 ->
  decode_partials b d = Ret (mapM (M:=option) partial_at (chunks (Z.to_nat (2 * d + 8)) b)) /\ Forall (fun c => zlen c = 2 * d + 8) (chunks (Z.to_nat (2 * d + 8)) b).
Proof.
  intros Hm Hz. unfold decode_partials. rewrite partial_len_exact. destruct (Z.eqb_spec d 0); [lia|]. destruct (Z.eqb_spec (zlen b) 0); [done|].
  rewrite Hm. cbn [Z.eqb negb orb]. rewrite chunks_exact_all by (rewrite ?Z2Nat.id; lia).
  assert (HF : Forall (fun c => zlen c = 2 * d + 8) (chunks (Z.to_nat (2 * d + 8)) b)).
  { assert (Hq : length b = (Z.to_nat (zlen b / (2 * d + 8)) * Z.to_nat (2 * d + 8))%nat).
    { pose proof (Z.div_mod (zlen b) (2 * d + 8) ltac:(lia)) as E. rewrite Hm in E. pose proof (zlen_nonneg b). assert (0 <= zlen b / (2 * d + 8)) by (apply Z.div_pos; lia).
      rewrite <- Z2Nat.inj_mul by lia. rewrite Z.mul_comm. rewrite Z.add_0_r in E. rewrite <- E. unfold zlen. lia. }
    eapply Forall_impl; [apply (chunks_full (Z.to_nat (2 * d + 8)) _ b ltac:(lia) Hq)|]. intros c Hc. cbn beta in Hc |- *. clear - Hc Hd. unfold zlen. rewrite Hc. lia. }
  split; [|done]. apply collect_some_pure. intros c Hc. rewrite Forall_forall in HF. by apply decode_partial_at, HF.
Qed.
End Codec.

(** The codec of partials is exact.  Decoding never panics; what it accepts is a non-empty list of partials of
    [d] halves and two singles, of mass at least one, whose encoding is the bytes; and every such list decodes
    from its encoding. *)
Theorem partials_codec_exact (d : Z) : 0 < d < 2 ^ 32 ->
  (forall b, exists o, decode_partials b d = Ret o /\ forall ps, o = Some ps -> ps <> [] /\ Forall (stored d) ps /\ encode_partials ps = b)
  /\ forall ps, ps <> [] -> Forall (stored d) ps -> decode_partials (encode_partials ps) d = Ret (Some ps).
Proof.
  intros Hd. split.
  - intros b. destruct (decide (zlen b mod (2 * d + 8) = 0 /\ zlen b <> 0)) as [[Hm Hz]|Hno].
    + destruct (decode_partials_cut d Hd b Hm Hz) as [-> HF]. eexists. split; [done|]. intros ps Hps. apply mapM_Some in Hps.
      assert (Hall : Forall2 (fun c p => stored d p /\ encode_partial p = c) (chunks (Z.to_nat (2 * d + 8)) b) ps).
      { clear - Hd HF Hps. induction Hps as [|c p cs ps Hc _ IH]; [constructor|]. apply Forall_cons in HF as [Hz HF]. constructor; [by apply partial_at_Some|by apply IH]. }
      split; [|split].
      * intros ->. apply Forall2_nil_inv_r in Hps. pose proof (concat_chunks (Z.to_nat (2 * d + 8)) ltac:(lia) b) as Hcc. rewrite Hps in Hcc. by subst b.
      * clear - Hall. induction Hall as [|c p cs ps [Hp _] _ IH]; by constructor.
      * rewrite <- (concat_chunks (Z.to_nat (2 * d + 8)) ltac:(lia) b). unfold encode_partials. f_equal. clear - Hall. induction Hall as [|c p cs ps [_ Hp] _ IH]; [done|]. cbn. by rewrite Hp, IH.
    + exists None. split; [|done]. unfold decode_partials. rewrite partial_len_exact by done. destruct (Z.eqb_spec d 0); [done|]. destruct (Z.eqb_spec (zlen b) 0) as [|Hz]; [done|].
      destruct (Z.eqb_spec (zlen b mod (2 * d + 8)) 0) as [Hm|]; [|done]. by destruct Hno.
  - intros ps Hne HF. assert (Hlen : Forall (fun c => length c = Z.to_nat (2 * d + 8)) (encode_partial <$> ps)).
    { apply Forall_fmap. eapply Forall_impl; [exact HF|]. intros p Hp. change (length (encode_partial p) = Z.to_nat (2 * d + 8)). destruct (stored_partial d p Hp) as [Hz _]. unfold zlen in Hz. lia. }
    assert (Hz : zlen (encode_partials ps) = zlen ps * (2 * d + 8)) by (unfold zlen at 1, encode_partials; rewrite (concat_len _ _ Hlen), length_fmap, Nat2Z.inj_mul; unfold zlen; lia).
    assert (Hp : 0 < zlen ps) by (destruct ps; [done|unfold zlen; cbn; lia]).
    destruct (decode_partials_cut d Hd (encode_partials ps)) as [-> _]; [rewrite Hz; apply Z.mod_mul; lia|rewrite Hz; nia|].
    unfold encode_partials. rewrite chunks_of_concat by (done || lia). f_equal. apply mapM_Some. clear - HF Hd. induction HF as [|p ps Hp _ IH]; constructor; [by apply stored_partial|done].
Qed.

Lemma partials_codec_exact_witness : exists ps, decode_partials (to_le 2 0x3c00 ++ to_le 4 0 ++ to_le 4 0x3f800000) 1 = Ret (Some ps)
  /\ encode_partials ps = to_le 2 0x3c00 ++ to_le 4 0 ++ to_le 4 0x3f800000.
Proof.
  assert (Hd : exists ps, decode_partials (to_le 2 0x3c00 ++ to_le 4 0 ++ to_le 4 0x3f800000) 1 = Ret (Some ps)) by (eexists; vm_compute; reflexivity).
  destruct Hd as [ps E]. exists ps. split; [exact E|]. destruct (proj1 (partials_codec_exact 1 ltac:(lia)) (to_le 2 0x3c00 ++ to_le 4 0 ++ to_le 4 0x3f800000)) as (o & Eo & H).
  rewrite E in Eo. injection Eo as <-. exact (proj2 (proj2 (H ps eq_refl))).
Defined.

(** ** The draw of a child *)

(** The weights before child [i]. *)
Definition weight_before (i : Z) (ws : list Z) : Z := foldr Z.add 0 (take (Z.to_nat i) ws).

Lemma sum_nonneg ws : Forall (Z.le 0) ws -> 0 <= foldr Z.add 0 ws.
Proof. induction 1 as [|w ws Hw _ IH]; cbn; lia. Qed.

Lemma pick_exact ws at_ b : Forall (Z.le 1) ws -> 0 <= at_ < foldr Z.add 0 ws ->
  forall i, 0 <= i < zlen ws -> pick at_ b ws = Some (b + i) <-> weight_before i ws <= at_ < weight_before (i + 1) ws.
Proof.
  unfold weight_before. intros HF. revert at_ b. induction HF as [|w ws Hw HF IH]; intros at_ b Ha i Hi; [change (zlen []) with 0 in Hi; lia|].
  rewrite zlen_cons in Hi. cbn [pick]. cbn [foldr] in Ha. assert (Hnn : forall k, 0 <= foldr Z.add 0 (take k ws)) by (intros k; apply sum_nonneg, Forall_take; eapply Forall_impl; [exact HF|]; cbn; lia).
  replace (Z.to_nat (i + 1)) with (S (Z.to_nat i)) by lia. cbn [take foldr]. destruct (decide (i = 0)) as [->|Hne].
  - change (Z.to_nat 0) with 0%nat. cbn [take foldr]. rewrite !Z.add_0_r.
    destruct (Z.ltb_spec at_ w) as [Hlt|Hge]; [split; [intros _; lia|done]|].
    destruct (pick_spec (at_ - w) (b + 1) ws ltac:(lia)) as (j & -> & Hj). split; [intros [= ?]; lia|lia].
  - replace (Z.to_nat i) with (S (Z.to_nat (i - 1))) by lia. cbn [take foldr]. specialize (Hnn (Z.to_nat (i - 1))). destruct (Z.ltb_spec at_ w) as [Hlt|Hge].
    + split; [intros [= ?]; lia|lia].
    + specialize (IH (at_ - w) (b + 1) ltac:(lia) (i - 1) ltac:(lia)). replace (b + 1 + (i - 1)) with (b + i) in IH by lia. replace (Z.to_nat (i - 1 + 1)) with (S (Z.to_nat (i - 1))) in IH by lia.
      rewrite IH. cbn [take foldr]. destruct ws as [|w' ws]; [change (zlen []) with 0 in *; lia|]. cbn [take foldr]. lia.
Qed.

Lemma child_weights_range `{L : Libm} parts ws : child_weights parts = Some ws -> zlen ws = zlen parts /\ Forall (fun w => 1 <= w <= 65535) ws /\ 0 < zlen parts.
Proof.
  unfold child_weights. destruct (Z.eqb_spec (zlen parts) 0) as [|Hne]; [done|]. pose proof (zlen_nonneg parts). destruct (negb (is_finite _)); [done|]. cbn [orb].
  match goal with |- context [if ?c then None else _] => destruct c end; [done|]. match goal with |- context [if ?c then Some (replicate _ _) else _] => destruct c end; intros H'; apply (inj Some) in H'; subst ws.
  - split; [unfold zlen; by rewrite length_replicate|]. split; [apply Forall_replicate; lia|lia].
  - rewrite zlen_fmap. split; [unfold zlen; rewrite length_zip_with, !length_fmap; lia|]. split; [|lia]. apply Forall_fmap, Forall_true. intros x. cbn beta. unfold compose.
    match goal with |- context [f64_as_u64 ?y] => generalize (f64_as_u64 y) end. intros u. lia.
Qed.

(** The weights of a node add up without overflow. *)
Lemma weights_total `{L : Libm} parts ws : child_weights parts = Some ws -> zlen parts < 2 ^ 32 ->
  zlen parts <= foldr Z.add 0 ws <= 65535 * zlen parts /\ wrap 64 (foldr Z.add 0 ws) = foldr Z.add 0 ws.
Proof.
  intros Hw Hlen. destruct (child_weights_range parts ws Hw) as (Hz & HF & Hp).
  assert (Ht : zlen ws <= foldr Z.add 0 ws <= 65535 * zlen ws).
  { clear - HF. induction HF as [|w ws Hw _ IH]; [done|]. cbn [foldr]. rewrite zlen_cons. cbn beta in Hw. lia. }
  rewrite Hz in Ht. split; [done|]. apply wrap_id. unfold fits. lia.
Qed.

(** The drawn child is one of the node's. *)
Lemma draw_in_range `{B3 : Blake3, L : Libm} rand parts ws : child_weights parts = Some ws -> zlen parts < 2 ^ 32 -> 0 <= draw_weighted_child rand ws < zlen parts.
Proof.
  intros Hw Hlen. destruct (child_weights_range parts ws Hw) as (Hz & _ & Hp). destruct (weights_total parts ws Hw Hlen) as [Ht Hwr].
  unfold draw_weighted_child. rewrite Hwr, Hz, !Z.max_l by lia. set (r := from_le (slice _ 8 16)). destruct (_ <? UNIFORM_EIGHTHS); [apply Z.mod_pos_bound; lia|].
  destruct (pick_spec (r mod foldr Z.add 0 ws) 0 ws) as (j & -> & Hj); [apply Z.mod_pos_bound; lia|]. cbn [default]. unfold id. lia.
Qed.

(** The draw of the next child favours mass.  The weights of a node's partials are one per child, from 1 to 65535;
    the drawn child is one of them; half of the draws are uniform and the others take child [i] for exactly as
    many residues as it has weight, so no child is out of reach. *)
Theorem weighted_child_drawn `{B3 : Blake3, L : Libm} (rand : Hash) (parts : list Partial) (ws : list Z) :
  child_weights parts = Some ws -> zlen parts < 2 ^ 32 ->
  let total := foldr Z.add 0 ws in
  zlen ws = zlen parts /\ Forall (fun w => 1 <= w <= 65535) ws
  /\ (exists h : Hash, let r := from_le (slice h 8 16) in
       if from_le (slice h 0 1) mod 8 <? 4 then draw_weighted_child rand ws = r mod zlen parts
       else forall i, 0 <= i < zlen parts -> draw_weighted_child rand ws = i <-> weight_before i ws <= r mod total < weight_before (i + 1) ws)
  /\ 0 <= draw_weighted_child rand ws < zlen parts.
Proof.
  intros Hw Hlen total. destruct (child_weights_range parts ws Hw) as (Hz & HF & Hp). split; [done|]. split; [done|]. split; [|by apply draw_in_range].
  assert (HF1 : Forall (Z.le 1) ws) by (eapply Forall_impl; [exact HF|]; cbn; lia). destruct (weights_total parts ws Hw Hlen) as [Ht Hwr]. fold total in Ht, Hwr.
  unfold draw_weighted_child. set (h := blake3_hash _). fold total. rewrite Hwr, Hz, !Z.max_l by lia.
  change 7 with (2 ^ 3 - 1). rewrite land_field by lia. change UNIFORM_EIGHTHS with 4. change (2 ^ 3) with 8.
  assert (Hr : 0 <= from_le (slice h 8 16) mod total < total) by (apply Z.mod_pos_bound; lia). destruct (pick_spec _ 0 ws Hr) as (j & Ej & Hj). rewrite Ej, Z.add_0_l. cbn [default].
  exists h. cbv zeta. destruct (_ <? 4); [done|]. intros i Hi. unfold id. rewrite <- (pick_exact ws _ 0 HF1 Hr i ltac:(lia)), Ej, !Z.add_0_l. split; [by intros ->|by intros [= ->]].
Qed.

Lemma weighted_child_drawn_witness : exists ws, zlen ws = 2 /\ Forall (fun w => 1 <= w <= 65535) ws /\ 0 <= draw_weighted_child (B3 := Merkle.Toy.toy_blake3) (repeat Byte.x00 32) ws < 2.
Proof.
  pose (L := {| libm_exp := fun _ => one; libm_tanh := fun x => x; libm_sqrt := fun x => x |}). pose (p := {| pa_o := [one]; pa_m := zero; pa_l := one |}).
  assert (H : exists ws, child_weights (L := L) [p; p] = Some ws) by (eexists; vm_compute; reflexivity).
  destruct H as [ws H]. exists ws. destruct (weighted_child_drawn (B3 := Merkle.Toy.toy_blake3) (repeat Byte.x00 32) [p; p] ws H ltac:(done)) as (H1 & H2 & _ & H3).
  split; [exact H1|]. split; [exact H2|exact H3].
Defined.
