(* ===== verification/AttnPoint.v ===== *)
(** * Attention points ([verifiable-inference/src/chain.rs], [verify_attn_phase] and its callees)

    The attention point of a response is opened in phases: the first opens the root of the
    tree of attended positions, each later one the child drawn after the phase before, and
    the last one a leaf, recomputed from the committed cache rows, the query projection and
    one key and value projection drawn from the leaf.  Grouped-query and latent-cache layers
    are modelled with every guard in the order of the source. *)
From S2P Require Import Prelude Float Magnitude Merkle Seq Opening Quant Manifest VerifyPoint Links Chain Attn Blocks.
#[local] Open Scope Z_scope.

(** ** Openings compare by value *)

#[export] Instance EntryOpening_eq_dec : EqDecision EntryOpening.
Proof. solve_decision. Defined.
#[export] Instance ChunkRange_eq_dec : EqDecision ChunkRange.
Proof. solve_decision. Defined.
#[export] Instance LeafChunk_eq_dec : EqDecision LeafChunk.
Proof. solve_decision. Defined.
#[export] Instance LeafBytes_eq_dec : EqDecision LeafBytes.
Proof. solve_decision. Defined.
#[export] Instance AttnOpening_eq_dec : EqDecision AttnOpening.
Proof. solve_decision. Defined.

(** The [Default] values of the fields of an opening. *)
Definition no_entry : EntryOpening := {| entry_index := 0; entry_bytes := []; entry_path := [] |}.
Definition no_leaf : LeafBytes := {| lb_bytes := []; lb_leaf_path := [] |}.
Definition no_span : SeqSpan := {| span_first_chunk := 0; span_bytes := []; span_chunk_proof := []; span_leaf_path := [] |}.

(** [iter.any(f)] and [iter.all(f)] with a call that may panic. *)
Fixpoint any_res {A} (f : A -> res bool) (l : list A) : res bool :=
  match l with [] => Ret false | a :: l => b ← f a; if (b : bool) then Ret true else any_res f l end.
Fixpoint all_res {A} (f : A -> res bool) (l : list A) : res bool :=
  match l with [] => Ret true | a :: l => b ← f a; if (b : bool) then all_res f l else Ret false end.

(** A loop over [l] that updates [s], or fails. *)
Fixpoint try_fold {E A S} (f : S -> A -> res (E + S)) (s : S) (l : list A) : res (E + S) :=
  match l with [] => Ret (inr s) | a :: l => s ←? f s a; try_fold f s l end.

(** Outcome of an accepted attention phase. *)
Inductive AttnStep :=
| AttnStep_Done
| AttnStep_Next (root : Hash) (n : Z) (weights : list Z).

(** A drawn attention point: layer links, query position, draws and the tree of the attended positions. *)
Record AttnSite := {
  si_ll : LayerLinks;
  si_a : AttnLinks;
  si_slot : Z;
  si_t : Z;
  si_d : Z -> Z;
  si_tree : BlockTree;
  si_dv : Z;
}.

Definition gqa_shape (a : AttnLinks) : AttnShape := {|
  as_n_head := al_n_head a; as_n_head_kv := al_n_head_kv a; as_head_dim := al_head_dim a; as_rope_kind := al_rope_kind a;
  as_n_rot := al_n_rot a; as_rope_base := f64_of_f32 (f32_from_bits (al_rope_base a)); as_kq_scale := f64_of_f32 (f32_from_bits (al_kq_scale a));
|}.

Definition seq_layout (ctx : ChainCtx) : SeqLayout := {| n_attn := cc_n_attn ctx; n_recur := cc_n_recur ctx; heads := cc_seq_heads ctx |}.

(** Key/value head and query head of a grouped-query point. *)
Definition gqa_heads (s : AttnSite) (g : Z) : res (Z * Z) :=
  let n := al_n_head_kv (si_a s) in
  if (n =? 0) || (g =? 0) then Panic else
  let kv := si_d s 2 mod n in Ret (kv, wrap 64 (kv * g + si_d s 2 / n mod g)).

Definition dequant_head (row : list byte) (hd : Z) : res (Fail + list f32) :=
  o ← dequant_row Q8_0 row hd; ok_or Shape o.

(** Whether one Q8_0 block is a canonical quantization of [vals] within one step per value. *)
Definition q8_0_block_matches (vmax : f64) (blk : list byte) (vals : list f64) : res bool :=
  d ← f16_read blk 0; q ← quants blk 2;
  if negb (is_finite d) || negb (canonical d q) then Ret false else
  if SFeqb d zero then Ret (forallb (fun a => SFleb (SFabs a) (f64_lit 1 1000000 * vmax)%F) vals) else
  all_res (fun '(j, a) => qj ← index q j; Ret (SFleb (SFabs (f64_of_Z qj - a / f64_of_f32 d)%F) THRESHOLD)) (zip (seqZ 0 (zlen vals)) vals).

(** Whether the Q8_0 blocks [b] are a canonical quantization of [v] within one step per value. *)
Definition q8_0_matches (b : list byte) (v : list f64) : res bool :=
  if negb (zlen b =? wrap 64 (div_ceil (zlen v) 32 * 34)) then Ret false else
  let vmax := abs_max v in
  all_res (fun '(blk, vals) => q8_0_block_matches vmax blk vals) (zip (chunks_exact 34 b) (chunks 32 v)).

(** Writes the values [vals], at [base] of the leaf, that fall in the [n] values from [lo]. *)
Fixpoint cover (lo n : Z) (at_ : Z) (vals : list f32) (s : list f32 * list bool) : list f32 * list bool :=
  match vals with
  | [] => s
  | v :: vals =>
    cover lo n (at_ + 1) vals
      match checked_sub at_ lo with
      | Some i => if i <? n then (<[Z.to_nat i := v]> s.1, <[Z.to_nat i := true]> s.2) else s
      | None => s
      end
  end.

Section AttnPoint.
Context `{B3 : Blake3, L : Libm, LM : LibmMore}.

(** Leaf layout of a position, independent of its token. *)
Definition shape_any (tier : TierCtx) (ctx : ChainCtx) : PosShape := shape tier ctx 0.

(** ** Committed values *)

(** Root of position [p] reached by the first of [chunks] of the f32 leaf [leaf], checked against the position tree. *)
Definition anchor_root (pos_root : Hash) (n_pos p : Z) (shape : PosShape) (leaf : Z) (chunks : list LeafChunk) (total : Z) (path : list Hash)
  : res (Fail + Hash) :=
  c ←? ok_or Shape (head chunks);
  h ←? chunk_leaf c total (lc_index c);
  root ←? ok_or Trace (b3_fold (ps_n_leaves shape) leaf h (lc_leaf_path c));
  ok_or Trace (if b3_verify pos_root n_pos p root path then Some root else None).

(** Values [lo..lo + n] of the f32 leaf [leaf] at the position of [root], from its opened chunks. *)
Definition head_from_chunks (root : Hash) (shape : PosShape) (leaf : Z) (chunks : list LeafChunk) (total lo n : Z) : res (Fail + list f32) :=
  '(out, covered) ←? try_fold (fun s c =>
      vals ←? leaf_chunk root shape leaf c total (lc_index c);
      Ret (inr (cover lo n (wrap 64 (lc_index c * B3_CHUNK) / 4) vals s)))
    (replicate (Z.to_nat n) zero, replicate (Z.to_nat n) false) chunks;
  ok_or Shape (if forallb id covered then Some out else None).

(** Q8_0 head rows of positions [p0..p1] of the cache leaf [leaf], from [span]. *)
Definition cache_rows (ctx : ChainCtx) (seq_root : Hash) (leaf : option Z) (n_pos hd p0 p1 : Z) (span : SeqSpan) : res (Fail + list (list byte)) :=
  let bb := hd / 32 * 34 in
  leaf ←? ok_or Shape leaf;
  bytes ←? ok_or Trace (open_span seq_root (seq_layout ctx) leaf (wrap 64 (n_pos * bb)) (wrap 64 (p0 * bb)) (wrap 64 (p1 * bb)) span);
  if bb =? 0 then Panic else Ret (inr (chunks_exact (Z.to_nat bb) bytes)).

(** Committed log mass of query head [qi] of the group of [g] sharing key/value head [kv], at the drawn position. *)
Definition committed_lse (ctx : ChainCtx) (op : AttnOpening) (s : AttnSite) (n_pos kv g qi : Z) : res (Fail + f32) :=
  let sl := seq_layout ctx in
  leaf ←? ok_or Shape (Seq.lse sl (si_slot s) kv);
  let lo := wrap 64 (wrap 64 (wrap 64 (si_t s * g) + qi) * 4) in
  b ←? ok_or Trace (open_span (at_seq_root op) sl leaf (wrap 64 (wrap 64 (n_pos * g) * 4)) lo (wrap 64 (lo + 4)) (at_lse op));
  ok_or Shape (if zlen b =? 4 then Some (f32_from_le b) else None).

(** ** The drawn point *)

Definition attn_site (tier : TierCtx) (ctx : ChainCtx) (resp : ResponseCtx) (seed : Hash) (op : AttnOpening) : res (Fail + AttnSite) :=
  let nl := cc_n_layers ctx in let n_attn := cc_n_attn ctx in
  bail Unsupported if (n_pos resp =? 0) || (nl =? 0) || (n_attn =? 0) || (nl <? n_attn) || (cc_seq_heads ctx =? 0);
  root ← trace_root (at_pos_root op) (at_seq_root op);
  bail Trace if negb (bool_decide (root = resp_trace_root resp));
  let d := draw seed ATTN_POINT in
  let slot := d 1 mod n_attn in
  layer ←? ok_or Manifest_ (l ← checked_sub (entry_index (at_layer op)) (cc_layer_base ctx); if l <? nl then Some l else None);
  le ←? open_entry tier (at_layer op) (wrap 64 (cc_layer_base ctx + layer));
  ll ←? ok_or Manifest_ (match chain le with
    | Chain_Layer ll => if (role le =? ROLE_LAYER) && (ll_layer ll =? layer) then Some ll else None
    | _ => None end);
  a ←? ok_or Shape (ll_attn ll);
  bail Manifest_ if negb (al_slot a =? slot);
  t ←? resid_position ctx resp layer (d 0);
  bail Unsupported if negb (al_softcap a =? 0) || (1 <? al_v_norm a) || (1 <? al_gated a);
  let hd := al_head_dim a in
  bail Manifest_ if (hd =? 0) || negb (hd mod 32 =? 0);
  let '(start, row, dv) :=
    if negb (al_mla_rank a =? 0) then (0, hd / 32 * 34, al_mla_rank a)
    else (if 0 <? al_swa_window a then saturating_sub (wrap 64 (t + 1)) (al_swa_window a) else 0, 2 * (hd / 32 * 34), hd) in
  cb ← block_params row (partial_len dv);
  '(c, b) ←? ok_or Manifest_ cb;
  tree ←? ok_or Manifest_ (tree_new start (wrap 64 (t + 1)) c b);
  Ret (inr {| si_ll := ll; si_a := a; si_slot := slot; si_t := t; si_d := d; si_tree := tree; si_dv := dv |}).

(** Query norm, key norm and RoPE frequency weights a grouped-query layer declares. *)
Definition gqa_declared (a : AttnLinks) : list (Z * Z) :=
  filter (fun p => p.1 <> NONE) [(al_q_norm a, al_head_dim a); (al_k_norm a, al_head_dim a); (al_rope_freqs a, al_n_rot a / 2)].

(** [take]: the next of [weights] for a declared index. *)
Definition take_norm {A} (i : Z) (weights : list A) : option A * list A := if i =? NONE then (None, weights) else (head weights, tail weights).

Definition gqa_norms (tier : TierCtx) (a : AttnLinks) (norms : list Weights) : res (Fail + (option (list f32) * option (list f32) * option (list f32))) :=
  bail Shape if negb (zlen norms =? zlen (gqa_declared a));
  weights ←? try_map (fun '((i, k), w) => f32_weights tier w i k 0 k) (zip (gqa_declared a) norms);
  let '(q_norm, weights) := take_norm (al_q_norm a) weights in
  let '(k_norm, weights) := take_norm (al_k_norm a) weights in
  let '(freqs, _) := take_norm (al_rope_freqs a) weights in
  Ret (inr (q_norm, k_norm, freqs)).

Definition gqa_prep (ctx : ChainCtx) (a : AttnLinks) (norms : option (list f32) * option (list f32) * option (list f32)) : Prep :=
  let '(q_norm, k_norm, freqs) := norms in
  {| pr_q_norm := q_norm; pr_k_norm := k_norm; pr_v_norm := al_v_norm a =? 1; pr_freqs := freqs; pr_eps := cc_eps ctx |}.

Section Phase.
Context (tier : TierCtx) (ctx : ChainCtx) (resp : ResponseCtx) (op : AttnOpening) (s : AttnSite).
Let a : AttnLinks := si_a s.
Let n_pos : Z := VerifyPoint.n_pos resp.
Let pshape : PosShape := shape_any tier ctx.
Let q_leaf : Z := 2 * al_q a + 1.

Definition gqa_query : res (Fail + list f64) :=
  let shape := gqa_shape a in
  g ←? ok_or Manifest_ (group shape);
  let hd := al_head_dim a in let qw := 1 + al_gated a in
  qe ←? open_entry tier (at_q_entry op) (al_q a);
  bail Manifest_ if negb (e_m qe =? wrap 64 (wrap 64 (al_n_head a * hd) * qw));
  norms ←? gqa_norms tier a (at_norms op);
  let prep := gqa_prep ctx a norms in
  bail Manifest_ if negb (prep_fits prep shape);
  let total := wrap 64 (4 * e_m qe) in
  root_t ←? anchor_root (at_pos_root op) n_pos (si_t s) pshape q_leaf (at_q op) total (at_pos_path op);
  '(_, qh) ← gqa_heads s g;
  raw ←? head_from_chunks root_t pshape q_leaf (at_q op) total (wrap 64 (wrap 64 (qh * hd) * qw)) hd;
  q ← prep_query prep shape raw (si_t s);
  Ret (inr q).

Definition mla_query : res (Fail + list f64) :=
  let nh := al_n_head a in let hd := al_head_dim a in let r := al_mla_rank a in
  rope ←? ok_or Manifest_ (x ← checked_sub hd r; if (r mod 32 =? 0) && (0 <? nh) then Some x else None);
  qe ←? open_entry tier (at_q_entry op) (al_q a);
  bail Manifest_ if negb (e_m qe mod nh =? 0);
  let qh_w := e_m qe / nh in
  nope ←? ok_or Manifest_ (n ← checked_sub qh_w rope; if 0 <? n then Some n else None);
  let qh := si_d s 2 mod nh in
  let total := wrap 64 (4 * e_m qe) in
  root_t ←? anchor_root (at_pos_root op) n_pos (si_t s) pshape q_leaf (at_q op) total (at_pos_path op);
  latent ←? head_from_chunks root_t pshape (2 * al_absorb a + 1) (at_absorb op) (wrap 64 (4 * wrap 64 (nh * r))) (wrap 64 (qh * r)) r;
  rotary ←? head_from_chunks root_t pshape q_leaf (at_q op) total (wrap 64 (wrap 64 (qh * qh_w) + nope)) rope;
  Ret (inr ((f64_of_f32 <$> latent) ++ (f64_of_f32 <$> rotary))).

(** Layout of the attention-output input at the drawn position and the position root its opened leaf reaches. *)
Definition out_root (rank wtype : Z) : res (Fail + (Z * Hash)) :=
  let layout := layout_for (expected_ubatch (si_t s) (n_prompt resp)) wtype in
  root_t ←? ok_or Trace (b3_fold (ps_n_leaves pshape) (2 * rank) (blake3_hash (lb_bytes (at_out op))) (lb_leaf_path (at_out op)));
  ok_or Trace (if b3_verify (at_pos_root op) n_pos (si_t s) root_t (at_pos_path op) then Some (layout, root_t) else None).

(** The rest of a check once [ok] is known. *)
Definition matched (ok : bool) : res (Fail + unit) := ok_or Mismatch (if ok then Some () else None).

(** ** Grouped-query layers *)

(** The position root of the drawn position and, on the root phase, the layout of the output input. *)
Definition gqa_position (path : list Z) (total : Z) : res (Fail + (Hash * Z)) :=
  match path with
  | [] =>
    oe ←? open_entry tier (at_o_entry op) (proj (si_ll s));
    bail Manifest_ if negb (e_k oe =? wrap 64 (al_n_head a * al_head_dim a));
    '(layout, root_t) ←? out_root (proj (si_ll s)) (wtype oe);
    bail Shape if negb (zlen (lb_bytes (at_out op)) =? x_len (e_k oe) layout);
    Ret (inr (root_t, layout))
  | _ => root_t ←? anchor_root (at_pos_root op) n_pos (si_t s) pshape q_leaf (at_q op) total (at_pos_path op); Ret (inr (root_t, 0))
  end.

(** The output of the head as [children] combined, gated, with the committed mass. *)
Definition gqa_root (g kv qh : Z) (root_t : Hash) (layout total : Z) (ch : list Partial) : res (Fail + unit) :=
  let hd := al_head_dim a in let qw := 1 + al_gated a in
  gate ←? (if 1 <? qw then
      v ←? head_from_chunks root_t pshape q_leaf (at_q op) total (wrap 64 (wrap 64 (wrap 64 (qh * hd) * qw) + hd)) hd; Ret (inr (Some v))
    else Ret (inr None));
  mass ←? committed_lse ctx op s n_pos kv g (wrap 64 (qh - kv * g));
  ok ← check_root_lse (lb_bytes (at_out op)) layout (wrap 64 (al_n_head a * hd)) qh ch gate mass;
  matched ok.

(** The rows of a leaf against its partial, or against the output when the point has one phase. *)
Definition gqa_rows (prep : Prep) (g kv qh : Z) (root_t : Hash) (layout total : Z) (parent : option Partial) (keys values : list (list f32))
  : res (Fail + bool) :=
  let shape := gqa_shape a in let hd := al_head_dim a in let qw := 1 + al_gated a in
  match parent with
  | Some p => q ←? gqa_query; Ret (inr (check_leaf q (as_kq_scale shape) keys values p))
  | None =>
    raw ←? head_from_chunks root_t pshape q_leaf (at_q op) total (wrap 64 (wrap 64 (qh * hd) * qw)) (wrap 64 (hd * qw));
    r0 ← index_range raw 0 hd;
    q ← prep_query prep shape r0 (si_t s);
    gate ← (if 1 <? qw then Some <$> index_range raw hd (zlen raw) else Ret None);
    mass ←? committed_lse ctx op s n_pos kv g (wrap 64 (qh - kv * g));
    ok ← any_res (fun ar =>
      match partial ar q (as_kq_scale shape) keys values with
      | None => Ret false
      | Some p => check_root_lse (lb_bytes (at_out op)) layout (wrap 64 (al_n_head a * hd)) qh [p] gate mass
      end) ARITHS;
    Ret (inr ok)
  end.

(** The drawn cache row of the leaf against the committed projections of its position. *)
Definition gqa_anchor (prep : Prep) (kv p0 p1 : Z) (krows vrows : list (list byte)) : res (Fail + unit) :=
  let shape := gqa_shape a in let hd := al_head_dim a in
  if p1 - p0 =? 0 then Panic else
  let i := si_d s 3 mod (p1 - p0) in
  let ps := wrap 64 (p0 + i) in
  let kv_total := wrap 64 (4 * wrap 64 (al_n_head_kv a * hd)) in
  root_ps ←? anchor_root (at_pos_root op) n_pos ps pshape (2 * al_k a + 1) (at_anchor_k op) kv_total (at_anchor_pos_path op);
  k_proj ←? head_from_chunks root_ps pshape (2 * al_k a + 1) (at_anchor_k op) kv_total (wrap 64 (kv * hd)) hd;
  v_proj ←? (if al_v a =? al_k a then
      bail Shape if negb (bool_decide (at_anchor_v op = []));
      Ret (inr k_proj)
    else head_from_chunks root_ps pshape (2 * al_v a + 1) (at_anchor_v op) kv_total (wrap 64 (kv * hd)) hd);
  k_c ← prep_key prep shape k_proj ps;
  v_c ← prep_value prep v_proj;
  krow ← index krows i;
  km ← q8_0_matches krow k_c;
  ok ← (if (km : bool) then vrow ← index vrows i; q8_0_matches vrow v_c else Ret false);
  matched ok.

(** The output check or the leaf check of a grouped-query layer. *)
Definition gqa_phase (path : list Z) (parent : option Partial) (children : option (list Partial)) : res (Fail + unit) :=
  bail Shape if negb (al_absorb a =? NONE) || negb (al_out a =? NONE) || negb (bool_decide (at_absorb op = []));
  let shape := gqa_shape a in let hd := al_head_dim a in
  g ←? ok_or Manifest_ (group shape);
  '(kv, qh) ← gqa_heads s g;
  qe ←? open_entry tier (at_q_entry op) (al_q a);
  let qw := 1 + al_gated a in
  bail Manifest_ if negb (e_m qe =? wrap 64 (wrap 64 (al_n_head a * hd) * qw));
  let total := wrap 64 (4 * e_m qe) in
  '(root_t, layout) ←? gqa_position path total;
  match children with
  | Some ch => gqa_root g kv qh root_t layout total ch
  | None =>
    norms ←? gqa_norms tier a (at_norms op);
    let prep := gqa_prep ctx a norms in
    bail Manifest_ if negb (prep_fits prep shape);
    '(p0, p1) ←? ok_or Shape (node (si_tree s) path);
    let sl := seq_layout ctx in
    krows ←? cache_rows ctx (at_seq_root op) (kcache sl (si_slot s) kv) n_pos hd p0 p1 (at_kcache op);
    vrows ←? cache_rows ctx (at_seq_root op) (vcache sl (si_slot s) kv) n_pos hd p0 p1 (at_vcache op);
    keys ←? try_map (fun r => dequant_head r hd) krows;
    values ←? try_map (fun r => dequant_head r hd) vrows;
    ok ←? gqa_rows prep g kv qh root_t layout total parent keys values;
    bail Mismatch if negb ok;
    gqa_anchor prep kv p0 p1 krows vrows
  end.

(** ** Latent-cache layers *)

(** On the root phase, the drawn head's part of the output input and its layout. *)
Definition mla_out (path : list Z) (qh : Z) : res (Fail + option (list byte * Z)) :=
  match path with
  | [] =>
    let nh := al_n_head a in
    let out_rank := if al_out a =? NONE then proj (si_ll s) else al_out a in
    oe ←? open_entry tier (at_o_entry op) out_rank;
    bail Manifest_ if negb (e_k oe =? al_mla_rank a) || negb (n_exp oe =? nh) || negb (role oe =? ROLE_HEADS);
    '(layout, _) ←? out_root out_rank (wtype oe);
    let x_one := x_len (e_k oe) layout in
    bail Shape if negb (zlen (lb_bytes (at_out op)) =? wrap 64 (nh * x_one));
    x ← index_range (lb_bytes (at_out op)) (wrap 64 (qh * x_one)) (wrap 64 (wrap 64 (qh + 1) * x_one));
    Ret (inr (Some (x, layout)))
  | _ => Ret (inr None)
  end.

(** The rows of a latent leaf against its partial, or against the output. *)
Definition mla_rows (qh : Z) (q : list f64) (parent : option Partial) (out : option (list byte * Z)) (keys values : list (list f32)) : res (Fail + bool) :=
  let scale := f64_of_f32 (f32_from_bits (al_kq_scale a)) in
  match parent, out with
  | Some p, _ => Ret (inr (check_leaf q scale keys values p))
  | None, Some (x, layout) =>
    mass ←? committed_lse ctx op s n_pos 0 (al_n_head a) qh;
    let mass := f64_of_f32 mass in
    ok ← any_res (fun ar =>
      match partial ar q scale keys values with
      | None => Ret false
      | Some p => if SFleb (SFabs (Blocks.lse p - mass)%F) (root_lse_tol (pa_m p)) then root_within x layout (al_mla_rank a) 0 (pa_o p) else Ret false
      end) ARITHS;
    Ret (inr ok)
  | None, None => Ret (inr false)
  end.

(** The drawn latent row against the committed projection of its position, its first [r] values normed. *)
Definition mla_anchor (k_norm : list f32) (p0 p1 : Z) (rows : list (list byte)) : res (Fail + unit) :=
  let hd := al_head_dim a in let r := al_mla_rank a in
  if p1 - p0 =? 0 then Panic else
  let i := si_d s 3 mod (p1 - p0) in
  let ps := wrap 64 (p0 + i) in
  root_ps ←? anchor_root (at_pos_root op) n_pos ps pshape (2 * al_k a + 1) (at_anchor_k op) (4 * hd) (at_anchor_pos_path op);
  kv_a ←? head_from_chunks root_ps pshape (2 * al_k a + 1) (at_anchor_k op) (4 * hd) 0 hd;
  let key := f64_of_f32 <$> kv_a in
  k0 ← index_range key 0 r;
  k0 ← attn_rms_norm k0 (Some k_norm) (cc_eps ctx);
  row ← index rows i;
  ok ← q8_0_matches row (k0 ++ drop (Z.to_nat r) key);
  matched ok.

(** The output check or the leaf check of a latent-cache layer: one drawn query head against the shared latent cache. *)
Definition mla_phase (path : list Z) (parent : option Partial) (children : option (list Partial)) : res (Fail + unit) :=
  let nh := al_n_head a in let hd := al_head_dim a in let r := al_mla_rank a in
  rope ←? ok_or Manifest_ (x ← checked_sub hd r; if r mod 32 =? 0 then Some x else None);
  bail Unsupported if negb (al_n_head_kv a =? 1) || negb (al_n_rot a =? 0) || negb (al_swa_window a =? 0) || negb (al_gated a =? 0)
    || negb (al_v_norm a =? 0) || negb (al_q_norm a =? NONE) || negb (al_rope_freqs a =? NONE);
  bail Manifest_ if negb (al_v a =? NONE) || (al_k_norm a =? NONE) || (al_absorb a =? NONE) || (nh =? 0);
  qe ←? open_entry tier (at_q_entry op) (al_q a);
  bail Manifest_ if negb (e_m qe mod nh =? 0);
  _ ←? ok_or Manifest_ (n ← checked_sub (e_m qe / nh) rope; if 0 <? n then Some n else None);
  bail Shape if negb (bool_decide (at_anchor_v op = [])) || negb (bool_decide (at_vcache op = no_span));
  let qh := si_d s 2 mod nh in
  out ←? mla_out path qh;
  match children with
  | Some ch =>
    '(x, layout) ←? ok_or Shape out;
    mass ←? committed_lse ctx op s n_pos 0 nh qh;
    ok ← check_root_lse x layout r 0 ch None mass;
    matched ok
  | None =>
    w ←? ok_or Shape (match at_norms op with [w] => Some w | _ => None end);
    k_norm ←? f32_weights tier w (al_k_norm a) r 0 r;
    q ←? mla_query;
    '(p0, p1) ←? ok_or Shape (node (si_tree s) path);
    rows ←? cache_rows ctx (at_seq_root op) (kcache (seq_layout ctx) (si_slot s) 0) n_pos hd p0 p1 (at_kcache op);
    keys ←? try_map (fun row => dequant_head row hd) rows;
    values ← mapM (M:=res) (fun k => index_range k 0 r) keys;
    ok ←? mla_rows qh q parent out keys values;
    bail Mismatch if negb ok;
    mla_anchor k_norm p0 p1 rows
  end.
End Phase.

(** ** Phases *)

(** What phase [path] of [op] may carry: the fields the phase reads, and nothing else. *)
Definition keep (op : AttnOpening) (first last : bool) : AttnOpening := {|
  at_response_txid := at_response_txid op; at_pos_root := at_pos_root op; at_seq_root := at_seq_root op; at_layer := at_layer op;
  at_q_entry := if first || last then at_q_entry op else no_entry;
  at_o_entry := if first then at_o_entry op else no_entry;
  at_norms := if last then at_norms op else [];
  at_pos_path := if first || last then at_pos_path op else [];
  at_q := if first || last then at_q op else [];
  at_out := if first then at_out op else no_leaf;
  at_kcache := if last then at_kcache op else no_span;
  at_vcache := if last then at_vcache op else no_span;
  at_anchor_pos_path := if last then at_anchor_pos_path op else [];
  at_anchor_k := if last then at_anchor_k op else [];
  at_anchor_v := if last then at_anchor_v op else [];
  at_absorb := if last then at_absorb op else [];
  at_path := at_path op; at_parent := at_parent op; at_parent_path := at_parent_path op;
  at_partials := if last then [] else at_partials op;
  at_lse := if first then at_lse op else no_span;
|}.

(** The partial of the node of [path], opened against the root the previous phase committed. *)
Definition parent_partial (s : AttnSite) (path : list Z) (parent_root : option Hash) (op : AttnOpening) : res (Fail + option Partial) :=
  match last path, parent_root with
  | None, None => ok_or Shape (if bool_decide (at_parent op = []) && bool_decide (at_parent_path op = []) then Some None else None)
  | Some i, Some root =>
    ch ←? ok_or Shape (children (si_tree s) (removelast path));
    o ← open_partial root (zlen ch) i (at_parent op) (at_parent_path op) (si_dv s);
    p ←? ok_or Trace o;
    Ret (inr (Some p))
  | _, _ => Ret (inl Shape)
  end.

(** The partials of the children of the node of [path], unless it is a leaf. *)
Definition child_partials (s : AttnSite) (path : list Z) (is_last : bool) (op : AttnOpening) : res (Fail + option (list Partial)) :=
  if is_last then Ret (inr None) else
  ch ←? ok_or Shape (children (si_tree s) path);
  o ← decode_partials (at_partials op) (si_dv s);
  ps ←? ok_or Shape (p ← o; if zlen p =? zlen ch then Some p else None);
  Ret (inr (Some ps)).

(** Verify phase [length path] of the attention point of a response: [path] holds the child drawn after each earlier
    phase, [parent_root] the partials root the previous phase committed. *)
Definition verify_attn_phase (tier : TierCtx) (ctx : ChainCtx) (resp : ResponseCtx) (seed : Hash) (path : list Z) (parent_root : option Hash) (op : AttnOpening)
  : res (Fail + AttnStep) :=
  s ←? attn_site tier ctx resp seed op;
  let depth := depth (si_tree s) in
  bail Shape if negb (bool_decide (at_path op = path)) || (depth <? zlen path);
  parent ←? parent_partial s path parent_root op;
  let is_last := zlen path =? depth in
  bail Shape if negb (bool_decide (op = keep op (bool_decide (path = [])) is_last));
  children ←? child_partials s path is_last op;
  _ ←? match parent, children with
       | Some p, Some ch => ok ← check_node p ch; matched ok
       | _, _ =>
         if negb (al_mla_rank (si_a s) =? 0) then mla_phase tier ctx resp op s path parent children
         else gqa_phase tier ctx resp op s path parent children
       end;
  match children with
  | None => Ret (inr AttnStep_Done)
  | Some ch =>
    o ← partials_root (at_partials op) (si_dv s);
    root ←? ok_or Shape o;
    weights ←? ok_or Shape (child_weights ch);
    Ret (inr (AttnStep_Next root (zlen ch) weights))
  end.

(** Verify the attention point of a response opened in a single phase. *)
Definition verify_attn_point (tier : TierCtx) (ctx : ChainCtx) (resp : ResponseCtx) (seed : Hash) (op : AttnOpening) : res (Fail + unit) :=
  st ←? verify_attn_phase tier ctx resp seed [] None op;
  match st with AttnStep_Done => Ret (inr ()) | AttnStep_Next _ _ _ => Ret (inl Unsupported) end.

(** Attended query of the drawn head of the attention point of [seed] and its score scale. *)
Definition attn_query (tier : TierCtx) (ctx : ChainCtx) (resp : ResponseCtx) (seed : Hash) (op : AttnOpening) : res (Fail + (list f64 * f64)) :=
  s ←? attn_site tier ctx resp seed op;
  q ←? (if negb (al_mla_rank (si_a s) =? 0) then mla_query tier ctx resp op s else gqa_query tier ctx resp op s);
  Ret (inr (q, f64_of_f32 (f32_from_bits (al_kq_scale (si_a s))))).
End AttnPoint.

(** ** The attended positions *)

(** The first position a query at [t] attends to. *)
Definition attended_from (a : AttnLinks) (t : Z) : Z :=
  if negb (al_mla_rank a =? 0) then 0 else if 0 <? al_swa_window a then saturating_sub (wrap 64 (t + 1)) (al_swa_window a) else 0.

Lemma attended_before a t : 0 <= t < 2 ^ 63 -> attended_from a t < wrap 64 (t + 1).
Proof.
  intros Ht. unfold attended_from, saturating_sub. rewrite wrap_id by (unfold fits; lia). destruct (negb _); [lia|]. destruct (Z.ltb_spec 0 (al_swa_window a)); lia.
Qed.
