(* ===== verification/Recur.v ===== *)
(** * Recurrent points ([verifiable-inference/src/recur.rs])

    The recurrent point of a response recomputes one segment of the delta rule of one head of
    one recurrent layer: the rows drawn of the state are taken from a checkpoint through the
    committed records of the segment, every record's output and the next checkpoint being
    compared on the way; then one record drawn from the segment is anchored in the committed
    projections, weights and output of its layer. *)
From S2P Require Import Prelude Float Magnitude Merkle Seq Opening Quant Manifest VerifyPoint Links Prefix Chain Attn Blocks AttnPoint.
#[local] Open Scope Z_scope.

Definition RECUR_POINT : Z := ATTN_POINT + 1.
Definition RECUR_ROWS : Z := 16.
Definition RECUR_TOL : f64 := f64_lit 1 64.
Definition RECUR_V_MAX : f64 := f64_of_Z 1024.
Definition RECUR_OUT_MAX : f64 := f64_of_Z 2.
Definition RECUR_OUT_SPARE : Z := 4.
Definition F16_MIN_STEP : f64 := f64_lit 1 16777216.

(** The sum of the squares of [v]. *)
Definition squares (v : list f64) : f64 := f64_sum ((fun x => x * x)%F <$> v).

(** Whether [x] is [want] up to the tolerance of its scale. *)
Definition close (x want scale : f64) : bool :=
  is_finite x && SFleb (SFabs (x - want)%F) (RECUR_TOL * (SFabs want + scale) + F16_MIN_STEP)%F.

Section Recur.
Context `{B3 : Blake3, L : Libm, LM : LibmMore}.

Definition rms (v : list f32) : f64 := libm_sqrt (squares (f64_of_f32 <$> v) / f64_of_Z (Z.max (zlen v) 1))%F.

Definition all_close (x : list f64) (want : list f32) : bool :=
  (zlen x =? zlen want) && forallb (fun '(a, b) => close a (f64_of_f32 b) (rms want)) (zip x want).

Definition sigmoid (x : f64) : f64 := (one / (one + libm_exp (SFopp x)))%F.

Definition softplus (x : f64) : f64 := if SFltb (f64_of_Z 20) x then x else libm_log1p (libm_exp x).

Definition l2_norm (x : list f64) (eps : f64) : list f64 :=
  let r := (one / libm_sqrt (f64_max (squares x) (eps * eps)))%F in (fun a => a * r)%F <$> x.

(** Values [off..off + n] of the f32 leaf [leaf] of [total] bytes, held in one opened chunk, and the position root the chunk reaches. *)
Definition chunk_values (shape : PosShape) (leaf : Z) (c : LeafChunk) (total off n : Z) : res (Fail + (Hash * list f32)) :=
  let per := B3_CHUNK / 4 in
  bail Manifest_ if per <? off mod per + n;
  h ←? chunk_leaf c total (off / per);
  root ←? ok_or Trace (b3_fold (ps_n_leaves shape) leaf h (lc_leaf_path c));
  v ←? ok_or Shape (get_range (f32s (lc_chunk c)) (off mod per) (off mod per + n));
  Ret (inr (root, v)).

(** ** The drawn point *)

(** The layer links, the drawn head and its key head, the segment [si_c..si_e] of checkpoint [si_s], the first drawn
    state row and the drawn position. *)
Record RecurSite := { rs_ll : LayerLinks; rs_r : RecurLinks; rs_h : Z; rs_hk : Z; rs_s : Z; rs_c : Z; rs_e : Z; rs_r0 : Z; rs_p : Z }.

Definition is_kda (r : RecurLinks) : bool := rl_kind r =? RECUR_KDA.

Definition recur_site (tier : TierCtx) (ctx : ChainCtx) (resp : ResponseCtx) (seed : Hash) (op : RecurOpening) : res (Fail + RecurSite) :=
  let nl := cc_n_layers ctx in let n_recur := cc_n_recur ctx in let n_pos := VerifyPoint.n_pos resp in
  bail Unsupported if (n_pos =? 0) || (n_recur =? 0) || (cc_seq_heads ctx =? 0);
  root ← trace_root (re_pos_root op) (re_seq_root op);
  bail Trace if negb (bool_decide (root = resp_trace_root resp));
  let d := draw seed RECUR_POINT in
  let slot := d 1 mod n_recur in
  layer ←? ok_or Manifest_ (l ← checked_sub (entry_index (re_layer op)) (cc_layer_base ctx); if l <? nl then Some l else None);
  le ←? open_entry tier (re_layer op) (wrap 64 (cc_layer_base ctx + layer));
  ll ←? ok_or Manifest_ (match chain le with
    | Chain_Layer ll => if (role le =? ROLE_LAYER) && (ll_layer ll =? layer) then Some ll else None
    | _ => None end);
  r ←? ok_or Shape (ll_recur ll);
  let hd := rl_head_dim r in let nv := rl_n_v_heads r in let nk := rl_n_k_heads r in let cl := rl_conv_len r in let iv := rl_interval r in
  bail Manifest_ if negb (rl_slot r =? slot);
  bail Unsupported if negb ((rl_kind r =? RECUR_GDA) || (rl_kind r =? RECUR_KDA)) || negb ((1 <=? cl) && (cl <=? 8)) || (iv =? 0);
  bail Manifest_ if (hd =? 0) || negb (hd mod 32 =? 0) || negb (hd mod RECUR_ROWS =? 0) || (nk =? 0) || negb (nv mod nk =? 0)
    || (cc_seq_heads ctx <? nv) || (is_kda r && negb (nk =? nv));
  if nv =? 0 then Panic else
  let h := d 2 mod nv in
  let s := d 0 mod div_ceil n_pos iv in
  let c := wrap 64 (s * iv) in let e := Z.min (wrap 64 (wrap 64 (s + 1) * iv)) n_pos in
  if e - c =? 0 then Panic else
  Ret (inr {| rs_ll := ll; rs_r := r; rs_h := h; rs_hk := h mod nk; rs_s := s; rs_c := c; rs_e := e;
              rs_r0 := d 3 mod (hd / RECUR_ROWS) * RECUR_ROWS; rs_p := wrap 64 (c + Z.shiftr (d 3) 32 mod (e - c)) |}).

Section Point.
Context (tier : TierCtx) (ctx : ChainCtx) (resp : ResponseCtx) (op : RecurOpening) (st : RecurSite).
Let r : RecurLinks := rs_r st.
Let hd : Z := rl_head_dim r.
Let nv : Z := rl_n_v_heads r.
Let nk : Z := rl_n_k_heads r.
Let cl : Z := rl_conv_len r.
Let kda : bool := is_kda r.
Let h : Z := rs_h st.
Let n_pos : Z := VerifyPoint.n_pos resp.
Let pshape : PosShape := shape_any tier ctx.

(** ** The segment *)

(** The committed records of the segment. *)
Definition segment_records : res (Fail + list DeltaRecord) :=
  let layout := seq_layout ctx in
  let rl := record_len (rl_kind r) hd in
  leaf ←? ok_or Shape (record layout (rl_slot r) h);
  bytes ←? ok_or Trace (open_span (re_seq_root op) layout leaf (wrap 64 (n_pos * rl)) (wrap 64 (rs_c st * rl)) (wrap 64 (rs_e st * rl)) (re_records op));
  if rl =? 0 then Panic else
  recs ← collect_some (Seq.decode (rl_kind r) hd) (chunks_exact (Z.to_nat rl) bytes);
  ok_or Shape recs.

(** The drawn rows of checkpoint [m], of finite values of bounded norm. *)
Definition rows_at (m : Z) (span : SeqSpan) : res (Fail + list (list f64)) :=
  let layout := seq_layout ctx in
  let '(lo, hi) := checkpoint_rows hd m (rs_r0 st) RECUR_ROWS in
  leaf ←? ok_or Shape (checkpoint layout (rl_slot r) h);
  len ← checkpoint_len hd n_pos (rl_interval r);
  b ←? ok_or Trace (open_span (re_seq_root op) layout leaf len lo hi span);
  let rows := (fun row : list f32 => f64_of_f32 <$> row) <$> chunks (Z.to_nat hd) (f32s b) in
  let row_max := (RECUR_V_MAX * libm_sqrt (f64_of_Z hd))%F in
  bail Mismatch if existsb (fun row : list f64 => existsb (fun x => negb (is_finite x)) row || SFltb row_max (libm_sqrt (squares row))) rows;
  Ret (inr rows).

(** The state before the segment. *)
Definition start_state : res (Fail + list (list f64)) :=
  if rs_s st =? 0 then
    bail Shape if negb (bool_decide (re_start_rows op = no_span));
    Ret (inr (replicate (Z.to_nat RECUR_ROWS) (replicate (Z.to_nat hd) zero)))
  else rows_at (rs_s st) (re_start_rows op).

Definition out_scale : f64 := (one / libm_sqrt (f64_of_Z hd))%F.

(** The decay of each channel. *)
Definition decay_of (rec : DeltaRecord) : res (list f64) :=
  if kda then Ret ((fun x => libm_exp (f64_of_f32 x)) <$> rec_g rec)
  else g0 ← index (rec_g rec) 0; Ret (replicate (Z.to_nat hd) (libm_exp (f64_of_f32 g0))).

(** Whether the inputs of a record are in their ranges. *)
Definition record_sane (rec : DeltaRecord) (q_norm k_norm : f64) : bool :=
  negb (SFltb (one + RECUR_TOL)%F q_norm) && negb (SFltb (one + RECUR_TOL)%F k_norm)
  && contains zero (one + RECUR_TOL)%F (f64_of_f32 (rec_beta rec))
  && forallb (fun x => SFleb x zero) (rec_g rec) && forallb (fun x => SFleb (f64_of_f32 (SFabs x)) RECUR_V_MAX) (rec_v rec).

(** One step of the delta rule on one state row, its output compared with the record's. *)
Definition step_row (rec : DeltaRecord) (g : list f64) (q_norm : f64) (ri : Z) (row : list f64) : res (Fail + list f64) :=
  let col := rs_r0 st + ri in
  kvs ← mapM (M:=res) (fun i => gi ← index g i; x ← index row i; k ← index (rec_k rec) i; Ret (gi * x * f64_of_f32 k)%F) (seqZ 0 hd);
  v ← index (rec_v rec) col;
  let delta := ((f64_of_f32 v - f64_sum kvs) * f64_of_f32 (rec_beta rec))%F in
  row ← mapM (M:=res) (fun i => gi ← index g i; x ← index row i; k ← index (rec_k rec) i; Ret (gi * x + f64_of_f32 k * delta)%F) (seqZ 0 hd);
  os ← mapM (M:=res) (fun i => x ← index row i; q ← index (rec_q rec) i; Ret (x * f64_of_f32 q)%F) (seqZ 0 hd);
  let o := (f64_sum os * out_scale)%F in
  let bound := (out_scale * q_norm * libm_sqrt (squares row))%F in
  want ← index (rec_o rec) col;
  bail Mismatch if negb (close o (f64_of_f32 want) bound);
  Ret (inr row).

(** One record on the drawn state rows. *)
Definition step_record (state : list (list f64)) (rec : DeltaRecord) : res (Fail + list (list f64)) :=
  g ← decay_of rec;
  let q_norm := libm_sqrt (squares (f64_of_f32 <$> rec_q rec)) in
  let k_norm := libm_sqrt (squares (f64_of_f32 <$> rec_k rec)) in
  bail Mismatch if negb (record_sane rec q_norm k_norm);
  try_map (fun '(ri, row) => step_row rec g q_norm ri row) (zip (seqZ 0 (zlen state)) state).

(** The state after the segment against the next checkpoint. *)
Definition check_end (state : list (list f64)) : res (Fail + unit) :=
  if rs_e st - rs_c st =? rl_interval r then
    want ←? rows_at (wrap 64 (rs_s st + 1)) (re_end_rows op);
    bail Mismatch if existsb (fun '(row, w) => negb (all_close row (f32_of_f64 <$> w))) (zip state want);
    Ret (inr ())
  else
    bail Shape if negb (bool_decide (re_end_rows op = no_span));
    Ret (inr ()).

(** The segment: its records from the start state to the next checkpoint. *)
Definition check_segment : res (Fail + list DeltaRecord) :=
  recs ←? segment_records;
  _ ←? ok_or Shape (checkpoint (seq_layout ctx) (rl_slot r) h);
  state ←? start_state;
  state ←? try_fold step_record state recs;
  _ ←? check_end state;
  Ret (inr recs).

(** ** The anchor of the drawn record *)

(** Offsets of the query, key and value heads in their projections, and the width of a projection. *)
Definition offsets : list Z :=
  if kda then [wrap 64 (h * hd); wrap 64 (h * hd); wrap 64 (h * hd)]
  else [wrap 64 (rs_hk st * hd); wrap 64 (wrap 64 (nk + rs_hk st) * hd); wrap 64 (wrap 64 (wrap 64 (2 * nk) * hd) + wrap 64 (h * hd))].
Definition channels : Z := if kda then wrap 64 (nv * hd) else wrap 64 (wrap 64 (2 * nk + nv) * hd).

Definition n_taps : Z := Z.min (rs_p st + 1) cl.

(** The query, key and value of one tap, under one position root of the trace. *)
Definition tap_values (j : Z) (tap : RecurTap) : res (Fail + (Hash * list (list f32))) :=
  let pos := rs_p st + 1 + j - n_taps in
  '(vals, root) ←? try_fold (fun (acc : list (list f32) * option Hash) '(src, off, lc) =>
      '(rt, v) ←? chunk_values pshape (2 * src + 1) lc (wrap 64 (4 * channels)) off hd;
      bail Trace if match acc.2 with Some root => negb (bool_decide (root = rt)) | None => false end;
      Ret (inr (acc.1 ++ [v], Some rt)))
    ([], None) (zip (zip [rl_q r; rl_k r; rl_v r] offsets) [tap_q tap; tap_k tap; tap_v tap]);
  root ←? ok_or Shape root;
  bail Trace if negb (b3_verify (re_pos_root op) n_pos pos root (tap_pos_path tap));
  Ret (inr (root, vals)).

(** The windows of the query, key and value: the taps after zeros, and the root of the drawn position. *)
Definition tap_windows : res (Fail + (Hash * list (list (list f64)))) :=
  taps ←? try_map (fun '(j, tap) => tap_values j tap) (zip (seqZ 0 (zlen (re_taps op))) (re_taps op));
  root ←? ok_or Shape (last taps.*1);
  let pad := replicate (Z.to_nat (cl - n_taps)) (replicate (Z.to_nat hd) zero) in
  wins ← mapM (M:=res) (fun x => rows ← mapM (M:=res) (fun vs => v ← index vs x; Ret (f64_of_f32 <$> (v : list f32))) taps.*2; Ret (pad ++ rows)) [0; 1; 2];
  Ret (inr (root, wins)).

(** One gated convolution of a head. *)
Definition convolve (win : list (list f64)) (w : Weights) (conv off : Z) : res (Fail + list f64) :=
  w ←? f32_weights tier w conv (wrap 64 (cl * channels)) (wrap 64 (off * cl)) (wrap 64 (hd * cl));
  y ← mapM (M:=res) (fun i =>
    vs ← mapM (M:=res) (fun j => wi ← index w (i * cl + j); row ← index win j; x ← index row i; Ret (f64_of_f32 wi * x)%F) (seqZ 0 cl);
    let a := f64_sum vs in Ret (a * sigmoid a)%F) (seqZ 0 hd);
  Ret (inr y).

(** The convolved query, key and value of the drawn position against its record. *)
Definition check_inputs (wins : list (list (list f64))) (recs : list DeltaRecord) : res (Fail + DeltaRecord) :=
  ws ← index_range (re_weights op) 0 3;
  ys ←? try_map (fun '(win, w, (conv, off)) => convolve win w conv off) (zip (zip wins ws) (zip [rl_conv_q r; rl_conv_k r; rl_conv_v r] offsets));
  rec ← index recs (rs_p st - rs_c st);
  match ys with
  | [q; k; v] =>
    bail Mismatch if negb (all_close (l2_norm q (cc_eps ctx)) (rec_q rec)) || negb (all_close (l2_norm k (cc_eps ctx)) (rec_k rec)) || negb (all_close v (rec_v rec));
    Ret (inr rec)
  | _ => Panic
  end.

(** Values of a leaf of the drawn position. *)
Definition position_values (root_p : Hash) (src : Z) (c : LeafChunk) (total off n : Z) : res (Fail + list f32) :=
  '(rt, v) ←? chunk_values pshape (2 * src + 1) c total off n;
  bail Trace if negb (bool_decide (rt = root_p));
  Ret (inr v).

(** The strength of the drawn record. *)
Definition check_beta (root_p : Hash) (rec : DeltaRecord) : res (Fail + unit) :=
  beta ←? position_values root_p (rl_beta r) (re_beta op) (wrap 64 (4 * nv)) h 1;
  b ← index beta 0;
  bail Mismatch if negb (close (sigmoid (f64_of_f32 b)) (f64_of_f32 (rec_beta rec)) zero);
  Ret (inr ()).

(** The decay of the drawn record. *)
Definition check_decay (root_p : Hash) (rec : DeltaRecord) : res (Fail + unit) :=
  let gw := if kda then hd else 1 in
  de ←? open_entry tier (re_decay_entry op) (rl_decay r);
  bail Manifest_ if negb (role de =? ROLE_PRODUCT);
  let dt_in := bias de =? NONE in
  dy ←? position_values root_p (rl_decay r) (re_decay op) (wrap 64 (wrap 64 (4 * nv) * gw)) (wrap 64 (h * gw)) gw;
  w3 ← index (re_weights op) 3;
  dt ←? f32_weights tier w3 (rl_dt r) (wrap 64 (nv * gw)) (wrap 64 (h * gw)) gw;
  w4 ← index (re_weights op) 4;
  a ←? f32_weights tier w4 (rl_a r) nv h 1;
  g ← mapM (M:=res) (fun i =>
    a0 ← index a 0; y ← index dy i; t ← (if dt_in then f64_of_f32 <$> index dt i else Ret zero);
    Ret (f64_of_f32 a0 * softplus (f64_of_f32 y + t))%F) (seqZ 0 gw);
  bail Mismatch if negb (all_close g (rec_g rec));
  Ret (inr ()).

(** The gated, normed output of the drawn record against the input of the output projection. *)
Definition check_out (root_p : Hash) (rec : DeltaRecord) : res (Fail + unit) :=
  let width := wrap 64 (nv * hd) in
  gate ←? position_values root_p (rl_gate r) (re_gate op) (wrap 64 (wrap 64 (4 * nv) * hd)) (wrap 64 (h * hd)) hd;
  w5 ← index (re_weights op) 5;
  norm ←? f32_weights tier w5 (rl_norm r) hd 0 hd;
  oe ←? open_entry tier (re_out_entry op) (proj (rs_ll st));
  bail Manifest_ if negb (e_k oe =? width);
  let lay := layout_for (expected_ubatch (rs_p st) (n_prompt resp)) (wtype oe) in
  bail Shape if negb (zlen (lb_bytes (re_out op)) =? x_len (e_k oe) lay);
  bail Trace if negb (b3_verify root_p (ps_n_leaves pshape) (2 * proj (rs_ll st)) (blake3_hash (lb_bytes (re_out op))) (lb_leaf_path (re_out op)));
  let ms := (squares (f64_of_f32 <$> rec_o rec) / f64_of_Z hd)%F in
  let rn := (one / libm_sqrt (ms + cc_eps ctx))%F in
  y ← mapM (M:=res) (fun i =>
    z ← index gate i; o ← index (rec_o rec) i; n ← index norm i;
    let z := f64_of_f32 z in
    let act := if kda then sigmoid z else (z * sigmoid z)%F in
    Ret (f64_of_f32 o * rn * f64_of_f32 n * act)%F) (seqZ 0 hd);
  dev ← block_outliers (lb_bytes (re_out op)) lay width (wrap 64 (h * hd) / 32) y THRESHOLD;
  ok_or Mismatch (match dev with Some (dv, spare) => if SFleb dv RECUR_OUT_MAX && (spare <=? RECUR_OUT_SPARE) then Some () else None | None => None end).

(** The record at the drawn position against the committed projections and the layer output. *)
Definition check_anchor (recs : list DeltaRecord) : res (Fail + unit) :=
  bail Shape if negb (zlen (re_taps op) =? n_taps) || negb (zlen (re_weights op) =? 6);
  '(root_p, wins) ←? tap_windows;
  rec ←? check_inputs wins recs;
  _ ←? check_beta root_p rec;
  _ ←? check_decay root_p rec;
  check_out root_p rec.
End Point.

(** Recurrent point of a response whose trace commits sequence leaves. *)
Definition verify_recur_point (tier : TierCtx) (ctx : ChainCtx) (resp : ResponseCtx) (seed : Hash) (op : RecurOpening) : res (Fail + unit) :=
  st ←? recur_site tier ctx resp seed op;
  recs ←? check_segment ctx resp op st;
  check_anchor tier ctx resp op st recs.
End Recur.
