(* ===== verification/Support.v ===== *)
(** * Structural support of a manifest ([verifiable-inference/src/support.rs])

    The checks of an attention or recurrent point that depend only on the manifest and the
    draw, never on an opening: a manifest that passes them lets every such point be drawn.
    Errors are the source's messages. *)
From S2P Require Import Prelude Float Magnitude Merkle Seq Opening Quant Manifest VerifyPoint Links Prefix Chain Attn Blocks AttnPoint Recur.
From stdpp Require Import strings pretty.
#[local] Open Scope Z_scope.

(** [for x in l] over a check that may return early. *)
Fixpoint try_each {E A} (f : A -> res (E + unit)) (l : list A) : res (E + unit) :=
  match l with [] => Ret (inr ()) | a :: l => _ ←? f a; try_each f l end.

(** [m.map_err(f)] *)
Definition map_err {E F A} (f : E -> F) (m : res (E + A)) : res (F + A) :=
  r ← m; Ret (match r with inl e => inl (f e) | inr a => inr a end).

Abbreviation check A := (res (string + A)).

Section Layers.
Context (entries : list Entry) (ctx : ChainCtx).
Let sl : SeqLayout := seq_layout ctx.

(** [entries.get(i)] *)
Definition entry (i : Z) : check Entry := ok_or ("entry " +:+ pretty i +:+ " missing")%string (get_at entries i).

Definition norm_entry (i k : Z) : check (option (list f32)) :=
  if i =? NONE then Ret (inr None) else
  e ←? entry i;
  bail ("entry " +:+ pretty i +:+ " is not a " +:+ pretty k +:+ "-wide norm")%string if negb (role e =? ROLE_NORM) || negb (wtype e =? 0) || negb (e_k e =? k);
  _ ← with_capacity k 4;
  Ret (inr (Some (replicate (Z.to_nat k) (f32_of_Z 1)))).

(** The latent-cache arm of [attn_layer]. *)
Definition mla_layer (ll : LayerLinks) (a : AttnLinks) (qe : Entry) : check unit :=
  let hd := al_head_dim a in let nh := al_n_head a in let r := al_mla_rank a in
  rope ←? ok_or "latent rank"%string (x ← checked_sub hd r; if (r mod 32 =? 0) && (0 <? nh) then Some x else None);
  bail "latent attention shape"%string if negb (al_n_head_kv a =? 1) || negb (al_n_rot a =? 0) || negb (al_swa_window a =? 0) || negb (al_gated a =? 0)
    || negb (al_v_norm a =? 0) || negb (al_q_norm a =? NONE) || negb (al_rope_freqs a =? NONE);
  bail "latent attention links"%string if negb (al_v a =? NONE) || (al_k_norm a =? NONE) || (al_absorb a =? NONE);
  bail "query width"%string if negb (e_m qe mod nh =? 0) || match checked_sub (e_m qe / nh) rope with Some n => n =? 0 | None => true end;
  oe ←? entry (if al_out a =? NONE then proj ll else al_out a);
  bail "output heads"%string if negb (e_k oe =? r) || negb (n_exp oe =? nh) || negb (role oe =? ROLE_HEADS);
  _ ←? ok_or "key cache or mass leaf"%string (k ← kcache sl (al_slot a) 0; l ← Seq.lse sl (al_slot a) 0; Some (k, l));
  Ret (inr ()).

(** The grouped-query arm of [attn_layer]. *)
Definition gqa_layer (ll : LayerLinks) (a : AttnLinks) (qe : Entry) : check unit :=
  let hd := al_head_dim a in
  bail "grouped-query links"%string if negb (al_absorb a =? NONE) || negb (al_out a =? NONE);
  let shape := gqa_shape a in
  _ ←? ok_or "head grouping"%string (group shape);
  bail "query width"%string if negb (e_m qe =? wrap 64 (wrap 64 (al_n_head a * hd) * (1 + al_gated a)));
  pe ←? entry (proj ll);
  bail "output width"%string if negb (e_k pe =? wrap 64 (al_n_head a * hd));
  qn ←? norm_entry (al_q_norm a) hd; kn ←? norm_entry (al_k_norm a) hd; ff ←? norm_entry (al_rope_freqs a) (al_n_rot a / 2);
  bail "norm widths"%string if negb (prep_fits (gqa_prep ctx a (qn, kn, ff)) shape);
  try_each (fun kv => _ ←? ok_or "cache or mass leaf"%string (k ← kcache sl (al_slot a) kv; l ← Seq.lse sl (al_slot a) kv; Some (k, l)); Ret (inr ()))
    (seqZ 0 (al_n_head_kv a)).

Definition attn_layer (ll : LayerLinks) (a : AttnLinks) (n_pos_max : Z) : check unit :=
  bail "context or slot"%string if (cc_n_attn ctx =? 0) || (cc_n_layers ctx <? cc_n_attn ctx) || (cc_seq_heads ctx =? 0) || (cc_n_attn ctx <=? al_slot a);
  bail "softcap, value norm or gate"%string if negb (al_softcap a =? 0) || (1 <? al_v_norm a) || (1 <? al_gated a);
  let hd := al_head_dim a in
  bail "head dim"%string if (hd =? 0) || negb (hd mod 32 =? 0);
  let mla := negb (al_mla_rank a =? 0) in
  let '(row, dv) := if mla then (hd / 32 * 34, al_mla_rank a) else (2 * (hd / 32 * 34), hd) in
  cb ← block_params row (partial_len dv);
  '(c, b) ←? ok_or "block parameters"%string cb;
  _ ←? try_each (fun t =>
      let start := if negb mla && (0 <? al_swa_window a) then saturating_sub (wrap 64 (t + 1)) (al_swa_window a) else 0 in
      _ ←? ok_or ("block tree at " +:+ pretty t)%string (tree_new start (wrap 64 (t + 1)) c b); Ret (inr ()))
    [0; 1; n_pos_max / 2; wrap 64 (n_pos_max - 1)];
  qe ←? entry (al_q a);
  if mla then mla_layer ll a qe else gqa_layer ll a qe.

(** Whether [n] values from [off] lie in one chunk of a leaf. *)
Definition in_chunk (off n : Z) : bool := off mod (B3_CHUNK / 4) + n <=? B3_CHUNK / 4.

(** The chunks and leaves of one head of a recurrent layer. *)
Definition recur_head (r : RecurLinks) (hh : Z) : check unit :=
  let hd := rl_head_dim r in let nk := rl_n_k_heads r in
  let gw := if is_kda r then hd else 1 in
  let hk := hh mod nk in
  let taps := if is_kda r then [wrap 64 (hh * hd); wrap 64 (hh * hd); wrap 64 (hh * hd)]
              else [wrap 64 (hk * hd); wrap 64 (wrap 64 (nk + hk) * hd); wrap 64 (wrap 64 (wrap 64 (2 * nk) * hd) + wrap 64 (hh * hd))] in
  bail ("head " +:+ pretty hh +:+ " straddles a chunk")%string
    if negb (forallb (fun o => in_chunk o hd) taps) || negb (in_chunk hh 1) || negb (in_chunk (wrap 64 (hh * gw)) gw) || negb (in_chunk (wrap 64 (hh * hd)) hd);
  _ ←? ok_or ("head " +:+ pretty hh +:+ " sequence leaves")%string (k ← record sl (rl_slot r) hh; l ← checkpoint sl (rl_slot r) hh; Some (k, l));
  Ret (inr ()).

Definition recur_layer (ll : LayerLinks) (r : RecurLinks) : check unit :=
  bail "context or slot"%string if (cc_n_recur ctx =? 0) || (cc_seq_heads ctx =? 0) || (cc_n_recur ctx <=? rl_slot r);
  let hd := rl_head_dim r in let nv := rl_n_v_heads r in let nk := rl_n_k_heads r in let cl := rl_conv_len r in
  bail "kind, convolution or interval"%string
    if negb ((rl_kind r =? RECUR_GDA) || (rl_kind r =? RECUR_KDA)) || negb ((1 <=? cl) && (cl <=? 8)) || (rl_interval r =? 0);
  let kda := is_kda r in
  bail "heads"%string if (hd =? 0) || negb (hd mod 32 =? 0) || negb (hd mod RECUR_ROWS =? 0) || (nk =? 0) || negb (nv mod nk =? 0)
    || (cc_seq_heads ctx <? nv) || (kda && negb (nk =? nv));
  de ←? entry (rl_decay r);
  bail "decay product"%string if negb (role de =? ROLE_PRODUCT);
  pe ←? entry (proj ll);
  bail "output width"%string if negb (e_k pe =? wrap 64 (nv * hd));
  let gw := if kda then hd else 1 in
  let conv := wrap 64 (cl * if kda then wrap 64 (nv * hd) else wrap 64 (wrap 64 (2 * nk + nv) * hd)) in
  _ ←? try_each (fun '(i, k) => _ ←? norm_entry i k; Ret (inr ()))
    [(rl_conv_q r, conv); (rl_conv_k r, conv); (rl_conv_v r, conv); (rl_dt r, wrap 64 (nv * gw)); (rl_a r, nv); (rl_norm r, hd)];
  try_each (recur_head r) (seqZ 0 nv).

(** The checks of layer [l], and the attention and recurrent layers counted so far. *)
Definition check_layer (n_pos_max : Z) (counts : Z * Z) (l : Z) : check (Z * Z) :=
  let '(n_attn, n_recur) := counts in
  let at_layer := ("layer " +:+ pretty l)%string in
  le ←? entry (wrap 32 (cc_layer_base ctx + l));
  ll ←? ok_or (at_layer +:+ ": no layer entry")%string (match chain le with
    | Chain_Layer ll => if (role le =? ROLE_LAYER) && (ll_layer ll =? l) then Some ll else None
    | _ => None end);
  _ ←? match ll_attn ll with
       | Some a => map_err (fun e => at_layer +:+ " attention: " +:+ e)%string (attn_layer ll a n_pos_max)
       | None => Ret (inr ())
       end;
  _ ←? match ll_recur ll with
       | Some r => map_err (fun e => at_layer +:+ " recurrence: " +:+ e)%string (recur_layer ll r)
       | None => Ret (inr ())
       end;
  Ret (inr (n_attn + match ll_attn ll with Some _ => 1 | None => 0 end, n_recur + match ll_recur ll with Some _ => 1 | None => 0 end)).

(** Whether every attention and recurrent point drawable on [entries], up to [n_pos_max] positions, has a shape the
    verifiers accept. *)
Definition check_manifest (n_pos_max : Z) : check unit :=
  '(n_attn, n_recur) ←? try_fold (check_layer n_pos_max) (0, 0) (seqZ 0 (cc_n_layers ctx));
  bail (pretty n_attn +:+ " attention and " +:+ pretty n_recur +:+ " recurrent layers for " +:+ pretty (cc_n_attn ctx) +:+ " and " +:+ pretty (cc_n_recur ctx))%string
    if negb (n_attn =? cc_n_attn ctx) || negb (n_recur =? cc_n_recur ctx);
  Ret (inr ()).
End Layers.

(** ** A supported manifest lets every drawn point start *)

Lemma try_each_inr {E A} (f : A -> res (E + unit)) l x : try_each f l = Ret (inr ()) -> x ∈ l -> f x = Ret (inr ()).
Proof.
  induction l as [|a l IH]; intros H Hx; [by apply list_elem_of_In in Hx|]. cbn [try_each] in H. apply try_inr in H as ([] & Ef & H).
  apply list_elem_of_In in Hx as [->|Hx%list_elem_of_In]; [done|by apply IH].
Qed.

Lemma try_fold_inr {E A S} (f : S -> A -> res (E + S)) l s s' x : try_fold f s l = Ret (inr s') -> x ∈ l -> exists s1 s2, f s1 x = Ret (inr s2).
Proof.
  revert s. induction l as [|a l IH]; intros s H Hx; [by apply list_elem_of_In in Hx|]. cbn [try_fold] in H. apply try_inr in H as (s1 & Ef & H).
  apply list_elem_of_In in Hx as [->|Hx%list_elem_of_In]; [by exists s, s1|by apply (IH s1)].
Qed.

Lemma map_err_inr {E F A} (f : E -> F) (m : res (E + A)) a : map_err f m = Ret (inr a) -> m = Ret (inr a).
Proof. unfold map_err. intros (r & -> & H)%bind_inr. destruct r; [done|]. by injection H as ->. Qed.

Section Supported.
Context (entries : list Entry) (ctx : ChainCtx) (n_pos_max : Z).
Context (Hok : check_manifest entries ctx n_pos_max = Ret (inr ())) (Hbase : 0 <= cc_layer_base ctx) (Hlay : cc_layer_base ctx + cc_n_layers ctx <= 2 ^ 32).

(** Each layer passed its check. *)
Lemma supported_layer l le ll : 0 <= l < cc_n_layers ctx -> get_at entries (cc_layer_base ctx + l) = Some le -> chain le = Chain_Layer ll ->
  role le = ROLE_LAYER /\ ll_layer ll = l
  /\ (forall a, ll_attn ll = Some a -> attn_layer entries ctx ll a n_pos_max = Ret (inr ()))
  /\ (forall r, ll_recur ll = Some r -> recur_layer entries ctx ll r = Ret (inr ())).
Proof.
  intros Hl Hle Hll. unfold check_manifest in Hok. apply try_inr in Hok as ([na nr] & Hf & _). apply (try_fold_inr _ _ _ _ l) in Hf as ([s1 s1'] & s2 & Hf); [|by apply elem_of_seqZ; lia].
  cbn [check_layer] in Hf. rewrite wrap_id in Hf by (unfold fits; lia). apply try_inr in Hf as (le' & Ee & Hf). apply ok_or_inr in Ee. rewrite Hle in Ee. injection Ee as <-. rewrite Hll in Hf.
  apply try_inr in Hf as (ll' & E & Hf). apply ok_or_inr in E. destruct (Z.eqb_spec (role le) ROLE_LAYER) as [Hr|]; [|done]. destruct (Z.eqb_spec (ll_layer ll) l) as [Hl'|]; [|done].
  injection E as <-. apply try_inr in Hf as ([] & Ea & Hf). apply try_inr in Hf as ([] & Er & _). split; [done|]. split; [done|]. split.
  - intros a Ha. rewrite Ha in Ea. by apply map_err_inr in Ea.
  - intros r Ha. rewrite Ha in Er. by apply map_err_inr in Er.
Qed.

End Supported.

Section Draws.
Context `{B3 : Blake3, L : Libm} (tier : TierCtx) (ctx : ChainCtx) (resp : ResponseCtx) (seed : Hash) (entries : list Entry) (n_pos_max : Z).
Context (l : Z) (le : Entry) (ll : LayerLinks).
Context (Hl : 0 <= l < cc_n_layers ctx) (Hb : 0 <= cc_layer_base ctx) (Hsum : cc_layer_base ctx + cc_n_layers ctx <= 2 ^ 32).
Context (Hpos : 0 < n_pos resp < 2 ^ 32) (Hle : chain le = Chain_Layer ll) (Hrole : role le = ROLE_LAYER) (Hll : ll_layer ll = l).

(** The opening of the layer entry that both kinds of point start from. *)
Definition opens_layer (eo : EntryOpening) : Prop :=
  entry_index eo = cc_layer_base ctx + l /\ open_entry tier eo (cc_layer_base ctx + l) = Ret (inr le).

Lemma layer_checked eo : opens_layer eo -> (l' ← checked_sub (entry_index eo) (cc_layer_base ctx); if l' <? cc_n_layers ctx then Some l' else None) = Some l
  /\ open_entry tier eo (wrap 64 (cc_layer_base ctx + l)) = Ret (inr le).
Proof.
  intros [-> Ho]. unfold checked_sub. rewrite wrap_id by (unfold fits; lia). destruct (Z.leb_spec (cc_layer_base ctx) (cc_layer_base ctx + l)); [|lia]. cbn.
  replace (cc_layer_base ctx + l - cc_layer_base ctx) with l by lia. destruct (Z.ltb_spec l (cc_n_layers ctx)); [done|lia].
Qed.

Lemma attn_starts a op t : ll_attn ll = Some a -> attn_layer entries ctx ll a n_pos_max = Ret (inr ()) ->
  opens_layer (at_layer op) -> trace_root (at_pos_root op) (at_seq_root op) = Ret (resp_trace_root resp) ->
  al_slot a = draw seed ATTN_POINT 1 mod cc_n_attn ctx -> resid_position ctx resp l (draw seed ATTN_POINT 0) = Ret (inr t) -> 0 <= t < 2 ^ 32 ->
  exists s, attn_site tier ctx resp seed op = Ret (inr s) /\ si_ll s = ll /\ si_a s = a /\ si_t s = t
    /\ bt_lo (si_tree s) = attended_from a t /\ bt_hi (si_tree s) = t + 1 /\ 1 <= bt_c (si_tree s) /\ 2 <= bt_b (si_tree s).
Proof.
  intros Ha Hs Ho Htr Hslot Ht Htb. destruct (layer_checked _ Ho) as [Hch Hop]. unfold attn_layer in Hs. apply bail_inr in Hs as [G1 Hs]. apply bail_inr in Hs as [G2 Hs]. cbv zeta in Hs. apply bail_inr in Hs as [G3 Hs].
  rewrite !orb_false_iff, !Z.eqb_neq, Z.ltb_ge, Z.leb_gt in G1. destruct G1 as [[[G1 G1'] G1''] _].
  unfold attn_site. cbv zeta. destruct (Z.eqb_spec (n_pos resp) 0); [lia|]. destruct (Z.eqb_spec (cc_n_layers ctx) 0); [lia|]. destruct (Z.eqb_spec (cc_n_attn ctx) 0); [done|].
  destruct (Z.ltb_spec (cc_n_layers ctx) (cc_n_attn ctx)); [lia|]. destruct (Z.eqb_spec (cc_seq_heads ctx) 0); [done|]. cbn [orb]. rewrite Htr. cbn [mbind res_bind].
  rewrite bool_decide_true by done. cbn [negb]. rewrite (ok_or_step _ _ _ _ Hch), (try_step _ _ _ Hop).
  erewrite ok_or_step by (rewrite Hle, Hrole, Hll, !Z.eqb_refl; reflexivity). rewrite (ok_or_step _ _ _ _ Ha), Hslot, Z.eqb_refl. cbn [negb]. rewrite (try_step _ _ _ Ht).
  rewrite G2, G3. fold (attended_from a t). pose proof (attended_before a t ltac:(lia)) as Hlt.
  set (rd := if negb (al_mla_rank a =? 0) then (al_head_dim a / 32 * 34, al_mla_rank a) else (2 * (al_head_dim a / 32 * 34), al_head_dim a)) in Hs.
  assert (E : (if negb (al_mla_rank a =? 0) then (0, al_head_dim a / 32 * 34, al_mla_rank a)
     else (if 0 <? al_swa_window a then saturating_sub (wrap 64 (t + 1)) (al_swa_window a) else 0, 2 * (al_head_dim a / 32 * 34), al_head_dim a)) = (attended_from a t, rd.1, rd.2)).
  { unfold attended_from, rd. destruct (negb (al_mla_rank a =? 0)); reflexivity. }
  rewrite E. clear E. destruct rd as [row dv]. cbn [fst snd]. destruct (block_params row (partial_len dv)) as [cb|]; [|done]. cbn [mbind res_bind] in Hs |- *.
  apply try_inr in Hs as ([c b] & Ecb & Hs). apply ok_or_inr in Ecb. rewrite (ok_or_step _ _ _ _ Ecb).
  apply try_inr in Hs as ([] & Et & _). apply (try_each_inr _ _ 0) in Et; [|left]. apply try_inr in Et as (t0 & Et & _). apply ok_or_inr in Et.
  unfold tree_new in Et |- *. destruct (_ && (1 <=? c) && _) eqn:Ec; [|done]. rewrite !andb_true_iff, !Z.leb_le in Ec. destruct Ec as [[_ Hc] Hb2].
  destruct (Z.ltb_spec (attended_from a t) (wrap 64 (t + 1))); [|lia]. destruct (Z.leb_spec 1 c); [|lia]. destruct (Z.leb_spec 2 b); [|lia]. cbn [andb].
  eexists. split; [reflexivity|]. cbn. rewrite wrap_id by (unfold fits; lia). done.
Qed.

Lemma position_below t d0 : resid_position ctx resp l d0 = Ret (inr t) -> 0 <= t < n_pos resp.
Proof.
  unfold resid_position. cbv zeta. destruct (_ && _).
  - intros H. apply try_inr in H as (f & Ef & H). apply ok_or_inr in Ef. unfold checked_sub in Ef. destruct (Z.leb_spec 1 (n_prompt resp)); [|done]. cbn in Ef.
    destruct (Z.ltb_spec (n_prompt resp - 1) (n_pos resp)); [|done]. injection Ef as <-. apply ret_inr in H as <-. set (f := n_prompt resp - 1) in *.
    assert (0 <= d0 mod (n_pos resp - f) < n_pos resp - f) by (apply Z.mod_pos_bound; lia). rewrite wrap_id by (unfold fits; lia). lia.
  - destruct (Z.eqb_spec (n_pos resp) 0); [done|]. intros H. apply ret_inr in H as <-. apply Z.mod_pos_bound. lia.
Qed.

(** The head a recurrent point draws, its segment, rows and position are in range, and every value it reads lies in one chunk. *)
Definition recur_fits (r : RecurLinks) (st : RecurSite) : Prop :=
  let hd := rl_head_dim r in let gw := if is_kda r then hd else 1 in
  rs_r st = r /\ 0 <= rs_h st < rl_n_v_heads r /\ rs_hk st = rs_h st mod rl_n_k_heads r
  /\ 0 <= rs_c st /\ rs_c st <= rs_p st < rs_e st /\ rs_e st <= n_pos resp /\ rs_e st - rs_c st <= rl_interval r /\ rs_c st = rs_s st * rl_interval r
  /\ 0 <= rs_r0 st /\ rs_r0 st + RECUR_ROWS <= hd
  /\ Forall (fun off => in_chunk off hd = true) (offsets st)
  /\ in_chunk (rs_h st) 1 = true /\ in_chunk (wrap 64 (rs_h st * gw)) gw = true /\ in_chunk (wrap 64 (rs_h st * hd)) hd = true
  /\ is_Some (record (seq_layout ctx) (rl_slot r) (rs_h st)) /\ is_Some (checkpoint (seq_layout ctx) (rl_slot r) (rs_h st)).

Lemma segment_bounds n iv s : 0 < n < 2 ^ 32 -> 0 < iv < 2 ^ 32 -> 0 <= s < div_ceil n iv ->
  wrap 64 (s * iv) = s * iv /\ wrap 64 (wrap 64 (s + 1) * iv) = (s + 1) * iv /\ s * iv < Z.min ((s + 1) * iv) n.
Proof.
  intros Hn Hi Hs. unfold div_ceil in Hs. assert (s * iv <= n - 1).
  { assert (s <= (n + iv - 1) / iv - 1) by lia. replace ((n + iv - 1) / iv) with ((n - 1) / iv + 1) in * by (rewrite <- Z.div_add by lia; f_equal; lia).
    pose proof (Z.mul_div_le (n - 1) iv ltac:(lia)). nia. }
  assert (s <= n) by nia. rewrite (wrap_id 64 (s + 1)) by (unfold fits; lia). rewrite !wrap_id by (unfold fits; nia). split; [done|]. split; [done|]. lia.
Qed.

Lemma recur_starts r op : ll_recur ll = Some r -> recur_layer entries ctx ll r = Ret (inr ()) -> Forall is_u32 (recur_fields r) ->
  opens_layer (re_layer op) -> trace_root (re_pos_root op) (re_seq_root op) = Ret (resp_trace_root resp) ->
  rl_slot r = draw seed RECUR_POINT 1 mod cc_n_recur ctx ->
  if rl_n_v_heads r =? 0 then recur_site tier ctx resp seed op = Panic
  else exists st, recur_site tier ctx resp seed op = Ret (inr st) /\ rs_ll st = ll /\ recur_fits r st.
Proof.
  intros Hr Hs Hw Ho Htr Hslot. destruct (layer_checked _ Ho) as [Hch Hop]. unfold recur_layer in Hs. apply bail_inr in Hs as [G1 Hs]. cbv zeta in Hs.
  apply bail_inr in Hs as [G2 Hs]. apply bail_inr in Hs as [G3 Hs]. apply try_inr in Hs as (de & _ & Hs). apply bail_inr in Hs as [_ Hs].
  apply try_inr in Hs as (pe & _ & Hs). apply bail_inr in Hs as [_ Hs]. apply try_inr in Hs as ([] & _ & Hs).
  rewrite !orb_false_iff, !Z.eqb_neq, Z.leb_gt in G1. destruct G1 as [[G1 G1'] _].
  unfold recur_fields in Hw. rewrite !Forall_cons in Hw. unfold is_u32, fits in Hw.
  unfold recur_site. cbv zeta. destruct (Z.eqb_spec (n_pos resp) 0); [lia|]. destruct (Z.eqb_spec (cc_n_recur ctx) 0); [done|].
  destruct (Z.eqb_spec (cc_seq_heads ctx) 0); [done|]. cbn [orb]. rewrite Htr. cbn [mbind res_bind]. rewrite bool_decide_true by done. cbn [negb].
  rewrite (ok_or_step _ _ _ _ Hch), (try_step _ _ _ Hop). erewrite ok_or_step by (rewrite Hle, Hrole, Hll, !Z.eqb_refl; reflexivity).
  rewrite (ok_or_step _ _ _ _ Hr), Hslot, Z.eqb_refl. cbn [negb]. rewrite G2, G3. destruct (Z.eqb_spec (rl_n_v_heads r) 0) as [|Hv']; [done|]. assert (Hv : 0 < rl_n_v_heads r) by (clear - Hw Hv'; lia). clear Hv'.
  assert (Hiv : 0 < rl_interval r < 2 ^ 32) by (rewrite !orb_false_iff, !Z.eqb_neq in G2; destruct G2 as [_ G2]; clear - Hw G2; lia).
  assert (Hhd : 0 < rl_head_dim r < 2 ^ 32 /\ rl_head_dim r mod RECUR_ROWS = 0 /\ 0 < rl_n_k_heads r).
  { rewrite !orb_false_iff, !Z.eqb_neq, !negb_false_iff, !Z.eqb_eq in G3. destruct G3 as [[[[[[G31 _] G33] G34] _] _] _]. clear - Hw G31 G33 G34. lia. }
  clear Hw. set (h := draw seed RECUR_POINT 2 mod rl_n_v_heads r) in *. assert (Hh : 0 <= h < rl_n_v_heads r) by (apply Z.mod_pos_bound; done).
  set (s := draw seed RECUR_POINT 0 mod div_ceil (n_pos resp) (rl_interval r)) in *.
  assert (Hseg : 0 <= s < div_ceil (n_pos resp) (rl_interval r)) by (apply Z.mod_pos_bound; unfold div_ceil; apply Z.div_str_pos; lia).
  destruct (segment_bounds _ _ _ Hpos Hiv Hseg) as (E1 & E2 & Hlt). rewrite E1, E2. set (c := s * rl_interval r) in *. set (e := Z.min ((s + 1) * rl_interval r) (n_pos resp)) in *.
  assert (Hce : 0 <= c < e /\ e <= n_pos resp /\ e - c <= rl_interval r) by (unfold c, e in *; clear - Hlt Hseg Hiv; nia).
  destruct (Z.eqb_spec (e - c) 0); [lia|]. eexists. split; [reflexivity|]. split; [done|].
  apply (try_each_inr _ _ h) in Hs; [|apply elem_of_seqZ; lia]. unfold recur_head in Hs. cbv zeta in Hs. apply bail_inr in Hs as [G4 Hs]. apply try_inr in Hs as ([k1 k2] & Ek & _). apply ok_or_inr in Ek.
  rewrite !orb_false_iff, !negb_false_iff in G4. destruct G4 as [[[G41 G42] G43] G44].
  assert (Hp : 0 <= Z.shiftr (draw seed RECUR_POINT 3) 32 mod (e - c) < e - c) by (apply Z.mod_pos_bound; lia).
  assert (Hrw : 0 <= draw seed RECUR_POINT 3 mod (rl_head_dim r / RECUR_ROWS) < rl_head_dim r / RECUR_ROWS).
  { apply Z.mod_pos_bound. destruct Hhd as (Hh0 & Hm & _). pose proof (Z.div_mod (rl_head_dim r) RECUR_ROWS ltac:(done)) as E. clear - Hh0 Hm E. unfold RECUR_ROWS in *. lia. }
  set (x := Z.shiftr (draw seed RECUR_POINT 3) 32 mod (e - c)) in *. set (y := draw seed RECUR_POINT 3 mod (rl_head_dim r / RECUR_ROWS)) in *.
  assert (Ew : wrap 64 (c + x) = c + x) by (apply wrap_id; clear - Hp Hce Hpos; clearbody x c e; unfold fits; lia). rewrite Ew.
  assert (Hx : c <= c + x < e) by (clear - Hp; clearbody x c e; lia).
  assert (Hy : 0 <= y * RECUR_ROWS /\ y * RECUR_ROWS + RECUR_ROWS <= rl_head_dim r).
  { pose proof (Z.mul_div_le (rl_head_dim r) RECUR_ROWS ltac:(done)) as Hd. clear - Hd Hrw. clearbody y. unfold RECUR_ROWS in *. lia. }
  assert (Hcs : is_Some (record (seq_layout ctx) (rl_slot r) h) /\ is_Some (checkpoint (seq_layout ctx) (rl_slot r) h)).
  { clear - Ek. destruct (record _ _ h) as [k1'|]; [|done]. destruct (checkpoint _ _ h) as [k2'|]; [|done]. split; by eexists. }
  assert (HF : forall l, forallb (fun o => in_chunk o (rl_head_dim r)) l = true -> Forall (fun off => in_chunk off (rl_head_dim r) = true) l).
  { intros l' H'. apply Forall_forall. rewrite forallb_forall in H'. intros o Ho'. apply H', list_elem_of_In. exact Ho'. }
  unfold recur_fits. cbn [rs_r rs_h rs_hk rs_c rs_p rs_e rs_s rs_r0].
  refine (conj eq_refl (conj Hh (conj eq_refl (conj (proj1 (proj1 Hce)) (conj Hx (conj (proj1 (proj2 Hce)) (conj (proj2 (proj2 Hce)) (conj eq_refl
    (conj (proj1 Hy) (conj (proj2 Hy) (conj (HF _ G41) (conj G42 (conj G43 (conj G44 Hcs)))))))))))))).
Qed.
End Draws.

(** The support check delivers what it promises.  When it accepts a manifest, an opening of the entry of any layer
    starts that layer's point whenever the draw names its slot: the attention point with a block tree over the
    attended positions up to the drawn one, and the recurrent point with a head, a segment, state rows and a
    position in range, whose every value lies in one chunk of a committed leaf.  A layer of no value heads is the
    exception: the check accepts it and its point panics on the draw of a head. *)
Theorem support_lets_draw `{B3 : Blake3, L : Libm} (tier : TierCtx) (ctx : ChainCtx) (resp : ResponseCtx) (seed : Hash)
    (entries : list Entry) (n_pos_max l : Z) (le : Entry) (ll : LayerLinks) :
  check_manifest entries ctx n_pos_max = Ret (inr ()) ->
  0 <= l < cc_n_layers ctx -> 0 <= cc_layer_base ctx -> cc_layer_base ctx + cc_n_layers ctx <= 2 ^ 32 -> 0 < n_pos resp < 2 ^ 32 ->
  get_at entries (cc_layer_base ctx + l) = Some le -> chain le = Chain_Layer ll -> chain_ok (chain le) ->
  (forall a op t, ll_attn ll = Some a -> opens_layer tier ctx l le (at_layer op) -> trace_root (at_pos_root op) (at_seq_root op) = Ret (resp_trace_root resp) ->
     al_slot a = draw seed ATTN_POINT 1 mod cc_n_attn ctx -> resid_position ctx resp l (draw seed ATTN_POINT 0) = Ret (inr t) ->
     exists s, attn_site tier ctx resp seed op = Ret (inr s) /\ si_ll s = ll /\ si_a s = a /\ si_t s = t /\ 0 <= t < n_pos resp
       /\ bt_lo (si_tree s) = attended_from a t /\ bt_hi (si_tree s) = t + 1 /\ 1 <= bt_c (si_tree s) /\ 2 <= bt_b (si_tree s))
  /\ (forall r op, ll_recur ll = Some r -> opens_layer tier ctx l le (re_layer op) ->
     trace_root (re_pos_root op) (re_seq_root op) = Ret (resp_trace_root resp) -> rl_slot r = draw seed RECUR_POINT 1 mod cc_n_recur ctx ->
     if rl_n_v_heads r =? 0 then recur_site tier ctx resp seed op = Panic
     else exists st, recur_site tier ctx resp seed op = Ret (inr st) /\ rs_ll st = ll /\ recur_fits ctx resp r st).
Proof.
  intros Hck Hl Hb Hsum Hp Hget Hle Hok. destruct (supported_layer entries ctx n_pos_max Hck Hb Hsum l le ll Hl Hget Hle) as (Hrole & Hll & Ha & Hr). split.
  - intros a op t Ea Ho Htr Hs Ht. pose proof (position_below ctx resp l Hl Hp t _ Ht) as Hb'.
    destruct (attn_starts tier ctx resp seed entries n_pos_max l le ll Hl Hb Hsum Hp Hle Hrole Hll a op t Ea (Ha a Ea) Ho Htr Hs Ht ltac:(lia)) as (s & Es & ? & ? & ? & ?).
    exists s. by repeat (split; [done|]).
  - intros r op Er Ho Htr Hs. rewrite Hle in Hok. destruct Hok as [Hw Hex]. apply (recur_starts tier ctx resp seed entries l le ll Hl Hb Hsum Hp Hle Hrole Hll r op Er (Hr r Er)); try done.
    unfold chain_words in Hw. destruct Hex as [Hn|Hn]; [|congruence]. rewrite Hn, Er in Hw. apply Forall_app in Hw as [_ Hw]. apply Forall_app in Hw as [_ Hw]. exact Hw.
Qed.

(** ** A manifest of an attention layer and a recurrent layer *)

Module Sample.
Import Merkle.Toy.

#[export] Instance exact_sqrt : Libm := Prefix.Sample.exact_sqrt.

Definition attn : AttnLinks :=
  {| al_q := 2; al_k := 2; al_v := 2; al_q_norm := NONE; al_k_norm := NONE; al_n_head := 1; al_n_head_kv := 1; al_head_dim := 32;
     al_rope_kind := ROPE_NORM; al_n_rot := 32; al_rope_base := 0x461c4000; al_kq_scale := 0x3f800000; al_swa_window := 3; al_softcap := 0;
     al_rope_freqs := NONE; al_v_norm := 0; al_gated := 0; al_slot := 0; al_mla_rank := 0; al_absorb := NONE; al_out := NONE |}.
Definition recur : RecurLinks :=
  {| rl_kind := RECUR_GDA; rl_slot := 0; rl_n_v_heads := 1; rl_n_k_heads := 1; rl_head_dim := 32; rl_q := 2; rl_k := 2; rl_v := 2;
     rl_conv_q := 3; rl_conv_k := 3; rl_conv_v := 3; rl_beta := 2; rl_decay := 2; rl_dt := 4; rl_a := 4; rl_norm := 5; rl_gate := 2;
     rl_interval := 4; rl_conv_len := 1 |}.
Definition layer (l : Z) (a : option AttnLinks) (r : option RecurLinks) : LayerLinks :=
  {| ll_layer := l; proj := 2; down := 2; post_attn := NONE; post_ffn := NONE; scale := NONE; ll_moe := None; ll_attn := a; ll_recur := r |}.

Definition entry_bytes (role k m : Z) (c : Chain) : list byte :=
  to_le 2 1 ++ [byte_of_u8 97] ++ to_le 4 0 ++ to_le 8 k ++ to_le 8 m ++ to_le 4 1 ++ to_le 8 0 ++ to_le 8 128 ++ to_le 4 128
  ++ to_le 1 role ++ to_le 1 0 ++ to_le 1 FORM_NONE ++ to_le 4 NONE ++ to_le 4 NONE ++ chain_bytes c.
Definition files : list (list byte) :=
  [entry_bytes ROLE_LAYER 1 1 (Chain_Layer (layer 0 (Some attn) None)); entry_bytes ROLE_LAYER 1 1 (Chain_Layer (layer 1 None (Some recur)));
   entry_bytes ROLE_PRODUCT 32 32 Chain_None; entry_bytes ROLE_NORM 96 1 Chain_None; entry_bytes ROLE_NORM 1 1 Chain_None; entry_bytes ROLE_NORM 32 1 Chain_None].
Definition entries : list Entry := omap (fun b => fst <$> parse b) files.

Definition entry_hashes : list Hash := leaf <$> files.
Definition tier : TierCtx := {| r_t := []; tier_n_chunks := 0; m_t := rt_root_of entry_hashes; n_entries := 6; n_products := 6 |}.
Definition ctx : ChainCtx :=
  {| cc_n_layers := 2; cc_layer_base := 0; cc_embd_entry := 2; cc_eps := zero; cc_embd_scale := one; cc_trim_last := false; cc_n_used := 0;
     cc_n_attn := 1; cc_n_recur := 1; cc_seq_heads := 1 |}.
Definition pos_root : Hash := to_le 32 1.
Definition seq_root : Hash := to_le 32 2.
Definition resp : ResponseCtx := {| resp_trace_root := match trace_root pos_root seq_root with Ret h => h | Panic => [] end; n_prompt := 5; n_pos := 10 |}.
Definition seed : Hash := to_le 32 7.
Definition opened (i : Z) : EntryOpening :=
  {| entry_index := i; Opening.entry_bytes := nth (Z.to_nat i) files []; entry_path := match rt_range_proof entry_hashes i 1 with Ret (_, p) => p | Panic => [] end |}.
Definition nothing : LeafChunk := {| lc_total_len := 0; lc_index := 0; lc_chunk := []; lc_chunk_path := []; lc_leaf_path := [] |}.
Definition attn_op : AttnOpening :=
  {| at_response_txid := []; at_pos_root := pos_root; at_seq_root := seq_root; at_layer := opened 0; at_q_entry := no_entry; at_o_entry := no_entry;
     at_norms := []; at_pos_path := []; at_q := []; at_out := no_leaf; at_kcache := no_span; at_vcache := no_span; at_anchor_pos_path := [];
     at_anchor_k := []; at_anchor_v := []; at_absorb := []; at_path := []; at_parent := []; at_parent_path := []; at_partials := []; at_lse := no_span |}.
Definition recur_op : RecurOpening :=
  {| re_response_txid := []; re_pos_root := pos_root; re_seq_root := seq_root; re_layer := opened 1; re_out_entry := no_entry; re_decay_entry := no_entry;
     re_weights := []; re_records := no_span; re_start_rows := no_span; re_end_rows := no_span; re_taps := []; re_beta := nothing; re_decay := nothing;
     re_gate := nothing; re_out := no_leaf |}.

Lemma manifest_supported : check_manifest entries ctx 4096 = Ret (inr ()).
Proof. vm_compute. reflexivity. Qed.

Lemma words_fit l a r : l = 0 /\ a = Some attn /\ r = None \/ l = 1 /\ a = None /\ r = Some recur -> chain_ok (Chain_Layer (layer l a r)).
Proof.
  intros [(-> & -> & ->)|(-> & -> & ->)]; (split; [|by (left + right)]); unfold is_u32, fits; apply Forall_forall; intros x Hx;
    apply list_elem_of_In in Hx; cbn in Hx; unfold NONE, RECUR_GDA, ROPE_NORM in Hx; lia.
Qed.
End Sample.

Lemma support_lets_draw_witness : let S := Sample.exact_sqrt in
  (exists s, attn_site (B3 := Merkle.Toy.toy_blake3) Sample.tier Sample.ctx Sample.resp Sample.seed Sample.attn_op = Ret (inr s) /\ bt_hi (si_tree s) = si_t s + 1)
  /\ exists st, recur_site (B3 := Merkle.Toy.toy_blake3) Sample.tier Sample.ctx Sample.resp Sample.seed Sample.recur_op = Ret (inr st) /\ recur_fits Sample.ctx Sample.resp Sample.recur st.
Proof.
  intros S.
  assert (H : forall l a r, l = 0 /\ a = Some Sample.attn /\ r = None \/ l = 1 /\ a = None /\ r = Some Sample.recur ->
    exists le, get_at Sample.entries (cc_layer_base Sample.ctx + l) = Some le /\ chain le = Chain_Layer (Sample.layer l a r)
      /\ opens_layer (B3 := Merkle.Toy.toy_blake3) Sample.tier Sample.ctx l le (Sample.opened l)).
  { intros l a r [(-> & -> & ->)|(-> & -> & ->)]; eexists; (split; [vm_compute; reflexivity|split; [reflexivity|split; [reflexivity|vm_compute; reflexivity]]]). }
  split.
  - destruct (H 0 (Some Sample.attn) None ltac:(by left)) as (le & Hg & Hc & Ho).
    destruct (proj1 (support_lets_draw (B3 := Merkle.Toy.toy_blake3) Sample.tier Sample.ctx Sample.resp Sample.seed Sample.entries 4096 0 le _ Sample.manifest_supported
      ltac:(cbn; lia) ltac:(cbn; lia) ltac:(cbn; lia) ltac:(cbn; lia) Hg Hc ltac:(rewrite Hc; apply Sample.words_fit; by left))
      Sample.attn Sample.attn_op (draw (B3 := Merkle.Toy.toy_blake3) Sample.seed ATTN_POINT 0 mod 10) eq_refl Ho eq_refl) as (s & Hs & _ & _ & Ht & _ & _ & Hhi & _).
    + vm_compute. reflexivity.
    + vm_compute. reflexivity.
    + exists s. split; [exact Hs|]. rewrite Ht. exact Hhi.
  - destruct (H 1 None (Some Sample.recur) ltac:(by right)) as (le & Hg & Hc & Ho).
    destruct (proj2 (support_lets_draw (B3 := Merkle.Toy.toy_blake3) Sample.tier Sample.ctx Sample.resp Sample.seed Sample.entries 4096 1 le _ Sample.manifest_supported
      ltac:(cbn; lia) ltac:(cbn; lia) ltac:(cbn; lia) ltac:(cbn; lia) Hg Hc ltac:(rewrite Hc; apply Sample.words_fit; by right))
      Sample.recur Sample.recur_op eq_refl Ho eq_refl) as (st & Hs & _ & Hf).
    + vm_compute. reflexivity.
    + exists st. split; [exact Hs|exact Hf].
Defined.
