(* ===== verification/Answer.v ===== *)
(** * Sealed answers and the shape rule ([verifiable-inference/src/answer.rs], [shape.rs])

    The plaintext of a stage-2 answer closes with the token ids of its generated
    positions; the shape rule bounds the positions a trace must commit by the sealed
    sizes of the request and of the response. *)
From S2P Require Import Prelude.
From stdpp Require Import strings.
#[local] Open Scope Z_scope.

(** ** Answers *)

Definition TOKENS_MAGIC : list byte := String.list_byte_of_string "KXTK".
Definition TRAILER_LEN : Z := 8.

Definition encode (text : list byte) (ids : list Z) : list byte :=
  text ++ concat (to_le 4 <$> ids) ++ to_le 4 (wrap 32 (zlen ids)) ++ TOKENS_MAGIC.

Definition decode (plain : list byte) : res (option (list byte * list Z)) :=
  match checked_sub (zlen plain) TRAILER_LEN with
  | None => Ret None
  | Some body =>
    magic ← index_range plain (body + 4) (zlen plain);
    if negb (bool_decide (magic = TOKENS_MAGIC)) then Ret None else
    count ← index_range plain body (body + 4);
    match (n4 ← checked_mul 64 (from_le count) 4; checked_sub body n4) with
    | None => Ret None
    | Some text_len =>
      ids ← index_range plain text_len body;
      text ← index_range plain 0 text_len;
      Ret (Some (text, from_le <$> chunks_exact 4 ids))
    end
  end.

(** Text length of a plaintext of [answer_len] bytes carrying [n_ids] ids. *)
Definition text_len (answer_len n_ids : Z) : option Z :=
  n4 ← checked_mul 32 n_ids 4; n ← checked_add 32 n4 TRAILER_LEN; checked_sub answer_len n.

(** ** The shape rule *)

Definition PROMPT_BYTES_PER_POSITION : Z := 16.
Definition ANSWER_BYTES_PER_POSITION : Z := 10.
Definition MAX_ANSWER_BYTES_PER_TOKEN : Z := 32.
Definition MAX_TRACE_POSITIONS : Z := 131072.

Definition min_prompt_positions (prompt_len : Z) : Z := prompt_len / PROMPT_BYTES_PER_POSITION.
Definition min_generated_positions (answer_len max_tokens : Z) : Z := Z.min (answer_len / ANSWER_BYTES_PER_POSITION) max_tokens.
Definition max_answer_len (max_tokens : Z) : Z := wrap 64 (max_tokens * MAX_ANSWER_BYTES_PER_TOKEN).

Definition shape_ok (prompt_len answer_len max_tokens n_prompt n_pos : Z) : bool :=
  (0 <? n_prompt) && (n_prompt <=? n_pos) && (n_pos <=? MAX_TRACE_POSITIONS) && (wrap 32 (n_pos - n_prompt) <=? max_tokens)
  && (min_prompt_positions prompt_len <=? n_prompt) && (min_generated_positions answer_len max_tokens <=? wrap 32 (n_pos - n_prompt))
  && (answer_len <=? max_answer_len max_tokens).

(** ** Properties *)

Lemma concat_words (ids : list Z) : zlen (concat (to_le 4 <$> ids)) = 4 * zlen ids.
Proof. induction ids as [|i ids IH]; [done|]. cbn [fmap list_fmap concat]. rewrite zlen_app, zlen_to_le, IH, zlen_cons. lia. Qed.

Lemma words_read (b : list byte) n : zlen b = 4 * n -> concat (to_le 4 <$> (from_le <$> chunks_exact 4 b)) = b /\ zlen (from_le <$> chunks_exact 4 b) = n.
Proof.
  intros Hb. pose proof (zlen_nonneg b). rewrite chunks_exact_all by (rewrite ?Hb; try lia; rewrite Z.mul_comm; apply Z_mod_mult).
  rewrite zlen_fmap. split; [|unfold zlen at 1; rewrite length_chunks by lia; rewrite Hb; unfold div_ceil; dlia].
  rewrite <- (concat_chunks 4 ltac:(lia) b) at 2. f_equal.
  assert (HF : Forall (fun c => length c = 4%nat) (chunks 4 b)) by (apply (chunks_full 4 (Z.to_nat n)); unfold zlen in *; lia).
  induction HF as [|c cs Hc _ IH]; [done|]. cbn. rewrite IH. f_equal. by apply to_from_le.
Qed.

Lemma words_written (ids : list Z) : Forall is_u32 ids -> from_le <$> chunks_exact 4 (concat (to_le 4 <$> ids)) = ids.
Proof.
  intros H. rewrite chunks_exact_all by (try lia; rewrite concat_words, Z.mul_comm; apply Z_mod_mult).
  rewrite chunks_of_concat; [|lia|apply Forall_fmap, Forall_true; intros; apply length_to_le].
  induction H as [|i ids Hi _ IH]; [done|]. cbn. by rewrite IH, from_to_le.
Qed.

Lemma decode_cut plain : TRAILER_LEN <= zlen plain -> zlen plain < 2 ^ 63 ->
  let body := zlen plain - TRAILER_LEN in let n := from_le (slice plain body (body + 4)) in
  decode plain = Ret (if bool_decide (slice plain (body + 4) (zlen plain) = TOKENS_MAGIC) && (4 * n <=? body)
    then Some (slice plain 0 (body - 4 * n), from_le <$> chunks_exact 4 (slice plain (body - 4 * n) body)) else None).
Proof.
  intros Hl Hb. cbv zeta. unfold decode, checked_sub. destruct (Z.leb_spec TRAILER_LEN (zlen plain)); [|lia]. unfold TRAILER_LEN in *.
  rewrite (index_range_Ret plain (zlen plain - 8 + 4)) by lia. cbn [mbind res_bind].
  destruct (decide (slice plain (zlen plain - 8 + 4) (zlen plain) = TOKENS_MAGIC)) as [Hm|Hm]; [rewrite !bool_decide_true by done|by rewrite !bool_decide_false by done]. cbn [negb andb].
  rewrite index_range_Ret by lia. cbn [mbind res_bind]. pose proof (from_le_fits (slice plain (zlen plain - 8) (zlen plain - 8 + 4))) as Hf.
  rewrite zlen_slice in Hf by lia. replace (8 * (zlen plain - 8 + 4 - (zlen plain - 8))) with 32 in Hf by lia. unfold fits in Hf.
  set (n := from_le _) in *. unfold checked_mul. destruct (Z.ltb_spec (n * 4) (2 ^ 64)); [|lia]. cbn [mbind option_bind]. rewrite (Z.mul_comm n 4).
  destruct (Z.leb_spec (4 * n) (zlen plain - 8)); [|done]. rewrite !index_range_Ret by lia. done.
Qed.

Lemma decode_encodes_back plain text ids : zlen plain < 2 ^ 63 -> decode plain = Ret (Some (text, ids)) -> encode text ids = plain.
Proof.
  intros Hb. destruct (Z.ltb_spec (zlen plain) TRAILER_LEN) as [Hs|Hl]; [unfold decode, checked_sub; destruct (Z.leb_spec TRAILER_LEN (zlen plain)); [lia|done]|].
  rewrite decode_cut by done. set (body := zlen plain - TRAILER_LEN). set (n := from_le (slice plain body (body + 4))). unfold TRAILER_LEN in *. case_bool_decide as Hm; [|done].
  destruct (Z.leb_spec (4 * n) body); [|done]. cbn [andb]. intros [= <- <-].
  pose proof (from_le_fits (slice plain body (body + 4))) as Hf. rewrite zlen_slice in Hf by lia. replace (8 * (body + 4 - body)) with 32 in Hf by lia. fold n in Hf.
  assert (0 <= n) by apply Hf.
  destruct (words_read (slice plain (body - 4 * n) body) n) as [Hw Hz]; [rewrite zlen_slice by lia; lia|]. unfold encode. rewrite Hw, Hz, wrap_id by done.
  assert (Hc : to_le 4 n = slice plain body (body + 4)) by (unfold n; apply to_from_le; pose proof (zlen_slice plain body (body + 4)) as Hs; unfold zlen in *; lia).
  rewrite Hc, <- Hm, !slice_slice_app by lia. rewrite slice_to_end by lia. done.
Qed.

(** C38: The answer codec is exact.  Decoding never panics; a decoded plaintext is the encoding of its text and
    ids, which are the only ones that encode to it; and every text with fewer than 2^32 token ids decodes from
    its encoding, with the text length the sizes predict. *)
Theorem answer_codec_exact :
  (forall plain, zlen plain < 2 ^ 63 -> exists o, decode plain = Ret o /\ forall text ids, o = Some (text, ids) -> encode text ids = plain)
  /\ forall text ids, Forall is_u32 ids -> zlen ids < 2 ^ 32 -> zlen text < 2 ^ 62 ->
       decode (encode text ids) = Ret (Some (text, ids))
       /\ (zlen (encode text ids) < 2 ^ 32 -> text_len (zlen (encode text ids)) (zlen ids) = Some (zlen text)).
Proof.
  split.
  - intros plain Hb. destruct (Z.ltb_spec (zlen plain) TRAILER_LEN) as [Hs|Hl].
    + exists None. split; [|done]. unfold decode, checked_sub. by destruct (Z.leb_spec TRAILER_LEN (zlen plain)); [lia|].
    + pose proof (decode_cut plain Hl Hb) as E. cbv zeta in E. eexists. split; [exact E|]. intros text ids Ho. apply decode_encodes_back; [done|]. by rewrite E, Ho.
  - intros text ids Hids Hn Ht. pose proof (zlen_nonneg ids). pose proof (zlen_nonneg text).
    assert (Hz : zlen (encode text ids) = zlen text + 4 * zlen ids + 8) by (unfold encode; rewrite !zlen_app, concat_words, zlen_to_le; change (zlen TOKENS_MAGIC) with 4; lia).
    split.
    + rewrite decode_cut by (rewrite Hz; unfold TRAILER_LEN; lia). cbv zeta. unfold TRAILER_LEN. rewrite Hz. replace (zlen text + 4 * zlen ids + 8 - 8) with (zlen text + 4 * zlen ids) by lia.
      assert (Hcut : forall p s t lo hi, encode text ids = p ++ s ++ t -> zlen p = lo -> hi = lo + zlen s -> slice (encode text ids) lo hi = s) by (intros p s t lo hi -> <- ->; apply slice_app_mid).
      assert (Hcw : zlen (text ++ concat (to_le 4 <$> ids)) = zlen text + 4 * zlen ids) by (rewrite zlen_app, concat_words; lia).
      set (B := zlen text + 4 * zlen ids) in *. assert (Hlen : zlen (to_le 4 (wrap 32 (zlen ids))) = 4) by (by rewrite zlen_to_le).
      assert (S1 : slice (encode text ids) B (B + 4) = to_le 4 (wrap 32 (zlen ids))).
      { apply (Hcut (text ++ concat (to_le 4 <$> ids)) _ TOKENS_MAGIC); [unfold encode; by rewrite <- !app_assoc|done|lia]. }
      assert (S2 : slice (encode text ids) (B + 4) (B + 8) = TOKENS_MAGIC).
      { apply (Hcut ((text ++ concat (to_le 4 <$> ids)) ++ to_le 4 (wrap 32 (zlen ids))) _ []); [unfold encode; by rewrite <- !app_assoc, app_nil_r|rewrite zlen_app; lia|change (zlen TOKENS_MAGIC) with 4; lia]. }
      rewrite S1, S2, from_to_le by (apply wrap_fits; lia).
      rewrite bool_decide_true by done. rewrite wrap_id by (unfold fits; lia). destruct (Z.leb_spec (4 * zlen ids) B); [|lia]. cbn [andb].
      replace (B - 4 * zlen ids) with (zlen text) by lia. do 3 f_equal.
      * apply (Hcut [] text (concat (to_le 4 <$> ids) ++ to_le 4 (wrap 32 (zlen ids)) ++ TOKENS_MAGIC)); [done|done|]. change (zlen (@nil byte)) with 0. lia.
      * rewrite (Hcut text (concat (to_le 4 <$> ids)) (to_le 4 (wrap 32 (zlen ids)) ++ TOKENS_MAGIC)) by (rewrite ?concat_words; done || lia). by apply words_written.
    + intros Hs. rewrite Hz in *. unfold text_len, checked_mul, checked_add, checked_sub, TRAILER_LEN. destruct (Z.ltb_spec (zlen ids * 4) (2 ^ 32)); [|lia]. cbn [mbind option_bind].
      destruct (Z.ltb_spec (zlen ids * 4 + 8) (2 ^ 32)); [|lia]. cbn [mbind option_bind]. destruct (Z.leb_spec (zlen ids * 4 + 8) (zlen text + 4 * zlen ids + 8)); [|lia]. f_equal. lia.
Qed.

Lemma answer_codec_exact_witness : decode (encode (to_le 2 7) [7; 9]) = Ret (Some (to_le 2 7, [7; 9])).
Proof. refine (proj1 (proj2 answer_codec_exact (to_le 2 7) [7; 9] _ _ _)); evaluate. Defined.

(** The shape rule bounds both sides.  For 32-bit sizes it accepts exactly the commitments with at least one
    prompt position, one per 16 prompt bytes, between one position per 10 answer bytes (at most the budget)
    and the budget of generated ones, at most 131072 in all, and an answer of at most 32 bytes per token of
    the budget. *)
Theorem shape_ok_exact (prompt_len answer_len max_tokens n_prompt n_pos : Z) :
  is_u32 prompt_len -> is_u32 answer_len -> is_u32 max_tokens -> is_u32 n_prompt -> is_u32 n_pos ->
  shape_ok prompt_len answer_len max_tokens n_prompt n_pos = true
  <-> (1 <= n_prompt <= n_pos /\ n_pos <= 131072) /\ prompt_len < 16 * (n_prompt + 1)
      /\ n_pos - n_prompt <= max_tokens /\ answer_len <= 32 * max_tokens
      /\ (answer_len < 10 * (n_pos - n_prompt + 1) \/ n_pos - n_prompt = max_tokens).
Proof.
  unfold fits. intros Hp Ha Hm Hn Hq. unfold shape_ok, min_prompt_positions, min_generated_positions, max_answer_len, PROMPT_BYTES_PER_POSITION, ANSWER_BYTES_PER_POSITION, MAX_ANSWER_BYTES_PER_TOKEN, MAX_TRACE_POSITIONS.
  rewrite (wrap_id 64) by (unfold fits; lia). destruct (Z.leb_spec n_prompt n_pos); [|split; [rewrite andb_false_r; cbn; done|lia]].
  rewrite wrap_id by (unfold fits; lia). rewrite !andb_true_iff, !Z.leb_le, Z.ltb_lt. split; intros; [split_and!|repeat split]; dlia.
Qed.

Lemma shape_ok_exact_witness : shape_ok 1600 1000 2048 100 200 = true /\ 1600 < 16 * (100 + 1).
Proof. split; [reflexivity|]. apply (shape_ok_exact 1600 1000 2048 100 200); [unfold fits; lia..|reflexivity]. Defined.
